(* ===== verification/_CoqProject ===== *)
-Q . S2P
Prelude.v
CString.v
InetAddr.v
Cksum.v
Ping.v
RwLock.v
MsgQueue.v
Sys.v
MqOpen.v
PxSem.v
SemOpen.v
ProdCons.v
SemCopy.v
MutexCond.v
RobustIO.v
Rtt.v
FileServer.v
SeqFile.v
GetAddrInfo.v
SelectServer.v
ClientLoops.v
WebClient.v
Traced.v
WebSelect.v
PreThread.v
PreFork.v
AddrLoop.v
EchoAuthor.v
SockAddr.v
Icmp.v
Traceroute.v
Icmpd.v
SigIO.v
UdpCksum.v
IfiInfo.v
IpExchange.v
MqNotify.v
Counters.v
SemPair.v
SemMany.v
SharedRing.v
SvMpx.v
MutexBook.v
SigChld.v
SourceRoute.v
