(* ===== verification/Prelude.v ===== *)
(** * Verified networking and IPC routines of the ReadingNotes repository

    The repository collects the author's exercises on Unix network programming and
    interprocess communication (src/IPC, src/UNPLearning/notes) and the source code
    of the two books they follow (src/IPC/unpv22e, src/UNPLearning/unpv13e).  This
    library models the routines that carry logic of their own, as they are written,
    and proves what makes them correct, or how they fail.

    ** Parts of the program and the files that model them

    - [Prelude.v]: C integers as [Z] with the wrap-around written out, error numbers,
      the outcome of a call, checked arrays, memory as bytes of either byte order,
      counting and summing over threads, reachability, tactics and the hint databases.
    - [CString.v], [InetAddr.v]: the address conversions of unpv13e/libfree
      (inet_pton.c, inet_ntop.c, inet_aton.c, inet_pton_ipv4.c, inet_ntop_ipv4.c ...)
      on null-terminated strings: specification, round trips, array bounds.
    - [Cksum.v]: the Internet checksum of libfree/in_cksum.c and of notes/ping/myping.c
      against RFC 1071, for both byte orders.
    - [Ping.v]: [Myping], the author's ping (notes/ping/myping.c), and [UnpPing],
      unpv13e/ping: frames as bytes, the exchange of a request and its reply.
    - [RwLock.v]: unpv22e/my_rwlock and my_rwlock_cancel.  Each function is cut at
      pthread_cond_wait; threads are a list of statuses; the class [RwImpl] with the
      laws [RwLaws] carries the proofs that hold for both.
    - [MsgQueue.v], [MqOpen.v]: unpv22e/my_pxmsg_mmap.  The mapped file is a header and
      a map from offsets to message headers; the operations refine a priority queue;
      threads wait on the shared condition variable.
    - [Sys.v]: functions that make a series of system calls, in a monad over the list
      of the kernel's answers, with an account of descriptors, mappings and heap blocks.
    - [PxSem.v], [SemOpen.v]: unpv22e/my_pxsem_mmap, my_pxsem_fifo, my_pxsem_svsem:
      the three codes against an abstract counter; the class [Semaphore], of which the
      last two are instances; my_pxsem_mmap, whose post wraps around and loses wake-ups,
      with its threads; opening and unlinking over [Sys.v].
    - [ProdCons.v], [SemCopy.v]: src/IPC/Semaphore, SemMultiprodMulticons.c and
      SemMultiBuff.c (its counters as 32-bit ints), proved against the class [Semaphore].
    - [MutexCond.v]: src/IPC/MutexAndCondAndRwlock.
    - [RobustIO.v]: unpv13e/lib readn.c, writen.c, readline.c, str_echo.c over scripts
      of read() and write() results.
    - [Rtt.v]: unpv13e/lib/rtt.c and rtt/dg_send_recv.c, and the author's version in
      notes/UDP/advancedUDPprogram/echoCli.c, with floating point as in SpecFloat.
    - [FileServer.v]: unpv22e/pipemesg, src/IPC/PipeFIFO and src/IPC/MsgQueue.
    - [SeqFile.v]: src/IPC/RecordLock and the RecordLocking programs of
      src/IPC/Semaphore, against the class [FileLock].
    - [GetAddrInfo.v]: unpv13e/libfree/getaddrinfo.c: checks of the hints, choice of the
      hosts to search, numeric addresses, services, aliases; the resolver is a parameter.
    - [Traced.v]: outcomes with a trace of the calls made, and rules for what holds of
      every trace; the loops that serve descriptors are written in it.
    - [SelectServer.v]: the echo servers on select() and poll(), the author's
      (notes/echoServer, versions with select and poll, TCP and Unix domain) and the
      book's (tcpservselect01.c, tcpservpoll01.c), one round of the loop at a time, with the sizes
      of the buffers and the results of write().
    - [ClientLoops.v]: the clients that watch the terminal and the socket: str_cli with
      select() of the author and of the book, and nonblock/strclinonb.c with its buffers.
    - [WebClient.v]: threads/web03.c, main and its threads as steps in any order.
    - [WebSelect.v]: nonblock/web.c, start_connect.c, write_get_cmd.c over [Traced.v].
    - [PreThread.v], [PreFork.v]: server/serv08.c with pthread08.c, and server/serv05.c
      with child05.c: a pool of threads or processes, steps in any order.
    - [AddrLoop.v]: the loops over getaddrinfo()'s list: tcp_connect, tcp_listen,
      udp_client, udp_connect, udp_server of unpv13e/lib and the author's in
      notes/echoServer, over [Sys.v].
    - [EchoAuthor.v]: the author's echo clients and servers, versions 1, 3, 4 and 6, and
      the handlers of SIGCHLD.
    - [SockAddr.v]: the socket address helpers of unpv13e/lib (sock_ntop.c,
      sock_cmp_addr.c, sock_set_port.c, sock_bind_wild.c ...): an address is a block of
      bytes, its ports in network order.
    - [Icmp.v], [Traceroute.v], [Icmpd.v]: ICMP messages as bytes in a receive buffer;
      unpv13e/traceroute; the daemon unpv13e/icmpd with its client dgcli01.c and the
      passing of descriptors (lib/read_fd.c, write_fd.c).
    - [IpExchange.v]: the author's notes/socket: a server tells its client the address it
      sees, over the scripts of [RobustIO.v].
    - [IfiInfo.v]: unpv13e/lib/get_ifi_info.c and the author's notes/interface: the buffer
      for SIOCGIFCONF, the walk through entries of different sizes.
    - [UdpCksum.v]: unpv13e/udpcksum, a UDP datagram made by hand around the checksum of
      [Cksum.v], and the check of captured frames.
    - [SigIO.v]: unpv13e/sigio/dgecho01.c, the ring between dg_echo() and the handler of
      SIGIO, with the signal mask as state, steps in any order.
    - [MqNotify.v]: unpv22e/pxmsg, mqnotifysig1.c to mqnotifysig5.c and mqnotifythread1.c:
      the registration for one notification and the loops that read the queue; the test
      of the flag and sigsuspend() are two steps, which the mask keeps together.
    - [Counters.v]: unpv22e/shm, incr1.c, incr2.c, incr2private.c, incr3.c, incr_map_anon.c,
      incr_dev_zero.c, pxshm/client1.c and server1.c, and the author's AddOne programs.
    - [SemPair.v], [SemMany.v], [SharedRing.v]: the semaphore programs around the ring of
      [ProdCons.v]: SemProdCons1.c, pxsem/prodcons1.c to prodcons4.c and deadlock.c, and the
      messages that pxshm/client2.c leaves for server2.c; against the class [Semaphore].
    - [SvMpx.v]: unpv22e/svmsgmpx1q, clients and a server over one System V queue with its
      limit in bytes.
    - [MutexBook.v]: unpv22e/mutex, prodcons1.c to prodcons7.c: producers and a consumer
      without a lock, with polling, and with a condition variable.
    - [SigChld.v]: unpv13e/tcpcliserv, tcpserv01.c to tcpserv04.c with the handlers in
      sigchldwait.c and sigchldwaitpid.c.
    - [SourceRoute.v]: unpv13e/ipopts/sourceroute.c and the command line of tcpcli01.c.

    ** How state and operations correspond to the code

    A function is a Gallina function of the same name where Rocq allows it.  Structures
    are records with the fields of the C structures.  A call of a library or of the
    kernel whose result matters is an argument: the result of pthread_mutex_lock(), the
    answers to a series of system calls, the blocks read() returns.  Threads advance one
    step at a time, a step being one call on a semaphore, mutex or condition variable
    or the accesses between two of them; a run is any interleaving.  [exit()], an access
    outside an array and a call that has not been answered are the outcomes [Exit],
    [Abort] and [Blocked], so that a theorem about every outcome excludes them or says
    when they occur.

    ** What the groups of theorems show

    Functional behaviour and equivalence with a reference (addresses, checksum, readn
    and readline, ping), round trips (addresses, messages, checksum), refinement of an
    abstract specification (the message queue, the semaphores), invariants and mutual
    exclusion (read-write locks, producers and consumers, the sequence file), absence of
    deadlock and bounds on the number of steps (producers and consumers, the copy
    program, the condition variable, the opening of a queue), resources on every error
    path (opening queues and semaphores), bounds of arrays and numbers (conversions,
    retransmission timeouts), what each connection of a select() or poll() server is
    sent and that the tables agree with the open descriptors, that the pools of threads
    and processes hand every connection to exactly one worker, that the loops over
    addresses leave one descriptor at most, that ICMP errors reach the clients registered for
    their port, that the SIGIO server loses no datagram, that the
    list of interfaces is complete, that no increment of a shared counter is lost, that
    the book's producers and consumers pass on every item and end, that a child that ends
    is collected, that an IP source route stays in its buffer and is printed back.  Where
    the code does not do what it means to, the theorem
    states what it does: lost wake-ups of the queue and of the mapped semaphore, the
    destroyed System V semaphore, the leaked mapping, readline's count, Mesg_send's test,
    the readers left asleep by a cancelled writer, the missing backoff, the main thread
    of web03.c that waits for a signal already given, children that stay zombies when
    their signals merge, sockets left open in the loops over addresses, the result that
    traceroute over IPv6 never sets, the registration a new client of icmpd inherits, the
    SIGIO server that quits when its ring is full but the socket empty, notifications
    lost because the queue is not emptied, a counter in private memory, a semaphore taken
    after the mutex, a message copied outside its mutex, a queue filled by requests so
    that no answer fits, the server that an aborted connection ends.

    ** Fuel

    Recursion that is not structural has fuel: the number of answers, blocks or slots
    plus one ([mymq_open], [mysem_open], [readn], [writen], [str_echo]), the number of
    messages in a queue ([find_place]), the digits of a number ([fmt_aux], 10 or 20), a
    bound on the number of enlargements of the SIOCGIFCONF buffer ([conf_fuel]).
    The theorems are about the functions with this fuel and show that it is enough:
    [mq_open_live] and the results for [Blocked] in the others say that a function stops
    only at a call without an answer.

    ** Not modelled

    libgai's getaddrinfo(), which differs from the modelled one in its search list, and
    getnameinfo(): sequences of calls of the resolver and of the service database; the BSD
    ping and the author's simple UDP echo programs, whose exchange other models cover; the
    command-line programs around one system call; svmsgmpxnq and svmsgcliserv; the routing
    socket, SCTP, RPC, doors, streams and key management programs, which depend on
    structures and code outside the repository; headers, wrappers that only end the
    process on an error, benchmarks and configuration.  Printing is modelled only
    where the text is the result.  The scheduler is arbitrary: no fairness is assumed. *)

From stdpp Require Export base tactics list numbers option gmap sets.
From Stdlib Require Export ZArith Lia.

#[global] Open Scope Z_scope.

Declare Scope cint_scope.
Delimit Scope cint_scope with cint.

(** ** Machine integers

    A C integer is a [Z]; the conversions below write out the wrap-around of
    the fixed-width types (LP64: [int] 32 bits, [long] and pointers 64). *)

Definition wrap (w z : Z) : Z := z mod 2 ^ w.
Definition swrap (w z : Z) : Z :=
  let u := wrap w z in if u <? 2 ^ (w - 1) then u else u - 2 ^ w.

#[global] Arguments wrap : simpl never.
#[global] Arguments swrap : simpl never.

Abbreviation u8 := (wrap 8).
Abbreviation u16 := (wrap 16).
Abbreviation u32 := (wrap 32).
Abbreviation u64 := (wrap 64).
Abbreviation s16 := (swrap 16).
Abbreviation s32 := (swrap 32).
Abbreviation s64 := (swrap 64).

Definition is_byte (b : Z) : Prop := 0 <= b < 256.

#[global] Instance is_byte_dec b : Decision (is_byte b).
Proof. unfold is_byte. apply _. Defined.

Lemma wrap_range w z : 0 <= w -> 0 <= wrap w z < 2 ^ w.
Proof. intros. apply Z.mod_pos_bound. lia. Qed.

Lemma wrap_small w z : 0 <= z < 2 ^ w -> wrap w z = z.
Proof. apply Z.mod_small. Qed.

Lemma wrap_wrap w z : wrap w (wrap w z) = wrap w z.
Proof. unfold wrap. apply Zmod_mod. Qed.

Lemma wrap_add_l w x y : wrap w (wrap w x + y) = wrap w (x + y).
Proof. apply Zplus_mod_idemp_l. Qed.

Lemma swrap_small w z : 0 < w -> - 2 ^ (w - 1) <= z < 2 ^ (w - 1) -> swrap w z = z.
Proof.
  intros Hw Hz. unfold swrap, wrap.
  assert (E : 2 ^ w = 2 * 2 ^ (w - 1)) by (rewrite <- Z.pow_succ_r by lia; f_equal; lia).
  destruct (decide (0 <= z)) as [Hp|Hn].
  - rewrite Z.mod_small by lia. case_match; lia.
  - replace (z mod 2 ^ w) with (z + 2 ^ w).
    + case_match; lia.
    + apply (Z.mod_unique _ _ (-1)); lia.
Qed.

Lemma swrap_range w z : 0 < w -> - 2 ^ (w - 1) <= swrap w z < 2 ^ (w - 1).
Proof.
  intros Hw. unfold swrap. pose proof (wrap_range w z ltac:(lia)).
  assert (E : 2 ^ w = 2 * 2 ^ (w - 1)) by (rewrite <- Z.pow_succ_r by lia; f_equal; lia).
  cbn zeta. case_match; lia.
Qed.

Lemma swrap_add w a b : 0 < w -> swrap w (swrap w a + b) = swrap w (a + b).
Proof.
  intros Hw. assert (E : wrap w (swrap w a + b) = wrap w (a + b)).
  { unfold swrap. cbv zeta. case_match; [apply wrap_add_l|]. unfold wrap.
    replace (a mod 2 ^ w - 2 ^ w + b) with (a mod 2 ^ w + b + -1 * 2 ^ w) by ring.
    rewrite Z.mod_add by (apply Z.pow_nonzero; lia). apply Zplus_mod_idemp_l. }
  unfold swrap in *. by rewrite E.
Qed.

(** Combining a shifted value with a value that fits below the shift. *)
Lemma lor_shiftl_add v d n : 0 <= n -> 0 <= d < 2 ^ n -> Z.lor (Z.shiftl v n) d = v * 2 ^ n + d.
Proof.
  intros Hn Hd.
  assert (Hl : Z.land (Z.shiftl v n) d = 0).
  { apply Z.bits_inj'. intros i Hi. rewrite Z.land_spec, Z.bits_0, Z.shiftl_spec by done.
    destruct (Z.lt_ge_cases i n); [by rewrite Z.testbit_neg_r by lia|].
    destruct (decide (d = 0)) as [->|]; [by rewrite Z.bits_0, andb_false_r|].
    rewrite (Z.bits_above_log2 d i), andb_false_r; [done|lia|].
    apply Z.log2_lt_pow2; [lia|]. assert (2 ^ n <= 2 ^ i) by (apply Z.pow_le_mono_r; lia). lia. }
  rewrite <- Z.lxor_lor, <- Z.add_nocarry_lxor by done. by rewrite Z.shiftl_mul_pow2 by lia.
Qed.

Lemma land_ff z : Z.land z 0xff = z mod 256.
Proof. change 0xff with (Z.ones 8). by rewrite Z.land_ones by lia. Qed.

Lemma land_ffff z : Z.land z 0xffff = z mod 65536.
Proof. change 0xffff with (Z.ones 16). by rewrite Z.land_ones by lia. Qed.

(** ** Error numbers and outcomes of a C function *)

Inductive errno :=
| ENOENT | ESRCH | EINTR | EBADF | EAGAIN | ENOMEM | EBUSY | EEXIST
| EINVAL | EMSGSIZE | ENOSPC | EAFNOSUPPORT | ETIMEDOUT | ECONN
| Eother (n : Z).

#[global] Instance errno_eq_dec : EqDecision errno.
Proof. solve_decision. Defined.

(** What a call of a modelled function amounts to: it returned a value, it
    returned -1 (or NULL) with [errno] set, it ended the process with
    [exit(code)] or [abort()], or the answers of the kernel given to the model
    ran out while the function was waiting for one. *)
Inductive outcome (A : Type) :=
| Ret (a : A)
| Fail (e : errno)
| Exit (code : Z)
| Abort
| Blocked.
Arguments Ret {A} a.
Arguments Fail {A} e.
Arguments Exit {A} code.
Arguments Abort {A}.
Arguments Blocked {A}.

(** ** Arrays with checked accesses

    [None] is an access outside the array: undefined behaviour in C. *)

Definition aload (buf : list Z) (i : nat) : option Z := buf !! i.
Definition astore (buf : list Z) (i : nat) (v : Z) : option (list Z) :=
  if decide (i < length buf)%nat then Some (<[i := v]> buf) else None.

Lemma astore_ok buf i v : (i < length buf)%nat -> astore buf i v = Some (<[i := v]> buf).
Proof. intros. unfold astore. by rewrite decide_True. Qed.

(** A store just past a prefix [B] of the array. *)
Lemma insert_app_mid {A} (B C : list A) x v :
  <[length B := v]> (B ++ x :: C) = B ++ v :: C.
Proof. rewrite insert_app_r_alt by lia. by rewrite Nat.sub_diag. Qed.

Lemma astore_mid B x C v : astore (B ++ x :: C) (length B) v = Some (B ++ v :: C).
Proof.
  rewrite astore_ok by (rewrite length_app; simpl; lia). by rewrite insert_app_mid.
Qed.

(** ** Memory as bytes

    [read_at] and [write_at] are the accesses of [memcpy]: a block of bytes at an
    offset, [None] when it does not lie inside the array.  [store_bytes be n v]
    is the object representation of the [n]-byte integer [v] on a big-endian
    ([be = true]) or little-endian host, and [load_bytes] reads it back. *)

Definition read_at (buf : list Z) (off n : nat) : option (list Z) :=
  if decide (off + n <= length buf)%nat then Some (take n (drop off buf)) else None.
Definition write_at (buf : list Z) (off : nat) (bs : list Z) : option (list Z) :=
  if decide (off + length bs <= length buf)%nat
  then Some (take off buf ++ bs ++ drop (off + length bs) buf) else None.

Fixpoint le_bytes (n : nat) (v : Z) : list Z :=
  match n with O => [] | S n' => v mod 256 :: le_bytes n' (v / 256) end.
Fixpoint le_val (bs : list Z) : Z :=
  match bs with [] => 0 | b :: bs' => b + 256 * le_val bs' end.

Definition store_bytes (be : bool) (n : nat) (v : Z) : list Z :=
  if be then reverse (le_bytes n v) else le_bytes n v.
Definition load_bytes (be : bool) (bs : list Z) : Z :=
  le_val (if be then reverse bs else bs).

Lemma length_le_bytes n v : length (le_bytes n v) = n.
Proof. revert v. induction n; intros; simpl; auto. Qed.

Lemma length_store_bytes be n v : length (store_bytes be n v) = n.
Proof. destruct be; simpl; rewrite ?length_reverse; apply length_le_bytes. Qed.

Lemma le_bytes_byte n v : Forall is_byte (le_bytes n v).
Proof.
  revert v. induction n; intros; simpl; constructor; [|done].
  unfold is_byte. pose proof (Z.mod_pos_bound v 256 ltac:(lia)). lia.
Qed.

Lemma store_bytes_byte be n v : Forall is_byte (store_bytes be n v).
Proof. destruct be; simpl; rewrite ?Forall_reverse; apply le_bytes_byte. Qed.

Lemma le_val_bytes n v : le_val (le_bytes n v) = v mod 256 ^ Z.of_nat n.
Proof.
  revert v. induction n as [|n IH]; intros v; simpl; [by rewrite Z.mod_1_r|].
  rewrite IH. replace (Z.of_nat (S n)) with (Z.succ (Z.of_nat n)) by lia.
  rewrite Z.pow_succ_r, Z.rem_mul_r by lia. done.
Qed.

Lemma load_store_bytes be n v : load_bytes be (store_bytes be n v) = wrap (8 * Z.of_nat n) v.
Proof.
  unfold load_bytes, store_bytes, wrap. rewrite Z.pow_mul_r by lia. change (2 ^ 8) with 256.
  destruct be; rewrite ?reverse_involutive; apply le_val_bytes.
Qed.

(** Reading or writing the block that sits between two others. *)
Lemma read_at_mid A B C off n :
  length A = off -> length B = n -> read_at (A ++ B ++ C) off n = Some B.
Proof.
  intros <- <-. unfold read_at. rewrite decide_True by (rewrite !length_app; lia).
  by rewrite drop_app_length, take_app_length.
Qed.

Lemma write_at_mid A B C off bs :
  length A = off -> length B = length bs -> write_at (A ++ B ++ C) off bs = Some (A ++ bs ++ C).
Proof.
  intros <- HB. unfold write_at. rewrite decide_True by (rewrite !length_app; lia).
  rewrite take_app_length, <- HB. do 3 f_equal.
  by rewrite drop_app_add, drop_app_length.
Qed.

Lemma read_at_eq buf A B C off n :
  buf = A ++ B ++ C -> length A = off -> length B = n -> read_at buf off n = Some B.
Proof. intros ->. apply read_at_mid. Qed.

Lemma write_at_eq buf A B C off bs :
  buf = A ++ B ++ C -> length A = off -> length B = length bs ->
  write_at buf off bs = Some (A ++ bs ++ C).
Proof. intros ->. apply write_at_mid. Qed.

(** Cutting a list of known length. *)
Lemma split_length {A} (l : list A) n m :
  length l = (n + m)%nat -> exists l1 l2, l = l1 ++ l2 /\ length l1 = n /\ length l2 = m.
Proof.
  intros H. exists (take n l), (drop n l). rewrite take_drop, length_take, length_drop. split; [done|lia].
Qed.

Lemma length_write_at buf off bs buf' :
  write_at buf off bs = Some buf' -> length buf' = length buf.
Proof.
  unfold write_at. intros E. case_decide; [|done]. injection E as <-.
  rewrite !length_app, length_take, length_drop. lia.
Qed.

(** The bytes outside the block that is written stay. *)
Lemma lookup_write_at buf off bs buf' i :
  write_at buf off bs = Some buf' ->
  buf' !! i = if decide (off <= i < off + length bs)%nat then bs !! (i - off)%nat else buf !! i.
Proof.
  unfold write_at. intros E. case_decide as Hl; [|done]. injection E as <-. case_decide as Hi.
  - rewrite lookup_app_r, length_take_le by (rewrite ?length_take; lia). apply lookup_app_l. lia.
  - destruct (decide (i < off)%nat).
    + rewrite lookup_app_l by (rewrite length_take; lia). apply lookup_take_lt. lia.
    + rewrite lookup_app_r, length_take_le by (rewrite ?length_take; lia).
      rewrite lookup_app_r, lookup_drop by lia. f_equal. lia.
Qed.

Lemma write_at_some buf off bs :
  (off + length bs <= length buf)%nat -> exists buf', write_at buf off bs = Some buf'.
Proof. intros. unfold write_at. rewrite decide_True by done. eauto. Qed.

Lemma read_at_some buf off n :
  (off + n <= length buf)%nat -> exists bs, read_at buf off n = Some bs /\ length bs = n.
Proof.
  intros. unfold read_at. rewrite decide_True by done. eexists. split; [done|].
  rewrite length_take, length_drop. lia.
Qed.

Lemma read_write_same buf off bs buf' :
  write_at buf off bs = Some buf' -> read_at buf' off (length bs) = Some bs.
Proof.
  unfold write_at. intros E. case_decide; [|done]. injection E as <-.
  apply read_at_mid; [rewrite length_take; lia|done].
Qed.

Lemma read_write_other buf off bs buf' off' n :
  write_at buf off bs = Some buf' -> (off' + n <= off \/ off + length bs <= off')%nat ->
  read_at buf' off' n = read_at buf off' n.
Proof.
  intros E Ho. unfold read_at. rewrite (length_write_at _ _ _ _ E). case_decide; [|done]. f_equal.
  apply list_eq. intros i. destruct (decide (i < n)%nat).
  - rewrite !lookup_take_lt, !lookup_drop, (lookup_write_at _ _ _ _ _ E), decide_False by lia. done.
  - by rewrite !lookup_take_ge by lia.
Qed.

Lemma write_at_byte buf off bs buf' :
  write_at buf off bs = Some buf' -> Forall is_byte buf -> Forall is_byte bs -> Forall is_byte buf'.
Proof.
  unfold write_at. intros E H1 H2. case_decide; [|done]. injection E as <-.
  rewrite !Forall_app. auto using Forall_take, Forall_drop.
Qed.

Lemma read_at_byte buf off n bs : read_at buf off n = Some bs -> Forall is_byte buf -> Forall is_byte bs.
Proof. unfold read_at. intros E H. case_decide; [|done]. injection E as <-. auto using Forall_take, Forall_drop. Qed.

Lemma read_at_length buf off n bs : read_at buf off n = Some bs -> length bs = n.
Proof. unfold read_at. intros E. case_decide; [|done]. injection E as <-. rewrite length_take, length_drop. lia. Qed.

(** ** Counting threads in a given state

    The concurrent components keep one status per thread in a list and their
    invariants count the threads in each status. *)

Section Counting.
Context {A : Type}.
Implicit Types (p : A -> bool) (l : list A).

Definition cnt p l : Z := Z.of_nat (length (List.filter p l)).
Definition b2z (b : bool) : Z := if b then 1 else 0.

Lemma b2z_range b : 0 <= b2z b <= 1.
Proof. destruct b; simpl; lia. Qed.

Lemma cnt_nil p : cnt p [] = 0.
Proof. done. Qed.

Lemma cnt_cons p a l : cnt p (a :: l) = b2z (p a) + cnt p l.
Proof. unfold cnt, b2z; simpl. destruct (p a); simpl; lia. Qed.

Lemma cnt_nonneg p l : 0 <= cnt p l.
Proof. unfold cnt. lia. Qed.

Lemma cnt_app p l1 l2 : cnt p (l1 ++ l2) = cnt p l1 + cnt p l2.
Proof.
  induction l1 as [|a l IH]; simpl; [by rewrite cnt_nil|].
  rewrite !cnt_cons, IH. lia.
Qed.

Lemma cnt_insert p l i a b :
  l !! i = Some a -> cnt p (<[i := b]> l) = cnt p l - b2z (p a) + b2z (p b).
Proof.
  revert i. induction l as [|x l IH]; intros [|i] Hi; simplify_eq/=.
  - rewrite !cnt_cons. lia.
  - rewrite !cnt_cons, (IH i Hi). lia.
Qed.

Lemma cnt_lookup p l i a : l !! i = Some a -> p a = true -> 0 < cnt p l.
Proof.
  revert i. induction l as [|x l IH]; intros [|i] Hi Hp; simplify_eq/=; rewrite cnt_cons.
  - rewrite Hp. pose proof (cnt_nonneg p l). simpl. lia.
  - pose proof (IH i Hi Hp). unfold b2z. destruct (p x); lia.
Qed.

Lemma cnt_pos p l : 0 < cnt p l -> exists i a, l !! i = Some a /\ p a = true.
Proof.
  induction l as [|x l IH]; [rewrite cnt_nil; lia|]. rewrite cnt_cons.
  destruct (p x) eqn:E; simpl; intros H.
  - by exists 0%nat, x.
  - destruct IH as (i & a & Hi & Ha); [lia|]. by exists (S i), a.
Qed.

Lemma cnt_two p l i j a b :
  i <> j -> l !! i = Some a -> l !! j = Some b -> p a = true -> p b = true -> 2 <= cnt p l.
Proof.
  revert i j. induction l as [|x l IH]; intros [|i] [|j] Hij Hi Hj Ha Hb;
    simplify_eq/=; rewrite cnt_cons; try lia.
  - rewrite Ha. pose proof (cnt_lookup p l j b Hj Hb). simpl; lia.
  - rewrite Hb. pose proof (cnt_lookup p l i a Hi Ha). simpl; lia.
  - pose proof (IH i j ltac:(lia) Hi Hj Ha Hb). unfold b2z. destruct (p x); lia.
Qed.

Lemma cnt_zero p l i a : cnt p l = 0 -> l !! i = Some a -> p a = false.
Proof.
  intros H Hi. destruct (p a) eqn:E; [|done].
  pose proof (cnt_lookup p l i a Hi E). lia.
Qed.

Lemma cnt_map_ext p f l :
  (forall a, p (f a) = p a) -> cnt p (map f l) = cnt p l.
Proof.
  intros H. induction l as [|x l IH]; [done|]. simpl. rewrite !cnt_cons, H, IH. done.
Qed.
End Counting.

(** Sums of a per-thread quantity. *)
Definition sumz {A} (f : A -> Z) (l : list A) : Z := foldr (fun a z => f a + z) 0 l.

Lemma sumz_cons {A} (f : A -> Z) a l : sumz f (a :: l) = f a + sumz f l.
Proof. done. Qed.

Lemma sumz_insert {A} (f : A -> Z) l i a b :
  l !! i = Some a -> sumz f (<[i := b]> l) = sumz f l - f a + f b.
Proof.
  revert i. induction l as [|x l IH]; intros [|i] Hi; simplify_eq/=; [lia|].
  rewrite (IH i Hi). lia.
Qed.

Lemma sumz_lookup {A} (f : A -> Z) l i a :
  (forall x, 0 <= f x) -> l !! i = Some a -> f a <= sumz f l.
Proof.
  intros Hf. revert i. induction l as [|x l IH]; intros [|i] Hi; simplify_eq/=.
  - assert (0 <= sumz f l) by (clear IH; induction l; simpl; [lia|pose proof (Hf a0); lia]). lia.
  - pose proof (IH i Hi). pose proof (Hf x). lia.
Qed.

Lemma sumz_zero {A} (f : A -> Z) l : (forall i a, l !! i = Some a -> f a = 0) -> sumz f l = 0.
Proof.
  induction l as [|x l IH]; intros Hf; [done|]. rewrite sumz_cons, (Hf 0%nat x eq_refl).
  rewrite IH; [done|]. intros i a Hi. apply (Hf (S i) a Hi).
Qed.

Lemma sumz_app {A} (f : A -> Z) l1 l2 : sumz f (l1 ++ l2) = sumz f l1 + sumz f l2.
Proof. induction l1 as [|x l IH]; simpl; [done|]. rewrite IH. lia. Qed.

Lemma sumz_replicate {A} (f : A -> Z) n a : sumz f (replicate n a) = Z.of_nat n * f a.
Proof. induction n as [|n IH]; [done|]. cbn [replicate]. rewrite sumz_cons, IH. lia. Qed.

Lemma sumz_sub {A} (f g : A -> Z) l : sumz (fun a => f a - g a) l = sumz f l - sumz g l.
Proof. induction l as [|a l IH]; [done|]. rewrite !sumz_cons, IH. lia. Qed.

Lemma sumz_add {A} (f g : A -> Z) l : sumz (fun a => f a + g a) l = sumz f l + sumz g l.
Proof. induction l as [|a l IH]; [done|]. rewrite !sumz_cons, IH. lia. Qed.

Lemma sumz_nonneg {A} (f : A -> Z) l : (forall j b, l !! j = Some b -> 0 <= f b) -> 0 <= sumz f l.
Proof.
  induction l as [|b l IH]; intros Hf; [done|]. rewrite sumz_cons. pose proof (Hf 0%nat b eq_refl).
  specialize (IH (fun j => Hf (S j))). lia.
Qed.

Lemma sumz_at {A} (f : A -> Z) l i a : (forall j b, l !! j = Some b -> 0 <= f b) -> l !! i = Some a -> f a <= sumz f l.
Proof.
  revert i. induction l as [|b l IH]; intros i Hf Hi; [done|]. rewrite sumz_cons. pose proof (Hf 0%nat b eq_refl).
  destruct i as [|i]; simpl in Hi; [injection Hi as ->; pose proof (sumz_nonneg f l (fun j => Hf (S j)))|specialize (IH i (fun j => Hf (S j)) Hi)]; lia.
Qed.

Lemma sumz_opp {A} (f : A -> Z) l : sumz (fun a => - f a) l = - sumz f l.
Proof. induction l as [|a l IH]; [done|]. rewrite !sumz_cons, IH. lia. Qed.

#[global] Arguments sumz : simpl never.

Lemma filter_none {A} (P : A -> Prop) `{!forall x, Decision (P x)} (l : list A) :
  Forall (fun x => ~ P x) l -> filter P l = [].
Proof.
  induction 1 as [|x l Hx _ IH]; [done|]. by rewrite filter_cons, decide_False.
Qed.

(** ** Reachability *)

Section Reach.
Context {S : Type} (init : S -> Prop) (step : S -> S -> Prop).

Inductive reachable : S -> Prop :=
| reach_init s : init s -> reachable s
| reach_step s s' : reachable s -> step s s' -> reachable s'.

(** Invariants by induction on the run. *)
Lemma reachable_inv (I : S -> Prop) :
  (forall s, init s -> I s) ->
  (forall s s', I s -> step s s' -> I s') ->
  forall s, reachable s -> I s.
Proof. intros Hi Hs s Hr. induction Hr; eauto. Qed.

Lemma reachable_rtc s s' : reachable s -> rtc step s s' -> reachable s'.
Proof. intros Hr Hs. revert Hr. induction Hs; eauto using reach_step. Qed.
End Reach.

Create HintDb repo.
Create Rewrite HintDb repo.
#[export] Hint Resolve cnt_nonneg : repo.
#[export] Hint Rewrite @length_insert @length_app @length_replicate @cnt_cons @cnt_app : repo.

(** Case split on every boolean test of the goal and the hypotheses, turning
    integer comparisons into propositions. *)
Ltac bsplit :=
  repeat match goal with
  | |- context [if ?b then _ else _] => let E := fresh "E" in destruct b eqn:E
  | H : context [if ?b then _ else _] |- _ => let E := fresh "E" in destruct b eqn:E
  end.

Ltac bprop :=
  repeat match goal with
  | H : (_ && _)%bool = true |- _ => apply andb_prop in H; destruct H
  | H : (_ || _)%bool = false |- _ => apply orb_false_elim in H; destruct H
  | H : negb _ = true |- _ => apply negb_true_iff in H
  | H : negb _ = false |- _ => apply negb_false_iff in H
  | H : (_ =? _) = true |- _ => apply Z.eqb_eq in H
  | H : (_ =? _) = false |- _ => apply Z.eqb_neq in H
  | H : (_ <? _) = true |- _ => apply Z.ltb_lt in H
  | H : (_ <? _) = false |- _ => apply Z.ltb_ge in H
  | H : (_ <=? _) = true |- _ => apply Z.leb_le in H
  | H : (_ <=? _) = false |- _ => apply Z.leb_gt in H
  | H : (_ >? _) = true |- _ => rewrite Z.gtb_ltb in H; apply Z.ltb_lt in H
  | H : (_ >? _) = false |- _ => rewrite Z.gtb_ltb in H; apply Z.ltb_ge in H
  | H : bool_decide _ = true |- _ => apply bool_decide_eq_true_1 in H
  | H : bool_decide _ = false |- _ => apply bool_decide_eq_false_1 in H
  end.
