(* ===== verification/CString.v ===== *)
(** * C strings and integer formatting

    A C string is the list of its characters (as integers) without the
    terminating null byte.  This file holds the pieces of <string.h> and
    <stdio.h> that the sources under src/ call: [strchr] on a constant string,
    and the [%u], [%d] and [%x] conversions of [sprintf]/[snprintf]. *)

From S2P Require Import Prelude.
From Stdlib Require Ascii String.
Export String.StringSyntax.

Fixpoint cstr (s : String.string) : list Z :=
  match s with
  | String.EmptyString => []
  | String.String c s' => Z.of_N (Ascii.N_of_ascii c) :: cstr s'
  end.
Arguments cstr s%_string_scope.

Definition NEWLINE : Z := 10.
Definition DOT : Z := 46.
Definition COLON : Z := 58.

(** [strchr(s, c)], as the offset of the first match. *)
Fixpoint strchr (s : list Z) (c : Z) : option Z :=
  match s with
  | [] => None
  | x :: s' => if x =? c then Some 0 else Z.succ <$> strchr s' c
  end.

(** The digit characters that [sprintf] prints. *)
Definition digit_char (d : Z) : Z := if d <? 10 then 48 + d else 87 + d.

(** [sprintf] of an unsigned value in base [base]: the do-while loop that
    produces the digits from the least significant one.  [fuel] bounds the
    number of digits. *)
Fixpoint fmt_aux (fuel : nat) (base v : Z) (acc : list Z) : list Z :=
  match fuel with
  | O => acc
  | S f =>
      let acc' := digit_char (v mod base) :: acc in
      if v / base =? 0 then acc' else fmt_aux f base (v / base) acc'
  end.

Definition sprintf_u (v : Z) : list Z := fmt_aux 10 10 v [].
Definition sprintf_x (v : Z) : list Z := fmt_aux 8 16 v [].
Definition sprintf_d (v : Z) : list Z :=
  if v <? 0 then 45 :: sprintf_u (- v) else sprintf_u v.

(** The value of a list of digits, most significant first. *)
Definition horner (base : Z) (ds : list Z) (v : Z) : Z :=
  fold_left (fun a d => a * base + d) ds v.

Lemma horner_app base ds1 ds2 v :
  horner base (ds1 ++ ds2) v = horner base ds2 (horner base ds1 v).
Proof. apply fold_left_app. Qed.

Lemma horner_mono base ds v :
  2 <= base -> 0 <= v -> Forall (fun d => 0 <= d) ds -> v <= horner base ds v.
Proof.
  intros Hb Hv Hds. revert v Hv.
  induction Hds as [|d ds Hd _ IH]; intros v Hv; simpl; [lia|].
  transitivity (v * base + d); [nia|]. apply IH. nia.
Qed.

(** The digits printed by [fmt_aux], as digit values. *)
Fixpoint digits_of (fuel : nat) (base v : Z) : list Z :=
  match fuel with
  | O => []
  | S f => (if v / base =? 0 then [] else digits_of f base (v / base)) ++ [v mod base]
  end.

Lemma fmt_aux_digits fuel base v acc :
  fmt_aux fuel base v acc = map digit_char (digits_of fuel base v) ++ acc.
Proof.
  revert v acc. induction fuel as [|f IH]; intros v acc; [done|]. simpl.
  rewrite map_app, <- app_assoc. case_match; [done|]. by rewrite IH.
Qed.

Lemma digits_of_range fuel base v :
  0 < base -> Forall (fun d => 0 <= d < base) (digits_of fuel base v).
Proof.
  intros Hb. revert v. induction fuel as [|f IH]; intros v; simpl; [constructor|].
  apply Forall_app. split; [case_match; [constructor|apply IH]|].
  constructor; [by apply Z.mod_pos_bound|constructor].
Qed.

Lemma horner_digits fuel base v :
  1 < base -> 0 <= v < base ^ Z.of_nat fuel -> horner base (digits_of fuel base v) 0 = v.
Proof.
  intros Hb. revert v. induction fuel as [|f IH]; intros v Hv; [simpl in *; lia|].
  rewrite Nat2Z.inj_succ, Z.pow_succ_r in Hv by lia. simpl. rewrite horner_app.
  pose proof (Z_div_mod_eq_full v base) as E.
  case_match eqn:Hq; bprop.
  - rewrite Hq in E. cbn. lia.
  - rewrite IH; [cbn; lia|]. split; [apply Z.div_pos; lia|].
    apply Z.div_lt_upper_bound; lia.
Qed.

Lemma digits_of_length fuel base v : (length (digits_of fuel base v) <= fuel)%nat.
Proof.
  revert v. induction fuel as [|f IH]; intros v; simpl; [lia|].
  rewrite length_app. case_match; simpl; [lia|]. specialize (IH (v / base)). lia.
Qed.

(** A value below [base ^ k] prints at most [k] digits. *)
Lemma digits_of_short fuel base v k :
  1 < base -> (0 < k)%nat -> 0 <= v < base ^ Z.of_nat k ->
  (length (digits_of fuel base v) <= k)%nat.
Proof.
  intros Hb. revert v k. induction fuel as [|f IH]; intros v k Hk Hv; simpl; [lia|].
  rewrite length_app. simpl. case_match eqn:Hq; bprop; simpl; [lia|].
  destruct k as [|k]; [lia|]. rewrite Nat2Z.inj_succ, Z.pow_succ_r in Hv by lia.
  assert (Hd : v / base < base ^ Z.of_nat k) by (apply Z.div_lt_upper_bound; lia).
  pose proof (Z.div_pos v base ltac:(lia) ltac:(lia)).
  destruct k as [|k]; [simpl in Hd; lia|].
  specialize (IH (v / base) (S k) ltac:(lia) ltac:(lia)). lia.
Qed.

Lemma digits_of_nonnil fuel base v : (0 < fuel)%nat -> digits_of fuel base v <> [].
Proof. intros. destruct fuel; [lia|]. simpl. intros E. by apply app_nil in E as [_ ?]. Qed.

Lemma sprintf_u_digits v : sprintf_u v = map digit_char (digits_of 10 10 v).
Proof. unfold sprintf_u. by rewrite fmt_aux_digits, app_nil_r. Qed.

Lemma sprintf_x_digits v : sprintf_x v = map digit_char (digits_of 8 16 v).
Proof. unfold sprintf_x. by rewrite fmt_aux_digits, app_nil_r. Qed.

Example sprintf_u_ex : sprintf_u 255 = cstr "255".
Proof. reflexivity. Qed.
Example sprintf_x_ex : sprintf_x 0xfe80 = cstr "fe80".
Proof. reflexivity. Qed.

(** The offset found by [strchr] in the two digit tables of the parsers. *)
Definition digits : list Z := cstr "0123456789".
Definition xdigits_l : list Z := cstr "0123456789abcdef".
Definition xdigits_u : list Z := cstr "0123456789ABCDEF".

Lemma strchr_Some s c i :
  strchr s c = Some i -> 0 <= i < Z.of_nat (length s) /\ s !! Z.to_nat i = Some c.
Proof.
  revert i. induction s as [|x s IH]; intros i H; simplify_eq/=.
  case_match; bprop; simplify_eq; [split; [lia|done]|].
  apply fmap_Some in H as (j & Hj & ->). destruct (IH j Hj) as [Hr Hl].
  split; [lia|]. replace (Z.to_nat (Z.succ j)) with (S (Z.to_nat j)) by lia. done.
Qed.

Lemma small_Z_cases (P : Z -> Prop) (n : nat) :
  (forall i, (i < n)%nat -> P (Z.of_nat i)) -> forall d, 0 <= d < Z.of_nat n -> P d.
Proof. intros H d Hd. rewrite <- (Z2Nat.id d) by lia. apply H. lia. Qed.

Lemma strchr_digits c d : strchr digits c = Some d <-> 0 <= d < 10 /\ c = 48 + d.
Proof.
  split.
  - intros H. apply strchr_Some in H as [Hd Hc]. change (Z.of_nat _) with 10 in Hd.
    split; [done|]. revert d Hd Hc. refine (small_Z_cases _ 10 _).
    intros i Hi. rewrite Nat2Z.id. do 10 (destruct i as [|i]; [by intros [= <-]|]). lia.
  - intros [Hd ->]. revert d Hd. refine (small_Z_cases _ 10 _).
    intros i Hi. do 10 (destruct i as [|i]; [done|]). lia.
Qed.

Lemma strchr_digit_char d : 0 <= d < 10 -> strchr digits (digit_char d) = Some d.
Proof.
  intros Hd. apply strchr_digits. unfold digit_char. case_match; bprop; lia.
Qed.

Lemma strchr_xdigit_char d : 0 <= d < 16 -> strchr xdigits_l (digit_char d) = Some d.
Proof.
  revert d. refine (small_Z_cases _ 16 _). intros i Hi.
  do 16 (destruct i as [|i]; [done|]). lia.
Qed.

#[global] Arguments strchr : simpl never.
#[global] Arguments sprintf_u : simpl never.
#[global] Arguments sprintf_x : simpl never.
