(* ===== verification/InetAddr.v ===== *)
(** * Presentation/network address conversion

    Model of src/UNPLearning/unpv13e/libfree: [inet_pton.c], [inet_ntop.c],
    [inet_aton.c], [inet_pton_ipv4.c] and [inet_ntop_ipv4.c].  The local arrays
    are lists accessed through [aload]/[astore], so that [None] is an access
    outside the array.  The parsers return [Some None] for the C result 0
    ("not a valid address") and [Some (Some bs)] for the result 1 with the bytes
    [bs] copied to [dst]. *)

From S2P Require Import Prelude CString.

Definition INADDRSZ : nat := 4.
Definition IN6ADDRSZ : nat := 16.
Definition INT16SZ : nat := 2.

Inductive family := AF_UNSPEC | AF_INET | AF_INET6 | AF_UNIX | AF_other (n : Z).

#[global] Instance family_eq_dec : EqDecision family.
Proof. solve_decision. Defined.

Module Pton4.
Section WithUninit.
(** The contents of the bytes of a local array that were never written. *)
Context (uninit : Z).

Record state := St {
  saw_digit : bool;
  octets : Z;
  tmp : list Z;      (* u_char tmp[INADDRSZ] *)
  tp : nat           (* index in tmp *)
}.

(** One iteration of the scanning loop of [inet_pton4]. *)
Definition step (s : state) (ch : Z) : option (option state) :=
  match strchr digits ch with
  | Some d =>
      old ← aload (tmp s) (tp s);
      let new := u32 (old * 10 + d) in
      if 255 <? new then Some None
      else
        tmp' ← astore (tmp s) (tp s) (u8 new);
        if negb (saw_digit s) then
          let octets' := octets s + 1 in
          if 4 <? octets' then Some None
          else Some (Some (St true octets' tmp' (tp s)))
        else Some (Some (St (saw_digit s) (octets s) tmp' (tp s)))
  | None =>
      if (ch =? DOT) && saw_digit s then
        if octets s =? 4 then Some None
        else
          tmp' ← astore (tmp s) (S (tp s)) 0;
          Some (Some (St false (octets s) tmp' (S (tp s))))
      else Some None
  end.

Fixpoint loop (src : list Z) (s : state) : option (option state) :=
  match src with
  | [] => Some (Some s)
  | ch :: src' =>
      r ← step s ch;
      match r with
      | None => Some None
      | Some s' => loop src' s'
      end
  end.

Definition init : state := St false 0 (0 :: replicate 3 uninit) 0.

Definition inet_pton4 (src : list Z) : option (option (list Z)) :=
  r ← loop src init;
  match r with
  | None => Some None
  | Some s => if octets s <? 4 then Some None else Some (Some (tmp s))
  end.
End WithUninit.
End Pton4.

Abbreviation inet_pton4 := Pton4.inet_pton4.

Module Pton6.
Section WithUninit.
Context (uninit : Z).

Record state := St {
  tmp : list Z;            (* u_char tmp[IN6ADDRSZ] *)
  tp : nat;                (* index in tmp *)
  colonp : option nat;     (* NULL or an index in tmp *)
  curtok : list Z;         (* the characters from curtok on *)
  saw_xdigit : bool;
  val : Z
}.

Definition hexdigit (ch : Z) : option Z :=
  match strchr xdigits_l ch with
  | Some d => Some d
  | None => strchr xdigits_u ch
  end.

(** [*tp++ = (val >> 8) & 0xff; *tp++ = val & 0xff]. *)
Definition store16 (buf : list Z) (i : nat) (v : Z) : option (list Z) :=
  buf1 ← astore buf i (Z.land (u8 (Z.shiftr v 8)) 0xff);
  astore buf1 (S i) (Z.land (u8 v) 0xff).

(** [inet_pton4(curtok, tp)] on success: the four stores of its memcpy. *)
Fixpoint store_bytes (buf : list Z) (i : nat) (bs : list Z) : option (list Z) :=
  match bs with
  | [] => Some buf
  | b :: bs' => buf' ← astore buf i b; store_bytes buf' (S i) bs'
  end.

Fixpoint loop (src : list Z) (s : state) : option (option state) :=
  match src with
  | [] => Some (Some s)
  | ch :: src' =>
      match hexdigit ch with
      | Some d =>
          let val' := Z.lor (u32 (Z.shiftl (val s) 4)) d in
          if 0xffff <? val' then Some None
          else loop src' (St (tmp s) (tp s) (colonp s) (curtok s) true val')
      | None =>
          if ch =? COLON then
            if negb (saw_xdigit s) then
              match colonp s with
              | Some _ => Some None
              | None => loop src' (St (tmp s) (tp s) (Some (tp s)) src' (saw_xdigit s) (val s))
              end
            else if (IN6ADDRSZ <? tp s + INT16SZ)%nat then Some None
            else
              tmp' ← store16 (tmp s) (tp s) (val s);
              loop src' (St tmp' (tp s + 2) (colonp s) src' false 0)
          else if (ch =? DOT) && (tp s + INADDRSZ <=? IN6ADDRSZ)%nat then
            r ← inet_pton4 uninit (curtok s);
            match r with
            | None => Some None
            | Some bs =>
                tmp' ← store_bytes (tmp s) (tp s) bs;
                Some (Some (St tmp' (tp s + INADDRSZ) (colonp s) (curtok s) false (val s)))
            end
          else Some None
      end
  end.

(** The hand-written memmove: for [i] from 1 to [n],
    [endp[-i] = colonp[n-i]; colonp[n-i] = 0]. *)
Definition shift_step (c n : nat) (buf : list Z) (i : nat) : option (list Z) :=
  v ← aload buf (c + n - i);
  buf1 ← astore buf (IN6ADDRSZ - i) v;
  astore buf1 (c + n - i) 0.

Fixpoint shift_loop (c n : nat) (ks : list nat) (buf : list Z) : option (list Z) :=
  match ks with
  | [] => Some buf
  | i :: ks' => buf' ← shift_step c n buf i; shift_loop c n ks' buf'
  end.

(** What follows the scanning loop. *)
Definition finish (s : state) : option (option (list Z)) :=
  r ← (if saw_xdigit s then
         if (IN6ADDRSZ <? tp s + INT16SZ)%nat then Some None
         else tmp' ← store16 (tmp s) (tp s) (val s); Some (Some (tmp', (tp s + 2)%nat))
       else Some (Some (tmp s, tp s)));
  match r with
  | None => Some None
  | Some (buf, t) =>
      r2 ← (match colonp s with
            | Some c =>
                let n := (t - c)%nat in
                buf' ← shift_loop c n (seq 1 n) buf;
                Some (buf', IN6ADDRSZ)
            | None => Some (buf, t)
            end);
      let '(buf', t') := r2 in
      if (t' =? IN6ADDRSZ)%nat then Some (Some buf') else Some None
  end.

Definition run (src : list Z) (s : state) : option (option (list Z)) :=
  r ← loop src s;
  match r with
  | None => Some None
  | Some s' => finish s'
  end.

Definition start (src : list Z) : state :=
  St (replicate IN6ADDRSZ 0) 0 None src false 0.

Definition inet_pton6 (src : list Z) : option (option (list Z)) :=
  match src with
  | 58 :: src' =>
      match src' with
      | 58 :: _ => run src' (start src')
      | _ => Some None
      end
  | _ => run src (start src)
  end.
End WithUninit.
End Pton6.

Abbreviation inet_pton6 := Pton6.inet_pton6.

(** [inet_pton(af, src, dst)]: the return value, and the bytes copied to [dst]
    if any. *)
Definition inet_pton (uninit : Z) (af : family) (src : list Z)
  : option (outcome Z * option (list Z)) :=
  match af with
  | AF_INET | AF_INET6 =>
      r ← (if decide (af = AF_INET) then inet_pton4 uninit src else inet_pton6 uninit src);
      match r with
      | None => Some (Ret 0, None)
      | Some bs => Some (Ret 1, Some bs)
      end
  | _ => Some (Fail EAFNOSUPPORT, None)
  end.

Example pton4_ex : inet_pton4 7 (cstr "192.168.0.1") = Some (Some [192; 168; 0; 1]).
Proof. reflexivity. Qed.
Example pton4_bad : inet_pton4 7 (cstr "192.168.0") = Some None.
Proof. reflexivity. Qed.
Example pton6_ex : inet_pton6 7 (cstr "fe80::1:2") =
  Some (Some [0xfe;0x80;0;0;0;0;0;0;0;0;0;0;0;1;0;2]).
Proof. reflexivity. Qed.
Example pton6_v4 : inet_pton6 7 (cstr "::ffff:1.2.3.4") =
  Some (Some [0;0;0;0;0;0;0;0;0;0;0xff;0xff;1;2;3;4]).
Proof. reflexivity. Qed.
Example pton6_full : inet_pton6 7 (cstr "1:2:3:4::5:6:7:8") =
  Some (Some [0;1;0;2;0;3;0;4;0;0;0;0;0;0;0;0]).
Proof. reflexivity. Qed.
Example pton6_trailing : inet_pton6 7 (cstr "1:2:3:4:5:6:7:8:") =
  Some (Some [0;1;0;2;0;3;0;4;0;5;0;6;0;7;0;8]).
Proof. reflexivity. Qed.

(** ** Network to presentation *)

(** sizeof "255.255.255.255" and of the longest IPv6 form, both counting the
    null byte. *)
Definition TMP4SZ : Z := 16.
Definition TMP6SZ : Z := 46.

Definition strlen (s : list Z) : Z := Z.of_nat (length s).

(** The text [sprintf] stores in [tmp] of [inet_ntop4]. *)
Definition dotted (src : list Z) : list Z :=
  sprintf_u (src !!! 0%nat) ++ [DOT] ++ sprintf_u (src !!! 1%nat) ++ [DOT] ++
  sprintf_u (src !!! 2%nat) ++ [DOT] ++ sprintf_u (src !!! 3%nat).

(** [Ret t] : [strcpy(dst, t)] was done, which writes [strlen t + 1] bytes. *)
Definition inet_ntop4 (src : list Z) (size : Z) : outcome (list Z) :=
  let tmp := dotted src in
  if size <? strlen tmp then Fail ENOSPC else Ret tmp.

Module Ntop6.
Record run := Run { base : Z; len : Z }.

(** words[i / 2] |= (src[i] << ((1 - (i % 2)) << 3)) for the 16 bytes. *)
Definition words_of (src : list Z) : list Z :=
  fold_left (fun w i =>
      <[i / 2 := Z.lor (w !!! (i / 2)) (Z.shiftl (src !!! i)
           (Z.shiftl (1 - Z.of_nat (i mod 2)) 3))]> w)%nat
    (seq 0 IN6ADDRSZ) (replicate 8 0).

(** The search for the longest run of zero words. *)
Definition take_best (best cur : run) : run :=
  if (base best =? -1) || (len best <? len cur) then cur else best.

Fixpoint scan (ws : list Z) (i : Z) (best cur : run) : run * run :=
  match ws with
  | [] => (best, cur)
  | w :: ws' =>
      if w =? 0 then
        scan ws' (i + 1) best
          (if base cur =? -1 then Run i 1 else Run (base cur) (len cur + 1))
      else if negb (base cur =? -1) then
        scan ws' (i + 1) (take_best best cur) (Run (-1) (len cur))
      else scan ws' (i + 1) best cur
  end.

(** [garbage]: the uninitialised [len] fields. *)
Definition best_run (garbage : Z) (ws : list Z) : run :=
  let '(best, cur) := scan ws 0 (Run (-1) garbage) (Run (-1) garbage) in
  let best := if negb (base cur =? -1) then take_best best cur else best in
  if negb (base best =? -1) && (len best <? 2) then Run (-1) (len best) else best.

(** The formatting loop from index [i] on; [out] is the text in [tmp] so far.
    The [bool] says that the loop was left by [break].  [None]: inet_ntop4
    found no room in the rest of [tmp]. *)
Fixpoint format (src : list Z) (words ws : list Z) (i : Z) (best : run) (out : list Z)
  : option (list Z) :=
  match ws with
  | [] => Some out
  | w :: ws' =>
      if negb (base best =? -1) && (base best <=? i) && (i <? base best + len best) then
        format src words ws' (i + 1) best (if i =? base best then out ++ [COLON] else out)
      else
        let out := if negb (i =? 0) then out ++ [COLON] else out in
        if (i =? 6) && (base best =? 0) &&
           ((len best =? 6) || ((len best =? 5) && (words !!! 5%nat =? 0xffff))) then
          match inet_ntop4 (drop 12 src) (TMP6SZ - strlen out) with
          | Ret t => Some (out ++ t)
          | _ => None
          end
        else format src words ws' (i + 1) best (out ++ sprintf_x w)
  end.

(** The text built in [tmp]. *)
Definition text (garbage : Z) (src : list Z) : option (list Z) :=
  let words := words_of src in
  let best := best_run garbage words in
  out ← format src words words 0 best [];
  Some (if negb (base best =? -1) && (base best + len best =? 8) then out ++ [COLON] else out).

Definition inet_ntop6 (garbage : Z) (src : list Z) (size : Z) : outcome (list Z) :=
  match text garbage src with
  | None => Fail ENOSPC
  | Some tmp => if size <? strlen tmp + 1 then Fail ENOSPC else Ret tmp
  end.
End Ntop6.

Abbreviation inet_ntop6 := Ntop6.inet_ntop6.

Definition inet_ntop (garbage : Z) (af : family) (src : list Z) (size : Z) : outcome (list Z) :=
  match af with
  | AF_INET => inet_ntop4 src size
  | AF_INET6 => inet_ntop6 garbage src size
  | _ => Fail EAFNOSUPPORT
  end.

Example ntop6_ex1 : inet_ntop6 9 [0xfe;0x80;0;0;0;0;0;0;0;0;0;0;0;1;0;2] 46 = Ret (cstr "fe80::1:2").
Proof. reflexivity. Qed.
Example ntop6_ex2 : inet_ntop6 9 [0;0;0;0;0;0;0;0;0;0;0xff;0xff;1;2;3;4] 46 = Ret (cstr "::ffff:1.2.3.4").
Proof. reflexivity. Qed.
Example ntop6_ex3 : inet_ntop6 9 (replicate 16 0) 46 = Ret (cstr "::").
Proof. reflexivity. Qed.

(** ** The IPv4-only versions *)

Module Aton.
Record state := St { dots : Z; acc : Z; addr : Z }.

(** The accumulation at a '.' or at the null byte. *)
Definition octet (s : state) : option state :=
  if 255 <? acc s then None
  else Some (St (dots s) 0 (Z.lor (u64 (Z.shiftl (addr s) 8)) (acc s))).

(** The do-while loop of [inet_aton]; [u_long] is 64 bits wide. *)
Fixpoint loop (cp : list Z) (s : state) : option state :=
  match cp with
  | [] => octet s
  | cc :: cp' =>
      match strchr digits cc with
      | Some d => loop cp' (St (dots s) (u64 (acc s * 10 + d)) (addr s))
      | None =>
          if cc =? DOT then
            if 3 <? dots s + 1 then None
            else s' ← octet (St (dots s + 1) (acc s) (addr s)); loop cp' s'
          else None
      end
  end.

(** The address in host byte order ([htonl] then stores it most significant
    byte first), or [None] for the result 0. *)
Definition inet_aton (cp : list Z) : option Z :=
  s ← loop cp (St 0 0 0);
  Some (u32 (if dots s <? 3 then u64 (Z.shiftl (addr s) (8 * (3 - dots s))) else addr s)).
End Aton.

Abbreviation inet_aton := Aton.inet_aton.

(** The four bytes of [htonl(a)] in memory. *)
Definition be32_bytes (a : Z) : list Z :=
  [Z.land (Z.shiftr a 24) 0xff; Z.land (Z.shiftr a 16) 0xff; Z.land (Z.shiftr a 8) 0xff; Z.land a 0xff].

Definition inet_pton_ipv4 (af : family) (strptr : list Z) : outcome Z * option (list Z) :=
  if decide (af = AF_INET) then
    match inet_aton strptr with
    | Some a => (Ret 1, Some (be32_bytes a))
    | None => (Ret 0, None)
    end
  else (Fail EAFNOSUPPORT, None).

(** [temp] has INET_ADDRSTRLEN = 16 bytes; [snprintf] truncates to 15
    characters, which the longest dotted quad has. *)
Definition inet_ntop_ipv4 (af : family) (p : list Z) (len : Z) : outcome (list Z) :=
  if decide (af = AF_INET) then
    let temp := take 15 (dotted p) in
    if len <=? strlen temp then Fail ENOSPC else Ret temp
  else Fail EAFNOSUPPORT.

Example aton_ex : inet_aton (cstr "192.168.0.1") = Some 0xc0a80001.
Proof. reflexivity. Qed.
Example aton_short : inet_aton (cstr "127.1") = Some 0x7f010000.
Proof. reflexivity. Qed.
Example aton_empty : inet_aton [] = Some 0.
Proof. reflexivity. Qed.

(** ** The grammar of dotted quads *)

(** The fields of a string between its dots. *)
Fixpoint split_dots (src : list Z) : list (list Z) :=
  match src with
  | [] => [[]]
  | c :: src' =>
      if c =? DOT then [] :: split_dots src'
      else match split_dots src' with
           | [] => [[c]]
           | p :: ps => (c :: p) :: ps
           end
  end.

(** A field that continues the number [v] read so far ([None]: no digit yet)
    denotes a number up to 255. *)
Definition octet_from (v : option Z) (p : list Z) : option Z :=
  match v, p with
  | None, [] => None
  | _, _ =>
      ds ← mapM (strchr digits) p;
      let w := horner 10 ds (default 0 v) in
      if w <=? 255 then Some w else None
  end.

Definition octet_value : list Z -> option Z := octet_from None.

#[local] Arguments octet_from : simpl never.
#[local] Arguments octet_value : simpl never.

(** Four dot-separated decimal numbers, each of at least one digit and at most
    255 (leading zeros allowed). *)
Definition dotted_quad (src : list Z) : option (list Z) :=
  vs ← mapM octet_value (split_dots src);
  if (length vs =? 4)%nat then Some vs else None.

Lemma split_dots_nonnil src : exists p ps, split_dots src = p :: ps.
Proof. destruct src as [|c src]; simpl; [eauto|]. repeat case_match; eauto. Qed.

Lemma strchr_digits_nonneg p ds : mapM (strchr digits) p = Some ds -> Forall (fun d => 0 <= d) ds.
Proof.
  intros H. apply mapM_Some_1 in H. induction H; constructor; [|done].
  match goal with H : strchr _ _ = _ |- _ => apply strchr_digits in H end. lia.
Qed.

Lemma octet_from_cons v c p d :
  strchr digits c = Some d -> octet_from v (c :: p) = octet_from (Some (default 0 v * 10 + d)) p.
Proof.
  intros Hd. unfold octet_from. simpl. rewrite Hd. simpl.
  destruct v, (mapM (strchr digits) p); done.
Qed.

Lemma octet_from_bad v c p : strchr digits c = None -> octet_from v (c :: p) = None.
Proof. intros Hd. unfold octet_from. simpl. rewrite Hd. by destruct v. Qed.

Lemma octet_from_nil v : v <= 255 -> octet_from (Some v) [] = Some v.
Proof. intros. unfold octet_from. simpl. by rewrite (proj2 (Z.leb_le v 255)). Qed.

Lemma octet_from_big v p : 255 < v -> octet_from (Some v) p = None.
Proof.
  intros Hv. unfold octet_from. simpl. destruct (mapM _ p) as [ds|] eqn:E; simpl; [|done].
  apply strchr_digits_nonneg in E. pose proof (horner_mono 10 ds v ltac:(lia) ltac:(lia) E).
  case_match; bprop; [lia|done].
Qed.

(** The rest of the parse when the octets [done_] are complete and the current
    one has the value [v] so far. *)
Definition quad_from (done_ : list Z) (v : option Z) (src : list Z) : option (list Z) :=
  match split_dots src with
  | [] => None
  | p :: ps =>
      w ← octet_from v p;
      vs ← mapM octet_value ps;
      let all := done_ ++ w :: vs in
      if (length all =? 4)%nat then Some all else None
  end.

Lemma dotted_quad_from src : dotted_quad src = quad_from [] None src.
Proof.
  unfold dotted_quad, quad_from. destruct (split_dots_nonnil src) as (p & ps & ->).
  simpl. change (octet_value p) with (octet_from None p).
  destruct (octet_from None p); simpl; [|done].
  by destruct (mapM octet_value ps).
Qed.

Lemma quad_from_digit done_ v c d src :
  strchr digits c = Some d ->
  quad_from done_ v (c :: src) = quad_from done_ (Some (default 0 v * 10 + d)) src.
Proof.
  intros Hd. unfold quad_from. simpl.
  assert ((c =? DOT) = false) as -> by (apply strchr_digits in Hd; unfold DOT; lia).
  destruct (split_dots_nonnil src) as (p & ps & ->). by rewrite (octet_from_cons v c p d).
Qed.

Lemma quad_from_dot done_ v src :
  v <= 255 -> quad_from done_ (Some v) (DOT :: src) = quad_from (done_ ++ [v]) None src.
Proof.
  intros Hv. unfold quad_from. simpl. rewrite octet_from_nil by done. simpl.
  destruct (split_dots_nonnil src) as (p & ps & ->). simpl. change (octet_value p) with (octet_from None p).
  destruct (octet_from None p); simpl; [|done].
  destruct (mapM octet_value ps); simpl; [|done]. by rewrite <- app_assoc.
Qed.

Lemma quad_from_bad done_ v c src :
  strchr digits c = None -> (c =? DOT) && bool_decide (is_Some v) = false ->
  quad_from done_ v (c :: src) = None.
Proof.
  intros Hd Hc. unfold quad_from. simpl. destruct (c =? DOT) eqn:E; simpl in Hc.
  - destruct v; [by rewrite bool_decide_true in Hc by done|done].
  - destruct (split_dots_nonnil src) as (p & ps & ->). by rewrite octet_from_bad.
Qed.

Lemma quad_from_big done_ v src : 255 < v -> quad_from done_ (Some v) src = None.
Proof.
  intros Hv. unfold quad_from. destruct (split_dots src); [done|]. by rewrite octet_from_big.
Qed.

Lemma quad_from_long done_ v src : (4 <= length done_)%nat -> quad_from done_ v src = None.
Proof.
  intros Hl. unfold quad_from. destruct (split_dots src) as [|p ps]; [done|].
  destruct (octet_from v p); simpl; [|done]. destruct (mapM octet_value ps); simpl; [|done].
  case_match eqn:E; [|done]. apply Nat.eqb_eq in E. rewrite length_app in E. simpl in E. lia.
Qed.

(** ** [inet_pton4] parses exactly the dotted quads *)

Section Pton4Proof.
Context (uninit : Z).

(** The state of the loop after the complete octets [done_] and the value [v]
    of the current one. *)
Definition pton4_state (done_ : list Z) (v : option Z) (junk : list Z) : Pton4.state :=
  Pton4.St (bool_decide (is_Some v))
           (Z.of_nat (length done_) + if v is Some _ then 1 else 0)
           (done_ ++ default 0 v :: junk) (length done_).

Definition pton4_end (r : option (option Pton4.state)) : option (option (list Z)) :=
  r ← r;
  match r with
  | None => Some None
  | Some s => if Pton4.octets s <? 4 then Some None else Some (Some (Pton4.tmp s))
  end.

Lemma pton4_step_digit done_ v junk c d :
  strchr digits c = Some d -> (length done_ + 1 + length junk = 4)%nat ->
  0 <= default 0 v <= 255 ->
  Pton4.step (pton4_state done_ v junk) c =
    Some (if 255 <? default 0 v * 10 + d then None
          else Some (pton4_state done_ (Some (default 0 v * 10 + d)) junk)).
Proof.
  intros Hd Hl Hv. unfold Pton4.step, pton4_state. simpl. rewrite Hd.
  apply strchr_digits in Hd as [Hd _].
  unfold aload. rewrite lookup_app_r, Nat.sub_diag by lia. simpl.
  rewrite wrap_small by lia. case_match; bprop; [done|].
  rewrite astore_mid. simpl. rewrite wrap_small by lia.
  destruct v as [v|]; simpl; [done|].
  case_match; bprop; [lia|]. by rewrite Z.add_0_r.
Qed.

Lemma pton4_loop_spec src done_ v junk :
  (length done_ + 1 + length junk = 4)%nat -> 0 <= default 0 v <= 255 ->
  pton4_end (Pton4.loop src (pton4_state done_ v junk)) = Some (quad_from done_ v src).
Proof.
  revert done_ v junk. induction src as [|c src IH]; intros done_ v junk Hl Hv.
  - unfold pton4_end, quad_from. simpl. destruct v as [v|].
    + rewrite octet_from_nil by (simpl in Hv; lia). simpl.
      rewrite !length_app. simpl in *.
      destruct junk as [|j junk]; simpl in *;
        [rewrite (proj2 (Z.ltb_ge _ _)), (proj2 (Nat.eqb_eq _ _)) by lia; done|].
      rewrite (proj2 (Z.ltb_lt _ _)), (proj2 (Nat.eqb_neq _ _)) by lia. done.
    + by rewrite (proj2 (Z.ltb_lt _ _)) by lia.
  - destruct (strchr digits c) as [d|] eqn:Hd.
    + rewrite (quad_from_digit _ _ _ d) by done.
      simpl. rewrite (pton4_step_digit _ _ _ _ d) by done.
      apply strchr_digits in Hd as [Hd _].
      destruct (Z.ltb_spec 255 (default 0 v * 10 + d)); simpl;
        [by rewrite quad_from_big by lia|]. apply IH; simpl; lia.
    + simpl. unfold Pton4.step at 1. rewrite Hd. simpl.
      destruct ((c =? DOT) && bool_decide (is_Some v)) eqn:E; simpl;
        [|by rewrite quad_from_bad].
      apply andb_prop in E as [Ec Ev]. bprop. subst c. destruct v as [v|]; [|by destruct Ev].
      simpl in *. rewrite quad_from_dot by lia.
      destruct junk as [|j junk].
      * rewrite (proj2 (Z.eqb_eq _ _)) by (simpl in Hl; lia). simpl.
        rewrite quad_from_long; [done|]. rewrite length_app. simpl in *. lia.
      * rewrite (proj2 (Z.eqb_neq _ _)) by (simpl in Hl; lia).
        replace (done_ ++ v :: j :: junk) with ((done_ ++ [v]) ++ j :: junk) by by rewrite <- app_assoc.
        replace (S (length done_)) with (length (done_ ++ [v])) by (rewrite length_app; simpl; lia).
        rewrite astore_mid. simpl.
        replace (Pton4.St false _ _ _) with (pton4_state (done_ ++ [v]) None junk);
          [|unfold pton4_state; simpl; f_equal; rewrite ?length_app; simpl; lia].
        apply IH; simpl; rewrite ?length_app; simpl in *; lia.
Qed.
End Pton4Proof.

Lemma pton4_dotted_quad uninit src : inet_pton4 uninit src = Some (dotted_quad src).
Proof.
  rewrite dotted_quad_from. apply (pton4_loop_spec src [] None (replicate 3 uninit)); done.
Qed.

(** C36: [inet_pton4] accepts exactly the dotted quads of the grammar, returns
    their four octets, and never accesses its local array out of bounds, for
    every input string and whatever the uninitialised bytes of the array hold. *)
Theorem inet_pton4_spec uninit src : inet_pton4 uninit src = Some (dotted_quad src).
Proof. apply pton4_dotted_quad. Qed.

(** ** Printing and parsing IPv4 addresses *)

Lemma mapM_digit_char ds :
  Forall (fun d => 0 <= d < 10) ds -> mapM (strchr digits) (map digit_char ds) = Some ds.
Proof.
  induction 1 as [|d ds Hd _ IH]; [done|]. simpl. by rewrite strchr_digit_char, IH.
Qed.

Lemma octet_value_print b : 0 <= b <= 255 -> octet_value (sprintf_u b) = Some b.
Proof.
  intros Hb. unfold octet_value, octet_from. rewrite sprintf_u_digits.
  rewrite mapM_digit_char by (by apply digits_of_range).
  assert (Hh : horner 10 (digits_of 10 10 b) (default 0 None) = b) by (apply horner_digits; simpl; lia).
  assert (Hn : digits_of 10 10 b <> []) by (apply digits_of_nonnil; lia).
  destruct (digits_of 10 10 b) as [|d ds]; [done|].
  cbn -[horner]. cbn -[horner] in Hh. rewrite Hh, (proj2 (Z.leb_le b 255)) by lia. done.
Qed.

Lemma sprintf_u_no_dot b : DOT ∉ sprintf_u b.
Proof.
  rewrite sprintf_u_digits. intros H%list_elem_of_In%in_map_iff. destruct H as (d & Hd & Hi).
  pose proof (digits_of_range 10 10 b ltac:(lia)) as Hr.
  rewrite List.Forall_forall in Hr. specialize (Hr _ Hi).
  unfold DOT, digit_char in Hd. case_match; bprop; lia.
Qed.

Lemma split_dots_app p rest :
  DOT ∉ p -> split_dots (p ++ DOT :: rest) = p :: split_dots rest.
Proof.
  induction p as [|c p IH]; intros Hp; simpl; [done|].
  rewrite (proj2 (Z.eqb_neq c DOT)) by set_solver. by rewrite IH by set_solver.
Qed.

Lemma split_dots_last p : DOT ∉ p -> split_dots p = [p].
Proof.
  induction p as [|c p IH]; intros Hp; simpl; [done|].
  rewrite (proj2 (Z.eqb_neq c DOT)) by set_solver. by rewrite IH by set_solver.
Qed.

Lemma dotted_quad_dotted a b c d :
  Forall is_byte [a; b; c; d] -> dotted_quad (dotted [a; b; c; d]) = Some [a; b; c; d].
Proof.
  intros H. rewrite !Forall_cons in H. unfold is_byte in H. destruct H as (Ha & Hb & Hc & Hd & _).
  unfold dotted_quad, dotted. simpl.
  rewrite !split_dots_app, split_dots_last by apply sprintf_u_no_dot.
  simpl. by rewrite !octet_value_print by lia.
Qed.

Lemma sprintf_u_byte_length b : is_byte b -> 1 <= strlen (sprintf_u b) <= 3.
Proof.
  intros Hb. unfold strlen. rewrite sprintf_u_digits, length_map. unfold is_byte in Hb.
  pose proof (digits_of_short 10 10 b 3 ltac:(lia) ltac:(lia) ltac:(lia)).
  destruct (digits_of 10 10 b) eqn:E; [by apply digits_of_nonnil in E; [|lia]|]. simpl in *. lia.
Qed.

Lemma dotted_length src :
  length src = 4%nat -> Forall is_byte src -> 7 <= strlen (dotted src) <= 15.
Proof.
  intros Hl Hs. destruct src as [|a [|b [|c [|d [|]]]]]; try done.
  rewrite !Forall_cons in Hs. destruct Hs as (Ha & Hb & Hc & Hd & _).
  apply sprintf_u_byte_length in Ha, Hb, Hc, Hd. unfold dotted, strlen in *. simpl.
  rewrite !length_app. simpl. rewrite !length_app. simpl. rewrite !length_app. simpl. lia.
Qed.

(** Every IPv4 address printed by [inet_ntop4] into a buffer of at least
    INET_ADDRSTRLEN bytes is read back by [inet_pton4] as the same address. *)
Theorem inet_v4_roundtrip uninit src size :
  length src = 4%nat -> Forall is_byte src -> 16 <= size ->
  exists t, inet_ntop4 src size = Ret t /\ inet_pton4 uninit t = Some (Some src).
Proof.
  intros Hl Hs Hsz. exists (dotted src). unfold inet_ntop4.
  pose proof (dotted_length src Hl Hs).
  rewrite (proj2 (Z.ltb_ge size _)) by lia. split; [done|].
  rewrite pton4_dotted_quad. destruct src as [|a [|b [|c [|d [|]]]]]; try done.
  by rewrite dotted_quad_dotted.
Qed.

Lemma inet_v4_roundtrip_witness :
  exists t, inet_ntop4 [192; 0; 2; 255] 16 = Ret t /\ inet_pton4 7 t = Some (Some [192; 0; 2; 255]).
Proof.
  apply (inet_v4_roundtrip 7 [192; 0; 2; 255] 16); [done| |lia].
  unfold is_byte; repeat constructor; lia.
Defined.

(** ** Writes past the end of [dst] *)

(** The number of bytes that a successful conversion stores in [dst]. *)
Definition bytes_written (r : outcome (list Z)) : Z :=
  match r with
  | Ret t => strlen t + 1
  | _ => 0
  end.

(** The size check of [inet_ntop4] is off by one: with a buffer of exactly
    the length of the dotted quad the null byte lands one byte past its end, and
    only then; the IPv6 and the IPv4-only versions never write more than the
    [size] bytes they were given. *)
Theorem inet_ntop_dst_overflow garbage src size :
  0 <= size ->
  (size < bytes_written (inet_ntop4 src size) <-> size = strlen (dotted src)) /\
  bytes_written (inet_ntop6 garbage src size) <= size /\
  bytes_written (inet_ntop_ipv4 AF_INET src size) <= size.
Proof.
  intros Hsz. unfold inet_ntop4, inet_ntop6, inet_ntop_ipv4. rewrite decide_True by done.
  generalize (dotted src) (Ntop6.text garbage src). intros d t.
  split_and!; repeat case_match; simpl; bprop; lia.
Qed.

Lemma inet_ntop_dst_overflow_witness :
  bytes_written (inet_ntop4 [10; 0; 0; 1] 8) = 9 /\
  (8 < bytes_written (inet_ntop4 [10; 0; 0; 1] 8) <-> 8 = strlen (dotted [10; 0; 0; 1])).
Proof.
  split; [reflexivity|]. apply (inet_ntop_dst_overflow 0 [10; 0; 0; 1] 8). lia.
Defined.

(** ** The run of zero words chosen for "::" *)

Section BestRun.
Import Ntop6.

Definition zmask (w : Z) : Z := if w =? 0 then 0 else 1.

Lemma scan_mask ws i best cur : scan (map zmask ws) i best cur = scan ws i best cur.
Proof.
  revert i best cur. induction ws as [|w ws IH]; intros i best cur; [done|].
  simpl. rewrite !IH. unfold zmask. by destruct (w =? 0).
Qed.

(** The base of a run does not depend on the uninitialised lengths. *)
Definition same (r1 r2 : run) : Prop :=
  base r1 = base r2 /\ (base r1 <> -1 -> len r1 = len r2).

Lemma take_best_same b1 b2 c1 c2 :
  same b1 b2 -> same c1 c2 -> base c1 <> -1 -> same (take_best b1 c1) (take_best b2 c2).
Proof.
  intros [Hb Hbl] [Hc Hcl] Hn. unfold take_best. rewrite Hb in *.
  destruct (Z.eqb_spec (base b2) (-1)); simpl; [by split|].
  rewrite Hbl, Hcl by done. case_match; split; auto; congruence.
Qed.

Lemma scan_same ws i b1 b2 c1 c2 :
  0 <= i -> same b1 b2 -> same c1 c2 ->
  same (scan ws i b1 c1).1 (scan ws i b2 c2).1 /\ same (scan ws i b1 c1).2 (scan ws i b2 c2).2.
Proof.
  revert i b1 b2 c1 c2. induction ws as [|w ws IH]; intros i b1 b2 c1 c2 Hi Hb Hc; [done|].
  simpl. destruct Hc as [Hc Hcl]. rewrite <- Hc.
  destruct (w =? 0); [|destruct (Z.eqb_spec (base c1) (-1)) as [E|E]; simpl];
    apply IH; try lia; try done.
  - destruct (Z.eqb_spec (base c1) (-1)) as [E|E]; [done|]. rewrite Hcl by done. by split.
  - by apply take_best_same.
Qed.

Lemma best_run_same g1 g2 ws : same (best_run g1 ws) (best_run g2 ws).
Proof.
  unfold best_run.
  destruct (scan_same ws 0 (Run (-1) g1) (Run (-1) g2) (Run (-1) g1) (Run (-1) g2)) as [Hb Hc];
    [lia|done|done|].
  destruct (scan ws 0 (Run (-1) g1) (Run (-1) g1)) as [b1 c1], (scan ws 0 (Run (-1) g2) (Run (-1) g2)) as [b2 c2].
  simpl in Hb, Hc.
  assert (Ht : same (if negb (base c1 =? -1) then take_best b1 c1 else b1)
                    (if negb (base c2 =? -1) then take_best b2 c2 else b2)).
  { destruct Hc as [Hc Hcl]. rewrite <- Hc.
    destruct (Z.eqb_spec (base c1) (-1)); simpl; [done|]. by apply take_best_same. }
  revert Ht. generalize (if negb (base c1 =? -1) then take_best b1 c1 else b1).
  generalize (if negb (base c2 =? -1) then take_best b2 c2 else b2).
  intros r2 r1 [Hr Hrl]. rewrite <- Hr.
  destruct (Z.eqb_spec (base r1) (-1)); simpl; [by split|]. rewrite Hrl by done.
  by case_match.
Qed.

(** The chosen run: none, or at least two zero words inside the address. *)
Definition run_ok (ws : list Z) (r : run) : bool :=
  (base r =? -1) ||
  ((0 <=? base r) && (2 <=? len r) && (base r + len r <=? 8) &&
   forallb (fun w => w =? 0) (take (Z.to_nat (len r)) (drop (Z.to_nat (base r)) ws))).

Fixpoint masks (n : nat) : list (list Z) :=
  match n with
  | O => [[]]
  | S n' => map (cons 0) (masks n') ++ map (cons 1) (masks n')
  end.

Lemma masks_all ws : map zmask ws ∈ masks (length ws).
Proof.
  induction ws as [|w ws IH]; simpl; [set_solver|].
  apply elem_of_app. unfold zmask at 1 3. case_match; [left|right];
    apply list_elem_of_fmap; eauto.
Qed.

Lemma masks_ok : forallb (fun m => run_ok m (best_run 0 m)) (masks 8) = true.
Proof. vm_compute. reflexivity. Qed.

Lemma zmask_zero ws : forallb (fun w => w =? 0) (map zmask ws) = forallb (fun w => w =? 0) ws.
Proof.
  induction ws as [|w ws IH]; simpl; [done|]. rewrite IH. f_equal.
  unfold zmask. by destruct (w =? 0) eqn:E; rewrite ?E.
Qed.

Lemma best_run_ok garbage ws :
  length ws = 8%nat -> run_ok ws (best_run garbage ws) = true.
Proof.
  intros Hl. pose proof (masks_all ws) as Hm. rewrite Hl in Hm.
  pose proof masks_ok as Hok. rewrite List.forallb_forall in Hok.
  apply list_elem_of_In in Hm. specialize (Hok _ Hm).
  assert (Hs : same (best_run 0 (map zmask ws)) (best_run garbage ws)).
  { replace (best_run 0 (map zmask ws)) with (best_run 0 ws);
      [apply best_run_same|]. unfold best_run. by rewrite scan_mask. }
  destruct Hs as [Hb Hbl]. unfold run_ok in *. rewrite <- Hb.
  destruct (Z.eqb_spec (base (best_run 0 (map zmask ws))) (-1)); [done|].
  clear Hm. rewrite <- Hbl by done. simpl in *.
  by rewrite <- zmask_zero, <- firstn_map, <- skipn_map.
Qed.
End BestRun.

(** ** The scanning loop of [inet_pton6] on the pieces of a printed address *)

Section Pton6Proof.
Context (uninit : Z).
Import Pton6.

(** The state with the bytes [B] stored and the rest of [tmp] still zero. *)
Definition mk (B : list Z) (cp : option nat) (ct : list Z) (saw : bool) (v : Z) : state :=
  St (B ++ replicate (16 - length B) 0) (length B) cp ct saw v.

(** The two bytes stored for the word [w]. *)
Definition bytes_of (w : Z) : list Z :=
  [Z.land (u8 (Z.shiftr w 8)) 0xff; Z.land (u8 w) 0xff].

Definition bytes_of_words (ws : list Z) : list Z := ws ≫= bytes_of.

Lemma store16_mk B v :
  (length B + 2 <= 16)%nat ->
  store16 (B ++ replicate (16 - length B) 0) (length B) v =
    Some ((B ++ bytes_of v) ++ replicate (16 - length (B ++ bytes_of v)) 0).
Proof.
  intros Hl. rewrite length_app. simpl.
  replace (16 - length B)%nat with (S (S (14 - length B))) by lia.
  replace (16 - (length B + 2))%nat with (14 - length B)%nat by lia. simpl.
  unfold store16. rewrite astore_mid. simpl.
  set (x := Z.land (u8 (Z.shiftr v 8)) 0xff).
  replace (B ++ x :: 0 :: replicate (14 - length B) 0)
    with ((B ++ [x]) ++ 0 :: replicate (14 - length B) 0) by by rewrite <- app_assoc.
  replace (S (length B)) with (length (B ++ [x])) by (rewrite length_app; simpl; lia).
  rewrite astore_mid. by rewrite <- !app_assoc.
Qed.

Lemma store_bytes_mk B bs :
  (length B + length bs <= 16)%nat ->
  store_bytes (B ++ replicate (16 - length B) 0) (length B) bs =
    Some ((B ++ bs) ++ replicate (16 - length (B ++ bs)) 0).
Proof.
  revert B. induction bs as [|b bs IH]; intros B Hl; simpl in *; [by rewrite app_nil_r|].
  replace (16 - length B)%nat with (S (15 - length B)) by lia. simpl.
  rewrite astore_mid. simpl.
  replace (B ++ b :: replicate (15 - length B) 0)
    with ((B ++ [b]) ++ replicate (16 - length (B ++ [b])) 0)
    by (rewrite <- app_assoc, length_app; simpl; do 3 f_equal; lia).
  replace (S (length B)) with (length (B ++ [b])) by (rewrite length_app; simpl; lia).
  replace (B ++ b :: bs) with ((B ++ [b]) ++ bs) by (by rewrite <- app_assoc).
  apply IH. rewrite length_app. simpl. lia.
Qed.

Lemma hexdigit_char d : 0 <= d < 16 -> hexdigit (digit_char d) = Some d.
Proof. intros Hd. unfold hexdigit. by rewrite strchr_xdigit_char. Qed.

(** Scanning digits accumulates them in [val]. *)
Lemma loop_digits ds rest B cp ct saw v :
  Forall (fun d => 0 <= d < 16) ds -> 0 <= v -> horner 16 ds v <= 0xffff ->
  loop uninit (map digit_char ds ++ rest) (mk B cp ct saw v) =
    loop uninit rest (mk B cp ct (match ds with [] => saw | _ => true end) (horner 16 ds v)).
Proof.
  intros Hds. revert saw v. induction Hds as [|d ds Hd Hds IH]; intros saw v Hv Hh; [done|].
  assert (Hm : v * 16 + d <= horner 16 ds (v * 16 + d)).
  { apply horner_mono; [lia|lia|]. eapply Forall_impl; [done|]. simpl; lia. }
  simpl in Hh |- *. rewrite hexdigit_char by done.
  rewrite wrap_small by (rewrite Z.shiftl_mul_pow2 by lia; simpl; lia).
  rewrite lor_shiftl_add by (simpl; lia). change (2 ^ 4) with 16.
  rewrite (proj2 (Z.ltb_ge _ _)) by lia.
  fold (mk B cp ct true (v * 16 + d)). rewrite IH by lia. by destruct ds.
Qed.

Lemma loop_word w rest B cp ct :
  0 <= w <= 0xffff ->
  loop uninit (sprintf_x w ++ rest) (mk B cp ct false 0) = loop uninit rest (mk B cp ct true w).
Proof.
  intros Hw. rewrite sprintf_x_digits.
  assert (Hh : horner 16 (digits_of 8 16 w) 0 = w) by (apply horner_digits; simpl; lia).
  rewrite loop_digits; [|by apply digits_of_range|lia|lia].
  rewrite Hh. destruct (digits_of 8 16 w) eqn:E; [|done].
  by apply digits_of_nonnil in E; [|lia].
Qed.

Lemma loop_colon_word w rest B cp ct :
  (length B + 2 <= 16)%nat ->
  loop uninit (COLON :: rest) (mk B cp ct true w) =
    loop uninit rest (mk (B ++ bytes_of w) cp rest false 0).
Proof.
  intros Hl. change (loop uninit (COLON :: rest) (mk B cp ct true w)) with
    (if (IN6ADDRSZ <? length B + INT16SZ)%nat then Some None
     else tmp' ← store16 (B ++ replicate (16 - length B) 0) (length B) w;
          loop uninit rest (St tmp' (length B + 2) cp rest false 0)).
  unfold IN6ADDRSZ, INT16SZ. rewrite (proj2 (Nat.ltb_ge _ _)) by lia.
  rewrite store16_mk by done. simpl. unfold mk. do 3 f_equal. rewrite length_app. done.
Qed.

Lemma loop_colon_gap rest B ct v :
  loop uninit (COLON :: rest) (mk B None ct false v) =
    loop uninit rest (mk B (Some (length B)) rest false v).
Proof. reflexivity. Qed.

(** Words that are each preceded by a colon. *)
Definition colon_words (ws : list Z) : list Z := ws ≫= fun w => COLON :: sprintf_x w.

Lemma loop_colon_words ws rest w B cp ct :
  (length B + 2 * length ws <= 16)%nat -> Forall (fun w => 0 <= w <= 0xffff) ws ->
  exists ct',
    loop uninit (colon_words ws ++ rest) (mk B cp ct true w) =
      loop uninit rest (mk (B ++ bytes_of_words (removelast (w :: ws))) cp ct'
                           true (List.last (w :: ws) 0)).
Proof.
  intros Hl Hws. revert w B ct Hl. induction Hws as [|x ws Hx Hws IH]; intros w B ct Hl.
  - exists ct. simpl. by rewrite app_nil_r.
  - simpl in Hl.
    replace (colon_words (x :: ws) ++ rest)
      with (COLON :: sprintf_x x ++ colon_words ws ++ rest)
      by (unfold colon_words; simpl; by rewrite <- app_assoc).
    rewrite loop_colon_word by lia. rewrite loop_word by done.
    edestruct (IH x (B ++ bytes_of w)) as [ct' ->]; [rewrite length_app; simpl; lia|].
    exists ct'. f_equal. unfold mk.
    replace (bytes_of_words (removelast (w :: x :: ws)))
      with (bytes_of w ++ bytes_of_words (removelast (x :: ws))) by done.
    rewrite (app_assoc B). reflexivity.
Qed.

(** ** What follows the loop *)

(** Moving the last byte [x] of a block over the [k + 1] zeros after it. *)
Lemma shift_step_ok B x k R i c n :
  (c + n - i = length B)%nat -> (IN6ADDRSZ - i = length B + k + 1)%nat ->
  shift_step c n (B ++ x :: replicate (S k) 0 ++ R) i =
    Some (B ++ replicate (S k) 0 ++ x :: R).
Proof.
  intros Hi Hj. unfold shift_step. rewrite Hi, Hj.
  unfold aload. rewrite list_lookup_middle by done. simpl.
  replace (B ++ x :: 0 :: replicate k 0 ++ R) with ((B ++ x :: replicate k 0) ++ 0 :: R).
  2: { rewrite <- app_assoc. simpl. do 2 f_equal.
       change (0 :: replicate k 0 ++ R) with (replicate (S k) 0 ++ R).
       by rewrite replicate_S_end, <- app_assoc. }
  replace (length B + k + 1)%nat with (length (B ++ x :: replicate k 0))
    by (rewrite length_app; simpl; rewrite length_replicate; lia).
  rewrite astore_mid. simpl. rewrite <- app_assoc. simpl. by rewrite astore_mid.
Qed.

Lemma shift_loop_ok B1 B2 k R i n :
  (n + 1 = i + length B2)%nat -> (length B1 + n + S k = IN6ADDRSZ)%nat ->
  length R = (i - 1)%nat -> (1 <= i)%nat ->
  shift_loop (length B1) n (seq i (length B2)) (B1 ++ B2 ++ replicate (S k) 0 ++ R) =
    Some (B1 ++ replicate (S k) 0 ++ B2 ++ R).
Proof.
  revert R i. induction B2 as [|x B2 IH] using rev_ind; intros R i Hn Hk HR Hi; [done|].
  rewrite length_app in Hn |- *. cbn [length] in Hn |- *.
  replace (length B2 + 1)%nat with (S (length B2)) by lia. cbn [seq shift_loop].
  replace (B1 ++ (B2 ++ [x]) ++ replicate (S k) 0 ++ R)
    with ((B1 ++ B2) ++ x :: replicate (S k) 0 ++ R) by (by rewrite <- !app_assoc).
  rewrite shift_step_ok by (rewrite length_app; lia). cbn [mbind option_bind].
  rewrite <- (app_assoc B1). rewrite (IH (x :: R) (S i)) by (simpl; lia).
  by rewrite <- !app_assoc.
Qed.

(** The result for the stored bytes [B] and the gap position [cp]. *)
Definition fin (B : list Z) (cp : option nat) : option (list Z) :=
  match cp with
  | None => if (length B =? 16)%nat then Some B else None
  | Some c => Some (take c B ++ replicate (16 - length B) 0 ++ drop c B)
  end.

Lemma finish_false B cp ct v :
  (length B <= 16)%nat -> (forall c, cp = Some c -> (c <= length B < 16)%nat) ->
  finish (mk B cp ct false v) = Some (fin B cp).
Proof.
  intros Hl Hc. unfold finish, fin. simpl. destruct cp as [c|].
  - specialize (Hc c eq_refl).
    replace (16 - length B)%nat with (S (15 - length B)) by lia.
    pose proof (shift_loop_ok (take c B) (drop c B) (15 - length B) [] 1 (length B - c)) as Hs.
    rewrite length_take_le, length_drop, !app_nil_r in Hs by lia.
    rewrite app_assoc, take_drop in Hs. rewrite Hs; [done|..]; unfold IN6ADDRSZ; simpl; lia.
  - simpl. unfold IN6ADDRSZ. case_match eqn:E; [|done]. apply Nat.eqb_eq in E.
    rewrite E. simpl. by rewrite app_nil_r.
Qed.

Lemma finish_true B cp ct w :
  (length B + 2 <= 16)%nat -> (forall c, cp = Some c -> (c <= length B)%nat /\ (length B + 2 < 16)%nat) ->
  finish (mk B cp ct true w) = Some (fin (B ++ bytes_of w) cp).
Proof.
  intros Hl Hc.
  rewrite <- (finish_false (B ++ bytes_of w) cp ct w);
    [|rewrite length_app; simpl; lia|intros c Hcp; rewrite length_app; simpl; specialize (Hc c Hcp); lia].
  unfold finish. simpl. unfold IN6ADDRSZ, INT16SZ. rewrite (proj2 (Nat.ltb_ge _ _)) by lia.
  rewrite store16_mk by done. simpl. by rewrite length_app.
Qed.
End Pton6Proof.

(** ** The text that [inet_ntop6] builds *)

Section Ntop6Proof.
Import Ntop6.
Context (src words : list Z).

(** Words separated by colons. *)
Definition join (ws : list Z) : list Z :=
  match ws with
  | [] => []
  | w :: ws' => sprintf_x w ++ colon_words ws'
  end.

(** The IPv4-in-IPv6 form is used for this run. *)
Definition encapsulated (r : run) : bool :=
  (base r =? 0) && ((len r =? 6) || ((len r =? 5) && (words !!! 5%nat =? 0xffff))).

Definition inside (r : run) (i : Z) : bool :=
  negb (base r =? -1) && (base r <=? i) && (i <? base r + len r).

Lemma format_outside w ws i r out :
  inside r i = false -> (i =? 6) && encapsulated r = false ->
  format src words (w :: ws) i r out =
    format src words ws (i + 1) r ((if negb (i =? 0) then out ++ [COLON] else out) ++ sprintf_x w).
Proof.
  intros Hi He. simpl. unfold inside in Hi. rewrite Hi.
  unfold encapsulated in He. rewrite andb_assoc in He. by rewrite He.
Qed.

(** A block of words outside the run, after the first word. *)
Lemma format_words ws1 ws2 i r out :
  0 < i -> (forall j, i <= j < i + Z.of_nat (length ws1) ->
              inside r j = false /\ (j =? 6) && encapsulated r = false) ->
  format src words (ws1 ++ ws2) i r out =
    format src words ws2 (i + Z.of_nat (length ws1)) r (out ++ colon_words ws1).
Proof.
  revert i out. induction ws1 as [|w ws1 IH]; intros i out Hi Hj.
  - simpl. by rewrite app_nil_r, Z.add_0_r.
  - simpl app. destruct (Hj i) as [H1 H2]; [simpl; lia|]. rewrite format_outside by done.
    rewrite (proj2 (Z.eqb_neq i 0)) by lia. simpl negb. cbn iota.
    rewrite IH; [|lia|intros j ?; apply Hj; simpl; lia].
    f_equal; [simpl length; lia|]. unfold colon_words. simpl. by rewrite <- !app_assoc.
Qed.

(** The same for a block that starts the address. *)
Lemma format_join ws1 ws2 r :
  (forall j, 0 <= j < Z.of_nat (length ws1) ->
     inside r j = false /\ (j =? 6) && encapsulated r = false) ->
  format src words (ws1 ++ ws2) 0 r [] =
    format src words ws2 (Z.of_nat (length ws1)) r (join ws1).
Proof.
  destruct ws1 as [|w ws1]; [done|]. intros Hj. simpl app.
  destruct (Hj 0) as [H1 H2]; [simpl; lia|]. rewrite format_outside by done. simpl negb. cbn iota.
  rewrite format_words; [|lia|intros j ?; apply Hj; simpl; lia].
  f_equal. simpl length. lia.
Qed.

(** The rest of the run prints nothing. *)
Lemma format_skip zs ws2 i r out :
  base r <> -1 -> base r < i -> i + Z.of_nat (length zs) <= base r + len r ->
  format src words (zs ++ ws2) i r out =
    format src words ws2 (i + Z.of_nat (length zs)) r out.
Proof.
  revert i. induction zs as [|z zs IH]; intros i Hb Hlt Hle.
  - simpl. by rewrite Z.add_0_r.
  - simpl in Hle |- *. rewrite (proj2 (Z.eqb_neq (base r) (-1))) by done.
    rewrite (proj2 (Z.leb_le _ _)), (proj2 (Z.ltb_lt i _)) by lia. simpl.
    rewrite (proj2 (Z.eqb_neq i _)) by lia. rewrite IH by lia. f_equal. lia.
Qed.

(** The run itself prints one colon. *)
Lemma format_gap zs ws2 r out :
  0 <= base r -> Z.of_nat (length zs) = len r -> 1 <= len r ->
  format src words (zs ++ ws2) (base r) r out =
    format src words ws2 (base r + len r) r (out ++ [COLON]).
Proof.
  intros Hb Hl H1. destruct zs as [|z zs]; [simpl in Hl; lia|]. simpl in Hl |- *.
  rewrite (proj2 (Z.eqb_neq (base r) (-1))) by lia.
  rewrite (proj2 (Z.leb_le _ _)), (proj2 (Z.ltb_lt _ _)) by lia. simpl.
  rewrite Z.eqb_refl, format_skip by lia. f_equal. lia.
Qed.
End Ntop6Proof.

Section TextShape.
Import Ntop6.

(** The three forms of the printed address: all words, a gap for at least two
    zero words, or a gap followed by a dotted quad. *)
Inductive shape (src : list Z) : list Z -> list Z -> Prop :=
| shape_plain ws : shape src ws (join ws)
| shape_gap W1 l W2 :
    (2 <= l)%nat ->
    shape src (W1 ++ replicate l 0 ++ W2)
      (join W1 ++ COLON :: colon_words W2 ++ match W2 with [] => [COLON] | _ => [] end)
| shape_dotted l V w6 w7 :
    (V = [] \/ V = [0xffff]) -> (l + length V = 6)%nat ->
    shape src (replicate l 0 ++ V ++ [w6; w7])
      (COLON :: colon_words V ++ COLON :: dotted (drop 12 src)).

Lemma forallb_zeros l : forallb (fun w => w =? 0) l = true -> l = replicate (length l) 0.
Proof.
  induction l as [|x l IH]; simpl; [done|]. intros H. bprop. subst x. f_equal. by apply IH.
Qed.

Lemma run_ok_split ws r :
  length ws = 8%nat -> run_ok ws r = true -> base r <> -1 ->
  exists W1 W2, ws = W1 ++ replicate (Z.to_nat (len r)) 0 ++ W2 /\
    Z.of_nat (length W1) = base r /\ 2 <= len r /\
    base r + len r + Z.of_nat (length W2) = 8.
Proof.
  unfold run_ok. intros Hl Hr Hb. rewrite (proj2 (Z.eqb_neq _ _)) in Hr by done. simpl in Hr.
  bprop. set (b := Z.to_nat (base r)) in *. set (l := Z.to_nat (len r)) in *.
  exists (take b ws), (drop (b + l) ws).
  match goal with H : forallb _ _ = true |- _ => apply forallb_zeros in H; rename H into Hz end.
  rewrite length_take_le in Hz by (rewrite length_drop; lia).
  rewrite length_take_le, length_drop by lia. split_and!; [|lia|lia|lia].
  rewrite <- Hz, <- (drop_drop ws). by rewrite !take_drop.
Qed.

Lemma words_of_length src : length src = 16%nat -> length (words_of src) = 8%nat.
Proof.
  intros Hl. do 16 (destruct src as [|? src]; [done|]). destruct src; [|done]. reflexivity.
Qed.

Lemma format_dotted src words V w6 w7 r :
  length src = 16%nat -> Forall is_byte src -> encapsulated words r = true ->
  base r = 0 -> len r + Z.of_nat (length V) = 6 -> (V = [] \/ V = [0xffff]) ->
  format src words (V ++ [w6; w7]) (len r) r [COLON] =
    Some (COLON :: colon_words V ++ COLON :: dotted (drop 12 src)).
Proof.
  intros Hl Hs He Hb Hlen HV.
  assert (Hd : strlen (dotted (drop 12 src)) <= 15).
  { apply dotted_length; [by rewrite length_drop, Hl|by apply Forall_drop]. }
  assert (HlV : (length V <= 1)%nat) by (destruct HV as [-> | ->]; simpl; lia).
  rewrite format_words; [|lia|intros j Hj; unfold inside; rewrite Hb; simpl;
     rewrite (proj2 (Z.ltb_ge _ _)), (proj2 (Z.eqb_neq _ _)), andb_false_r by lia; done].
  rewrite Hlen. simpl format. rewrite Hb. simpl (negb _).
  rewrite (proj2 (Z.ltb_ge 6 _)) by lia. simpl.
  unfold encapsulated in He. rewrite Hb in He. simpl in He. rewrite He.
  unfold inet_ntop4. rewrite (proj2 (Z.ltb_ge _ _)).
  - by rewrite <- app_assoc.
  - transitivity 15; [lia|]. unfold strlen.
    by destruct HV as [-> | ->]; vm_compute.
Qed.

Lemma text_shape garbage src :
  length src = 16%nat -> Forall is_byte src ->
  exists t, text garbage src = Some t /\ shape src (words_of src) t.
Proof.
  intros Hl Hs. unfold text.
  pose proof (words_of_length src Hl) as Hw. generalize dependent (words_of src). intros ws Hw.
  pose proof (best_run_ok garbage ws Hw) as Hr.
  generalize dependent (best_run garbage ws). intros r Hr.
  destruct (Z.eqb_spec (base r) (-1)) as [Hb|Hb].
  - (* no run *)
    pose proof (format_join src ws ws [] r) as Hf. rewrite !app_nil_r in Hf.
    rewrite Hf. { simpl. eexists. split; [done|constructor]. }
    intros j Hj. unfold inside, encapsulated. rewrite Hb. by rewrite andb_false_r.
  - destruct (run_ok_split ws r Hw Hr Hb) as (W1 & W2 & -> & H1 & H2 & H3).
    rewrite format_join; [|intros j Hj; unfold inside, encapsulated; split;
      [rewrite (proj2 (Z.leb_gt (base r) j)) by lia; by rewrite andb_false_r
      |destruct (Z.eqb_spec (base r) 0); [lia|by rewrite andb_false_r]]].
    rewrite H1, format_gap by (rewrite ?length_replicate; lia).
    destruct (encapsulated (W1 ++ replicate (Z.to_nat (len r)) 0 ++ W2) r) eqn:He.
    + (* IPv4 in IPv6 *)
      pose proof He as He'. unfold encapsulated in He'. apply andb_prop in He' as [Hb0 He'].
      bprop. destruct W1 as [|]; [|simpl in H1; lia].
      assert (HV : exists V w6 w7, W2 = V ++ [w6; w7] /\ (V = [] \/ V = [0xffff]) /\
                     len r + Z.of_nat (length V) = 6).
      { apply orb_prop in He' as [E|E]; bprop.
        - destruct W2 as [|x [|y [|]]]; simpl in H3; try lia. exists [], x, y. simpl.
          split_and!; [done|by left|lia].
        - destruct W2 as [|x [|y [|z [|]]]]; simpl in H3; try lia. exists [x], y, z.
          assert (Hx : x = 0xffff).
          { match goal with H : _ !!! _ = _ |- _ =>
              replace (Z.to_nat (len r)) with 5%nat in H by lia; exact H end. }
          subst x. split_and!; [done|by right|simpl; lia]. }
      destruct HV as (V & w6 & w7 & -> & HV & Hlen).
      rewrite Hb0. rewrite Z.add_0_l. simpl (join [] ++ [COLON]).
      rewrite format_dotted by done. simpl (mbind _ _).
      rewrite (proj2 (Z.eqb_neq (len r) 8)) by lia.
      eexists. split; [done|]. apply (shape_dotted src _ V); [done|lia].
    + assert (Hf : forall out,
        format src (W1 ++ replicate (Z.to_nat (len r)) 0 ++ W2) W2 (base r + len r) r out =
          Some (out ++ colon_words W2)).
      { intros out. pose proof (format_words src (W1 ++ replicate (Z.to_nat (len r)) 0 ++ W2)
          W2 [] (base r + len r) r out) as Hw2.
        rewrite app_nil_r in Hw2. apply Hw2; [lia|]. intros j Hj. split.
        - unfold inside. rewrite (proj2 (Z.ltb_ge j _)) by lia. apply andb_false_r.
        - by rewrite He, andb_false_r. }
      rewrite Hf.
      simpl. eexists. split; [done|].
      assert (Ht : (if base r + len r =? 8 then ((join W1 ++ [COLON]) ++ colon_words W2) ++ [COLON]
                    else (join W1 ++ [COLON]) ++ colon_words W2) =
                   join W1 ++ COLON :: colon_words W2 ++ match W2 with [] => [COLON] | _ => [] end).
      { destruct W2 as [|w W2]; simpl length in H3.
        - rewrite (proj2 (Z.eqb_eq _ _)) by lia. simpl. by rewrite app_nil_r, <- app_assoc.
        - rewrite (proj2 (Z.eqb_neq _ _)) by lia. by rewrite app_nil_r, <- app_assoc. }
      simpl in Ht |- *. rewrite Ht. constructor. lia.
Qed.
End TextShape.

(** ** IPv6 round trip *)

Section V6Roundtrip.
Context (uninit : Z).
Import Pton6.

Lemma sprintf_x_head w : exists c t, sprintf_x w = c :: t /\ c <> COLON.
Proof.
  rewrite sprintf_x_digits. destruct (digits_of 8 16 w) as [|d ds] eqn:E;
    [by apply digits_of_nonnil in E; [|lia]|].
  pose proof (digits_of_range 8 16 w ltac:(lia)) as Hr. rewrite E, Forall_cons in Hr.
  exists (digit_char d), (map digit_char ds). split; [done|].
  unfold digit_char, COLON. case_match; bprop; lia.
Qed.

Lemma inet_pton6_plain c t : c <> COLON -> inet_pton6 uninit (c :: t) = run uninit (c :: t) (start (c :: t)).
Proof.
  intros Hc. unfold inet_pton6, COLON in *.
  repeat match goal with
  | |- context [match ?z with _ => _ end] => is_var z; destruct z; try done
  end.
Qed.

Lemma start_mk src : start src = mk [] None src false 0.
Proof. reflexivity. Qed.

Lemma bytes_of_words_length ws : length (bytes_of_words ws) = (2 * length ws)%nat.
Proof. induction ws as [|w ws IH]; [done|]. simpl. rewrite IH. lia. Qed.

Lemma bytes_of_words_app ws1 ws2 :
  bytes_of_words (ws1 ++ ws2) = bytes_of_words ws1 ++ bytes_of_words ws2.
Proof. apply bind_app. Qed.

Lemma bytes_of_words_zeros l : bytes_of_words (replicate l 0) = replicate (2 * l) 0.
Proof.
  induction l as [|l IH]; [done|]. replace (2 * S l)%nat with (S (S (2 * l))) by lia.
  simpl in *. by rewrite IH.
Qed.

Lemma removelast_last_words w ws :
  bytes_of_words (removelast (w :: ws)) ++ bytes_of (List.last (w :: ws) 0) = bytes_of_words (w :: ws).
Proof.
  rewrite (List.app_removelast_last (l := w :: ws) 0) at 3 by done.
  rewrite bytes_of_words_app. done.
Qed.

Lemma removelast_length_cons {A} (x : A) l : length (removelast (x :: l)) = length l.
Proof. revert x. induction l as [|y l IH]; intros x; [done|]. simpl in *. by rewrite IH. Qed.

Definition words_ok (ws : list Z) : Prop := Forall (fun w => 0 <= w <= 0xffff) ws.

(** A block of words up to the end of the string. *)
Lemma run_words w ws B cp ct :
  words_ok (w :: ws) -> (length B + 2 * length (w :: ws) <= 16)%nat ->
  (forall c, cp = Some c -> (c <= length B)%nat /\ (length B + 2 * length (w :: ws) < 16)%nat) ->
  run uninit (sprintf_x w ++ colon_words ws) (mk B cp ct false 0) =
    Some (fin (B ++ bytes_of_words (w :: ws)) cp).
Proof.
  intros Hw Hl Hc. inversion Hw as [|? ? Hw1 Hws]; subst. simpl in Hl.
  unfold run. rewrite loop_word by done.
  rewrite <- (app_nil_r (colon_words ws)).
  destruct (loop_colon_words uninit ws [] w B cp ct) as [ct' ->]; [lia|done|]. cbn [loop].
  pose proof (removelast_length_cons w ws) as Hr.
  cbn [mbind option_bind]. rewrite finish_true.
  - by rewrite <- app_assoc, removelast_last_words.
  - rewrite length_app, bytes_of_words_length, Hr. lia.
  - intros c Hcp. specialize (Hc c Hcp). simpl in Hc.
    rewrite length_app, bytes_of_words_length, Hr. lia.
Qed.

(** The gap and the words after it, up to the end of the string. *)
Lemma run_gap B W2 l ct :
  words_ok W2 -> (length B + 2 * l + 2 * length W2 = 16)%nat -> (1 <= l)%nat ->
  run uninit (COLON :: (match W2 with [] => [] | w :: ws => sprintf_x w ++ colon_words ws end))
      (mk B None ct false 0) =
    Some (Some (B ++ replicate (2 * l) 0 ++ bytes_of_words W2)).
Proof.
  intros Hw Hl H1. unfold run. rewrite loop_colon_gap.
  destruct W2 as [|w W2].
  - cbn [loop mbind option_bind]. simpl in Hl. rewrite finish_false; [|lia|intros ? [= <-]; lia].
    simpl. rewrite take_ge, drop_ge by lia. by replace (16 - length B)%nat with (l + (l + 0))%nat by lia.
  - fold (run uninit (sprintf_x w ++ colon_words W2) (mk B (Some (length B)) (sprintf_x w ++ colon_words W2) false 0)).
    rewrite run_words; [|done|simpl in *; lia|intros ? [= <-]; simpl in *; lia].
    unfold fin. rewrite take_app_length, drop_app_length, length_app, bytes_of_words_length.
    do 4 f_equal. simpl in *. f_equal. lia.
Qed.

Lemma horner_bound base ds v k :
  0 < base -> Forall (fun d => 0 <= d < base) ds -> 0 <= v < k ->
  horner base ds v < k * base ^ Z.of_nat (length ds).
Proof.
  intros Hb Hds. revert v k. induction Hds as [|d ds Hd Hds IH]; intros v k Hv; [simpl; lia|].
  simpl length. rewrite Nat2Z.inj_succ, Z.pow_succ_r by lia. simpl.
  rewrite Z.mul_assoc. apply IH. nia.
Qed.

(** A dotted quad ends the scan with its four bytes stored. *)
Lemma loop_dotted a b c d B cp :
  Forall is_byte [a; b; c; d] -> (length B + 4 <= 16)%nat ->
  exists v,
    loop uninit (dotted [a; b; c; d]) (mk B cp (dotted [a; b; c; d]) false 0) =
      Some (Some (mk (B ++ [a; b; c; d]) cp (dotted [a; b; c; d]) false v)).
Proof.
  intros Hs Hl. assert (Ha : is_byte a) by (by inversion Hs).
  pose proof (pton4_dotted_quad uninit (dotted [a; b; c; d])) as Hp.
  rewrite dotted_quad_dotted in Hp by done.
  set (t := dotted [a; b; c; d]) in *.
  assert (Ht : exists rest, t = sprintf_u a ++ DOT :: rest) by (eexists; reflexivity).
  destruct Ht as [rest Ht]. clearbody t.
  pose proof (digits_of_range 10 10 a ltac:(lia)) as Hr.
  assert (Hr16 : Forall (fun d => 0 <= d < 16) (digits_of 10 10 a))
    by (eapply Forall_impl; [done|]; simpl; lia).
  assert (Hlen : (length (digits_of 10 10 a) <= 3)%nat)
    by (unfold is_byte in Ha; apply digits_of_short; simpl; lia).
  pose proof (horner_bound 16 _ 0 1 ltac:(lia) Hr16 ltac:(lia)) as Hb.
  assert (H16 : 16 ^ Z.of_nat (length (digits_of 10 10 a)) <= 16 ^ 3) by (apply Z.pow_le_mono_r; lia).
  change (16 ^ 3) with 4096 in H16.
  set (v := horner 16 (digits_of 10 10 a) 0) in *. exists v.
  assert (Hloop : forall ct, loop uninit t (mk B cp ct false 0) = loop uninit (DOT :: rest) (mk B cp ct true v)).
  { intros ct. rewrite Ht, sprintf_u_digits, loop_digits by (done || lia).
    fold v. destruct (digits_of 10 10 a) as [|x ds] eqn:E; [by apply digits_of_nonnil in E; [|lia]|done]. }
  rewrite Hloop.
  change (loop uninit (DOT :: rest) (mk B cp t true v)) with
    (if (length B + INADDRSZ <=? IN6ADDRSZ)%nat then
       r ← inet_pton4 uninit t;
       match r with
       | None => Some None
       | Some bs =>
           tmp' ← store_bytes (B ++ replicate (16 - length B) 0) (length B) bs;
           Some (Some (St tmp' (length B + INADDRSZ) cp t false v))
       end
     else Some None).
  unfold INADDRSZ, IN6ADDRSZ. rewrite (proj2 (Nat.leb_le _ _)) by lia. rewrite Hp.
  cbn [mbind option_bind]. rewrite store_bytes_mk by (simpl; lia). cbn [mbind option_bind].
  unfold mk. do 3 f_equal. rewrite length_app. simpl. lia.
Qed.

Lemma pton6_shape_dotted src V l w6 w7 :
  length src = 16%nat -> Forall is_byte src -> (V = [] \/ V = [0xffff]) -> (l + length V = 6)%nat ->
  bytes_of_words [w6; w7] = drop 12 src ->
  inet_pton6 uninit (COLON :: colon_words V ++ COLON :: dotted (drop 12 src)) =
    Some (Some (bytes_of_words (replicate l 0 ++ V ++ [w6; w7]))).
Proof.
  intros Hl Hs HV Hlen H67.
  assert (Hd : exists a b c d, drop 12 src = [a; b; c; d]).
  { do 16 (destruct src as [|? src]; [done|]). destruct src; [|done]. simpl. eauto. }
  destruct Hd as (a & b & c & d & Hd).
  assert (Hb : Forall is_byte [a; b; c; d]) by (rewrite <- Hd; by apply Forall_drop).
  rewrite !bytes_of_words_app, H67, Hd, bytes_of_words_zeros.
  set (t := dotted [a; b; c; d]).
  destruct HV as [-> | ->].
  - change (inet_pton6 uninit _) with (run uninit (COLON :: t) (mk [] None (COLON :: t) false 0)).
    unfold run. rewrite loop_colon_gap.
    destruct (loop_dotted a b c d [] (Some (length (@nil Z))) Hb) as [v Hv]; [simpl; lia|].
    fold t in Hv. rewrite Hv. cbn [mbind option_bind].
    rewrite finish_false; [|simpl; lia|intros ? [= <-]; simpl; lia].
    simpl in Hlen. by replace l with 6%nat by lia.
  - change (inet_pton6 uninit _) with
      (run uninit (COLON :: sprintf_x 0xffff ++ COLON :: t) (mk [] None (COLON :: sprintf_x 0xffff ++ COLON :: t) false 0)).
    unfold run. rewrite loop_colon_gap, loop_word by lia. rewrite loop_colon_word by (simpl; lia).
    destruct (loop_dotted a b c d ([] ++ bytes_of 0xffff) (Some (length (@nil Z))) Hb) as [v Hv]; [simpl; lia|].
    fold t in Hv. rewrite Hv. cbn [mbind option_bind].
    rewrite finish_false; [|simpl; lia|intros ? [= <-]; simpl; lia].
    simpl in Hlen. by replace l with 5%nat by lia.
Qed.

Lemma inet_pton6_words w ws rest :
  inet_pton6 uninit ((sprintf_x w ++ ws) ++ rest) =
    run uninit ((sprintf_x w ++ ws) ++ rest) (mk [] None ((sprintf_x w ++ ws) ++ rest) false 0).
Proof.
  destruct (sprintf_x_head w) as (x & t & -> & Hx). simpl app. by rewrite inet_pton6_plain.
Qed.

Lemma pton6_shape_gap W1 l W2 :
  words_ok (W1 ++ replicate l 0 ++ W2) -> (length W1 + l + length W2 = 8)%nat -> (2 <= l)%nat ->
  inet_pton6 uninit (join W1 ++ COLON :: colon_words W2 ++ match W2 with [] => [COLON] | _ => [] end) =
    Some (Some (bytes_of_words (W1 ++ replicate l 0 ++ W2))).
Proof.
  intros Hw Hlen Hl. apply Forall_app in Hw as [Hw1 Hw]. apply Forall_app in Hw as [_ Hw2].
  rewrite !bytes_of_words_app, bytes_of_words_zeros.
  assert (Hrest : colon_words W2 ++ match W2 with [] => [COLON] | _ => [] end =
    COLON :: match W2 with [] => [] | w :: ws => sprintf_x w ++ colon_words ws end).
  { destruct W2; [done|]. simpl. by rewrite app_nil_r. }
  rewrite Hrest. set (tl := match W2 with [] => [] | _ => _ end).
  destruct W1 as [|w W1].
  - change (inet_pton6 uninit _) with (run uninit (COLON :: tl) (mk [] None (COLON :: tl) false 0)).
    apply (run_gap [] W2 l); [done|simpl in *; lia|lia].
  - simpl join. rewrite inet_pton6_words. unfold run. rewrite <- app_assoc.
    inversion Hw1 as [|? ? Hx Hws]; subst. rewrite loop_word by done.
    edestruct (loop_colon_words uninit W1) as [ct' ->]; [simpl in *; lia|done|].
    pose proof (removelast_length_cons w W1) as Hr.
    rewrite app_nil_l.
    rewrite loop_colon_word by (rewrite bytes_of_words_length, Hr; simpl in Hlen; lia).
    rewrite removelast_last_words.
    apply (run_gap (bytes_of_words (w :: W1)) W2 l);
      [done|rewrite bytes_of_words_length; simpl in *; lia|lia].
Qed.

Lemma pton6_shape_plain ws :
  words_ok ws -> length ws = 8%nat -> inet_pton6 uninit (join ws) = Some (Some (bytes_of_words ws)).
Proof.
  intros Hw Hl. destruct ws as [|w ws]; [done|]. simpl join.
  pose proof (inet_pton6_words w (colon_words ws) []) as Hp. rewrite !app_nil_r in Hp. rewrite Hp.
  rewrite run_words; [|done|simpl in *; lia|done]. rewrite app_nil_l. unfold fin.
  by rewrite bytes_of_words_length, Hl.
Qed.
End V6Roundtrip.

(** The words of an address and their bytes. *)
Lemma words_of_pair (h l : Z) :
  is_byte h -> is_byte l ->
  bytes_of (Z.lor (Z.lor 0 (Z.shiftl h 8)) (Z.shiftl l 0)) = [h; l] /\
  0 <= Z.lor (Z.lor 0 (Z.shiftl h 8)) (Z.shiftl l 0) <= 0xffff.
Proof.
  unfold is_byte. intros Hh Hl. rewrite Z.lor_0_l, Z.shiftl_0_r.
  rewrite lor_shiftl_add by (simpl; lia). change (2 ^ 8) with 256.
  split; [|lia]. unfold bytes_of, wrap. rewrite !land_ff, Z.shiftr_div_pow2 by lia.
  change (2 ^ 8) with 256. rewrite !Zmod_mod. f_equal; [|f_equal].
  - rewrite Z.div_add_l, Z.div_small, Z.add_0_r by lia. by apply Z.mod_small.
  - rewrite Z.add_comm, Z_mod_plus_full. by apply Z.mod_small.
Qed.

Lemma words_of_bytes src :
  length src = 16%nat -> Forall is_byte src ->
  bytes_of_words (Ntop6.words_of src) = src /\ words_ok (Ntop6.words_of src).
Proof.
  intros Hl Hs.
  destruct src as [|b0 [|b1 [|b2 [|b3 [|b4 [|b5 [|b6 [|b7 [|b8 [|b9 [|b10 [|b11 [|b12 [|b13
    [|b14 [|b15 [|]]]]]]]]]]]]]]]]]; try done.
  rewrite !Forall_cons in Hs. destruct_and! Hs.
  set (w := fun h l => Z.lor (Z.lor 0 (Z.shiftl h 8)) (Z.shiftl l 0)).
  change (Ntop6.words_of _) with [w b0 b1; w b2 b3; w b4 b5; w b6 b7; w b8 b9; w b10 b11; w b12 b13; w b14 b15].
  assert (Hw : forall h l, is_byte h -> is_byte l -> bytes_of (w h l) = [h; l] /\ 0 <= w h l <= 0xffff)
    by apply words_of_pair.
  split.
  - unfold bytes_of_words. cbn [mbind list_bind].
    rewrite !(fun h l H1 H2 => proj1 (Hw h l H1 H2)) by done. done.
  - repeat constructor; by apply Hw.
Qed.

Lemma sprintf_x_length w : 0 <= w <= 0xffff -> 1 <= strlen (sprintf_x w) <= 4.
Proof.
  intros Hw. unfold strlen. rewrite sprintf_x_digits, length_map.
  pose proof (digits_of_short 8 16 w 4 ltac:(lia) ltac:(lia) ltac:(simpl; lia)).
  destruct (digits_of 8 16 w) eqn:E; [by apply digits_of_nonnil in E; [|lia]|]. simpl in *. lia.
Qed.

Lemma colon_words_length ws :
  words_ok ws -> strlen (colon_words ws) <= 5 * Z.of_nat (length ws).
Proof.
  induction 1 as [|w ws Hw Hws IH]; [done|]. apply sprintf_x_length in Hw.
  unfold strlen in *. simpl. rewrite length_app. simpl in *. lia.
Qed.

Lemma join_length ws :
  words_ok ws -> strlen (join ws) <= Z.max 0 (5 * Z.of_nat (length ws) - 1).
Proof.
  intros Hw. destruct Hw as [|w ws Hw Hws]; [done|]. apply colon_words_length in Hws.
  apply sprintf_x_length in Hw. unfold strlen in *. simpl. rewrite length_app. lia.
Qed.

Lemma shape_length src ws t :
  shape src ws t -> words_ok ws -> length ws = 8%nat -> length src = 16%nat -> Forall is_byte src ->
  strlen t <= 39.
Proof.
  intros Hs Hw Hl Hls Hb. destruct Hs as [ws|W1 l W2 H2|l V w6 w7 HV HlV].
  - pose proof (join_length ws Hw). lia.
  - apply Forall_app in Hw as [Hw1 Hw]. apply Forall_app in Hw as [_ Hw2].
    apply join_length in Hw1. apply colon_words_length in Hw2. unfold strlen in *.
    rewrite !length_app, length_replicate in Hl.
    rewrite length_app. simpl. rewrite length_app. destruct W2; simpl in *; lia.
  - assert (Hd : strlen (dotted (drop 12 src)) <= 15).
    { apply dotted_length; [by rewrite length_drop, Hls|by apply Forall_drop]. }
    apply Forall_app in Hw as [_ Hw]. apply Forall_app in Hw as [Hw _].
    apply colon_words_length in Hw. unfold strlen in *. simpl. rewrite length_app. simpl.
    destruct HV as [-> | ->]; simpl in *; lia.
Qed.

(** C34: every IPv6 address printed by [inet_ntop6] (zero-run compression and
    embedded IPv4 included, whatever the uninitialised fields of the local
    structures hold) into a buffer of INET6_ADDRSTRLEN bytes is read back by
    [inet_pton6] as the same 16 bytes. *)
Theorem inet_v6_roundtrip uninit garbage src size :
  length src = 16%nat -> Forall is_byte src -> 46 <= size ->
  exists t, inet_ntop6 garbage src size = Ret t /\ inet_pton6 uninit t = Some (Some src).
Proof.
  intros Hl Hs Hsz. destruct (text_shape garbage src Hl Hs) as (t & Ht & Hsh).
  destruct (words_of_bytes src Hl Hs) as [Hb Hw].
  pose proof (words_of_length src Hl) as Hwl.
  pose proof (shape_length _ _ _ Hsh Hw Hwl Hl Hs).
  exists t. unfold inet_ntop6. rewrite Ht, (proj2 (Z.ltb_ge size _)) by lia. split; [done|].
  remember (Ntop6.words_of src) as ws eqn:E. rewrite <- Hb.
  destruct Hsh as [ws|W1 l W2 H2|l V w6 w7 HV HlV].
  - by apply pton6_shape_plain.
  - apply pton6_shape_gap; [done| |lia]. rewrite !length_app, length_replicate in Hwl. lia.
  - apply pton6_shape_dotted; try done. rewrite <- Hb, !bytes_of_words_app.
    rewrite app_assoc, drop_app_length'; [done|].
    rewrite length_app, !bytes_of_words_length, length_replicate. lia.
Qed.

Lemma inet_v6_roundtrip_witness :
  exists t, inet_ntop6 5 (replicate 10 0 ++ [255; 255; 10; 0; 0; 1]) 46 = Ret t /\
    inet_pton6 7 t = Some (Some (replicate 10 0 ++ [255; 255; 10; 0; 0; 1])).
Proof.
  apply (inet_v6_roundtrip 7 5 (replicate 10 0 ++ [255; 255; 10; 0; 0; 1]) 46); [done| |lia].
  unfold is_byte; repeat constructor; lia.
Defined.

(** ** Memory safety of [inet_pton6] *)

Section Pton6Safe.
Context (uninit : Z).
Import Pton6.

Record wf (s : state) : Prop := Wf {
  wf_len : length (tmp s) = 16%nat;
  wf_tp : (tp s <= 16)%nat;
  wf_colonp : forall c, colonp s = Some c -> (c <= tp s)%nat
}.

Definition safe {A} (P : A -> Prop) (r : option (option A)) : Prop :=
  match r with
  | None => False
  | Some None => True
  | Some (Some a) => P a
  end.

Lemma astore_safe buf i v :
  (i < length buf)%nat -> exists buf', astore buf i v = Some buf' /\ length buf' = length buf.
Proof. intros Hi. exists (<[i := v]> buf). by rewrite astore_ok, length_insert. Qed.

Lemma store16_safe buf i v :
  length buf = 16%nat -> (i + 2 <= 16)%nat ->
  exists buf', store16 buf i v = Some buf' /\ length buf' = 16%nat.
Proof.
  intros Hl Hi. unfold store16.
  destruct (astore_safe buf i (Z.land (u8 (Z.shiftr v 8)) 0xff)) as (b1 & -> & H1); [lia|]. simpl.
  destruct (astore_safe b1 (S i) (Z.land (u8 v) 0xff)) as (b2 & -> & H2); [lia|].
  exists b2. split; [done|lia].
Qed.

Lemma store_bytes_safe buf i bs :
  length buf = 16%nat -> (i + length bs <= 16)%nat ->
  exists buf', store_bytes buf i bs = Some buf' /\ length buf' = 16%nat.
Proof.
  revert buf i. induction bs as [|b bs IH]; intros buf i Hl Hi; [by exists buf|]. simpl in Hi |- *.
  destruct (astore_safe buf i b) as (b1 & -> & H1); [lia|]. simpl. apply IH; lia.
Qed.

Lemma loop_safe src s : wf s -> safe wf (loop uninit src s).
Proof.
  revert s. induction src as [|ch src IH]; intros s [Hl Ht Hc]; [done|].
  simpl. destruct (hexdigit ch).
  { case_match; [done|]. by apply IH. }
  destruct (ch =? COLON).
  - destruct (saw_xdigit s); simpl.
    + case_match eqn:E; [done|]. apply Nat.ltb_ge in E. unfold IN6ADDRSZ, INT16SZ in E.
      destruct (store16_safe (tmp s) (tp s) (val s)) as (b & -> & Hb); [done|lia|]. simpl.
      apply IH. constructor; simpl; [done|lia|]. intros c Hcp. specialize (Hc c Hcp). lia.
    + destruct (colonp s); [done|]. apply IH. constructor; simpl; [done|done|].
      by intros c [= <-].
  - destruct ((ch =? DOT) && _) eqn:E; [|done]. apply andb_prop in E as [_ E].
    apply Nat.leb_le in E. unfold IN6ADDRSZ, INADDRSZ in E.
    rewrite pton4_dotted_quad. simpl. destruct (dotted_quad (curtok s)) as [bs|] eqn:Hq; [|done].
    assert (Hbs : length bs = 4%nat).
    { unfold dotted_quad in Hq. destruct (mapM octet_value _) as [vs|]; [|done]. simpl in Hq.
      case_match eqn:E4; [|done]. apply Nat.eqb_eq in E4. by simplify_eq. }
    destruct (store_bytes_safe (tmp s) (tp s) bs) as (b & -> & Hb); [done|lia|]. simpl.
    constructor; simpl; [done|unfold INADDRSZ; lia|].
    intros c Hcp. specialize (Hc c Hcp). lia.
Qed.

Lemma shift_loop_safe c n ks buf :
  length buf = 16%nat -> (c + n <= 16)%nat -> Forall (fun i => 1 <= i <= n)%nat ks ->
  exists buf', shift_loop c n ks buf = Some buf' /\ length buf' = 16%nat.
Proof.
  intros Hl Hn Hks. revert buf Hl. induction Hks as [|i ks Hi Hks IH]; intros buf Hl; [by exists buf|].
  simpl. unfold shift_step, aload.
  destruct (lookup_lt_is_Some_2 buf (c + n - i)) as [v ->]; [lia|]. simpl.
  destruct (astore_safe buf (IN6ADDRSZ - i) v) as (b1 & -> & H1); [unfold IN6ADDRSZ; lia|]. simpl.
  destruct (astore_safe b1 (c + n - i) 0) as (b2 & -> & H2); [lia|]. simpl. apply IH. lia.
Qed.

Lemma finish_safe s : wf s -> safe (fun bs => length bs = 16%nat) (finish s).
Proof.
  intros [Hl Ht Hc]. unfold finish.
  assert (Hend : forall buf t, length buf = 16%nat -> (tp s <= t <= 16)%nat ->
    safe (fun bs => length bs = 16%nat)
      (r2 ← (match colonp s with
             | Some c => buf' ← shift_loop c (t - c) (seq 1 (t - c)) buf; Some (buf', IN6ADDRSZ)
             | None => Some (buf, t)
             end);
       let '(buf', t') := r2 in if (t' =? IN6ADDRSZ)%nat then Some (Some buf') else Some None)).
  { intros buf t Hb Htt. destruct (colonp s) as [c|] eqn:E; simpl; [|by case_match].
    specialize (Hc c eq_refl).
    destruct (shift_loop_safe c (t - c) (seq 1 (t - c)) buf) as (b & -> & Hb2); [done|lia| |done].
    apply Forall_forall. intros i Hi. apply elem_of_seq in Hi. lia. }
  destruct (saw_xdigit s); [|by apply Hend].
  destruct (IN6ADDRSZ <? tp s + INT16SZ)%nat eqn:E; [done|].
  apply Nat.ltb_ge in E. unfold IN6ADDRSZ, INT16SZ in E.
  destruct (store16_safe (tmp s) (tp s) (val s)) as (b & -> & Hb); [done|lia|]. simpl.
  apply Hend; [done|lia].
Qed.
End Pton6Safe.

(** On every input string [inet_pton6] returns, without reading or writing
    outside its 16-byte array, either "invalid" or exactly 16 bytes. *)
Theorem inet_pton6_safe uninit src :
  exists r, inet_pton6 uninit src = Some r /\ (forall bs, r = Some bs -> length bs = 16%nat).
Proof.
  assert (Hrun : forall t, safe (fun bs => length bs = 16%nat) (Pton6.run uninit t (Pton6.start t))).
  { intros t. unfold Pton6.run. pose proof (loop_safe uninit t (Pton6.start t)) as Hs.
    destruct (Pton6.loop uninit t (Pton6.start t)) as [[s|]|]; simpl in *; [|done|].
    - apply finish_safe, Hs. constructor; simpl; [done|lia|done].
    - apply Hs. constructor; simpl; [done|lia|done]. }
  assert (Hsafe : safe (fun bs => length bs = 16%nat) (inet_pton6 uninit src)).
  { unfold inet_pton6.
    repeat match goal with
    | |- safe _ (match ?z with _ => _ end) => destruct z; try apply Hrun
    end; done. }
  destruct (inet_pton6 uninit src) as [r|]; [|done]. exists r. split; [done|].
  intros bs ->. exact Hsafe.
Qed.

(** ** "::" in an address of eight words *)

Section FullGap.
Context (uninit : Z).
Import Pton6.

(** With no room to move into, every byte is copied onto itself and then
    cleared. *)
Lemma shift_step_self B x R i c n :
  (c + n - i = length B)%nat -> (IN6ADDRSZ - i = length B)%nat ->
  shift_step c n (B ++ x :: R) i = Some (B ++ 0 :: R).
Proof.
  intros Hi Hj. unfold shift_step, aload. rewrite Hi, Hj, list_lookup_middle by done. simpl.
  rewrite astore_mid. simpl. by rewrite astore_mid.
Qed.

Lemma shift_loop_self B1 B2 i n :
  (n + 1 = i + length B2)%nat -> (length B1 + n = IN6ADDRSZ)%nat -> (1 <= i)%nat ->
  shift_loop (length B1) n (seq i (length B2)) (B1 ++ B2 ++ replicate (i - 1) 0) =
    Some (B1 ++ replicate n 0).
Proof.
  revert i. induction B2 as [|x B2 IH] using rev_ind; intros i Hn Hc Hi.
  - simpl in Hn |- *. by replace (i - 1)%nat with n by lia.
  - rewrite length_app in Hn |- *. cbn [length] in Hn |- *.
    replace (length B2 + 1)%nat with (S (length B2)) by lia. cbn [seq shift_loop].
    replace (B1 ++ (B2 ++ [x]) ++ replicate (i - 1) 0)
      with ((B1 ++ B2) ++ x :: replicate (i - 1) 0) by (by rewrite <- !app_assoc).
    rewrite shift_step_self by (rewrite length_app; lia). cbn [mbind option_bind].
    replace ((B1 ++ B2) ++ 0 :: replicate (i - 1) 0) with (B1 ++ B2 ++ replicate (S i - 1) 0).
    + apply IH; lia.
    + rewrite <- app_assoc. do 2 f_equal. replace (S i - 1)%nat with (S (i - 1)) by lia. done.
Qed.

Lemma finish_full B c ct w :
  length B = 14%nat -> (c <= 14)%nat ->
  finish (mk B (Some c) ct true w) = Some (Some (take c B ++ replicate (16 - c) 0)).
Proof.
  intros HB Hc. unfold finish. cbn [saw_xdigit tp tmp val colonp mk].
  unfold IN6ADDRSZ, INT16SZ. rewrite (proj2 (Nat.ltb_ge _ _)) by lia.
  rewrite store16_mk by lia. cbn [mbind option_bind].
  assert (HB' : length (B ++ bytes_of w) = 16%nat) by (rewrite length_app; simpl; lia).
  replace (take c B) with (take c (B ++ bytes_of w)) by (rewrite take_app_le by lia; done).
  replace (length B + 2)%nat with 16%nat by lia. rewrite HB'.
  generalize dependent (B ++ bytes_of w). intros B' HB'. cbn [replicate Nat.sub]. rewrite app_nil_r.
  pose proof (shift_loop_self (take c B') (drop c B') 1 (16 - c)) as Hs.
  rewrite length_take_le, length_drop, HB' in Hs by lia.
  cbn [replicate Nat.sub] in Hs. rewrite app_nil_r, take_drop in Hs.
  rewrite Hs; [done|..]; unfold IN6ADDRSZ; lia.
Qed.
End FullGap.

(** Contrary to the comment "'::' in a full address is silently ignored",
    an address with all its eight words and a "::" between [W1] and [W2] is
    accepted with every word after the "::" cleared to zero. *)
Theorem inet_pton6_full_gap uninit W1 W2 :
  words_ok (W1 ++ W2) -> length (W1 ++ W2) = 8%nat -> W1 <> [] -> W2 <> [] ->
  inet_pton6 uninit (join W1 ++ COLON :: colon_words W2) =
    Some (Some (bytes_of_words W1 ++ replicate (2 * length W2) 0)).
Proof.
  intros Hw Hl H1 H2. apply Forall_app in Hw as [Hw1 Hw2]. rewrite length_app in Hl.
  destruct W1 as [|w W1]; [done|]. destruct W2 as [|x W2]; [done|].
  simpl join. rewrite inet_pton6_words. unfold Pton6.run. rewrite <- app_assoc.
  inversion Hw1 as [|? ? Hx Hws]; inversion Hw2 as [|? ? Hy Hwt]; subst.
  rewrite loop_word by done.
  edestruct (loop_colon_words uninit W1) as [ct1 ->]; [simpl in *; lia|done|].
  rewrite app_nil_l.
  rewrite loop_colon_word by (rewrite bytes_of_words_length, removelast_length_cons; simpl in Hl; lia).
  rewrite removelast_last_words.
  change (colon_words (x :: W2)) with ((COLON :: sprintf_x x) ++ colon_words W2).
  change ((COLON :: sprintf_x x) ++ colon_words W2) with (COLON :: sprintf_x x ++ colon_words W2).
  rewrite loop_colon_gap, loop_word by done.
  rewrite <- (app_nil_r (colon_words W2)).
  edestruct (loop_colon_words uninit W2 [] x (bytes_of_words (w :: W1))
    (Some (length (bytes_of_words (w :: W1))))) as [ct2 Hl2]; [rewrite bytes_of_words_length; simpl in *; lia|done|].
  rewrite Hl2. cbn [Pton6.loop mbind option_bind].
  pose proof (bytes_of_words_length (w :: W1)) as Hlen1. cbn [length] in Hl, Hlen1.
  rewrite finish_full.
  - rewrite take_app_length, Hlen1. do 4 f_equal. cbn [length]. lia.
  - rewrite length_app, !bytes_of_words_length, removelast_length_cons. cbn [length] in *. lia.
  - lia.
Qed.

Lemma inet_pton6_full_gap_witness :
  inet_pton6 0 (join [1; 2; 3; 4] ++ COLON :: colon_words [5; 6; 7; 8]) =
    Some (Some (bytes_of_words [1; 2; 3; 4] ++ replicate (2 * length [5; 6; 7; 8]) 0)).
Proof.
  apply (inet_pton6_full_gap 0 [1; 2; 3; 4] [5; 6; 7; 8]); try done.
  unfold words_ok; repeat constructor; lia.
Defined.

(** ** [inet_aton] *)

Section AtonProof.
Import Aton.

Lemma horner_wrap base ds v w : wrap w (horner base ds (wrap w v)) = wrap w (horner base ds v).
Proof.
  revert v. induction ds as [|d ds IH]; intros v; simpl; [apply wrap_wrap|].
  rewrite <- IH, <- (IH (v * base + d)). do 2 f_equal. unfold wrap.
  by rewrite Zplus_mod, Zmult_mod_idemp_l, <- Zplus_mod.
Qed.

Lemma aton_digits ds rest dts a ad :
  Forall (fun d => 0 <= d < 10) ds -> 0 <= a < 2 ^ 64 ->
  loop (map digit_char ds ++ rest) (St dts a ad) = loop rest (St dts (u64 (horner 10 ds a)) ad).
Proof.
  intros Hds. revert a. induction Hds as [|d ds Hd _ IH]; intros a Ha; simpl.
  - by rewrite wrap_small.
  - rewrite strchr_digit_char by done. rewrite IH by (apply wrap_range; lia).
    by rewrite horner_wrap.
Qed.

Lemma aton_dot rest dts a ad :
  loop (DOT :: rest) (St dts a ad) =
    if 3 <? dts + 1 then None
    else s' ← octet (St (dts + 1) a ad); loop rest s'.
Proof. reflexivity. Qed.

Lemma mapM_digits p ds :
  mapM (strchr digits) p = Some ds ->
  p = map digit_char ds /\ Forall (fun d => 0 <= d < 10) ds.
Proof.
  intros E. apply mapM_Some_1 in E. induction E as [|x d p ds Hd _ [-> IH]]; [done|].
  apply strchr_digits in Hd as [Hd ->]. split; [|by constructor].
  simpl. f_equal. unfold digit_char. case_match; bprop; lia.
Qed.

Lemma octet_value_digits p v :
  octet_value p = Some v ->
  exists ds, p = map digit_char ds /\ Forall (fun d => 0 <= d < 10) ds /\
    horner 10 ds 0 = v /\ 0 <= v <= 255.
Proof.
  unfold octet_value, octet_from. intros H. destruct p as [|c p]; [done|].
  destruct (mapM (strchr digits) (c :: p)) as [ds|] eqn:E; [|done]. simpl in H.
  pose proof (strchr_digits_nonneg _ _ E) as Hn. apply mapM_digits in E as [Hp Hr].
  destruct (Z.leb_spec (horner 10 ds 0) 255); [|done]. simplify_eq. exists ds.
  pose proof (horner_mono 10 ds 0 ltac:(lia) ltac:(lia) Hn). split_and!; try done; lia.
Qed.

Lemma split_dots_inv src p ps :
  split_dots src = p :: ps -> src = p ++ (ps ≫= fun q => DOT :: q).
Proof.
  revert p ps. induction src as [|c src IH]; intros p ps; simpl; [by intros [= <- <-]|].
  destruct (Z.eqb_spec c DOT) as [->|]; [intros [= <- <-]|].
  - destruct (split_dots_nonnil src) as (q & qs & E). rewrite E. simpl. f_equal. by apply IH.
  - destruct (split_dots_nonnil src) as (q & qs & E). rewrite E. intros [= <- <-].
    simpl. f_equal. by apply IH.
Qed.

(** An octet of at most 255 read by [inet_aton]. *)
Lemma aton_octet p v rest dts ad :
  octet_value p = Some v ->
  loop (p ++ rest) (St dts 0 ad) = loop rest (St dts v ad) /\ 0 <= v <= 255.
Proof.
  intros H. apply octet_value_digits in H as (ds & -> & Hr & Hv & Hb).
  rewrite aton_digits by (done || lia). by rewrite Hv, wrap_small by lia.
Qed.

Lemma aton_octet_dot v rest dts ad :
  0 <= v <= 255 -> dts < 3 ->
  loop (DOT :: rest) (St dts v ad) = loop rest (St (dts + 1) 0 (Z.lor (u64 (Z.shiftl ad 8)) v)).
Proof.
  intros Hv Hd. rewrite aton_dot, (proj2 (Z.ltb_ge 3 _)) by lia.
  unfold octet. simpl. by rewrite (proj2 (Z.ltb_ge 255 _)) by lia.
Qed.

Lemma aton_addr_step ad v k :
  0 <= k <= 48 -> 0 <= ad < 2 ^ k -> 0 <= v <= 255 ->
  Z.lor (u64 (Z.shiftl ad 8)) v = ad * 256 + v /\ 0 <= ad * 256 + v < 2 ^ (k + 8).
Proof.
  intros Hk Ha Hv. rewrite Z.pow_add_r by lia. change (2 ^ 8) with 256.
  assert (2 ^ k <= 2 ^ 48) by (apply Z.pow_le_mono_r; lia). simpl in *.
  rewrite wrap_small by (rewrite Z.shiftl_mul_pow2 by lia; simpl; lia).
  rewrite lor_shiftl_add by (simpl; lia). change (2 ^ 8) with 256. nia.
Qed.

Lemma be32_bytes_of a b c d :
  0 <= a <= 255 -> 0 <= b <= 255 -> 0 <= c <= 255 -> 0 <= d <= 255 ->
  be32_bytes (((a * 256 + b) * 256 + c) * 256 + d) = [a; b; c; d].
Proof.
  intros Ha Hb Hc Hd. unfold be32_bytes. rewrite !land_ff, !Z.shiftr_div_pow2 by lia.
  change (2 ^ 24) with 16777216. change (2 ^ 16) with 65536. change (2 ^ 8) with 256.
  repeat f_equal; Z.div_mod_to_equations; lia.
Qed.

Lemma aton_quad p0 p1 p2 p3 a b c d :
  octet_value p0 = Some a -> octet_value p1 = Some b ->
  octet_value p2 = Some c -> octet_value p3 = Some d ->
  inet_aton (p0 ++ DOT :: p1 ++ DOT :: p2 ++ DOT :: p3 ++ []) =
    Some (((a * 256 + b) * 256 + c) * 256 + d) /\
  be32_bytes (((a * 256 + b) * 256 + c) * 256 + d) = [a; b; c; d].
Proof.
  intros Ha Hb Hc Hd. unfold inet_aton.
  edestruct (aton_octet p0 a) as [-> Ra]; [done|]. rewrite aton_octet_dot by lia.
  edestruct (aton_octet p1 b) as [-> Rb]; [done|]. rewrite aton_octet_dot by lia.
  edestruct (aton_octet p2 c) as [-> Rc]; [done|]. rewrite aton_octet_dot by lia.
  edestruct (aton_octet p3 d) as [-> Rd]; [done|].
  split; [|by apply be32_bytes_of].
  simpl loop. unfold octet. simpl. rewrite (proj2 (Z.ltb_ge 255 d)) by lia.
  change (u64 (Z.shiftl 0 8)) with 0. rewrite Z.lor_0_l. simpl.
  destruct (aton_addr_step a b 8) as [-> R1]; [lia|simpl; lia|lia|].
  destruct (aton_addr_step (a * 256 + b) c 16) as [-> R2]; [lia|done|lia|].
  destruct (aton_addr_step ((a * 256 + b) * 256 + c) d 24) as [-> R3]; [lia|done|lia|].
  by rewrite wrap_small.
Qed.
End AtonProof.

(** On every dotted quad that [inet_pton4] accepts, the IPv4-only
    [inet_pton] built on [inet_aton] stores the same four bytes. *)
Theorem inet_pton_ipv4_agrees uninit src bs :
  inet_pton4 uninit src = Some (Some bs) -> inet_pton_ipv4 AF_INET src = (Ret 1, Some bs).
Proof.
  rewrite pton4_dotted_quad. intros [= H]. unfold dotted_quad in H.
  destruct (split_dots_nonnil src) as (p0 & ps & Hsplit). rewrite Hsplit in H.
  apply split_dots_inv in Hsplit as ->.
  destruct (mapM octet_value (p0 :: ps)) as [vs|] eqn:E; [|done]. simpl in H.
  destruct (Nat.eqb_spec (length vs) 4) as [Hl|]; [|done]. simplify_eq.
  apply mapM_Some_1 in E.
  destruct bs as [|a [|b [|c [|d [|]]]]]; try done.
  repeat match goal with H : Forall2 _ _ _ |- _ => inversion H; clear H; subst end.
  match goal with
  | H0 : octet_value p0 = _, H1 : octet_value ?p1 = Some b, H2 : octet_value ?p2 = Some c,
    H3 : octet_value ?p3 = Some d |- _ =>
      destruct (aton_quad p0 p1 p2 p3 a b c d H0 H1 H2 H3) as [Hat Hbe]
  end.
  unfold inet_pton_ipv4. rewrite decide_True by done. simpl.
  rewrite Hat. by rewrite Hbe.
Qed.

Lemma inet_pton_ipv4_agrees_witness :
  inet_pton_ipv4 AF_INET (cstr "172.16.254.1") = (Ret 1, Some [172; 16; 254; 1]).
Proof. apply (inet_pton_ipv4_agrees 3). vm_compute. reflexivity. Defined.

(** A string of one decimal number is accepted by [inet_aton] exactly when
    its value modulo 2^64 is at most 255 (so huge numbers that wrap around are
    taken), and it becomes the most significant byte of the address. *)
Theorem inet_aton_one_number ds :
  Forall (fun d => 0 <= d < 10) ds ->
  inet_aton (map digit_char ds) =
    let v := u64 (horner 10 ds 0) in
    if 255 <? v then None else Some (v * 2 ^ 24).
Proof.
  intros Hds. unfold inet_aton. rewrite <- (app_nil_r (map digit_char ds)).
  rewrite aton_digits by (done || lia). simpl. unfold Aton.octet. simpl.
  pose proof (wrap_range 64 (horner 10 ds 0) ltac:(lia)) as Hr.
  generalize dependent (u64 (horner 10 ds 0)). intros v Hr.
  destruct (Z.ltb_spec 255 v); [done|]. simpl.
  rewrite Z.lor_0_l, Z.shiftl_mul_pow2 by lia. change (2 ^ (8 * (3 - 0))) with 16777216.
  rewrite (wrap_small 64), (wrap_small 32) by lia. done.
Qed.

Lemma inet_aton_one_number_witness :
  inet_aton (map digit_char [1;8;4;4;6;7;4;4;0;7;3;7;0;9;5;5;1;6;2;6]) = Some (10 * 2 ^ 24).
Proof.
  rewrite (inet_aton_one_number [1;8;4;4;6;7;4;4;0;7;3;7;0;9;5;5;1;6;2;6]).
  - vm_compute. reflexivity.
  - repeat constructor; lia.
Defined.
