(* ===== verification/Cksum.v ===== *)
(** * The Internet checksum

    Model of src/UNPLearning/unpv13e/libfree/in_cksum.c ([in_cksum]) and of
    [checksum] in src/UNPLearning/notes/ping/myping.c.  The packet is the list of
    its bytes; a 16-bit word is loaded from two bytes in the byte order of the
    host, which is the parameter [be] ([true] for big endian).  The functions
    return [None] when they would read past the end of the packet. *)

From S2P Require Import Prelude.

Module Cksum.

(** The value of [*(uint16_t * )p] where [p] points at the bytes [b0], [b1], and
    the two bytes such a store writes. *)
Definition load16 (be : bool) (b0 b1 : Z) : Z := if be then b0 * 256 + b1 else b1 * 256 + b0.
Definition bytes16 (be : bool) (v : Z) : list Z :=
  if be then [v / 256; v mod 256] else [v mod 256; v / 256].
Definition swap16 (v : Z) : Z := (v mod 256) * 256 + v / 256.

(** The summation loop: what is left of the packet, [nleft] and [sum]. *)
Fixpoint sum_loop (be : bool) (w : list Z) (nleft sum : Z) {struct w} :
    option (list Z * Z * Z) :=
  if nleft >? 1 then
    match w with
    | b0 :: b1 :: w' => sum_loop be w' (nleft - 2) (u32 (sum + load16 be b0 b1))
    | _ => None
    end
  else Some (w, nleft, sum).

(** The odd byte goes in the first byte in memory of [answer]. *)
Definition odd_byte (be : bool) (w : list Z) (nleft sum : Z) : option Z :=
  if nleft =? 1 then
    b ← head w;
    Some (u32 (sum + load16 be b 0))
  else Some sum.

(** [sum = (sum >> 16) + (sum & 0xffff); sum += (sum >> 16); answer = ~sum]. *)
Definition fold_answer (sum : Z) : Z :=
  let sum1 := u32 (Z.shiftr sum 16 + Z.land sum 0xffff) in
  let sum2 := u32 (sum1 + Z.shiftr sum1 16) in
  u16 (Z.lnot sum2).

Definition in_cksum (be : bool) (addr : list Z) (len : Z) : option Z :=
  '(w, nleft, sum) ← sum_loop be addr len 0;
  sum' ← odd_byte be w nleft sum;
  Some (fold_answer sum').

(** The version of myping.c: the two halves are added in the other order. *)
Definition checksum (be : bool) (data : list Z) (datalen : Z) : option Z :=
  '(w, nleft, result) ← sum_loop be data datalen 0;
  result' ← odd_byte be w nleft result;
  let r1 := u32 (Z.land result' 0xffff + Z.shiftr result' 16) in
  let r2 := u32 (r1 + Z.shiftr r1 16) in
  Some (u16 (Z.lnot r2)).

(** ** The reference definition (RFC 1071): complement of the ones' complement
    sum of the 16-bit words, an odd last byte padded with a zero byte. *)

Fixpoint words (be : bool) (bs : list Z) : list Z :=
  match bs with
  | [] => []
  | [b] => [load16 be b 0]
  | b0 :: b1 :: bs' => load16 be b0 b1 :: words be bs'
  end.

Definition oc_add (x y : Z) : Z := let s := x + y in if s >? 65535 then s - 65535 else s.
Definition oc_sum (ws : list Z) : Z := foldr oc_add 0 ws.
Definition rfc1071 (be : bool) (bs : list Z) : Z := 65535 - oc_sum (words be bs).

Definition total (ws : list Z) : Z := foldr Z.add 0 ws.
(** The representative in 1..65535 (0 for 0) of a sum modulo 65535. *)
Definition norm (s : Z) : Z := if s =? 0 then 0 else (s - 1) mod 65535 + 1.

(** ** Arithmetic *)

Lemma norm_range s : 0 <= s -> 0 <= norm s <= 65535.
Proof.
  intros. unfold norm. bsplit; [lia|].
  pose proof (Z.mod_pos_bound (s - 1) 65535 ltac:(lia)). lia.
Qed.

(** [norm s] is the only value of 1..65535 congruent to a positive [s]. *)
Lemma norm_unique s r k : 0 < s -> 1 <= r <= 65535 -> s = r + 65535 * k -> norm s = r.
Proof.
  intros Hs Hr He. unfold norm. rewrite (proj2 (Z.eqb_neq s 0)) by lia.
  rewrite <- (Z.mod_unique (s - 1) 65535 k (r - 1)); lia.
Qed.

Lemma norm_congr s : 0 <= s -> exists k, 0 <= k /\ s = norm s + 65535 * k.
Proof.
  intros Hs. unfold norm. destruct (s =? 0) eqn:E; bprop; [exists 0; lia|].
  pose proof (Z.div_mod (s - 1) 65535 ltac:(lia)).
  exists ((s - 1) / 65535). split; [apply Z.div_pos; lia|lia].
Qed.

Lemma norm_zero s : 0 <= s -> norm s = 0 <-> s = 0.
Proof.
  intros Hs. unfold norm. destruct (s =? 0) eqn:E; bprop; [lia|].
  pose proof (Z.mod_pos_bound (s - 1) 65535 ltac:(lia)). lia.
Qed.

Lemma norm_eq s t k : 0 < s -> 0 < t -> s = t + 65535 * k -> norm s = norm t.
Proof.
  intros Hs Ht He. destruct (norm_congr t ltac:(lia)) as (j & Hj & Ej).
  pose proof (norm_range t ltac:(lia)). pose proof (norm_zero t ltac:(lia)).
  apply (norm_unique s _ (j + k)); lia.
Qed.

Lemma oc_add_norm x s : 0 <= x <= 65535 -> 0 <= s -> oc_add x (norm s) = norm (x + s).
Proof.
  intros Hx Hs. destruct (decide (x + s = 0)) as [E|E].
  { assert (x = 0) as -> by lia. assert (s = 0) as -> by lia. done. }
  destruct (norm_congr s Hs) as (k & Hk & Ek). pose proof (norm_range s Hs).
  pose proof (norm_zero s Hs). symmetry. unfold oc_add. cbn zeta.
  destruct (_ >? _) eqn:G; bprop.
  - apply (norm_unique _ _ (k + 1)); lia.
  - apply (norm_unique _ _ k); lia.
Qed.

Lemma total_nonneg ws : Forall (fun w => 0 <= w <= 65535) ws -> 0 <= total ws.
Proof. induction 1; simpl; [done|unfold total in *; lia]. Qed.

Lemma oc_sum_norm ws :
  Forall (fun w => 0 <= w <= 65535) ws -> oc_sum ws = norm (total ws).
Proof.
  induction 1 as [|w ws Hw Hws IH]; [done|].
  cbn [oc_sum foldr total] in *. unfold oc_sum in IH. rewrite IH.
  apply oc_add_norm; [done|]. by apply total_nonneg.
Qed.

Lemma fold_answer_norm s : 0 <= s < 2 ^ 32 -> fold_answer s = 65535 - norm s.
Proof.
  intros Hs. unfold fold_answer. rewrite land_ffff, !Z.shiftr_div_pow2 by lia.
  change (2 ^ 16) with 65536. set (hi := s / 65536). set (lo := s mod 65536).
  assert (Hd : s = 65536 * hi + lo) by (apply Z.div_mod; lia).
  assert (Hlo : 0 <= lo < 65536) by (apply Z.mod_pos_bound; lia).
  assert (Hhi : 0 <= hi < 65536).
  { split; [apply Z.div_pos; lia|]. apply Z.div_lt_upper_bound; lia. }
  clearbody hi lo. cbn zeta. rewrite (wrap_small 32 (hi + lo)) by lia.
  assert (Hn : forall z, Z.lnot z = - z - 1) by (intros; unfold Z.lnot; lia).
  destruct (Z.lt_ge_cases (hi + lo) 65536) as [H|H].
  - rewrite (Z.div_small (hi + lo)) by lia. rewrite Z.add_0_r, (wrap_small 32) by lia.
    assert (norm s = hi + lo) as ->.
    { destruct (decide (s = 0)); [unfold norm; bsplit; bprop; lia|].
      apply (norm_unique _ _ hi); lia. }
    rewrite Hn. unfold wrap. symmetry. apply (Z.mod_unique _ _ (-1)); lia.
  - assert ((hi + lo) / 65536 = 1) as -> by (symmetry; apply (Z.div_unique _ _ 1 (hi + lo - 65536)); lia).
    rewrite (wrap_small 32) by lia.
    assert (norm s = hi + lo - 65535) as -> by (apply (norm_unique _ _ (hi + 1)); lia).
    rewrite Hn. unfold wrap. symmetry. apply (Z.mod_unique _ _ (-2)); lia.
Qed.

Lemma load16_range be b0 b1 : is_byte b0 -> is_byte b1 -> 0 <= load16 be b0 b1 <= 65535.
Proof. unfold is_byte, load16. destruct be; lia. Qed.

(** ** The loop computes the sum of the words *)

Lemma list_pair_ind {A} (P : list A -> Prop) :
  P [] -> (forall a, P [a]) -> (forall a b l, P l -> P (a :: b :: l)) -> forall l, P l.
Proof.
  intros H0 H1 H2. enough (H : forall l, P l /\ forall a, P (a :: l)) by (intros; apply H).
  induction l as [|x l [IH1 IH2]]; split; auto.
Qed.

Lemma words_range be bs :
  Forall is_byte bs -> Forall (fun w => 0 <= w <= 65535) (words be bs).
Proof.
  induction bs as [|b|b0 b1 bs IH] using list_pair_ind; cbn [words]; intros H.
  - constructor.
  - inversion_clear H. constructor; [|done]. apply load16_range; [done|unfold is_byte; lia].
  - inversion_clear H as [|?? ? H']. inversion_clear H'.
    constructor; [by apply load16_range|auto].
Qed.

Lemma total_words_bound be bs :
  Forall is_byte bs -> total (words be bs) <= 65535 * ((Z.of_nat (length bs) + 1) / 2).
Proof.
  induction bs as [|b|b0 b1 bs IH] using list_pair_ind; cbn [words total foldr length]; intros H.
  - done.
  - inversion_clear H. pose proof (load16_range be b 0 ltac:(done) ltac:(unfold is_byte; lia)).
    change ((Z.of_nat 1 + 1) / 2) with 1. lia.
  - inversion_clear H as [|?? ? H']. inversion_clear H'.
    replace (Z.of_nat (S (S (length bs))) + 1) with (Z.of_nat (length bs) + 1 + 1 * 2) by lia.
    rewrite Z.div_add by lia. pose proof (load16_range be b0 b1 ltac:(done) ltac:(done)).
    unfold total in IH. specialize (IH ltac:(done)). lia.
Qed.

Lemma total_app l k : total (l ++ k) = total l + total k.
Proof. unfold total. induction l; simpl; lia. Qed.

(** The wrapping sum over the whole packet. *)
Lemma sum_loop_words be bs s :
  Forall is_byte bs -> 0 <= s -> s + total (words be bs) < 2 ^ 32 ->
  ('(w, nleft, sum) ← sum_loop be bs (Z.of_nat (length bs)) s; odd_byte be w nleft sum)
    = Some (s + total (words be bs)).
Proof.
  revert s. induction bs as [|b|b0 b1 bs IH] using list_pair_ind; intros s H Hs Hb.
  - change (total (words be [])) with 0. by rewrite Z.add_0_r.
  - replace (total (words be [b])) with (load16 be b 0) in * by (unfold total; simpl; lia).
    inversion_clear H.
    pose proof (load16_range be b 0 ltac:(done) ltac:(unfold is_byte; lia)).
    
    change (odd_byte be [b] 1 s = Some (s + load16 be b 0)).
    change (Some (u32 (s + load16 be b 0)) = Some (s + load16 be b 0)).
    by rewrite wrap_small by lia.
  - inversion_clear H as [|?? Hb0 H']. inversion_clear H' as [|?? Hb1 Hr].
    pose proof (load16_range be b0 b1 Hb0 Hb1).
    pose proof (total_nonneg _ (words_range be _ Hr)).
    cbn [words total foldr] in Hb |- *. fold (total (words be bs)) in Hb |- *.
    cbn [sum_loop]. cbn [length].
    replace (Z.of_nat (S (S (length bs))) >? 1) with true by (symmetry; rewrite Z.gtb_ltb, Z.ltb_lt; lia).
    replace (Z.of_nat (S (S (length bs))) - 2) with (Z.of_nat (length bs)) by lia.
    rewrite wrap_small by lia. rewrite IH by (done || lia). f_equal. lia.
Qed.

Lemma total_words_u32 be bs :
  Forall is_byte bs -> (length bs <= Nat.pow 2 17)%nat -> 0 <= total (words be bs) < 2 ^ 32.
Proof.
  intros Hb Hl. pose proof (total_nonneg _ (words_range be _ Hb)).
  pose proof (total_words_bound be _ Hb).
  assert (Z.of_nat (length bs) <= 131072).
  { apply inj_le in Hl. rewrite Nat2Z.inj_pow in Hl. exact Hl. }
  assert ((Z.of_nat (length bs) + 1) / 2 < 65537) by (apply Z.div_lt_upper_bound; lia). lia.
Qed.

Lemma in_cksum_norm be bs :
  Forall is_byte bs -> (length bs <= Nat.pow 2 17)%nat ->
  in_cksum be bs (Z.of_nat (length bs)) = Some (65535 - norm (total (words be bs))).
Proof.
  intros Hb Hl. pose proof (total_words_u32 be bs Hb Hl).
  unfold in_cksum. pose proof (sum_loop_words be bs 0 Hb ltac:(lia) ltac:(lia)) as E.
  destruct (sum_loop be bs _ 0) as [[[w nl] sum]|]; [|discriminate]. cbn in E |- *.
  rewrite E. cbn. by rewrite Z.add_0_l, fold_answer_norm by lia.
Qed.

Lemma checksum_in_cksum be bs len : checksum be bs len = in_cksum be bs len.
Proof.
  unfold checksum, in_cksum. destruct (sum_loop _ _ _ _) as [[[w nl] sum]|]; [|done]. cbn.
  destruct (odd_byte _ _ _ _); [|done]. cbn. unfold fold_answer.
  by rewrite (Z.add_comm (Z.land _ _)).
Qed.

Lemma in_cksum_rfc be bs :
  Forall is_byte bs -> (length bs <= Nat.pow 2 17)%nat ->
  in_cksum be bs (Z.of_nat (length bs)) = Some (rfc1071 be bs).
Proof.
  intros Hb Hl. rewrite in_cksum_norm by done.
  unfold rfc1071. by rewrite oc_sum_norm by (by apply words_range).
Qed.

(** ** Storing the checksum in the packet *)

(** [icmp->icmp_cksum = v]: a 16-bit store at an even offset. *)
Definition store16 (be : bool) (bs : list Z) (off : nat) (v : Z) : list Z :=
  match bytes16 be v with
  | [x; y] => <[S off := y]> (<[off := x]> bs)
  | _ => bs
  end.

Lemma load16_bytes16 be v : 0 <= v < 65536 ->
  exists x y, bytes16 be v = [x; y] /\ is_byte x /\ is_byte y /\ load16 be x y = v.
Proof.
  intros Hv. pose proof (Z.div_mod v 256 ltac:(lia)). pose proof (Z.mod_pos_bound v 256 ltac:(lia)).
  assert (0 <= v / 256 < 256) by (split; [apply Z.div_pos; lia|apply Z.div_lt_upper_bound; lia]).
  unfold bytes16, load16, is_byte. destruct be; do 2 eexists; repeat split; lia.
Qed.

Lemma store16_app be A x y B v :
  store16 be (A ++ x :: y :: B) (length A) v =
  A ++ bytes16 be v ++ B.
Proof.
  unfold store16, bytes16. destruct be; cbn [app];
    rewrite insert_app_mid, insert_app_r_alt by lia;
    replace (S (length A) - length A)%nat with 1%nat by lia; done.
Qed.

Lemma words_app be A B : Nat.Even (length A) -> words be (A ++ B) = words be A ++ words be B.
Proof.
  induction A as [|a|a b A IH] using list_pair_ind; intros He; [done| |].
  - destruct He as [k Hk]. simpl in Hk. lia.
  - cbn [app words]. f_equal. apply IH. destruct He as [k Hk]. simpl in Hk. exists (k - 1)%nat. lia.
Qed.

Lemma length_bytes16 be v : length (bytes16 be v) = 2%nat.
Proof. by destruct be. Qed.

Lemma words_bytes16 be v B : 0 <= v < 65536 -> words be (bytes16 be v ++ B) = v :: words be B.
Proof.
  intros Hv. destruct (load16_bytes16 be v Hv) as (x & y & -> & _ & _ & <-). done.
Qed.

Lemma bytes16_byte be v : 0 <= v < 65536 -> Forall is_byte (bytes16 be v).
Proof.
  intros Hv. destruct (load16_bytes16 be v Hv) as (x & y & -> & ? & ? & _). do 2 (constructor; [done|]); done.
Qed.

(** ** Byte order *)

Lemma swap16_load be b0 b1 : is_byte b0 -> is_byte b1 ->
  swap16 (load16 be b0 b1) = load16 (negb be) b0 b1.
Proof.
  unfold is_byte, swap16, load16. intros.
  assert (D : forall h l, 0 <= l < 256 -> (h * 256 + l) mod 256 = l /\ (h * 256 + l) / 256 = h).
  { intros h l Hl. rewrite Z.add_comm, Z.mod_add, Z.div_add, Z.mod_small, Z.div_small by lia. lia. }
  destruct be; simpl; [destruct (D b0 b1)|destruct (D b1 b0)]; lia.
Qed.

Lemma swap16_congr v : 0 <= v <= 65535 ->
  0 <= swap16 v <= 65535 /\ exists k, 256 * v = swap16 v + 65535 * k.
Proof.
  intros Hv. unfold swap16. pose proof (Z.div_mod v 256 ltac:(lia)).
  pose proof (Z.mod_pos_bound v 256 ltac:(lia)).
  assert (0 <= v / 256 < 256) by (split; [apply Z.div_pos; lia|apply Z.div_lt_upper_bound; lia]).
  split; [lia|]. exists (v / 256). lia.
Qed.

(** Reading the words in the other byte order multiplies the sum by 256 modulo
    65535. *)
Lemma total_swap be bs : Forall is_byte bs ->
  exists k, 256 * total (words be bs) = total (words (negb be) bs) + 65535 * k.
Proof.
  induction bs as [|b|b0 b1 bs IH] using list_pair_ind; intros Hb.
  - by exists 0.
  - inversion_clear Hb as [|?? Hb0 _]. cbn [words total foldr].
    assert (is_byte 0) by (unfold is_byte; lia).
    destruct (swap16_congr (load16 be b 0) (load16_range be _ _ Hb0 ltac:(done))) as [_ [k Hk]].
    rewrite swap16_load in Hk by done. exists k. lia.
  - inversion_clear Hb as [|?? Hb0 H']. inversion_clear H' as [|?? Hb1 Hr].
    destruct (IH Hr) as [j Hj].
    destruct (swap16_congr (load16 be b0 b1) (load16_range be _ _ Hb0 Hb1)) as [_ [k Hk]].
    rewrite swap16_load in Hk by done. cbn [words total foldr].
    unfold total in Hj. exists (j + k). lia.
Qed.

Lemma total_swap_zero be bs : Forall is_byte bs ->
  total (words be bs) = 0 -> total (words (negb be) bs) = 0.
Proof.
  induction bs as [|b|b0 b1 bs IH] using list_pair_ind; intros Hb; [done| |].
  - inversion_clear Hb as [|?? H0 _]. cbn [words total foldr]. unfold load16, is_byte in *.
    destruct be; simpl; lia.
  - inversion_clear Hb as [|?? H0 H']. inversion_clear H' as [|?? H1 Hr].
    pose proof (total_nonneg _ (words_range be _ Hr)) as Hn.
    cbn [words total foldr]. fold (total (words be bs)). fold (total (words (negb be) bs)).
    intros E. unfold load16, is_byte in *.
    rewrite IH by (done || destruct be; lia). destruct be; simpl in *; lia.
Qed.

Lemma norm_total_swap be bs : Forall is_byte bs ->
  norm (total (words (negb be) bs)) = swap16 (norm (total (words be bs))).
Proof.
  intros Hb.
  pose proof (total_nonneg _ (words_range be _ Hb)) as Hn.
  pose proof (total_nonneg _ (words_range (negb be) _ Hb)) as Hn'.
  destruct (decide (total (words be bs) = 0)) as [E|E].
  { by rewrite (total_swap_zero be bs Hb E), E. }
  assert (total (words (negb be) bs) <> 0) as E'.
  { intros H. apply E. rewrite <- (negb_involutive be). by apply total_swap_zero. }
  destruct (total_swap be bs Hb) as [k Hk].
  destruct (norm_congr _ Hn) as (j & Hj & Ej).
  pose proof (norm_range _ Hn) as Hr. pose proof (norm_zero _ Hn) as Hz.
  set (r := norm (total (words be bs))) in *.
  destruct (swap16_congr r Hr) as (Hs & i & Hi).
  assert (swap16 r <> 0).
  { unfold swap16 in *. pose proof (Z.div_mod r 256 ltac:(lia)).
    pose proof (Z.mod_pos_bound r 256 ltac:(lia)). pose proof (Z.div_pos r 256). lia. }
  apply (norm_unique _ _ (256 * j + i - k)); lia.
Qed.

Lemma bytes16_swap be v : 0 <= v <= 65535 -> bytes16 (negb be) (swap16 v) = bytes16 be v.
Proof.
  intros Hv. pose proof (Z.div_mod v 256 ltac:(lia)). pose proof (Z.mod_pos_bound v 256 ltac:(lia)).
  assert (0 <= v / 256 < 256) by (split; [apply Z.div_pos; lia|apply Z.div_lt_upper_bound; lia]).
  assert (swap16 v mod 256 = v / 256 /\ swap16 v / 256 = v mod 256) as [E1 E2].
  { unfold swap16. generalize dependent (v mod 256). generalize dependent (v / 256). intros q Hq m Hm Hq'.
    rewrite Z.add_comm, Z.mod_add, Z.div_add, Z.mod_small, Z.div_small by lia. lia. }
  unfold bytes16. by destruct be; simpl; rewrite E1, E2.
Qed.

Lemma swap16_compl v : 0 <= v <= 65535 -> swap16 (65535 - v) = 65535 - swap16 v.
Proof.
  intros Hv. unfold swap16. pose proof (Z.div_mod v 256 ltac:(lia)).
  pose proof (Z.mod_pos_bound v 256 ltac:(lia)).
  rewrite <- (Z.mod_unique (65535 - v) 256 (255 - v / 256) (255 - v mod 256)) by lia.
  rewrite <- (Z.div_unique (65535 - v) 256 (255 - v / 256) (255 - v mod 256)) by lia. lia.
Qed.

(** The receiver's sum over a packet that holds its checksum. *)
Lemma cksum_stored be A B c :
  Forall is_byte A -> Forall is_byte B -> Nat.Even (length A) ->
  le (length (A ++ 0 :: 0 :: B)) (Nat.pow 2 17) ->
  in_cksum be (A ++ 0 :: 0 :: B) (Z.of_nat (length (A ++ 0 :: 0 :: B))) = Some c ->
  in_cksum be (store16 be (A ++ 0 :: 0 :: B) (length A) c)
    (Z.of_nat (length (A ++ 0 :: 0 :: B))) = Some 0.
Proof.
  intros HA HB He Hl Hc.
  assert (Hz : Forall is_byte (A ++ 0 :: 0 :: B)).
  { apply Forall_app; split; [done|]. repeat (constructor; [unfold is_byte; lia|]). done. }
  rewrite in_cksum_norm in Hc by done. injection Hc as <-.
  pose proof (total_nonneg _ (words_range be _ Hz)) as Hn.
  pose proof (norm_range _ Hn) as Hr. pose proof (norm_congr _ Hn) as (k & Hk0 & Hk).
  set (T := total (words be (A ++ 0 :: 0 :: B))) in *.
  rewrite store16_app. replace (length (A ++ 0 :: 0 :: B))
    with (length (A ++ bytes16 be (65535 - norm T) ++ B)) in *
    by (rewrite !length_app, length_bytes16; simpl; lia).
  rewrite in_cksum_norm; [|by rewrite !Forall_app; auto using bytes16_byte with lia|done].
  rewrite words_app, words_bytes16, total_app by (done || lia).
  assert (ET : T = total (words be A) + total (words be B)).
  { unfold T. rewrite words_app, total_app by done. cbn [words].
    replace (load16 be 0 0) with 0 by (by destruct be). done. }
  cbn [total foldr]. fold (total (words be B)). f_equal.
  rewrite (norm_unique _ 65535 k); lia.
Qed.

(** ** The properties *)

(** C12: on every packet of at most 128 KiB, [in_cksum] (and [checksum], which is
    the same function) stays inside the packet, its 32-bit accumulator does not
    overflow, and the result is the RFC 1071 checksum: the complement of the
    ones' complement sum of the packet's 16-bit words. *)
Theorem in_cksum_rfc1071 be bs :
  Forall is_byte bs -> (length bs <= Nat.pow 2 17)%nat ->
  in_cksum be bs (Z.of_nat (length bs)) = Some (rfc1071 be bs) /\
  checksum be bs (Z.of_nat (length bs)) = Some (rfc1071 be bs).
Proof.
  intros Hb Hl. rewrite checksum_in_cksum. auto using in_cksum_rfc.
Qed.

Lemma in_cksum_rfc1071_witness :
  in_cksum false [0x45; 0x00; 0x12; 0xff; 0x07] (Z.of_nat 5) = Some (rfc1071 false [0x45; 0x00; 0x12; 0xff; 0x07]).
Proof.
  refine (proj1 (in_cksum_rfc1071 false [0x45; 0x00; 0x12; 0xff; 0x07] _ _)).
  - repeat (constructor; [unfold is_byte; lia|]). constructor.
  - apply Nat.leb_le. vm_compute. reflexivity.
Defined.

(** The receiver's check.  When the checksum of a packet whose checksum field
    (at an even offset) is zero is stored in that field, in the byte order of
    the host, [in_cksum] of the packet is 0. *)
Theorem in_cksum_verifies be A B c :
  Forall is_byte A -> Forall is_byte B -> Nat.Even (length A) ->
  le (length (A ++ 0 :: 0 :: B)) (Nat.pow 2 17) ->
  in_cksum be (A ++ 0 :: 0 :: B) (Z.of_nat (length (A ++ 0 :: 0 :: B))) = Some c ->
  in_cksum be (store16 be (A ++ 0 :: 0 :: B) (length A) c)
    (Z.of_nat (length (A ++ 0 :: 0 :: B))) = Some 0.
Proof. apply cksum_stored. Qed.

Lemma in_cksum_verifies_witness :
  in_cksum true (store16 true ([8; 0] ++ 0 :: 0 :: [0x12; 0x34; 0xff; 0xfe; 0x01]) 2 0xe4cc) 9 = Some 0.
Proof.
  refine (in_cksum_verifies true [8; 0] [0x12; 0x34; 0xff; 0xfe; 0x01] 0xe4cc _ _ _ _ _).
  - repeat (constructor; [unfold is_byte; lia|]). constructor.
  - repeat (constructor; [unfold is_byte; lia|]). constructor.
  - by exists 1%nat.
  - apply Nat.leb_le. vm_compute. reflexivity.
  - vm_compute. reflexivity.
Defined.

(** The checksum is independent of the byte order of the host: a big-endian
    and a little-endian host compute byte-swapped values of the same packet, so
    that the two bytes they store in it are the same. *)
Theorem in_cksum_byte_order be bs :
  Forall is_byte bs -> (length bs <= Nat.pow 2 17)%nat ->
  exists c c', in_cksum be bs (Z.of_nat (length bs)) = Some c /\
    in_cksum (negb be) bs (Z.of_nat (length bs)) = Some c' /\
    c' = swap16 c /\ bytes16 (negb be) c' = bytes16 be c.
Proof.
  intros Hb Hl. rewrite !in_cksum_norm by done. do 2 eexists. do 2 (split; [done|]).
  pose proof (norm_range _ (total_nonneg _ (words_range be _ Hb))).
  rewrite norm_total_swap, <- swap16_compl by done. split; [done|].
  apply bytes16_swap. lia.
Qed.

Lemma in_cksum_byte_order_witness :
  exists c c', in_cksum true [1; 2; 3] 3 = Some c /\
    in_cksum false [1; 2; 3] 3 = Some c' /\ c' = swap16 c /\ bytes16 false c' = bytes16 true c.
Proof.
  refine (in_cksum_byte_order true [1; 2; 3] _ _).
  - repeat (constructor; [unfold is_byte; lia|]). constructor.
  - apply Nat.leb_le. vm_compute. reflexivity.
Defined.

End Cksum.
