(* ===== verification/Ping.v ===== *)
(** * ICMP echo: the two ping programs

    Module [Myping] models src/UNPLearning/notes/ping/myping.c; module [UnpPing]
    models src/UNPLearning/unpv13e/ping (main.c, readloop.c, sig_alrm.c,
    send_v4.c, send_v6.c, proc_v4.c, proc_v6.c) with lib/tv_sub.c.  Both are
    event-driven: the events are the SIGALRM handler, which sends an echo
    request, and a message returned by recvmsg.  Buffers are lists of bytes, the
    byte order of the host is the parameter [be], [long] has 8 bytes. *)

From S2P Require Import Prelude Cksum.
From Stdlib Require Import Floats.SpecFloat.

(** [double] arithmetic (IEEE 754 binary64). *)
Definition double_of_int (z : Z) : spec_float := binary_normalize 53 1024 z 0 false.
Definition dmul : spec_float -> spec_float -> spec_float := SFmul 53 1024.
Definition dadd : spec_float -> spec_float -> spec_float := SFadd 53 1024.
Definition ddiv : spec_float -> spec_float -> spec_float := SFdiv 53 1024.

Record timeval := TV { tv_sec : Z; tv_usec : Z }.

#[global] Instance timeval_eq_dec : EqDecision timeval.
Proof. solve_decision. Defined.

(** The 16 bytes of a [struct timeval] and back. *)
Definition store_timeval (be : bool) (tv : timeval) : list Z :=
  store_bytes be 8 (tv_sec tv) ++ store_bytes be 8 (tv_usec tv).
Definition load_timeval (be : bool) (bs : list Z) : timeval :=
  TV (s64 (load_bytes be (take 8 bs))) (s64 (load_bytes be (drop 8 bs))).

Definition wf_timeval (tv : timeval) : Prop :=
  0 <= tv_sec tv < 2 ^ 53 /\ 0 <= tv_usec tv < 1000000.
Definition micros (tv : timeval) : Z := tv_sec tv * 1000000 + tv_usec tv.

#[global] Instance wf_timeval_dec tv : Decision (wf_timeval tv).
Proof. unfold wf_timeval. apply _. Defined.

Definition ICMP_ECHOREPLY : Z := 0.
Definition ICMP_ECHO : Z := 8.
Definition IPPROTO_ICMP : Z := 1.
Definition ICMP6_ECHO_REQUEST : Z := 128.
Definition ICMP6_ECHO_REPLY : Z := 129.

(** The address of a peer, as far as the programs distinguish addresses. *)
Definition address : Type := list Z.

#[global] Instance address_eq_dec : EqDecision address.
Proof. unfold address. apply _. Defined.

Lemma length_store_timeval be tv : length (store_timeval be tv) = 16%nat.
Proof. unfold store_timeval. by rewrite length_app, !length_store_bytes. Qed.

(** Side conditions of [read_at_eq] and [write_at_eq]: the shape of the buffer and
    the lengths of its blocks. *)
Ltac block :=
  first [ by rewrite <- ?app_assoc, ?app_nil_r
        | rewrite ?length_app, ?length_store_bytes, ?length_replicate, ?length_store_timeval;
          cbn [length]; lia ].

Lemma load_store_timeval be tv : wf_timeval tv -> load_timeval be (store_timeval be tv) = tv.
Proof.
  intros [Hs Hu]. unfold load_timeval, store_timeval.
  rewrite take_app_length', drop_app_length' by (by rewrite length_store_bytes).
  rewrite !load_store_bytes. change (8 * Z.of_nat 8) with 64. destruct tv as [sec us]; simpl in *.
  rewrite !(wrap_small 64) by lia. rewrite !swrap_small by lia. done.
Qed.

(** ** The echo request as a block of bytes

    What follows the checksum, the whole message, and the stores that both
    programs use to build it in a buffer of at least 64 bytes. *)
Definition frame_tail (be : bool) (id sq : Z) (now : timeval) : list Z :=
  store_bytes be 2 id ++ store_bytes be 2 sq ++ store_timeval be now ++ replicate 40 0xa5.
Definition echo_request (be : bool) (ty id sq : Z) (now : timeval) (ck : list Z) : list Z :=
  [ty; 0] ++ ck ++ frame_tail be id sq now.

Lemma length_frame_tail be id sq now : length (frame_tail be id sq now) = 60%nat.
Proof.
  unfold frame_tail.
  by rewrite !length_app, !length_store_bytes, length_store_timeval, length_replicate.
Qed.

Lemma frame_tail_byte be id sq now : Forall is_byte (frame_tail be id sq now).
Proof.
  unfold frame_tail, store_timeval. rewrite !Forall_app.
  repeat split; auto using store_bytes_byte. apply Forall_replicate. unfold is_byte; lia.
Qed.

Lemma length_echo_request be ty id sq now ck :
  length ck = 2%nat -> length (echo_request be ty id sq now ck) = 64%nat.
Proof. intros H. unfold echo_request. by rewrite !length_app, length_frame_tail, H. Qed.

Lemma echo_request_byte be ty id sq now ck :
  is_byte ty -> Forall is_byte ck -> Forall is_byte (echo_request be ty id sq now ck).
Proof.
  intros Ht H. unfold echo_request. rewrite !Forall_app. repeat split; auto using frame_tail_byte.
  repeat (constructor; [done || (unfold is_byte; lia)|]). constructor.
Qed.

Lemma drop_echo_request be ty id sq now ck :
  length ck = 2%nat -> drop 4 (echo_request be ty id sq now ck) = frame_tail be id sq now.
Proof. intros H. destruct ck as [|a [|b [|]]]; try discriminate. done. Qed.

(** The stores up to the time stamp, in front of any continuation [k]. *)
Lemma echo_stores be ty buf id sq now rest :
  length buf = 64%nat ->
  exists ck, length ck = 2%nat /\ forall A (k : list Z -> option A),
    (b ← write_at (buf ++ rest) 0 [ty];
     b ← write_at b 1 [0];
     b ← write_at b 4 (store_bytes be 2 id);
     b ← write_at b 6 (store_bytes be 2 sq);
     b ← write_at b 8 (replicate 56 0xa5);
     b ← write_at b 8 (store_timeval be now);
     k b) = k (echo_request be ty id sq now ck ++ rest).
Proof.
  intros Hl.
  destruct (split_length buf 1 63 Hl) as (t & buf1 & -> & Ht & Hl1).
  destruct (split_length buf1 1 62 Hl1) as (c & buf2 & -> & Hc & Hl2).
  destruct (split_length buf2 2 60 Hl2) as (ck & buf3 & -> & Hk & Hl3).
  destruct (split_length buf3 2 58 Hl3) as (i & buf4 & -> & Hi & Hl4).
  destruct (split_length buf4 2 56 Hl4) as (q & da & -> & Hs & Hd).
  exists ck. split; [done|]. intros A k. unfold echo_request, frame_tail.
  set (I := store_bytes be 2 id). set (Q := store_bytes be 2 sq).
  assert (LI : length I = 2%nat) by apply length_store_bytes.
  assert (LQ : length Q = 2%nat) by apply length_store_bytes.
  rewrite (write_at_eq _ [] t (c ++ ck ++ i ++ q ++ da ++ rest) 0) by block. cbn [mbind option_bind].
  rewrite (write_at_eq _ [ty] c (ck ++ i ++ q ++ da ++ rest) 1) by block. cbn [mbind option_bind].
  rewrite (write_at_eq _ ([ty; 0] ++ ck) i (q ++ da ++ rest) 4) by block. cbn [mbind option_bind].
  rewrite (write_at_eq _ ([ty; 0] ++ ck ++ I) q (da ++ rest) 6) by block. cbn [mbind option_bind].
  rewrite (write_at_eq _ ([ty; 0] ++ ck ++ I ++ Q) da rest 8) by block. cbn [mbind option_bind].
  rewrite (write_at_eq _ ([ty; 0] ++ ck ++ I ++ Q) (replicate 16 0xa5) (replicate 40 0xa5 ++ rest) 8) by block.
  cbn [mbind option_bind]. f_equal. by rewrite <- !app_assoc.
Qed.

(** Clearing the checksum field and storing a value there. *)
Lemma echo_set_cksum be ty id sq now ck ck' rest : length ck = 2%nat -> length ck' = 2%nat ->
  write_at (echo_request be ty id sq now ck ++ rest) 2 ck' =
  Some (echo_request be ty id sq now ck' ++ rest).
Proof.
  intros H H'. unfold echo_request.
  rewrite (write_at_eq _ [ty; 0] ck (frame_tail be id sq now ++ rest) 2) by block.
  by rewrite <- !app_assoc.
Qed.

(** The checksum of the message, stored in it, makes the receiver's sum vanish. *)
Lemma echo_cksum be ty id sq now : is_byte ty ->
  exists c, Cksum.in_cksum be (echo_request be ty id sq now [0; 0]) 64 = Some c /\
    Cksum.in_cksum be (echo_request be ty id sq now (Cksum.bytes16 be c)) 64 = Some 0.
Proof.
  intros Hty. exists (Cksum.rfc1071 be (echo_request be ty id sq now [0; 0])).
  pose proof (length_echo_request be ty id sq now [0; 0] eq_refl) as HL.
  assert (HB : Forall is_byte (echo_request be ty id sq now [0; 0])).
  { apply echo_request_byte; [done|]. repeat (constructor; [unfold is_byte; lia|]). constructor. }
  assert (Hc : Cksum.in_cksum be (echo_request be ty id sq now [0; 0]) 64 =
    Some (Cksum.rfc1071 be (echo_request be ty id sq now [0; 0]))).
  { change 64 with (Z.of_nat 64). rewrite <- HL at 1.
    apply Cksum.in_cksum_rfc; [done|]. rewrite HL. apply Nat.leb_le. by vm_compute. }
  split; [done|]. set (c := Cksum.rfc1071 _ _) in *.
  pose proof (Cksum.cksum_stored be [ty; 0] (frame_tail be id sq now) c) as H.
  rewrite Cksum.store16_app in H.
  replace (length ([ty; 0] ++ 0 :: 0 :: frame_tail be id sq now)) with 64%nat in H
    by (simpl; by rewrite length_frame_tail).
  apply H; [|apply frame_tail_byte|by exists 1%nat|apply Nat.leb_le; by vm_compute|exact Hc].
  repeat (constructor; [done || (unfold is_byte; lia)|]). constructor.
Qed.

Module Myping.

Definition SENDBUFFER_LEN : nat := 64.
Definition RECVBUFFER_LEN : nat := 1500.

(** [struct pingType pingInfo]; [pid] is a [short]. *)
Record pingType := PingInfo { addr : address; pid : Z; seqNum : Z }.

(** The initialisation in [main] for the address found and the value of getpid(). *)
Definition init_info (ai_addr : address) (getpid : Z) : pingType :=
  PingInfo ai_addr (s16 (Z.land getpid 0xffff)) 1.

Definition getTime (curtime oldtime : timeval) : Z :=
  let result := u64 ((tv_sec curtime - tv_sec oldtime) * 1000) in
  u64 (result + u64 (Z.quot (tv_usec curtime - tv_usec oldtime) 1000)).

(** The stores of [sendFrame] into [sendbuffer], whose initial contents are [buf]. *)
Definition build_frame (be : bool) (buf : list Z) (p : pingType) (now : timeval) :
    option (list Z) :=
  b ← write_at buf 0 [ICMP_ECHO];
  b ← write_at b 1 [0];
  b ← write_at b 4 (store_bytes be 2 (pid p));
  b ← write_at b 6 (store_bytes be 2 (seqNum p));
  b ← write_at b 8 (replicate (SENDBUFFER_LEN - 8) 0xa5);
  b ← write_at b 8 (store_timeval be now);
  b ← write_at b 2 [0; 0];
  c ← Cksum.checksum be b (Z.of_nat SENDBUFFER_LEN);
  write_at b 2 (Cksum.bytes16 be c).

(** What [recvFrame] prints for an accepted reply. *)
Record report := Report { r_from : address; r_seq : Z; r_ttl : Z; r_time : Z }.

(** The body of the loop of [recvFrame] after recvmsg: [None] is a read outside
    [recvBuffer], [Some None] is [continue]. *)
Definition recv_frame (be : bool) (recvBuffer : list Z) (p : pingType) (curtime : timeval) :
    option (option report) :=
  ip0 ← recvBuffer !! 0%nat;
  let len := Z.to_nat (Z.shiftl (Z.land ip0 0xf) 2) in
  icmp_type ← recvBuffer !! len;
  id ← read_at recvBuffer (len + 4) 2;
  if negb (icmp_type =? ICMP_ECHOREPLY) || negb (load_bytes be id =? pid p) then Some None
  else
    old ← read_at recvBuffer (len + 8) 16;
    sq ← read_at recvBuffer (len + 6) 2;
    ttl ← recvBuffer !! 8%nat;
    Some (Some (Report (addr p) (load_bytes be sq) ttl
                  (getTime curtime (load_timeval be old)))).

(** ** The running program *)

Record state := St {
  info : pingType;
  recvBuffer : list Z;
  alarm_set : bool;
  sent : list (address * list Z);     (* most recent first *)
  printed : list report               (* most recent first *)
}.

Inductive event :=
(** SIGALRM: the contents of the handler's stack buffer, the answer of
    gettimeofday and whether sendmsg succeeds. *)
| EvAlarm (stack : list Z) (now : option timeval) (send_ok : bool)
(** recvmsg returns: -1, or the datagram and the address of its sender. *)
| EvRecv (r : option (list Z * address)) (curtime : timeval).

Definition set_seqNum (p : pingType) (n : Z) : pingType := PingInfo (addr p) (pid p) n.
Definition set_addr (p : pingType) (a : address) : pingType := PingInfo a (pid p) (seqNum p).

(** [sendFrame]. *)
Definition sendFrame (be : bool) (s : state) (stack : list Z) (now : option timeval)
    (send_ok : bool) : option (outcome state) :=
  match now with
  | None => Some (Exit (-1))
  | Some tv =>
      frame ← build_frame be stack (info s) tv;
      if send_ok then
        Some (Ret (St (set_seqNum (info s) (s32 (seqNum (info s) + 1))) (recvBuffer s) true
                     ((addr (info s), frame) :: sent s) (printed s)))
      else Some (Exit (-1))
  end.

(** recvmsg with [msg_name = pingInfo.addr]: the datagram goes to the start of
    [recvBuffer], cut to its size, and the sender's address to [*pingInfo.addr]. *)
Definition recvmsg (s : state) (d : list Z) (from : address) : state :=
  let bs := take RECVBUFFER_LEN d in
  St (set_addr (info s) from) (bs ++ drop (length bs) (recvBuffer s))
     (alarm_set s) (sent s) (printed s).

Definition recvFrame (be : bool) (s : state) (r : option (list Z * address)) (curtime : timeval) :
    option (outcome state) :=
  match r with
  | None => Some (Exit (-1))
  | Some (d, from) =>
      let s1 := recvmsg s d from in
      o ← recv_frame be (recvBuffer s1) (info s1) curtime;
      match o with
      | None => Some (Ret s1)
      | Some rep => Some (Ret (St (info s1) (recvBuffer s1) (alarm_set s1) (sent s1)
                                 (rep :: printed s1)))
      end
  end.

Definition step (be : bool) (s : state) (e : event) : option (outcome state) :=
  match e with
  | EvAlarm stack now ok => sendFrame be s stack now ok
  | EvRecv r curtime => recvFrame be s r curtime
  end.

(** [main] after the address was looked up: the alarm is set, [recvFrame] loops. *)
Definition init (ai_addr : address) (getpid : Z) (uninit : list Z) : state :=
  St (init_info ai_addr getpid) uninit true [] [].

(** ** The frame that is sent *)

Lemma build_frame_ok be buf p now :
  length buf = SENDBUFFER_LEN ->
  exists c, build_frame be buf p now =
      Some (echo_request be ICMP_ECHO (pid p) (seqNum p) now (Cksum.bytes16 be c)) /\
    Cksum.in_cksum be (echo_request be ICMP_ECHO (pid p) (seqNum p) now (Cksum.bytes16 be c)) 64 = Some 0.
Proof.
  intros Hl. destruct (echo_cksum be ICMP_ECHO (pid p) (seqNum p) now) as (c & Hc & Hv).
  { unfold is_byte, ICMP_ECHO; lia. }
  destruct (echo_stores be ICMP_ECHO buf (pid p) (seqNum p) now [] Hl) as (ck & Hk & E).
  exists c. split; [|done]. unfold build_frame. rewrite <- (app_nil_r buf).
  change (SENDBUFFER_LEN - 8)%nat with 56%nat. rewrite E, echo_set_cksum by done.
  cbn [mbind option_bind]. rewrite app_nil_r, Cksum.checksum_in_cksum.
  change (Z.of_nat SENDBUFFER_LEN) with 64. rewrite Hc. cbn [mbind option_bind].
  rewrite <- (app_nil_r (echo_request be ICMP_ECHO (pid p) (seqNum p) now [0; 0])).
  rewrite echo_set_cksum by (done || apply Cksum.length_bytes16). by rewrite app_nil_r.
Qed.

(** ** The reply *)

(** The IP datagram that answers a request: an IP header and the request with its
    type changed to ECHOREPLY and another checksum. *)
Definition reply_to (hdr ck : list Z) (frame : list Z) : list Z :=
  hdr ++ [ICMP_ECHOREPLY; 0] ++ ck ++ drop 4 frame.

(** An IP header of [hl] words. *)
Definition ip_header (hdr : list Z) (ttl : Z) : Prop :=
  exists b0 hl, head hdr = Some b0 /\ Z.land b0 0xf = Z.of_nat hl /\ (5 <= hl)%nat /\
    length hdr = (4 * hl)%nat /\ hdr !! 8%nat = Some ttl.

Lemma ip_header_len hdr ttl rest : ip_header hdr ttl ->
  exists b0, (hdr ++ rest) !! 0%nat = Some b0 /\
    Z.to_nat (Z.shiftl (Z.land b0 0xf) 2) = length hdr /\ (hdr ++ rest) !! 8%nat = Some ttl.
Proof.
  intros (b0 & hl & Hh & Hl & H5 & Hn & Ht). exists b0.
  destruct hdr as [|x hdr]; [done|]. injection Hh as ->. split; [done|].
  rewrite Hl, Z.shiftl_mul_pow2, Hn by lia. split; [lia|]. by apply lookup_app_l_Some.
Qed.

Lemma getTime_ms cur old :
  wf_timeval cur -> wf_timeval old -> micros old <= micros cur ->
  Z.abs (1000 * getTime cur old - (micros cur - micros old)) < 1000.
Proof.
  unfold wf_timeval, micros, getTime. intros [Hc1 Hc2] [Ho1 Ho2] Hle. cbn zeta.
  set (ds := tv_sec cur - tv_sec old). set (du := tv_usec cur - tv_usec old).
  assert (Eds : ds = tv_sec cur - tv_sec old) by done.
  assert (Edu : du = tv_usec cur - tv_usec old) by done. clearbody ds du.
  pose proof (Z.quot_rem' du 1000). pose proof (Z.rem_bound_abs du 1000 ltac:(lia)).
  set (q := Z.quot du 1000) in *. set (r := Z.rem du 1000) in *.
  assert (E : u64 (u64 (ds * 1000) + u64 q) = ds * 1000 + q).
  { unfold wrap. rewrite <- Zplus_mod. apply Z.mod_small. lia. }
  rewrite E. lia.
Qed.

(** The comparison of [icmp_id], a [uint16_t], with the [short pid]. *)
Lemma pid_compare be g :
  (load_bytes be (store_bytes be 2 (s16 (Z.land g 0xffff))) =? s16 (Z.land g 0xffff))
    = (g mod 65536 <? 32768).
Proof.
  rewrite load_store_bytes. change (8 * Z.of_nat 2) with 16. rewrite land_ffff.
  pose proof (Z.mod_pos_bound g 65536 ltac:(lia)). set (p := g mod 65536) in *.
  unfold swrap. rewrite (wrap_small 16 p) by lia. cbn zeta. change (2 ^ (16 - 1)) with 32768.
  change (2 ^ 16) with 65536.
  destruct (p <? 32768) eqn:E; bprop.
  - rewrite wrap_small by lia. apply Z.eqb_refl.
  - apply Z.eqb_neq. pose proof (wrap_range 16 (p - 65536) ltac:(lia)). lia.
Qed.

Lemma recv_reply be ty hdr ttl ck ck' p q now rest cur :
  ip_header hdr ttl -> length ck = 2%nat -> length ck' = 2%nat -> wf_timeval now ->
  recv_frame be (reply_to hdr ck (echo_request be ty (pid q) (seqNum q) now ck') ++ rest) p cur =
  Some (if load_bytes be (store_bytes be 2 (pid q)) =? pid p
        then Some (Report (addr p) (u16 (seqNum q)) ttl (getTime cur now)) else None).
Proof.
  intros Hh Hk Hk' Hw. unfold recv_frame, reply_to. rewrite drop_echo_request by done.
  unfold frame_tail. rewrite <- !app_assoc.
  set (body := [ICMP_ECHOREPLY; 0] ++ _).
  destruct (ip_header_len hdr ttl body Hh) as (b0 & E0 & El & Et). unfold body in *.
  pose proof (length_store_bytes be 2 (pid q)) as L1.
  pose proof (length_store_bytes be 2 (seqNum q)) as L2.
  rewrite E0. cbn [mbind option_bind]. rewrite El, (lookup_app_r hdr _ (length hdr)), Nat.sub_diag by lia.
  cbn [mbind option_bind lookup list_lookup app].
  rewrite (read_at_eq _ (hdr ++ [ICMP_ECHOREPLY; 0] ++ ck) (store_bytes be 2 (pid q))
    (store_bytes be 2 (seqNum q) ++ store_timeval be now ++ replicate 40 0xa5 ++ rest) (length hdr + 4)) by block.
  rewrite (read_at_eq _ (hdr ++ [ICMP_ECHOREPLY; 0] ++ ck ++ store_bytes be 2 (pid q) ++ store_bytes be 2 (seqNum q))
    (store_timeval be now) (replicate 40 0xa5 ++ rest) (length hdr + 8)) by block.
  rewrite (read_at_eq _ (hdr ++ [ICMP_ECHOREPLY; 0] ++ ck ++ store_bytes be 2 (pid q)) (store_bytes be 2 (seqNum q))
    (store_timeval be now ++ replicate 40 0xa5 ++ rest) (length hdr + 6)) by block.
  cbn [mbind option_bind]. rewrite Z.eqb_refl. cbn [negb orb].
  destruct (_ =? _); [|done]. cbn [negb]. cbn [app] in Et. rewrite Et. cbn [mbind option_bind].
  rewrite load_store_timeval, load_store_bytes by done. done.
Qed.

(** ** The properties *)

(** The echo request of [sendFrame] does not depend on what was on its stack:
    it is the 64-byte ICMP ECHO with the identifier, the sequence number and
    the time stamp of the call, its checksum verifies, it goes to
    [pingInfo.addr], the sequence number advances and the alarm is set again. *)
Theorem sendFrame_packet be s stack now :
  length stack = SENDBUFFER_LEN ->
  exists ck frame,
    frame = echo_request be ICMP_ECHO (pid (info s)) (seqNum (info s)) now ck /\
    length ck = 2%nat /\ length frame = SENDBUFFER_LEN /\
    Cksum.in_cksum be frame (Z.of_nat SENDBUFFER_LEN) = Some 0 /\
    step be s (EvAlarm stack (Some now) true) =
      Some (Ret (St (set_seqNum (info s) (s32 (seqNum (info s) + 1))) (recvBuffer s) true
                   ((addr (info s), frame) :: sent s) (printed s))).
Proof.
  intros Hl. destruct (build_frame_ok be stack (info s) now Hl) as (c & Hb & Hv).
  do 2 eexists. split; [reflexivity|].
  split; [apply Cksum.length_bytes16|]. split; [apply length_echo_request, Cksum.length_bytes16|].
  split; [exact Hv|]. unfold step, sendFrame. by rewrite Hb.
Qed.

Lemma sendFrame_packet_witness :
  exists ck frame, frame = echo_request false ICMP_ECHO 77 1 (TV 5 6) ck /\
    length ck = 2%nat /\ length frame = SENDBUFFER_LEN /\
    Cksum.in_cksum false frame (Z.of_nat SENDBUFFER_LEN) = Some 0 /\
    step false (init [127; 0; 0; 1] 77 []) (EvAlarm (replicate 64 1) (Some (TV 5 6)) true) =
      Some (Ret (St (PingInfo [127; 0; 0; 1] 77 2) [] true [([127; 0; 0; 1], frame)] [])).
Proof.
  refine (sendFrame_packet false (init [127; 0; 0; 1] 77 []) (replicate 64 1) (TV 5 6) _).
  reflexivity.
Defined.

Lemma ip_header_short hdr ttl : ip_header hdr ttl -> (length hdr <= 60)%nat.
Proof.
  intros (b0 & hl & _ & Hl & _ & -> & _).
  pose proof (Z.land_ones b0 4 ltac:(lia)) as E. change (Z.ones 4) with 0xf in E.
  pose proof (Z.mod_pos_bound b0 (2 ^ 4) ltac:(lia)). lia.
Qed.

Lemma length_reply_to hdr ck be ty id sq now ck' : length ck = 2%nat -> length ck' = 2%nat ->
  length (reply_to hdr ck (echo_request be ty id sq now ck')) = (length hdr + 64)%nat.
Proof.
  intros H H'. unfold reply_to.
  rewrite drop_echo_request, !length_app, length_frame_tail, H by done. simpl. lia.
Qed.

(** C18: a request and its reply.  When the answer to an echo request of this
    process arrives, [recvFrame] prints its sequence number, the time to live and
    the round-trip time in milliseconds, correct to less than a millisecond, but
    only when the low 16 bits of the process id are below 0x8000: otherwise the
    [short] pid is negative, no 16-bit identifier equals it, and the program
    ignores every reply. *)
Theorem ping_reply be ty s g seq now cur ck ck' hdr ttl from :
  pid (info s) = s16 (Z.land g 0xffff) ->
  ip_header hdr ttl -> length ck = 2%nat -> length ck' = 2%nat ->
  wf_timeval now -> wf_timeval cur -> micros now <= micros cur ->
  exists s' ms,
    step be s (EvRecv (Some (reply_to hdr ck
      (echo_request be ty (pid (info s)) seq now ck'), from)) cur) = Some (Ret s') /\
    printed s' = (if g mod 65536 <? 32768 then [Report from (u16 seq) ttl ms] else [])
                   ++ printed s /\
    Z.abs (1000 * ms - (micros cur - micros now)) < 1000.
Proof.
  intros Hp Hh Hk Hk' Hn Hc Hle.
  pose proof (ip_header_short _ _ Hh) as Hsh. 
  pose proof (length_reply_to hdr ck be ty (pid (info s)) seq now ck' Hk Hk') as HL.
  unfold step, recvFrame, recvmsg. rewrite take_ge by (unfold RECVBUFFER_LEN; lia).
  cbn [info recvBuffer set_addr]. rewrite (recv_reply _ ty hdr ttl ck ck' _ (PingInfo [] (pid (info s)) seq)) by done. cbn [pid seqNum addr set_addr].
  rewrite Hp, pid_compare. cbn [mbind option_bind].
  destruct (g mod 65536 <? 32768); do 2 eexists; (split; [reflexivity|]); (split; [reflexivity|]);
    by apply getTime_ms.
Qed.

Definition sample_header : list Z :=
  [0x45; 0; 0; 84; 0; 0; 0; 0; 64; 1; 0; 0; 127; 0; 0; 1; 127; 0; 0; 1].

Lemma ping_reply_witness :
  exists s' ms,
    step false (init [127; 0; 0; 1] 0x19000 (replicate 1500 0)) (EvRecv (Some (reply_to sample_header [7; 7]
      (echo_request false ICMP_ECHO (s16 0x9000) 3 (TV 1 999000) [1; 2]), [127; 0; 0; 1])) (TV 2 500)) = Some (Ret s') /\
    printed s' = [] ++ [] /\ Z.abs (1000 * ms - (2000500 - 1999000)) < 1000.
Proof.
  refine (ping_reply false ICMP_ECHO (init [127; 0; 0; 1] 0x19000 (replicate 1500 0)) 0x19000 3
            (TV 1 999000) (TV 2 500) [7; 7] [1; 2] sample_header 64 [127; 0; 0; 1] _ _ _ _ _ _ _).
  - reflexivity.
  - exists 0x45, 5%nat. repeat split. lia.
  - reflexivity.
  - reflexivity.
  - unfold wf_timeval; simpl; lia.
  - unfold wf_timeval; simpl; lia.
  - unfold micros; simpl; lia.
Defined.

(** The destination of the next echo request is the sender of the last
    datagram received, whatever that datagram was: recvmsg stores the sender's
    address in [*pingInfo.addr], which is also the destination. *)
Theorem ping_target be s d from cur s1 stack now s2 :
  step be s (EvRecv (Some (d, from)) cur) = Some (Ret s1) ->
  step be s1 (EvAlarm stack now true) = Some (Ret s2) ->
  exists frame, sent s2 = (from, frame) :: sent s.
Proof.
  intros H1 H2. assert (Ha : addr (info s1) = from /\ sent s1 = sent s).
  { unfold step, recvFrame in H1. destruct (recv_frame _ _ _ _) as [[rep|]|]; [..|done];
      injection H1 as <-; done. }
  destruct Ha as [Ha Hs]. unfold step, sendFrame in H2. destruct now as [tv|]; [|done].
  destruct (build_frame _ _ _ _) as [f|]; [|done]. injection H2 as <-.
  exists f. simpl. by rewrite Ha, Hs.
Qed.

Lemma ping_target_witness :
  exists s1 s2 frame, step false (init [127; 0; 0; 1] 7 (replicate 1500 0)) (EvRecv (Some ([0x45; 9], [10; 0; 0; 9])) (TV 2 500)) = Some (Ret s1) /\
    step false s1 (EvAlarm (replicate 64 0) (Some (TV 3 0)) true) = Some (Ret s2) /\
    sent s2 = ([10; 0; 0; 9], frame) :: [].
Proof.
  do 2 eexists.
  match goal with |- exists frame, ?A /\ ?B /\ _ =>
    assert (HA : A) by (vm_compute; reflexivity); assert (HB : B) by (vm_compute; reflexivity);
    destruct (ping_target _ _ _ _ _ _ _ _ _ HA HB) as [f Hf]; exists f
  end.
  split; [exact HA|]. split; [exact HB|exact Hf].
Defined.

End Myping.

Module UnpPing.
Import Myping(ip_header, ip_header_len, ip_header_short).

Definition BUFSIZE : nat := 1500.
Definition datalen : nat := 56.

(** lib/tv_sub.c: [out -= in]. *)
Definition tv_sub (out inn : timeval) : timeval :=
  let us := tv_usec out - tv_usec inn in
  if us <? 0 then TV (tv_sec out - 1 - tv_sec inn) (us + 1000000)
  else TV (tv_sec out - tv_sec inn) us.

Definition rtt_ms (tv : timeval) : spec_float :=
  dadd (dmul (double_of_int (tv_sec tv)) (double_of_int 1000))
       (ddiv (double_of_int (tv_usec tv)) (double_of_int 1000)).

(** A line printed by [proc_v4] or [proc_v6]: bytes, sequence number, time to live
    or hop limit ([None] for "???"), round-trip time; or the verbose line. *)
Inductive line :=
| Reply (bytes seq : Z) (ttl : option Z) (rtt : spec_float)
| Verbose (bytes type code : Z).

(** An ancillary data object: [cmsg_level], [cmsg_type] and the value. *)
Record cmsghdr := Cmsg { cmsg_level : Z; cmsg_type : Z; cmsg_value : Z }.
Definition IPPROTO_IPV6 : Z := 41.
Definition IPV6_HOPLIMIT : Z := 52.

Section Proc.
Context (be : bool) (pid : Z) (verbose : bool).

Definition proc_v4 (ptr : list Z) (len : Z) (msg : list cmsghdr) (tvrecv : timeval) :
    option (list line) :=
  ip0 ← ptr !! 0%nat;
  let hlen1 := Z.shiftl (Z.land ip0 0xf) 2 in
  ip_p ← ptr !! 9%nat;
  if negb (ip_p =? IPPROTO_ICMP) then Some []
  else
    let icmp := Z.to_nat hlen1 in
    let icmplen := s32 (len - hlen1) in
    if icmplen <? 8 then Some []
    else
      icmp_type ← ptr !! icmp;
      if icmp_type =? ICMP_ECHOREPLY then
        id ← read_at ptr (icmp + 4) 2;
        if negb (load_bytes be id =? pid) then Some []
        else if icmplen <? 16 then Some []
        else
          tvsend ← read_at ptr (icmp + 8) 16;
          let tv := tv_sub tvrecv (load_timeval be tvsend) in
          sq ← read_at ptr (icmp + 6) 2;
          ttl ← ptr !! 8%nat;
          Some [Reply icmplen (load_bytes be sq) (Some ttl) (rtt_ms tv)]
      else if verbose then
        code ← ptr !! (icmp + 1)%nat;
        Some [Verbose icmplen icmp_type code]
      else Some [].

(** The search for the hop limit among the ancillary data. *)
Fixpoint find_hlim (cmsgs : list cmsghdr) : Z :=
  match cmsgs with
  | [] => -1
  | c :: cmsgs' =>
      if (cmsg_level c =? IPPROTO_IPV6) && (cmsg_type c =? IPV6_HOPLIMIT)
      then s32 (cmsg_value c) else find_hlim cmsgs'
  end.

Definition proc_v6 (ptr : list Z) (len : Z) (msg : list cmsghdr) (tvrecv : timeval) :
    option (list line) :=
  if len <? 8 then Some []
  else
    icmp6_type ← ptr !! 0%nat;
    if icmp6_type =? ICMP6_ECHO_REPLY then
      id ← read_at ptr 4 2;
      if negb (load_bytes be id =? pid) then Some []
      else if len <? 16 then Some []
      else
        tvsend ← read_at ptr 8 16;
        let tv := tv_sub tvrecv (load_timeval be tvsend) in
        let hlim := find_hlim msg in
        sq ← read_at ptr 6 2;
        Some [Reply (s32 len) (load_bytes be sq) (if hlim =? -1 then None else Some hlim) (rtt_ms tv)]
    else if verbose then
      code ← ptr !! 1%nat;
      Some [Verbose (s32 len) icmp6_type code]
    else Some [].

(** The stores of [send_v4] in the global [sendbuf]: the new contents and the
    number of bytes to send. *)
Definition send_v4 (sendbuf : list Z) (nsent : Z) (now : timeval) : option (list Z * nat) :=
  b ← write_at sendbuf 0 [ICMP_ECHO];
  b ← write_at b 1 [0];
  b ← write_at b 4 (store_bytes be 2 pid);
  b ← write_at b 6 (store_bytes be 2 nsent);
  b ← write_at b 8 (replicate datalen 0xa5);
  b ← write_at b 8 (store_timeval be now);
  let len := (8 + datalen)%nat in
  b ← write_at b 2 [0; 0];
  icmp ← read_at b 0 len;
  c ← Cksum.in_cksum be icmp (Z.of_nat len);
  b ← write_at b 2 (Cksum.bytes16 be c);
  Some (b, len).

(** [send_v6] leaves the checksum to the kernel. *)
Definition send_v6 (sendbuf : list Z) (nsent : Z) (now : timeval) : option (list Z * nat) :=
  b ← write_at sendbuf 0 [ICMP6_ECHO_REQUEST];
  b ← write_at b 1 [0];
  b ← write_at b 4 (store_bytes be 2 pid);
  b ← write_at b 6 (store_bytes be 2 nsent);
  b ← write_at b 8 (replicate datalen 0xa5);
  b ← write_at b 8 (store_timeval be now);
  Some (b, (8 + datalen)%nat).
End Proc.

(** [struct proto] and its two instances. *)
Record proto := Proto {
  fproc : bool -> Z -> bool -> list Z -> Z -> list cmsghdr -> timeval -> option (list line);
  fsend : bool -> Z -> list Z -> Z -> timeval -> option (list Z * nat)
}.
Definition proto_v4 : proto := Proto proc_v4 send_v4.
Definition proto_v6 : proto := Proto proc_v6 send_v6.

(** ** The program *)

Record state := St {
  nsent : Z;
  sendbuf : list Z;
  recvbuf : list Z;
  sarecv : address;
  alarm_set : bool;
  sent : list (address * list Z);
  printed : list (address * list line)
}.

Inductive event :=
| EvAlarm (now : option timeval) (send_ok : bool)
| EvRecvErr (e : errno)
| EvRecv (d : list Z) (from : address) (cmsgs : list cmsghdr) (tval : timeval).

Section Run.
Context (be : bool) (pr : proto) (sasend : address) (pid : Z) (verbose : bool).

(** [sig_alrm]: the protocol's send function, then [alarm(1)]. *)
Definition sig_alrm (s : state) (now : option timeval) (send_ok : bool) : option (outcome state) :=
  match now with
  | None => Some (Exit 1)
  | Some tv =>
      '(b, len) ← fsend pr be pid (sendbuf s) (nsent s) tv;
      if send_ok then
        Some (Ret (St (s32 (nsent s + 1)) b (recvbuf s) (sarecv s) true
                     ((sasend, take len b) :: sent s) (printed s)))
      else Some (Exit 1)
  end.

(** One turn of the loop of [readloop]. *)
Definition readloop_turn (s : state) (d : list Z) (from : address) (cmsgs : list cmsghdr)
    (tval : timeval) : option (outcome state) :=
  let bs := take BUFSIZE d in
  let rb := bs ++ drop (length bs) (recvbuf s) in
  l ← fproc pr be pid verbose rb (Z.of_nat (length bs)) cmsgs tval;
  Some (Ret (St (nsent s) (sendbuf s) rb from (alarm_set s) (sent s)
               (match l with [] => printed s | _ => (from, l) :: printed s end))).

Definition step (s : state) (e : event) : option (outcome state) :=
  match e with
  | EvAlarm now ok => sig_alrm s now ok
  | EvRecvErr EINTR => Some (Ret s)
  | EvRecvErr _ => Some (Exit 1)
  | EvRecv d from cmsgs tval => readloop_turn s d from cmsgs tval
  end.
End Run.

(** [pid = getpid() & 0xffff] in [main]. *)
Definition main_pid (getpid : Z) : Z := Z.land getpid 0xffff.

(** ** Lemmas *)

Lemma tv_sub_spec cur now : wf_timeval cur -> wf_timeval now ->
  0 <= tv_usec (tv_sub cur now) < 1000000 /\
  micros (tv_sub cur now) = micros cur - micros now.
Proof.
  unfold wf_timeval, micros, tv_sub. intros [? ?] [? ?]. cbn zeta.
  destruct (_ <? 0) eqn:E; bprop; cbn [tv_sec tv_usec]; lia.
Qed.

Lemma send_v4_ok be pid sendbuf n now : length sendbuf = BUFSIZE ->
  exists c b, send_v4 be pid sendbuf n now = Some (b, 64%nat) /\
    take 64 b = echo_request be ICMP_ECHO pid n now (Cksum.bytes16 be c) /\
    Cksum.in_cksum be (take 64 b) 64 = Some 0.
Proof.
  intros HL. destruct (split_length sendbuf 64 1436 HL) as (A & rest & -> & HA & HR).
  destruct (echo_cksum be ICMP_ECHO pid n now) as (c & Hc & Hv).
  { unfold is_byte, ICMP_ECHO; lia. }
  destruct (echo_stores be ICMP_ECHO A pid n now rest HA) as (ck & Hk & E).
  pose proof (length_echo_request be ICMP_ECHO pid n now [0; 0] eq_refl) as L0.
  pose proof (length_echo_request be ICMP_ECHO pid n now _ (Cksum.length_bytes16 be c)) as L1.
  exists c, (echo_request be ICMP_ECHO pid n now (Cksum.bytes16 be c) ++ rest).
  rewrite take_app_length' by done. split; [|done].
  unfold send_v4. change datalen with 56%nat. rewrite E, echo_set_cksum by done.
  cbn [mbind option_bind]. change (8 + 56)%nat with 64%nat.
  rewrite (read_at_eq _ [] (echo_request be ICMP_ECHO pid n now [0; 0]) rest 0) by done.
  cbn [mbind option_bind]. change (Z.of_nat 64) with 64. rewrite Hc. cbn [mbind option_bind].
  by rewrite echo_set_cksum by (done || apply Cksum.length_bytes16).
Qed.

Lemma main_pid_u16 be g : load_bytes be (store_bytes be 2 (main_pid g)) = main_pid g.
Proof.
  rewrite load_store_bytes. unfold main_pid. rewrite land_ffff. apply wrap_small.
  apply Z.mod_pos_bound. lia.
Qed.

(** An echo reply with this process's identifier: [sq] and [ts] are the bytes of
    the sequence number and of the time stamp. *)
Lemma proc_v4_accepts be g verbose hdr ttl ck sq ts rest icmplen cmsgs cur :
  ip_header hdr ttl -> hdr !! 9%nat = Some IPPROTO_ICMP ->
  length ck = 2%nat -> length sq = 2%nat -> length ts = 16%nat -> (16 <= icmplen <= 1500)%nat ->
  proc_v4 be (main_pid g) verbose
    (hdr ++ [ICMP_ECHOREPLY; 0] ++ ck ++ store_bytes be 2 (main_pid g) ++ sq ++ ts ++ rest)
    (Z.of_nat (length hdr + icmplen)) cmsgs cur =
  Some [Reply (Z.of_nat icmplen) (load_bytes be sq) (Some ttl)
          (rtt_ms (tv_sub cur (load_timeval be ts)))].
Proof.
  intros Hh H9 Hk Hsq Hts Hi. unfold proc_v4.
  set (body := [ICMP_ECHOREPLY; 0] ++ _).
  destruct (ip_header_len hdr ttl body Hh) as (b0 & E0 & El & Et).
  assert (El' : Z.shiftl (Z.land b0 0xf) 2 = Z.of_nat (length hdr)).
  { rewrite <- El, Z2Nat.id; [done|]. apply Z.shiftl_nonneg, Z.land_nonneg. lia. }
  rewrite E0. cbn [mbind option_bind]. rewrite El', Nat2Z.id.
  rewrite (lookup_app_l_Some hdr body 9 _ H9). cbn [mbind option_bind]. rewrite Z.eqb_refl. cbn [negb].
  replace (Z.of_nat (length hdr + icmplen) - Z.of_nat (length hdr)) with (Z.of_nat icmplen) by lia.
  rewrite (swrap_small 32) by lia. rewrite (proj2 (Z.ltb_ge (Z.of_nat icmplen) 8)) by lia.
  rewrite (proj2 (Z.ltb_ge (Z.of_nat icmplen) 16)) by lia.
  rewrite (lookup_app_r hdr _ (length hdr)), Nat.sub_diag by lia.
  cbn [mbind option_bind lookup list_lookup app body]. rewrite Z.eqb_refl.
  rewrite (read_at_eq _ (hdr ++ [ICMP_ECHOREPLY; 0] ++ ck) (store_bytes be 2 (main_pid g))
    (sq ++ ts ++ rest) (length hdr + 4)) by block.
  rewrite (read_at_eq _ (hdr ++ [ICMP_ECHOREPLY; 0] ++ ck ++ store_bytes be 2 (main_pid g) ++ sq)
    ts rest (length hdr + 8)) by block.
  rewrite (read_at_eq _ (hdr ++ [ICMP_ECHOREPLY; 0] ++ ck ++ store_bytes be 2 (main_pid g)) sq
    (ts ++ rest) (length hdr + 6)) by block.
  cbn [mbind option_bind]. rewrite main_pid_u16, Z.eqb_refl. cbn [negb app].
  unfold body in Et. cbn [app] in Et. by rewrite Et.
Qed.

Lemma proc_v4_reply be ty g verbose hdr ttl ck ck' seq now rest cmsgs cur :
  ip_header hdr ttl -> hdr !! 9%nat = Some IPPROTO_ICMP ->
  length ck = 2%nat -> length ck' = 2%nat -> wf_timeval now ->
  proc_v4 be (main_pid g) verbose
    (Myping.reply_to hdr ck (echo_request be ty (main_pid g) seq now ck') ++ rest)
    (Z.of_nat (length hdr + 64)) cmsgs cur =
  Some [Reply 64 (u16 seq) (Some ttl) (rtt_ms (tv_sub cur now))].
Proof.
  intros Hh H9 Hk Hk' Hw. unfold Myping.reply_to. rewrite drop_echo_request by done.
  unfold frame_tail. rewrite <- !app_assoc.
  rewrite (proc_v4_accepts be g verbose hdr ttl) by (done || block || lia).
  by rewrite load_store_timeval, load_store_bytes by done.
Qed.

(** ** The properties *)

(** A full exchange of the second ping program.  The request sent by the alarm
    handler has a checksum that verifies, and whatever the process id, its reply
    makes [readloop] print 64 bytes, the sequence number, the time to live and the
    exact difference of the two clock readings, normalised; the next request
    still goes to the host given on the command line. *)
Theorem unp_ping_exchange be sasend g verbose s now cur hdr ttl ck from cmsgs :
  length (sendbuf s) = BUFSIZE ->
  ip_header hdr ttl -> hdr !! 9%nat = Some IPPROTO_ICMP -> length ck = 2%nat ->
  wf_timeval now -> wf_timeval cur ->
  exists s1 s2 s3 frame d,
    step be proto_v4 sasend (main_pid g) verbose s (EvAlarm (Some now) true) = Some (Ret s1) /\
    sent s1 = (sasend, frame) :: sent s /\ Cksum.in_cksum be frame 64 = Some 0 /\
    step be proto_v4 sasend (main_pid g) verbose s1
      (EvRecv (Myping.reply_to hdr ck frame) from cmsgs cur) = Some (Ret s2) /\
    printed s2 = (from, [Reply 64 (u16 (nsent s)) (Some ttl) (rtt_ms d)]) :: printed s /\
    0 <= tv_usec d < 1000000 /\ micros d = micros cur - micros now /\
    step be proto_v4 sasend (main_pid g) verbose s2 (EvAlarm (Some now) true) = Some (Ret s3) /\
    exists frame', sent s3 = (sasend, frame') :: sent s1.
Proof.
  intros HL Hh H9 Hk Hn Hc.
  destruct (send_v4_ok be (main_pid g) (sendbuf s) (nsent s) now HL) as (c & b & E & Hb & Hv).
  pose proof (tv_sub_spec cur now Hc Hn) as [Hd1 Hd2].
  pose proof (ip_header_short _ _ Hh) as Hs.
  assert (Lb : length b = BUFSIZE).
  { clear -E HL. unfold send_v4 in E.
    repeat match type of E with
    | mbind _ ?m = _ => destruct m eqn:?; [cbn [mbind option_bind] in E|done]
    end. injection E as <-.
    repeat match goal with H : write_at _ _ _ = Some _ |- _ => apply length_write_at in H end. congruence. }
  destruct (send_v4_ok be (main_pid g) b (s32 (nsent s + 1)) now Lb) as (c2 & b2 & E2 & Hb2 & _).
  do 3 eexists. exists (take 64 b), (tv_sub cur now).
  split; [cbn [step]; unfold sig_alrm; cbn [proto_v4 fsend]; rewrite E; reflexivity|].
  split; [done|]. split; [done|]. split.
  { cbn [step]. unfold readloop_turn. cbn [proto_v4 fproc].
    rewrite Hb, (take_ge _ BUFSIZE) by (rewrite Myping.length_reply_to by (done || apply Cksum.length_bytes16); unfold BUFSIZE; lia).
    rewrite (Myping.length_reply_to hdr ck) by (done || apply Cksum.length_bytes16).
    rewrite (proc_v4_reply be ICMP_ECHO g verbose hdr ttl) by (done || apply Cksum.length_bytes16).
    reflexivity. }
  split; [done|]. split; [done|]. split; [done|]. split.
  { cbn [step]. unfold sig_alrm. cbn [proto_v4 fsend sendbuf nsent]. rewrite E2. reflexivity. }
  exists (take 64 b2). cbn [sent]. by rewrite Hb.
Qed.

Lemma unp_ping_exchange_witness :
  exists s1 s2 s3 frame d,
    step true proto_v4 [10; 0; 0; 1] (main_pid 0x19000) false
      (UnpPing.St 3 (replicate 1500 0) (replicate 1500 0) [] true [] []) (EvAlarm (Some (TV 1 999000)) true) = Some (Ret s1) /\
    sent s1 = ([10; 0; 0; 1], frame) :: [] /\ Cksum.in_cksum true frame 64 = Some 0 /\
    step true proto_v4 [10; 0; 0; 1] (main_pid 0x19000) false s1
      (EvRecv (Myping.reply_to Myping.sample_header [7; 7] frame) [10; 0; 0; 1] [] (TV 2 500)) = Some (Ret s2) /\
    printed s2 = ([10; 0; 0; 1], [Reply 64 (u16 3) (Some 64) (rtt_ms d)]) :: [] /\
    0 <= tv_usec d < 1000000 /\ micros d = 2000500 - 1999000 /\
    step true proto_v4 [10; 0; 0; 1] (main_pid 0x19000) false s2 (EvAlarm (Some (TV 1 999000)) true) = Some (Ret s3) /\
    exists frame', sent s3 = ([10; 0; 0; 1], frame') :: sent s1.
Proof.
  refine (unp_ping_exchange true [10; 0; 0; 1] 0x19000 false
    (UnpPing.St 3 (replicate 1500 0) (replicate 1500 0) [] true [] [])
    (TV 1 999000) (TV 2 500) Myping.sample_header 64 [7; 7] [10; 0; 0; 1] [] _ _ _ _ _ _).
  - reflexivity.
  - exists 0x45, 5%nat. repeat split. lia.
  - reflexivity.
  - reflexivity.
  - unfold wf_timeval; simpl; lia.
  - unfold wf_timeval; simpl; lia.
Defined.

(** [proc_v4] takes 16 bytes of ICMP for enough, but with 8-byte [long]s the
    time stamp ends at byte 24: for an ICMP part of 16 to 23 bytes the round-trip
    time printed depends on bytes of the buffer that are not part of the
    datagram. *)
Theorem proc_v4_stale be g verbose hdr ttl icmplen :
  ip_header hdr ttl -> hdr !! 9%nat = Some IPPROTO_ICMP -> (16 <= icmplen < 24)%nat ->
  exists buf1 buf2 r1 r2 cur,
    take (length hdr + icmplen) buf1 = take (length hdr + icmplen) buf2 /\
    proc_v4 be (main_pid g) verbose buf1 (Z.of_nat (length hdr + icmplen)) [] cur = Some [r1] /\
    proc_v4 be (main_pid g) verbose buf2 (Z.of_nat (length hdr + icmplen)) [] cur = Some [r2] /\
    r1 <> r2.
Proof.
  intros Hh H9 Hi.
  set (pre := [ICMP_ECHOREPLY; 0] ++ [0; 0] ++ store_bytes be 2 (main_pid g) ++ [0; 0] ++ replicate 15 0).
  assert (Lp : length pre = 23%nat).
  { unfold pre. by rewrite !length_app, length_store_bytes. }
  assert (Eq : forall x, hdr ++ pre ++ [x] = hdr ++ [ICMP_ECHOREPLY; 0] ++ [0; 0] ++
    store_bytes be 2 (main_pid g) ++ [0; 0] ++ (replicate 15 0 ++ [x]) ++ []).
  { intros x. unfold pre. by rewrite app_nil_r, <- !app_assoc. }
  exists (hdr ++ pre ++ [0]), (hdr ++ pre ++ [1]). do 2 eexists. exists (TV 0 0). split.
  { rewrite !(take_app_ge hdr) by lia. rewrite !(take_app_le pre) by lia. done. }
  rewrite !Eq, !(proc_v4_accepts be g verbose hdr ttl) by (done || lia).
  split; [reflexivity|]. split; [reflexivity|]. destruct be; vm_compute; congruence.
Qed.

Lemma proc_v4_stale_witness :
  exists buf1 buf2 r1 r2 cur,
    take (length Myping.sample_header + 20) buf1 = take (length Myping.sample_header + 20) buf2 /\
    proc_v4 true (main_pid 5) true buf1 (Z.of_nat (length Myping.sample_header + 20)) [] cur = Some [r1] /\
    proc_v4 true (main_pid 5) true buf2 (Z.of_nat (length Myping.sample_header + 20)) [] cur = Some [r2] /\
    r1 <> r2.
Proof.
  refine (proc_v4_stale true 5 true Myping.sample_header 64 20 _ _ _).
  - exists 0x45, 5%nat. repeat split. lia.
  - reflexivity.
  - lia.
Defined.

End UnpPing.
