(* ===== verification/RwLock.v ===== *)
(** * Read-write locks

    Model of src/IPC/unpv22e/my_rwlock and my_rwlock_cancel: [pthread_rwlock_t]
    built from a mutex and two condition variables.  A call runs under [rw_mutex]
    up to its pthread_cond_wait or to its return, so each such section is one
    function on the structure: [rdlock] is pthread_rwlock_rdlock from its entry,
    [rdresume] what it does when pthread_cond_wait returns.  The class [RwImpl]
    holds the operations, with one instance per directory; the threads that use a
    lock and the condition variables form a transition system over it.  A C
    [result] is [None] for 0 and [Some e] for an error number. *)

From S2P Require Import Prelude.

Module RwLock.

Abbreviation result := (option errno).

(** [pthread_rwlock_t] without its mutex and condition variables.  The counters
    never exceed the number of threads, so that [int] does not wrap around. *)
Record rwlock := Rw {
  rw_magic : Z;
  rw_nwaitreaders : Z;
  rw_nwaitwriters : Z;
  rw_refcount : Z      (* -1 if a writer has the lock, else the number of readers *)
}.

Definition RW_MAGIC : Z := 0x19283746.
Definition RWLOCK_INITIALIZER : rwlock := Rw RW_MAGIC 0 0 0.

Definition set_nwr (rw : rwlock) (n : Z) : rwlock := Rw (rw_magic rw) n (rw_nwaitwriters rw) (rw_refcount rw).
Definition set_nww (rw : rwlock) (n : Z) : rwlock := Rw (rw_magic rw) (rw_nwaitreaders rw) n (rw_refcount rw).
Definition set_ref (rw : rwlock) (n : Z) : rwlock := Rw (rw_magic rw) (rw_nwaitreaders rw) (rw_nwaitwriters rw) n.

(** How a section ends: asleep on its condition variable, or returning. *)
Inductive section :=
| CondWait (rw : rwlock)
| Return (rw : rwlock) (r : result).

(** The signal an unlock sends. *)
Inductive wake := WakeNone | SignalWriters | BroadcastReaders.

Inductive unlocked :=
| Unlocked (rw : rwlock) (r : result) (w : wake)
| ErrDump.                                   (* err_dump: the process aborts *)

(** The operations of an implementation.  The first argument is the result of
    pthread_mutex_lock, or of pthread_cond_wait for the [resume] functions; that
    of [unlock] is followed by the result of the signal or broadcast.  The cleanup
    handlers are [None] where the code installs none. *)
Class RwImpl := {
  rdlock : result -> rwlock -> section;
  rdresume : result -> rwlock -> section;
  wrlock : result -> rwlock -> section;
  wrresume : result -> rwlock -> section;
  tryrdlock : result -> rwlock -> section;
  trywrlock : result -> rwlock -> section;
  unlock : result -> result -> rwlock -> unlocked;
  cancelrdwait : option (rwlock -> rwlock);
  cancelwrwait : option (rwlock -> rwlock)
}.

Definition bad_magic (rw : rwlock) : bool := negb (rw_magic rw =? RW_MAGIC).

(** The condition under which a reader waits. *)
Definition rd_blocked (rw : rwlock) : bool := (rw_refcount rw <? 0) || (rw_nwaitwriters rw >? 0).

(** [refcount--] for a reader, [0] for a writer; [None] is the err_dump. *)
Definition release (rw : rwlock) : option rwlock :=
  if rw_refcount rw >? 0 then Some (set_ref rw (rw_refcount rw - 1))
  else if rw_refcount rw =? -1 then Some (set_ref rw 0)
  else None.

Definition tryrd (locked : result) (rw : rwlock) : section :=
  if bad_magic rw then Return rw (Some EINVAL)
  else match locked with
  | Some e => Return rw (Some e)
  | None =>
      if rd_blocked rw then Return rw (Some EBUSY)
      else Return (set_ref rw (rw_refcount rw + 1)) None
  end.

Definition trywr (locked : result) (rw : rwlock) : section :=
  if bad_magic rw then Return rw (Some EINVAL)
  else match locked with
  | Some e => Return rw (Some e)
  | None =>
      if negb (rw_refcount rw =? 0) then Return rw (Some EBUSY)
      else Return (set_ref rw (-1)) None
  end.

(** ** my_rwlock *)

Module Plain.

(** From [if (result == 0)] to the return, and from the test of the loop on. *)
Definition rd_end (r : result) (rw : rwlock) : section :=
  match r with
  | None => Return (set_ref rw (rw_refcount rw + 1)) None
  | Some e => Return rw (Some e)
  end.
Definition rd_loop (rw : rwlock) : section :=
  if rd_blocked rw then CondWait (set_nwr rw (rw_nwaitreaders rw + 1)) else rd_end None rw.

Definition rdlock (locked : result) (rw : rwlock) : section :=
  if bad_magic rw then Return rw (Some EINVAL)
  else match locked with
  | Some e => Return rw (Some e)
  | None => rd_loop rw
  end.
Definition rdresume (waited : result) (rw : rwlock) : section :=
  let rw1 := set_nwr rw (rw_nwaitreaders rw - 1) in
  match waited with
  | Some e => rd_end (Some e) rw1
  | None => rd_loop rw1
  end.

Definition wr_end (r : result) (rw : rwlock) : section :=
  match r with
  | None => Return (set_ref rw (-1)) None
  | Some e => Return rw (Some e)
  end.
Definition wr_loop (rw : rwlock) : section :=
  if negb (rw_refcount rw =? 0) then CondWait (set_nww rw (rw_nwaitwriters rw + 1))
  else wr_end None rw.

Definition wrlock (locked : result) (rw : rwlock) : section :=
  if bad_magic rw then Return rw (Some EINVAL)
  else match locked with
  | Some e => Return rw (Some e)
  | None => wr_loop rw
  end.
Definition wrresume (waited : result) (rw : rwlock) : section :=
  let rw1 := set_nww rw (rw_nwaitwriters rw - 1) in
  match waited with
  | Some e => wr_end (Some e) rw1
  | None => wr_loop rw1
  end.

Definition unlock (locked signalled : result) (rw : rwlock) : unlocked :=
  if bad_magic rw then Unlocked rw (Some EINVAL) WakeNone
  else match locked with
  | Some e => Unlocked rw (Some e) WakeNone
  | None =>
      match release rw with
      | None => ErrDump
      | Some rw' =>
          if rw_nwaitwriters rw' >? 0 then
            if rw_refcount rw' =? 0 then Unlocked rw' signalled SignalWriters
            else Unlocked rw' None WakeNone
          else if rw_nwaitreaders rw' >? 0 then Unlocked rw' signalled BroadcastReaders
          else Unlocked rw' None WakeNone
      end
  end.
End Plain.

(** Not an instance by default: the transition system names the implementation. *)
Definition my_rwlock : RwImpl := {|
  rdlock := Plain.rdlock; rdresume := Plain.rdresume;
  wrlock := Plain.wrlock; wrresume := Plain.wrresume;
  tryrdlock := tryrd; trywrlock := trywr; unlock := Plain.unlock;
  cancelrdwait := None; cancelwrwait := None |}.

(** ** my_rwlock_cancel *)

Module Cancel.

Definition rd_end (r : result) (rw : rwlock) : section :=
  match r with
  | None => Return (set_ref rw (rw_refcount rw + 1)) None
  | Some e => Return rw None                                   (* return (0) *)
  end.
Definition rd_loop (r : result) (rw : rwlock) : section :=
  if rd_blocked rw then CondWait (set_nwr rw (rw_nwaitreaders rw + 1)) else rd_end r rw.

Definition rdlock (locked : result) (rw : rwlock) : section :=
  if bad_magic rw then Return rw (Some EINVAL)
  else match locked with
  | Some e => Return rw (Some e)
  | None => rd_loop None rw
  end.
Definition rdresume (waited : result) (rw : rwlock) : section :=
  let rw1 := set_nwr rw (rw_nwaitreaders rw - 1) in
  match waited with
  | Some e => rd_end (Some e) rw1
  | None => rd_loop None rw1
  end.

(** The only test of [rw_refcount] that differs from my_rwlock's. *)
Definition tryrdlock (locked : result) (rw : rwlock) : section :=
  if bad_magic rw then Return rw (Some EINVAL)
  else match locked with
  | Some e => Return rw (Some e)
  | None =>
      if (rw_refcount rw =? -1) || (rw_nwaitwriters rw >? 0) then Return rw (Some EBUSY)
      else Return (set_ref rw (rw_refcount rw + 1)) None
  end.

Definition wr_end (r : result) (rw : rwlock) : section :=
  match r with
  | None => Return (set_ref rw (-1)) None
  | Some e => Return rw None                                   (* return(0) *)
  end.
Definition wr_loop (r : result) (rw : rwlock) : section :=
  if negb (rw_refcount rw =? 0) then CondWait (set_nww rw (rw_nwaitwriters rw + 1))
  else wr_end r rw.

(** [result == -1] is never true of an error number, so that a failed
    pthread_mutex_lock goes on into the loop with its error as [result]. *)
Definition wrlock (locked : result) (rw : rwlock) : section :=
  if bad_magic rw then Return rw (Some EINVAL)
  else wr_loop locked rw.
Definition wrresume (waited : result) (rw : rwlock) : section :=
  let rw1 := set_nww rw (rw_nwaitwriters rw - 1) in
  match waited with
  | Some e => wr_end (Some e) rw1
  | None => wr_loop None rw1
  end.

Definition unlock (locked signalled : result) (rw : rwlock) : unlocked :=
  if bad_magic rw then Unlocked rw (Some EINVAL) WakeNone
  else match locked with
  | Some e => Unlocked rw (Some e) WakeNone
  | None =>
      match release rw with
      | None => ErrDump
      | Some rw' =>
          if rw_nwaitwriters rw' >? 0 then Unlocked rw' signalled SignalWriters
          else if rw_nwaitreaders rw' >? 0 then Unlocked rw' signalled BroadcastReaders
          else Unlocked rw' None WakeNone
      end
  end.

Definition rwlock_cancelrdwait (rw : rwlock) : rwlock := set_nwr rw (rw_nwaitreaders rw - 1).
Definition rwlock_cancelwrwait (rw : rwlock) : rwlock := set_nww rw (rw_nwaitwriters rw - 1).
End Cancel.

Definition my_rwlock_cancel : RwImpl := {|
  rdlock := Cancel.rdlock; rdresume := Cancel.rdresume;
  wrlock := Cancel.wrlock; wrresume := Cancel.wrresume;
  tryrdlock := Cancel.tryrdlock; trywrlock := trywr; unlock := Cancel.unlock;
  cancelrdwait := Some Cancel.rwlock_cancelrdwait;
  cancelwrwait := Some Cancel.rwlock_cancelwrwait |}.

(** ** Creation and destruction (the same code in both directories) *)

Inductive resource := RMutex | RCondReaders | RCondWriters.

(** pthread_rwlock_init: the results of the three initialisations; the new lock or
    the error, and the parts destroyed on the way out. *)
Definition init (attr_null : bool) (m cr cw : result) : (rwlock + errno) * list resource :=
  if negb attr_null then (inr EINVAL, [])
  else match m with
  | Some e => (inr e, [])
  | None =>
      match cr with
      | Some e => (inr e, [RMutex])
      | None =>
          match cw with
          | Some e => (inr e, [RCondReaders; RMutex])
          | None => (inl (Rw RW_MAGIC 0 0 0), [])
          end
      end
  end.

Definition destroy (rw : rwlock) : rwlock * result :=
  if bad_magic rw then (rw, Some EINVAL)
  else if negb (rw_refcount rw =? 0) || negb (rw_nwaitreaders rw =? 0)
          || negb (rw_nwaitwriters rw =? 0) then (rw, Some EBUSY)
  else (Rw 0 (rw_nwaitreaders rw) (rw_nwaitwriters rw) (rw_refcount rw), None).

(** ** The threads of a process that share a lock *)

(** [RdWait] is asleep on rw_condreaders, [RdWake] has been woken and waits for the
    mutex inside pthread_cond_wait; [Gone] is a cancelled thread. *)
Inductive status := Idle | RdWait | RdWake | RdHold | WrWait | WrWake | WrHold | Gone.

Definition eqs (a b : status) : bool :=
  match a, b with
  | Idle, Idle | RdWait, RdWait | RdWake, RdWake | RdHold, RdHold
  | WrWait, WrWait | WrWake, WrWake | WrHold, WrHold | Gone, Gone => true
  | _, _ => false
  end.

Record state := St { lk : rwlock; ths : list status; dumped : bool }.

Inductive event :=
| ERdlock (i : nat) (locked : result)
| ERdResume (i : nat) (waited : result)
| EWrlock (i : nat) (locked : result)
| EWrResume (i : nat) (waited : result)
| ETryRd (i : nat) (locked : result)
| ETryWr (i : nat) (locked : result)
| EUnlock (i : nat) (locked signalled : result) (chosen : nat)
| ESpurious (i : nat)
| ECancel (i : nat).

Definition num (x : status) (l : list status) : Z := cnt (eqs x) l.

Definition wake_reader (x : status) : status := match x with RdWait => RdWake | _ => x end.

(** The effect of an unlock on the sleepers: pthread_cond_signal wakes one waiting
    writer, [chosen], if there is one. *)
Definition wake_up (w : wake) (chosen : nat) (l : list status) : option (list status) :=
  match w with
  | WakeNone => Some l
  | BroadcastReaders => Some (map wake_reader l)
  | SignalWriters =>
      match l !! chosen with
      | Some WrWait => Some (<[chosen := WrWake]> l)
      | _ => if num WrWait l =? 0 then Some l else None
      end
  end.

(** Where a section leaves its thread: asleep, holding the lock, or out of it. *)
Definition land_in (s : state) (i : nat) (sleep hold : status) (r : section) : state :=
  match r with
  | CondWait rw => St rw (<[i := sleep]> (ths s)) (dumped s)
  | Return rw None => St rw (<[i := hold]> (ths s)) (dumped s)
  | Return rw (Some _) => St rw (<[i := Idle]> (ths s)) (dumped s)
  end.

Section System.
Context (impl : RwImpl).

(** A thread calls lock functions when it holds nothing and unlock when it holds
    the lock; [None] is an event that is not possible. *)
Definition exec (s : state) (e : event) : option state :=
  if dumped s then None else
  match e with
  | ERdlock i r =>
      match ths s !! i with
      | Some Idle => Some (land_in s i RdWait RdHold (impl.(rdlock) r (lk s))) | _ => None end
  | ERdResume i r =>
      match ths s !! i with
      | Some RdWake => Some (land_in s i RdWait RdHold (impl.(rdresume) r (lk s))) | _ => None end
  | EWrlock i r =>
      match ths s !! i with
      | Some Idle => Some (land_in s i WrWait WrHold (impl.(wrlock) r (lk s))) | _ => None end
  | EWrResume i r =>
      match ths s !! i with
      | Some WrWake => Some (land_in s i WrWait WrHold (impl.(wrresume) r (lk s))) | _ => None end
  | ETryRd i r =>
      match ths s !! i with
      | Some Idle => Some (land_in s i RdWait RdHold (impl.(tryrdlock) r (lk s))) | _ => None end
  | ETryWr i r =>
      match ths s !! i with
      | Some Idle => Some (land_in s i WrWait WrHold (impl.(trywrlock) r (lk s))) | _ => None end
  | EUnlock i r sig j =>
      match ths s !! i with
      | Some (RdHold | WrHold) =>
          match impl.(unlock) r sig (lk s) with
          | ErrDump => Some (St (lk s) (ths s) true)
          | Unlocked rw' _ w =>
              match r with
              | Some _ => Some (St rw' (ths s) (dumped s))
              | None => l ← wake_up w j (<[i := Idle]> (ths s)); Some (St rw' l (dumped s))
              end
          end
      | _ => None end
  | ESpurious i =>
      match ths s !! i with
      | Some RdWait => Some (St (lk s) (<[i := RdWake]> (ths s)) (dumped s))
      | Some WrWait => Some (St (lk s) (<[i := WrWake]> (ths s)) (dumped s))
      | _ => None end
  | ECancel i =>
      match ths s !! i with
      | Some RdWait => f ← impl.(cancelrdwait); Some (St (f (lk s)) (<[i := Gone]> (ths s)) (dumped s))
      | Some WrWait => f ← impl.(cancelwrwait); Some (St (f (lk s)) (<[i := Gone]> (ths s)) (dumped s))
      | _ => None end
  end.

(** An event in which the pthread functions of the C library succeed. *)
Definition clean (e : event) : bool :=
  match e with
  | ERdlock _ r | ERdResume _ r | EWrlock _ r | EWrResume _ r | ETryRd _ r | ETryWr _ r =>
      match r with None => true | Some _ => false end
  | EUnlock _ None None _ => true
  | EUnlock _ _ _ _ => false
  | ESpurious _ | ECancel _ => true
  end.

(** [n] threads and an initialised lock. *)
Definition start (n : nat) (s : state) : Prop := s = St RWLOCK_INITIALIZER (replicate n Idle) false.

(** Runs with arbitrary library results, and runs where the library succeeds. *)
Definition any_step (s s' : state) : Prop := exists e, exec s e = Some s'.
Definition ok_step (s s' : state) : Prop := exists e, clean e = true /\ exec s e = Some s'.

Fixpoint run (s : state) (es : list event) : option state :=
  match es with
  | [] => Some s
  | e :: es' => s' ← exec s e; run s' es'
  end.
End System.

(** ** Counting *)

Lemma num_insert X l i a b :
  l !! i = Some a -> num X (<[i := b]> l) = num X l - b2z (eqs X a) + b2z (eqs X b).
Proof. apply cnt_insert. Qed.

Lemma num_wake X l : num X (map wake_reader l) =
  match X with RdWait => 0 | RdWake => num RdWait l + num RdWake l | _ => num X l end.
Proof.
  unfold num. induction l as [|x l IH]; [by destruct X|]. cbn [map].
  rewrite !cnt_cons. destruct X; rewrite IH; destruct x; cbn [wake_reader eqs b2z]; lia.
Qed.

Lemma num_nonneg X l : 0 <= num X l.
Proof. apply cnt_nonneg. Qed.

Lemma num_pos x l (i : nat) : l !! i = Some x -> 0 < num x l.
Proof. intros H. apply (cnt_lookup _ _ i _ H). by destruct x. Qed.

Lemma num_replicate X n : X <> Idle -> num X (replicate n Idle) = 0.
Proof.
  intros HX. unfold num. induction n as [|n IH]; [done|]. cbn [replicate].
  rewrite cnt_cons, IH. by destruct X.
Qed.

(** Reduce a goal about the counts after a step to linear arithmetic over the
    counts before it. *)
Ltac counts :=
  cbn [lk ths dumped rw_magic rw_nwaitreaders rw_nwaitwriters rw_refcount
       set_nwr set_nww set_ref] in *;
  repeat match goal with
  | H : ?l !! ?j = Some ?a |- context [num ?X (<[?j := ?b]> ?l)] =>
      rewrite (num_insert X l j a b H)
  | H : ?l !! ?j = Some ?a, H' : context [num ?X (<[?j := ?b]> ?l)] |- _ =>
      rewrite (num_insert X l j a b H) in H'
  | |- context [num ?X (map wake_reader ?l)] => rewrite (num_wake X l)
  end;
  cbn [eqs b2z] in *; bprop; lia.

(** The counters of the structure describe the threads, and the lock is held by
    one writer and no reader, or by readers only. *)
Definition counted (s : state) : Prop :=
  rw_magic (lk s) = RW_MAGIC /\ dumped s = false /\
  rw_nwaitreaders (lk s) = num RdWait (ths s) + num RdWake (ths s) /\
  rw_nwaitwriters (lk s) = num WrWait (ths s) + num WrWake (ths s) /\
  rw_refcount (lk s) = num RdHold (ths s) - num WrHold (ths s) /\
  num WrHold (ths s) <= 1 /\ (0 < num WrHold (ths s) -> num RdHold (ths s) = 0).

(** Nobody sleeps without a reason: a writer sleeps while the lock is held or
    another writer is on its way, a reader while a writer holds the lock or
    waits, or, where a waiting writer can be cancelled ([c = 1]), while the lock is held. *)
Definition justified (c : Z) (s : state) : Prop :=
  (rw_refcount (lk s) = 0 -> 0 < num WrWait (ths s) -> 0 < num WrWake (ths s)) /\
  (0 < num RdWait (ths s) ->
     rw_refcount (lk s) < 0 \/ 0 < rw_nwaitwriters (lk s) \/ (c = 1 /\ 0 < rw_refcount (lk s))).

(** What the two implementations have in common when the library succeeds. *)
Class RwLaws (impl : RwImpl) := {
  law_rdlock rw : rw_magic rw = RW_MAGIC -> impl.(rdlock) None rw = Plain.rd_loop rw;
  law_rdresume rw : impl.(rdresume) None rw = Plain.rd_loop (set_nwr rw (rw_nwaitreaders rw - 1));
  law_wrlock rw : rw_magic rw = RW_MAGIC -> impl.(wrlock) None rw = Plain.wr_loop rw;
  law_wrresume rw : impl.(wrresume) None rw = Plain.wr_loop (set_nww rw (rw_nwaitwriters rw - 1));
  law_tryrdlock rw : -1 <= rw_refcount rw -> impl.(tryrdlock) None rw = tryrd None rw;
  law_trywrlock rw : impl.(trywrlock) None rw = trywr None rw;
  law_unlock rw rw' : rw_magic rw = RW_MAGIC -> release rw = Some rw' ->
    exists w, impl.(unlock) None None rw = Unlocked rw' None w /\
      (w = SignalWriters -> 0 < rw_nwaitwriters rw') /\
      (w = BroadcastReaders -> rw_nwaitwriters rw' <= 0) /\
      (w = WakeNone -> (rw_nwaitwriters rw' <= 0 /\ rw_nwaitreaders rw' <= 0) \/
                       (0 < rw_nwaitwriters rw' /\ rw_refcount rw' <> 0));
  law_cancelrd f : impl.(cancelrdwait) = Some f ->
    forall rw, f rw = set_nwr rw (rw_nwaitreaders rw - 1);
  law_cancelwr f : impl.(cancelwrwait) = Some f ->
    forall rw, f rw = set_nww rw (rw_nwaitwriters rw - 1)
}.

Lemma magic_ok rw : rw_magic rw = RW_MAGIC -> bad_magic rw = false.
Proof. intros H. unfold bad_magic. by rewrite H. Qed.

Lemma release_magic rw rw' : release rw = Some rw' -> rw_magic rw' = rw_magic rw.
Proof. unfold release. intros H. by bsplit; simplify_eq. Qed.

#[export] Instance my_rwlock_laws : RwLaws my_rwlock.
Proof.
  split; try done.
  - intros rw H. cbn. unfold Plain.rdlock. by rewrite magic_ok.
  - intros rw H. cbn. unfold Plain.wrlock. by rewrite magic_ok.
  - intros rw rw' H Hr. cbn. unfold Plain.unlock. rewrite magic_ok, Hr by done.
    bsplit; bprop; eexists; (split; [reflexivity|]); repeat split; intros; try done; lia.
Qed.

#[export] Instance my_rwlock_cancel_laws : RwLaws my_rwlock_cancel.
Proof.
  split; try done.
  - intros rw H. cbn. unfold Cancel.rdlock. by rewrite magic_ok.
  - intros rw H. cbn. unfold Cancel.wrlock. by rewrite magic_ok.
  - intros rw H. cbn. unfold Cancel.tryrdlock, tryrd, rd_blocked.
    by replace (rw_refcount rw =? -1) with (rw_refcount rw <? 0) by (apply eq_true_iff_eq; rewrite Z.ltb_lt, Z.eqb_eq; lia).
  - intros rw rw' H Hr. cbn. unfold Cancel.unlock. rewrite magic_ok, Hr by done.
    bsplit; bprop; eexists; (split; [reflexivity|]); repeat split; intros; try done; lia.
  - intros f [= <-]. done.
  - intros f [= <-]. done.
Qed.

Definition cancellable (impl : RwImpl) : Z :=
  match impl.(cancelwrwait) with Some _ => 1 | None => 0 end.

Definition inv (impl : RwImpl) (s : state) : Prop := counted s /\ justified (cancellable impl) s.

Lemma inv_start impl n s : start n s -> inv impl s.
Proof.
  intros ->. unfold inv, counted, justified, RWLOCK_INITIALIZER.
  cbn [lk ths dumped rw_magic rw_nwaitreaders rw_nwaitwriters rw_refcount].
  rewrite !num_replicate by done. repeat split; lia.
Qed.

(** Unfold the invariant and note that no count is negative. *)
Ltac open_inv :=
  unfold inv, counted, justified; intros (C & J);
  match type of C with
  | context [ths ?s] =>
      pose proof (num_nonneg WrWait (ths s)); pose proof (num_nonneg WrWake (ths s));
      pose proof (num_nonneg WrHold (ths s)); pose proof (num_nonneg RdHold (ths s));
      pose proof (num_nonneg RdWait (ths s)); pose proof (num_nonneg RdWake (ths s))
  end.
Ltac close_inv := repeat split; try tauto; counts.

(** The sections of a reader and of a writer preserve the invariant. *)
Lemma inv_rd_loop impl rw s i :
  inv impl s -> ths s !! i = Some Idle /\ rw = lk s \/
    ths s !! i = Some RdWake /\ rw = set_nwr (lk s) (rw_nwaitreaders (lk s) - 1) ->
  inv impl (land_in s i RdWait RdHold (Plain.rd_loop rw)).
Proof.
  open_inv. unfold Plain.rd_loop, rd_blocked, Plain.rd_end.
  intros [[Hi ->]|[Hi ->]]; bsplit; cbn [land_in];
    try (apply orb_prop in E; destruct E); close_inv.
Qed.

Lemma inv_wr_loop impl rw s i :
  inv impl s -> ths s !! i = Some Idle /\ rw = lk s \/
    ths s !! i = Some WrWake /\ rw = set_nww (lk s) (rw_nwaitwriters (lk s) - 1) ->
  inv impl (land_in s i WrWait WrHold (Plain.wr_loop rw)).
Proof.
  open_inv. unfold Plain.wr_loop, Plain.wr_end.
  intros [[Hi ->]|[Hi ->]]; bsplit; cbn [land_in]; close_inv.
Qed.

Lemma inv_try impl s i :
  inv impl s -> ths s !! i = Some Idle ->
  inv impl (land_in s i RdWait RdHold (tryrd None (lk s))) /\
  inv impl (land_in s i WrWait WrHold (trywr None (lk s))).
Proof.
  open_inv. intros Hi. unfold tryrd, trywr. rewrite magic_ok by tauto.
  unfold rd_blocked. split; bsplit; cbn [land_in];
    try (apply orb_prop in E; destruct E); close_inv.
Qed.

Lemma inv_unlock impl s i w j rw' l :
  inv impl s -> ths s !! i = Some RdHold \/ ths s !! i = Some WrHold ->
  release (lk s) = Some rw' ->
  (w = SignalWriters -> 0 < rw_nwaitwriters rw') ->
  (w = BroadcastReaders -> rw_nwaitwriters rw' <= 0) ->
  (w = WakeNone -> (rw_nwaitwriters rw' <= 0 /\ rw_nwaitreaders rw' <= 0) \/
                   (0 < rw_nwaitwriters rw' /\ rw_refcount rw' <> 0)) ->
  wake_up w j (<[i := Idle]> (ths s)) = Some l ->
  inv impl (St rw' l (dumped s)).
Proof.
  open_inv. intros Hi Hr Hs Hb Hn Hw. unfold release in Hr.
  assert (Hrw : rw' = set_ref (lk s) (rw_refcount (lk s) - 1) /\ 0 < rw_refcount (lk s) \/
                rw' = set_ref (lk s) 0 /\ rw_refcount (lk s) = -1)
    by (bsplit; bprop; simplify_eq; auto).
  clear Hr. destruct w; cbn [wake_up] in Hw.
  - injection Hw as <-. specialize (Hn eq_refl). clear Hs Hb.
    destruct Hrw as [[-> ?]|[-> ?]], Hi as [Hi|Hi];
      pose proof (num_pos _ _ _ Hi); close_inv.
  - specialize (Hs eq_refl). clear Hb Hn.
    destruct (<[i:=Idle]> (ths s) !! j) as [x|] eqn:Ej.
    + assert (Hx : x = WrWait /\ l = <[j := WrWake]> (<[i := Idle]> (ths s)) \/
                   num WrWait (<[i := Idle]> (ths s)) = 0 /\ l = <[i := Idle]> (ths s)).
      { destruct x; bsplit; bprop; simplify_eq; auto. }
      destruct Hx as [[-> ->]|[Hz ->]], Hrw as [[-> ?]|[-> ?]], Hi as [Hi|Hi];
      pose proof (num_pos _ _ _ Hi); close_inv.
    + bsplit; bprop; simplify_eq. destruct Hrw as [[-> ?]|[-> ?]], Hi as [Hi|Hi];
      pose proof (num_pos _ _ _ Hi); close_inv.
  - injection Hw as <-. specialize (Hb eq_refl). clear Hs Hn.
    destruct Hrw as [[-> ?]|[-> ?]], Hi as [Hi|Hi];
      pose proof (num_pos _ _ _ Hi); close_inv.
Qed.

(** A holder can always unlock: the err_dump is unreachable. *)
Lemma release_ok impl s i :
  inv impl s -> ths s !! i = Some RdHold \/ ths s !! i = Some WrHold ->
  is_Some (release (lk s)).
Proof.
  open_inv. intros Hi.
  assert (0 < num RdHold (ths s) \/ 0 < num WrHold (ths s))
    by (destruct Hi as [Hi|Hi]; [left|right]; by apply (num_pos _ _ i)).
  unfold release. bsplit; bprop; eauto. lia.
Qed.

Lemma inv_sleepers impl `{!RwLaws impl} s i s' e :
  inv impl s -> (e = ESpurious i \/ e = ECancel i) -> exec impl s e = Some s' -> inv impl s'.
Proof.
  open_inv. intros He Hx. unfold exec in Hx.
  assert (dumped s = false) as Hd by tauto. rewrite Hd in Hx.
  destruct He as [-> | ->]; destruct (ths s !! i) as [x|] eqn:Hi; [|done| |done];
    destruct x; try done.
  - injection Hx as <-. close_inv.
  - injection Hx as <-. close_inv.
  - destruct (cancelrdwait) as [f|] eqn:Ef; [|done]. injection Hx as <-.
    rewrite (law_cancelrd f Ef). close_inv.
  - destruct (cancelwrwait) as [f|] eqn:Ef; [|done]. injection Hx as <-.
    assert (Hc : cancellable impl = 1) by (unfold cancellable; by rewrite Ef).
    rewrite (law_cancelwr f Ef). pose proof (num_pos _ _ _ Hi). close_inv.
Qed.

Lemma counted_ref s : counted s -> -1 <= rw_refcount (lk s).
Proof. intros (_ & _ & _ & _ & -> & H & _). pose proof (num_nonneg RdHold (ths s)). lia. Qed.

Lemma inv_step impl `{!RwLaws impl} s s' : inv impl s -> ok_step impl s s' -> inv impl s'.
Proof.
  intros I (e & Hc & Hx).
  assert (Hm : rw_magic (lk s) = RW_MAGIC) by apply I.
  assert (Hd : dumped s = false) by apply I.
  destruct e as [i r|i r|i r|i r|i r|i r|i r sg j|i|i];
    try (destruct r; [done|]); [..|exact (inv_sleepers impl s i s' _ I (or_introl eq_refl) Hx)
                                  |exact (inv_sleepers impl s i s' _ I (or_intror eq_refl) Hx)];
    try (destruct sg; [done|]);
    unfold exec in Hx; rewrite Hd in Hx; destruct (ths s !! i) as [x|] eqn:Hi; try done.
  - destruct x; try done. injection Hx as <-. rewrite law_rdlock by done. auto using inv_rd_loop.
  - destruct x; try done. injection Hx as <-. rewrite law_rdresume. auto using inv_rd_loop.
  - destruct x; try done. injection Hx as <-. rewrite law_wrlock by done. auto using inv_wr_loop.
  - destruct x; try done. injection Hx as <-. rewrite law_wrresume. auto using inv_wr_loop.
  - destruct x; try done. injection Hx as <-. rewrite law_tryrdlock by apply counted_ref, I. by apply inv_try.
  - destruct x; try done. injection Hx as <-. rewrite law_trywrlock. by apply inv_try.
  - assert (Hi' : ths s !! i = Some RdHold \/ ths s !! i = Some WrHold) by (destruct x; auto; done).
    destruct (release_ok impl s i I Hi') as [rw' Hr].
    destruct (law_unlock (lk s) rw' Hm Hr) as (w & Hu & H1 & H2 & H3). rewrite Hu in Hx.
    destruct (wake_up w j (<[i:=Idle]> (ths s))) as [l|] eqn:Hw; [|destruct x; done].
    assert (s' = St rw' l (dumped s)) as -> by (rewrite Hd; destruct x; try done; cbn in Hx; congruence).
    eapply (inv_unlock impl s i w j); done.
Qed.

Lemma inv_reachable impl `{!RwLaws impl} n s :
  reachable (start n) (ok_step impl) s -> inv impl s.
Proof. apply reachable_inv; eauto using inv_start, inv_step. Qed.

(** The part of the invariant that survives failures of the library: my_rwlock
    returns the error and leaves the counters right. *)
Ltac open_counted :=
  unfold counted; intros C;
  match type of C with
  | context [ths ?s] =>
      pose proof (num_nonneg WrHold (ths s)); pose proof (num_nonneg RdHold (ths s))
  end.

Lemma counted_fail s i x e :
  counted s ->
  (ths s !! i = Some Idle /\ x = Return (lk s) (Some e)) \/
  (ths s !! i = Some RdWake /\ x = Return (set_nwr (lk s) (rw_nwaitreaders (lk s) - 1)) (Some e)) \/
  (ths s !! i = Some WrWake /\ x = Return (set_nww (lk s) (rw_nwaitwriters (lk s) - 1)) (Some e)) ->
  counted (land_in s i RdWait RdHold x) /\ counted (land_in s i WrWait WrHold x).
Proof.
  open_counted. intros [[Hi ->]|[[Hi ->]|[Hi ->]]]; cbn [land_in]; split; close_inv.
Qed.

Lemma counted_rd_loop rw s i :
  counted s -> ths s !! i = Some Idle /\ rw = lk s \/
    ths s !! i = Some RdWake /\ rw = set_nwr (lk s) (rw_nwaitreaders (lk s) - 1) ->
  counted (land_in s i RdWait RdHold (Plain.rd_loop rw)).
Proof.
  open_counted. unfold Plain.rd_loop, rd_blocked, Plain.rd_end.
  intros [[Hi ->]|[Hi ->]]; bsplit; cbn [land_in];
    try (apply orb_prop in E; destruct E); close_inv.
Qed.

Lemma counted_wr_loop rw s i :
  counted s -> ths s !! i = Some Idle /\ rw = lk s \/
    ths s !! i = Some WrWake /\ rw = set_nww (lk s) (rw_nwaitwriters (lk s) - 1) ->
  counted (land_in s i WrWait WrHold (Plain.wr_loop rw)).
Proof.
  open_counted. unfold Plain.wr_loop, Plain.wr_end.
  intros [[Hi ->]|[Hi ->]]; bsplit; cbn [land_in]; close_inv.
Qed.

Lemma counted_try s i :
  counted s -> ths s !! i = Some Idle ->
  counted (land_in s i RdWait RdHold (tryrd None (lk s))) /\
  counted (land_in s i WrWait WrHold (trywr None (lk s))).
Proof.
  open_counted. intros Hi. unfold tryrd, trywr. rewrite magic_ok by tauto.
  unfold rd_blocked. split; bsplit; cbn [land_in];
    try (apply orb_prop in E; destruct E); close_inv.
Qed.

Lemma counted_wake rw d l w j l' :
  counted (St rw l d) -> wake_up w j l = Some l' -> counted (St rw l' d).
Proof.
  unfold counted. cbn [ths lk dumped]. intros C Hw. destruct w; cbn [wake_up] in Hw.
  - injection Hw as <-. done.
  - destruct (l !! j) as [[]|] eqn:Hj; bsplit; simplify_eq; try done. close_inv.
  - injection Hw as <-. close_inv.
Qed.

Lemma plain_unlock s sg :
  counted s -> exists rw' w, release (lk s) = Some rw' /\
     my_rwlock.(unlock) None sg (lk s) = Unlocked rw' (match w with WakeNone => None | _ => sg end) w \/
   release (lk s) = None.
Proof.
  intros C. destruct (release (lk s)) as [rw'|] eqn:Hr; [|exists (lk s), WakeNone; by right].
  exists rw'. cbn [unlock my_rwlock]. unfold Plain.unlock.
  rewrite magic_ok by apply C. rewrite Hr.
  bsplit; [exists SignalWriters|exists WakeNone|exists BroadcastReaders|exists WakeNone]; auto.
Qed.

Lemma counted_release s i rw' :
  counted s -> ths s !! i = Some RdHold \/ ths s !! i = Some WrHold ->
  release (lk s) = Some rw' -> counted (St rw' (<[i := Idle]> (ths s)) (dumped s)).
Proof.
  open_counted. intros Hi Hr. unfold release in Hr.
  assert (Hrw : rw' = set_ref (lk s) (rw_refcount (lk s) - 1) /\ 0 < rw_refcount (lk s) \/
                rw' = set_ref (lk s) 0 /\ rw_refcount (lk s) = -1)
    by (bsplit; bprop; simplify_eq; auto).
  destruct Hrw as [[-> ?]|[-> ?]], Hi as [Hi|Hi]; pose proof (num_pos _ _ _ Hi); close_inv.
Qed.

Lemma counted_release_ok s i :
  counted s -> ths s !! i = Some RdHold \/ ths s !! i = Some WrHold -> is_Some (release (lk s)).
Proof.
  open_counted. intros Hi. unfold release. bsplit; bprop; eauto.
  destruct Hi as [Hi|Hi]; pose proof (num_pos _ _ _ Hi); lia.
Qed.

Lemma counted_any_step s s' : counted s -> any_step my_rwlock s s' -> counted s'.
Proof.
  intros I (e & Hx).
  assert (Hm : rw_magic (lk s) = RW_MAGIC) by apply I.
  assert (Hd : dumped s = false) by apply I.
  destruct e as [i r|i r|i r|i r|i r|i r|i r sg j|i|i];
    unfold exec in Hx; rewrite Hd in Hx; destruct (ths s !! i) as [x|] eqn:Hi; try done.
  - destruct x; try done. injection Hx as <-. cbn [rdlock my_rwlock]. unfold Plain.rdlock.
    rewrite magic_ok by done. destruct r; [eapply counted_fail|apply counted_rd_loop]; eauto.
  - destruct x; try done. injection Hx as <-. cbn [rdresume my_rwlock]. unfold Plain.rdresume.
    destruct r; [eapply counted_fail|apply counted_rd_loop]; eauto.
  - destruct x; try done. injection Hx as <-. cbn [wrlock my_rwlock]. unfold Plain.wrlock.
    rewrite magic_ok by done. destruct r; [eapply counted_fail|apply counted_wr_loop]; eauto.
  - destruct x; try done. injection Hx as <-. cbn [wrresume my_rwlock]. unfold Plain.wrresume.
    destruct r; [eapply counted_fail|apply counted_wr_loop]; eauto.
  - destruct x; try done. injection Hx as <-. cbn [tryrdlock my_rwlock].
    destruct r; [|by apply counted_try]. unfold tryrd. rewrite magic_ok by done.
    eapply counted_fail; eauto.
  - destruct x; try done. injection Hx as <-. cbn [trywrlock my_rwlock].
    destruct r; [|by apply counted_try]. unfold trywr. rewrite magic_ok by done.
    eapply counted_fail; eauto.
  - assert (Hi' : ths s !! i = Some RdHold \/ ths s !! i = Some WrHold)
      by (destruct x; first [discriminate Hx | auto]).
    destruct r as [e|].
    { cbn [unlock my_rwlock] in Hx. unfold Plain.unlock in Hx. rewrite magic_ok in Hx by done.
      assert (s' = s) as -> by (destruct x, s; cbn in *; congruence). done. }
    destruct (counted_release_ok s i I Hi') as [rw0 Hr0].
    destruct (plain_unlock s sg I) as (rw' & w & [[Hr Hu]|Hr]); [|congruence].
    rewrite Hu in Hx.
    destruct (wake_up w j (<[i:=Idle]> (ths s))) as [l|] eqn:Hw; [|destruct x; done].
    assert (s' = St rw' l (dumped s)) as -> by (rewrite Hd; destruct x; try done; cbn in Hx; congruence).
    eapply counted_wake; [|exact Hw]. by apply counted_release.
  - revert I. open_counted. destruct x; try done; injection Hx as <-; close_inv.
  - destruct x; done.
Qed.

Lemma counted_reachable n s : reachable (start n) (any_step my_rwlock) s -> counted s.
Proof.
  apply reachable_inv; [|apply counted_any_step].
  intros s' H. apply (inv_start my_rwlock n s' H).
Qed.

(** What the counts say about the threads. *)
Lemma counted_exclusive s i j :
  counted s -> i <> j -> ths s !! i = Some WrHold ->
  ths s !! j <> Some WrHold /\ ths s !! j <> Some RdHold.
Proof.
  intros (_ & _ & _ & _ & _ & H1 & H2) Hij Hi. pose proof (num_pos _ _ _ Hi). split; intros Hj.
  - pose proof (cnt_two (eqs WrHold) _ i j _ _ Hij Hi Hj eq_refl eq_refl) as Ht.
    fold (num WrHold (ths s)) in Ht. lia.
  - pose proof (num_pos _ _ _ Hj). lia.
Qed.

Lemma num_exists x l : 0 < num x l -> exists i : nat, l !! i = Some x.
Proof.
  intros H. apply cnt_pos in H as (i & a & Hi & Ha). exists i. rewrite Hi. by destruct x, a.
Qed.

Lemma num_none x l (i : nat) : num x l = 0 -> l !! i <> Some x.
Proof. intros H Hi. pose proof (num_pos _ _ _ Hi). lia. Qed.

Definition quiet (x : status) : bool := match x with Idle | Gone => true | _ => false end.

Lemma destroy_counted s : counted s ->
  (destroy (lk s)).2 = None <-> (forall (i : nat) x, ths s !! i = Some x -> quiet x = true).
Proof.
  open_counted. unfold destroy. rewrite magic_ok by tauto.
  pose proof (num_nonneg WrWait (ths s)). pose proof (num_nonneg WrWake (ths s)).
  pose proof (num_nonneg RdWait (ths s)). pose proof (num_nonneg RdWake (ths s)).
  split.
  - intros Hd i x Hi. destruct (negb _ || negb _ || negb _) eqn:E; [done|].
    apply orb_false_elim in E as [E ?]. bprop.
    destruct x; try done; exfalso; eapply num_none; try exact Hi; lia.
  - intros Hq. assert (Hz : forall x, quiet x = false -> num x (ths s) = 0).
    { intros x Hx. destruct (decide (0 < num x (ths s))) as [Hp|Hp].
      - apply num_exists in Hp as [i Hi]. apply Hq in Hi. congruence.
      - pose proof (num_nonneg x (ths s)). lia. }
    pose proof (Hz WrWait eq_refl). pose proof (Hz WrWake eq_refl). pose proof (Hz WrHold eq_refl).
    pose proof (Hz RdWait eq_refl). pose proof (Hz RdWake eq_refl). pose proof (Hz RdHold eq_refl).
    assert (negb (rw_refcount (lk s) =? 0) = false) as -> by (apply negb_false_iff, Z.eqb_eq; lia).
    assert (negb (rw_nwaitreaders (lk s) =? 0) = false) as -> by (apply negb_false_iff, Z.eqb_eq; lia).
    assert (negb (rw_nwaitwriters (lk s) =? 0) = false) as -> by (apply negb_false_iff, Z.eqb_eq; lia).
    done.
Qed.

Lemma run_reachable_ok impl n es : forall s0,
  reachable (start n) (ok_step impl) s0 -> forallb clean es = true ->
  forall s, run impl s0 es = Some s -> reachable (start n) (ok_step impl) s.
Proof.
  induction es as [|e es IH]; intros s0 H0 Hc s Hr; cbn in Hr, Hc; [by injection Hr as <-|].
  apply andb_prop in Hc as [He Hc]. destruct (exec impl s0 e) as [s1|] eqn:Hx; [|done].
  apply (IH s1); [|done|done]. eapply reach_step; [exact H0|]. by exists e.
Qed.

Lemma run_reachable_any impl n es : forall s0,
  reachable (start n) (any_step impl) s0 ->
  forall s, run impl s0 es = Some s -> reachable (start n) (any_step impl) s.
Proof.
  induction es as [|e es IH]; intros s0 H0 s Hr; cbn in Hr; [by injection Hr as <-|].
  destruct (exec impl s0 e) as [s1|] eqn:Hx; [|done].
  apply (IH s1); [|done]. eapply reach_step; [exact H0|]. by exists e.
Qed.

Definition new_state (n : nat) : state := St RWLOCK_INITIALIZER (replicate n Idle) false.

Lemma start_reachable n step : reachable (start n) step (new_state n).
Proof. by apply reach_init. Qed.

(** ** The properties *)

(** C1: mutual exclusion, for my_rwlock whatever its library calls return: a
    thread that was told it has the lock for writing is alone with it, the
    counters of the structure are exactly the numbers of threads in each
    situation, unlock never aborts, and pthread_rwlock_destroy succeeds exactly
    when no thread holds the lock or waits for it. *)
Theorem rwlock_exclusion n s :
  reachable (start n) (any_step my_rwlock) s ->
  (forall i j : nat, i <> j -> ths s !! i = Some WrHold ->
     ths s !! j <> Some WrHold /\ ths s !! j <> Some RdHold) /\
  rw_refcount (lk s) = num RdHold (ths s) - num WrHold (ths s) /\
  rw_nwaitreaders (lk s) = num RdWait (ths s) + num RdWake (ths s) /\
  rw_nwaitwriters (lk s) = num WrWait (ths s) + num WrWake (ths s) /\
  dumped s = false /\
  ((destroy (lk s)).2 = None <-> forall (i : nat) x, ths s !! i = Some x -> quiet x = true).
Proof.
  intros H. pose proof (counted_reachable n s H) as C. split.
  - intros i j. by apply counted_exclusive.
  - pose proof (destroy_counted s C). unfold counted in C. tauto.
Qed.

Lemma rwlock_exclusion_witness :
  let s := St (Rw RW_MAGIC 1 0 (-1)) [WrHold; RdWait; Idle] false in
  run my_rwlock (new_state 3) [EWrlock 0 None; ERdlock 1 None; EWrlock 2 (Some EINVAL)] = Some s /\
  ths s !! 1%nat <> Some WrHold /\ ths s !! 1%nat <> Some RdHold.
Proof.
  cbv zeta. split; [reflexivity|].
  refine (proj1 (rwlock_exclusion 3 _ (run_reachable_any my_rwlock 3
    [EWrlock 0 None; ERdlock 1 None; EWrlock 2 (Some EINVAL)] _ (start_reachable 3 _) _ _)) 0%nat 1%nat _ _);
    [reflexivity|lia|reflexivity].
Defined.

(** C2: no wake-up is lost, in either implementation, when the library calls
    succeed and whichever threads are cancelled while they wait: as long as a
    thread sleeps on a condition variable, another one holds the lock or has been
    woken, mutual exclusion holds, and unlock never aborts. *)
Theorem rwlock_progress impl `{!RwLaws impl} n s :
  reachable (start n) (ok_step impl) s ->
  dumped s = false /\
  (forall i j : nat, i <> j -> ths s !! i = Some WrHold ->
     ths s !! j <> Some WrHold /\ ths s !! j <> Some RdHold) /\
  forall (i : nat), ths s !! i = Some RdWait \/ ths s !! i = Some WrWait ->
    exists (j : nat) y, ths s !! j = Some y /\ y ∈ [RdHold; WrHold; WrWake].
Proof.
  intros H. pose proof (inv_reachable impl n s H) as [C J].
  split; [apply C|]. split; [intros i j; by apply counted_exclusive|].
  intros i Hi. revert C J. open_counted. unfold justified. intros J.
  pose proof (num_nonneg WrWait (ths s)). pose proof (num_nonneg WrWake (ths s)).
  assert (0 < num RdHold (ths s) \/ 0 < num WrHold (ths s) \/ 0 < num WrWake (ths s)) as Hn
    by (destruct Hi as [Hi|Hi]; pose proof (num_pos _ _ _ Hi); lia).
  destruct Hn as [Hn|[Hn|Hn]]; apply num_exists in Hn as [j Hj]; exists j; eexists;
    (split; [exact Hj|]); rewrite !elem_of_cons; auto.
Qed.

Lemma rwlock_progress_witness :
  exists (j : nat) y, ths (St (Rw RW_MAGIC 1 0 1) [RdHold; Gone; RdWait] false) !! j = Some y /\
    y ∈ [RdHold; WrHold; WrWake].
Proof.
  refine (proj2 (proj2 (rwlock_progress my_rwlock_cancel 3 _ (run_reachable_ok my_rwlock_cancel 3
    [ERdlock 0 None; EWrlock 1 None; ERdlock 2 None; ECancel 1] _ (start_reachable 3 _) _ _ _))) 2%nat _);
    [reflexivity|reflexivity|by left].
Defined.

(** Writers have precedence in my_rwlock: while a writer waits, a new reader
    goes to sleep and pthread_rwlock_tryrdlock answers EBUSY; and a reader
    sleeps only while some writer holds the lock or waits for it. *)
Theorem rwlock_writer_preference n s i :
  reachable (start n) (ok_step my_rwlock) s ->
  (ths s !! i = Some RdWait ->
     exists (j : nat) y, ths s !! j = Some y /\ y ∈ [WrHold; WrWait; WrWake]) /\
  (forall (j : nat) y, ths s !! j = Some y -> y ∈ [WrWait; WrWake] ->
     tryrdlock (RwImpl := my_rwlock) None (lk s) = Return (lk s) (Some EBUSY) /\
     (ths s !! i = Some Idle ->
        exists s', exec my_rwlock s (ERdlock i None) = Some s' /\ ths s' !! i = Some RdWait)).
Proof.
  intros H. pose proof (inv_reachable my_rwlock n s H) as [C J]. split.
  - intros Hi. revert C J. open_counted. unfold justified, cancellable. cbn [cancelwrwait my_rwlock].
    intros J. pose proof (num_pos _ _ _ Hi).
    pose proof (num_nonneg WrWait (ths s)). pose proof (num_nonneg WrWake (ths s)).
    assert (0 < num WrHold (ths s) \/ 0 < num WrWait (ths s) \/ 0 < num WrWake (ths s)) as Hn by lia.
    destruct Hn as [Hn|[Hn|Hn]]; apply num_exists in Hn as [j Hj]; exists j; eexists;
      (split; [exact Hj|]); rewrite !elem_of_cons; auto.
  - intros j y Hj Hy.
    assert (Hb : rd_blocked (lk s) = true).
    { unfold rd_blocked. apply orb_true_intro. right. rewrite Z.gtb_ltb. apply Z.ltb_lt.
      unfold counted in C. pose proof (num_nonneg WrWait (ths s)). pose proof (num_nonneg WrWake (ths s)).
      rewrite !elem_of_cons, elem_of_nil in Hy.
      destruct Hy as [->|[->|[]]]; pose proof (num_pos _ _ _ Hj); lia. }
    split.
    + cbn. unfold tryrd. rewrite magic_ok by apply C. by rewrite Hb.
    + intros Hi. unfold exec. replace (dumped s) with false by (symmetry; apply C). rewrite Hi.
      eexists. split; [reflexivity|]. rewrite law_rdlock by apply C. unfold Plain.rd_loop. rewrite Hb.
      cbn [land_in ths]. apply list_lookup_insert_eq. by apply lookup_lt_Some in Hi.
Qed.

Lemma rwlock_writer_preference_witness :
  exists (j : nat) y, ths (St (Rw RW_MAGIC 1 1 1) [RdHold; WrWait; RdWait] false) !! j = Some y /\
    y ∈ [WrHold; WrWait; WrWake].
Proof.
  refine (proj1 (rwlock_writer_preference 3 _ 2%nat (run_reachable_ok my_rwlock 3
    [ERdlock 0 None; EWrlock 1 None; ERdlock 2 None] _ (start_reachable 3 _) _ _ _)) _);
    reflexivity.
Defined.

(** My_rwlock_cancel gives up both guarantees.  When a waiting writer is
    cancelled, a reader that waited because of it sleeps on although the lock is
    held by readers only and no writer waits; and since rdlock and wrlock end
    with [return(0)], a thread whose pthread_cond_wait failed believes it has the
    lock, so that two writers can hold it together. *)
Theorem rwlock_cancel_flaws :
  (exists s, reachable (start 3) (ok_step my_rwlock_cancel) s /\
     ths s = [RdHold; Gone; RdWait] /\ rw_nwaitwriters (lk s) = 0 /\
     tryrdlock (RwImpl := my_rwlock_cancel) None (lk s) = Return (set_ref (lk s) 2) None) /\
  (exists s, reachable (start 2) (any_step my_rwlock_cancel) s /\ ths s = [WrHold; WrHold]).
Proof.
  split.
  - eexists. split.
    + refine (run_reachable_ok my_rwlock_cancel 3
        [ERdlock 0 None; EWrlock 1 None; ERdlock 2 None; ECancel 1] _ (start_reachable 3 _) _ _ _);
        reflexivity.
    + split; [|split]; reflexivity.
  - eexists. split.
    + refine (run_reachable_any my_rwlock_cancel 2
        [EWrlock 0 None; EWrlock 1 None; ESpurious 1; EWrResume 1 (Some EINVAL)] _ (start_reachable 2 _) _ _);
        reflexivity.
    + reflexivity.
Qed.

End RwLock.
