(* ===== verification/MsgQueue.v ===== *)
(** * Posix message queues in a mapped file

    Model of src/IPC/unpv22e/my_pxmsg_mmap: mqueue.h, mq_send.c, mq_receive.c,
    mq_notify.c, mq_getattr.c, mq_setattr.c, mq_close.c and the initialisation of
    the mapped file in mq_open.c (the opening protocol itself is in MqOpen.v).
    The mapped file is the header and a finite map from byte offsets to message
    headers; [None] is an access through an offset where there is no message, or
    a copy past the end of a message's space.  A section of code that runs under
    [mqh_lock] is one function, split at pthread_cond_wait. *)

From S2P Require Import Prelude.
From Stdlib Require Import Sorting.Sorted.

Module MsgQueue.

Abbreviation result := (option errno).

(** ** Data (mqueue.h) *)

Record mymq_attr := Attr { mq_flags : Z; mq_maxmsg : Z; mq_msgsize : Z; mq_curmsgs : Z }.

Record sigevent := Sigevent { sigev_notify : Z; sigev_signo : Z; sigev_value : Z }.
Definition SIGEV_SIGNAL : Z := 0.

Record mymq_hdr := Hdr {
  mqh_attr : mymq_attr;
  mqh_head : Z;
  mqh_free : Z;
  mqh_nwait : Z;
  mqh_pid : Z;
  mqh_event : sigevent
}.

(** A message: its header and the space of [MSGSIZE(mq_msgsize)] bytes after it. *)
Record mymsg := Msg { msg_next : Z; msg_len : Z; msg_prio : Z; msg_body : list Z }.

Record mymq_info := Info { mqi_magic : Z; mqi_flags : Z }.

Definition MQI_MAGIC : Z := 0x98765432.
Definition O_NONBLOCK : Z := 0x800.
(** [sizeof(long)] and [sizeof(struct mymsg_hdr)] where [long] has 8 bytes. *)
Definition SIZEOF_LONG : Z := 8.
Definition SIZEOF_MSG_HDR : Z := 24.
Definition MSGSIZE (i : Z) : Z := (i + SIZEOF_LONG - 1) / SIZEOF_LONG * SIZEOF_LONG.

(** The mapped file. *)
Record queue := Queue { hdr : mymq_hdr; mem : gmap Z mymsg }.

Definition set_curmsgs (h : mymq_hdr) (n : Z) : mymq_hdr :=
  Hdr (Attr (mq_flags (mqh_attr h)) (mq_maxmsg (mqh_attr h)) (mq_msgsize (mqh_attr h)) n)
    (mqh_head h) (mqh_free h) (mqh_nwait h) (mqh_pid h) (mqh_event h).
Definition set_head (h : mymq_hdr) (i : Z) : mymq_hdr :=
  Hdr (mqh_attr h) i (mqh_free h) (mqh_nwait h) (mqh_pid h) (mqh_event h).
Definition set_free (h : mymq_hdr) (i : Z) : mymq_hdr :=
  Hdr (mqh_attr h) (mqh_head h) i (mqh_nwait h) (mqh_pid h) (mqh_event h).
Definition set_nwait (h : mymq_hdr) (n : Z) : mymq_hdr :=
  Hdr (mqh_attr h) (mqh_head h) (mqh_free h) n (mqh_pid h) (mqh_event h).
Definition set_reg (h : mymq_hdr) (pid : Z) (ev : sigevent) : mymq_hdr :=
  Hdr (mqh_attr h) (mqh_head h) (mqh_free h) (mqh_nwait h) pid ev.
Definition set_next (m : mymsg) (i : Z) : mymsg := Msg i (msg_len m) (msg_prio m) (msg_body m).

Definition curmsgs (q : queue) : Z := mq_curmsgs (mqh_attr (hdr q)).
Definition maxmsg (q : queue) : Z := mq_maxmsg (mqh_attr (hdr q)).
Definition msgsize (q : queue) : Z := mq_msgsize (mqh_attr (hdr q)).

(** What a section does besides changing the file. *)
Inductive effect := Sigqueue (pid signo value : Z) | CondSignal.

(** How a section ends: asleep in pthread_cond_wait, or returning. *)
Inductive section (R : Type) :=
| CondWait (q : queue)
| Done (q : queue) (r : outcome R) (eff : list effect).
Arguments CondWait {R} q.
Arguments Done {R} q r eff.

Definition bad_magic (i : mymq_info) : bool := negb (mqi_magic i =? MQI_MAGIC).
Definition nonblocking (i : mymq_info) : bool := negb (Z.land (mqi_flags i) O_NONBLOCK =? 0).

(** ** mq_send.c *)

(** The loop that finds the place for the new message: the previous link ([None]
    is [&mqh_head]) and the index of the next message, 0 at the end. *)
Fixpoint find_place (fuel : nat) (m : gmap Z mymsg) (prio : Z) (pmsghdr : option Z) (index : Z) :
    option (option Z * Z) :=
  if index =? 0 then Some (pmsghdr, 0)
  else match fuel with
  | O => None
  | S fuel' =>
      msghdr ← m !! index;
      if prio >? msg_prio msghdr then Some (pmsghdr, index)
      else find_place fuel' m prio (Some index) (msg_next msghdr)
  end.

(** [pmsghdr->msg_next = v]. *)
Definition link (q : queue) (pmsghdr : option Z) (v : Z) : option queue :=
  match pmsghdr with
  | None => Some (Queue (set_head (hdr q) v) (mem q))
  | Some p => m ← mem q !! p; Some (Queue (hdr q) (<[p := set_next m v]> (mem q)))
  end.

(** From [freeindex = mqhdr->mqh_free] to the return. *)
Definition send_insert (q : queue) (data : list Z) (prio : Z) (eff : list effect) :
    option (section unit) :=
  let freeindex := mqh_free (hdr q) in
  if freeindex =? 0 then Some (Done q Abort eff)
  else
    nmsghdr ← mem q !! freeindex;
    body ← write_at (msg_body nmsghdr) 0 data;
    let new := Msg (msg_next nmsghdr) (Z.of_nat (length data)) prio body in
    let q1 := Queue (set_free (hdr q) (msg_next nmsghdr)) (<[freeindex := new]> (mem q)) in
    '(pmsghdr, index) ← find_place (S (Z.to_nat (maxmsg q))) (mem q1) prio None (mqh_head (hdr q1));
    let q2 := Queue (hdr q1) (<[freeindex := set_next new index]> (mem q1)) in
    q3 ← link q2 pmsghdr freeindex;
    Some (Done (Queue (set_curmsgs (hdr q3) (curmsgs q + 1)) (mem q3)) (Ret tt)
            (eff ++ if curmsgs q =? 0 then [CondSignal] else [])).

(** [while (attr->mq_curmsgs >= attr->mq_maxmsg) pthread_cond_wait(...)]. *)
Definition send_loop (q : queue) (data : list Z) (prio : Z) : option (section unit) :=
  if curmsgs q >=? maxmsg q then Some (CondWait q) else send_insert q data prio [].

(** The notification of the registered process when the queue was empty. *)
Definition notify_empty (q : queue) : queue * list effect :=
  let h := hdr q in
  if negb (mqh_pid h =? 0) && (mqh_nwait h =? 0) then
    (Queue (set_reg h 0 (mqh_event h)) (mem q),
     if sigev_notify (mqh_event h) =? SIGEV_SIGNAL
     then [Sigqueue (mqh_pid h) (sigev_signo (mqh_event h)) (sigev_value (mqh_event h))] else [])
  else (q, []).

(** [mymq_send] up to its return or its wait; [locked] is the result of
    pthread_mutex_lock. *)
Definition mymq_send (mqd : mymq_info) (q : queue) (locked : result) (data : list Z) (prio : Z) :
    option (section unit) :=
  if bad_magic mqd then Some (Done q (Fail EBADF) [])
  else match locked with
  | Some n => Some (Done q (Fail n) [])
  | None =>
      if Z.of_nat (length data) >? msgsize q then Some (Done q (Fail EMSGSIZE) [])
      else if curmsgs q =? 0 then
        let '(q1, eff) := notify_empty q in send_insert q1 data prio eff
      else if curmsgs q >=? maxmsg q then
        if nonblocking mqd then Some (Done q (Fail EAGAIN) [])
        else send_loop q data prio
      else send_insert q data prio []
  end.

(** ** mq_receive.c *)

(** What mymq_receive gives to its caller: the bytes (their number is the value
    returned) and the priority. *)
Record received := Received { rdata : list Z; rprio : Z }.

Definition receive_remove (q : queue) : option (section received) :=
  let index := mqh_head (hdr q) in
  if index =? 0 then Some (Done q Abort [])
  else
    msghdr ← mem q !! index;
    data ← read_at (msg_body msghdr) 0 (Z.to_nat (msg_len msghdr));
    let h1 := set_head (hdr q) (msg_next msghdr) in
    let m1 := <[index := set_next msghdr (mqh_free h1)]> (mem q) in
    let h2 := set_free h1 index in
    Some (Done (Queue (set_curmsgs h2 (curmsgs q - 1)) m1)
            (Ret (Received data (msg_prio msghdr)))
            (if curmsgs q =? maxmsg q then [CondSignal] else [])).

(** [while (attr->mq_curmsgs == 0) pthread_cond_wait(...)], then [mqh_nwait--]. *)
Definition receive_loop (q : queue) : option (section received) :=
  if curmsgs q =? 0 then Some (CondWait q)
  else receive_remove (Queue (set_nwait (hdr q) (mqh_nwait (hdr q) - 1)) (mem q)).

Definition mymq_receive (mqd : mymq_info) (q : queue) (locked : result) (maxlen : Z) :
    option (section received) :=
  if bad_magic mqd then Some (Done q (Fail EBADF) [])
  else match locked with
  | Some n => Some (Done q (Fail n) [])
  | None =>
      if maxlen <? msgsize q then Some (Done q (Fail EMSGSIZE) [])
      else if curmsgs q =? 0 then
        if nonblocking mqd then Some (Done q (Fail EAGAIN) [])
        else receive_loop (Queue (set_nwait (hdr q) (mqh_nwait (hdr q) + 1)) (mem q))
      else receive_remove q
  end.

(** ** mq_notify.c, mq_getattr.c, mq_setattr.c, mq_close.c *)

(** [killed] is what [kill(mqh_pid, 0)] answers. *)
Definition mymq_notify (mqd : mymq_info) (q : queue) (locked : result) (pid : Z)
    (notification : option sigevent) (killed : result) : queue * outcome unit :=
  if bad_magic mqd then (q, Fail EBADF)
  else match locked with
  | Some n => (q, Fail n)
  | None =>
      let h := hdr q in
      match notification with
      | None =>
          if mqh_pid h =? pid then (Queue (set_reg h 0 (mqh_event h)) (mem q), Ret tt) else (q, Ret tt)
      | Some ev =>
          if negb (mqh_pid h =? 0) && negb (bool_decide (killed = Some ESRCH)) then (q, Fail EBUSY)
          else (Queue (set_reg h pid ev) (mem q), Ret tt)
      end
  end.

Definition mymq_getattr (mqd : mymq_info) (q : queue) (locked : result) : outcome mymq_attr :=
  if bad_magic mqd then Fail EBADF
  else match locked with
  | Some n => Fail n
  | None => Ret (Attr (mqi_flags mqd) (maxmsg q) (msgsize q) (curmsgs q))
  end.

(** The new flags of the descriptor and the previous attributes. *)
Definition mymq_setattr (mqd : mymq_info) (q : queue) (locked : result) (flags : Z) :
    mymq_info * outcome mymq_attr :=
  if bad_magic mqd then (mqd, Fail EBADF)
  else match locked with
  | Some n => (mqd, Fail n)
  | None =>
      (Info (mqi_magic mqd)
         (if negb (Z.land flags O_NONBLOCK =? 0) then Z.lor (mqi_flags mqd) O_NONBLOCK
          else Z.land (mqi_flags mqd) (Z.lnot O_NONBLOCK)),
       Ret (Attr (mqi_flags mqd) (maxmsg q) (msgsize q) (curmsgs q)))
  end.

(** mymq_close: the caller is unregistered, the file unmapped; the length of the
    unmapped region depends on [HDRSZ], the size of [struct mymq_hdr]. *)
Definition mymq_close (HDRSZ : Z) (mqd : mymq_info) (q : queue) (locked : result) (pid : Z)
    (unmapped : result) : mymq_info * queue * outcome Z :=
  if bad_magic mqd then (mqd, q, Fail EBADF)
  else match mymq_notify mqd q locked pid None None with
  | (q1, Ret _) =>
      let filesize := HDRSZ + maxmsg q1 * (SIZEOF_MSG_HDR + MSGSIZE (msgsize q1)) in
      match unmapped with
      | Some e => (mqd, q1, Fail e)
      | None => (Info 0 (mqi_flags mqd), q1, Ret filesize)
      end
  | (q1, Fail e) => (mqd, q1, Fail e)
  | (q1, _) => (mqd, q1, Abort)
  end.

(** ** The initialisation of the file in mq_open.c *)

(** The loop that chains the messages from the offset [index] on; the space after
    each header holds whatever is in the new file. *)
Fixpoint init_free (n : nat) (index stride : Z) (space : list Z) : gmap Z mymsg :=
  match n with
  | O => ∅
  | S n' =>
      <[index := Msg (match n' with O => 0 | _ => index + stride end) 0 0 space]>
        (init_free n' (index + stride) stride space)
  end.

Definition init_queue (HDRSZ : Z) (attr : mymq_attr) : queue :=
  let sz := MSGSIZE (mq_msgsize attr) in
  Queue (Hdr (Attr 0 (mq_maxmsg attr) (mq_msgsize attr) 0) 0 HDRSZ 0 0 (Sigevent 0 0 0))
    (init_free (Z.to_nat (mq_maxmsg attr)) HDRSZ (SIZEOF_MSG_HDR + sz) (replicate (Z.to_nat sz) 0)).

(** ** Linked lists in the file *)

(** [chain m i l]: the indexes of the list that starts at [i], up to the 0 that
    ends it. *)
Fixpoint chain (m : gmap Z mymsg) (i : Z) (l : list Z) : Prop :=
  match l with
  | [] => i = 0
  | x :: l' => i = x /\ x <> 0 /\ exists c, m !! x = Some c /\ chain m (msg_next c) l'
  end.

Lemma chain_ext m m' i l :
  (forall x, x ∈ l -> m' !! x = m !! x) -> chain m i l -> chain m' i l.
Proof.
  revert i. induction l as [|x l IH]; intros i He; [done|].
  intros (-> & H0 & c & Hc & Hl). split; [done|]. split; [done|]. exists c.
  rewrite He by apply list_elem_of_here. split; [done|]. apply IH; [|done].
  intros y Hy. apply He. by apply list_elem_of_further.
Qed.

Lemma chain_insert_ne m i l k v : k ∉ l -> chain m i l -> chain (<[k := v]> m) i l.
Proof.
  intros Hk. apply chain_ext. intros x Hx. apply lookup_insert_ne. by intros ->.
Qed.

Lemma chain_nonzero m i l : chain m i l -> 0 ∉ l.
Proof.
  revert i. induction l as [|x l IH]; intros i.
  - intros _. apply not_elem_of_nil.
  - intros (_ & H0 & c & _ & Hl). apply not_elem_of_cons. split; [congruence|]. by eapply IH.
Qed.

(** Splicing the new node [k] after the node [p] of the list. *)
Lemma chain_splice m i l1 p l2 k c :
  chain m i (l1 ++ p :: l2) -> NoDup (l1 ++ p :: l2) -> k ∉ l1 ++ p :: l2 -> k <> 0 ->
  m !! p = Some c ->
  forall n, chain m (msg_next n) l2 ->
  chain (<[p := set_next c k]> (<[k := n]> m)) i (l1 ++ p :: k :: l2).
Proof.
  intros Hl Hnd Hk Hk0 Hp n Hn.
  assert (Hpk : k <> p) by (intros ->; apply Hk, elem_of_app; right; apply list_elem_of_here).
  revert i Hl. induction l1 as [|x l1 IH]; intros i Hl.
  - cbn [app chain] in *. destruct Hl as (-> & H0 & c' & Hc & Hl). split; [done|]. split; [done|].
    exists (set_next c k). rewrite lookup_insert_eq. split; [done|]. cbn [msg_next set_next].
    split; [done|]. split; [done|]. exists n.
    rewrite lookup_insert_ne, lookup_insert_eq by done. split; [done|].
    apply NoDup_cons in Hnd as [Hnd _]. apply not_elem_of_cons in Hk as [_ Hk].
    by apply chain_insert_ne, chain_insert_ne.
  - cbn [app chain] in *. destruct Hl as (-> & H0 & c' & Hc & Hl). split; [done|]. split; [done|].
    apply NoDup_cons in Hnd as [Hx Hnd]. apply not_elem_of_cons in Hk as [Hkx Hk].
    exists c'. split; [|by apply IH].
    rewrite !lookup_insert_ne; [done|done|].
    intros ->. apply Hx, elem_of_app. right. apply list_elem_of_here.
Qed.

(** ** The abstract queue

    Messages in the order of their arrival.  A receive takes the first message
    among those of the highest priority. *)

Abbreviation message := (Z * list Z)%type.

Record aqueue := AQ {
  a_max : Z; a_size : Z;
  arrivals : list message;
  a_nwait : Z; a_pid : Z; a_event : sigevent
}.

Definition takes (l : list message) (m : message) (l' : list message) : Prop :=
  exists a b, l = a ++ m :: b /\ l' = a ++ b /\
    Forall (fun x => x.1 < m.1) a /\ Forall (fun x => x.1 <= m.1) b.

(** The order of the linked list: by decreasing priority, then by arrival. *)
Fixpoint place (m : message) (l : list message) : list message :=
  match l with
  | [] => [m]
  | x :: l' => if m.1 >? x.1 then m :: x :: l' else x :: place m l'
  end.
Definition prio_order (l : list message) : list message := foldl (fun acc m => place m acc) [] l.

Lemma prio_order_snoc l m : prio_order (l ++ [m]) = place m (prio_order l).
Proof. unfold prio_order. by rewrite foldl_app. Qed.

Lemma place_length m l : length (place m l) = S (length l).
Proof. induction l; simpl; [done|]. bsplit; simpl; auto. Qed.

Lemma prio_order_length l : length (prio_order l) = length l.
Proof.
  induction l as [|m l IH] using rev_ind; [done|].
  rewrite prio_order_snoc, place_length, IH, length_app. simpl. lia.
Qed.

Lemma takes_max l m l' x : takes l m l' -> x ∈ l -> x.1 <= m.1.
Proof.
  intros (a & b & -> & -> & Ha & Hb) Hx. rewrite Forall_forall in Ha, Hb.
  apply elem_of_app in Hx as [Hx|[->|Hx]%elem_of_cons]; [apply Ha in Hx; lia|lia|by apply Hb].
Qed.

(** The head of the linked list is the message the abstract queue gives up. *)
Lemma prio_order_takes l m t :
  prio_order l = m :: t -> exists l', takes l m l' /\ prio_order l' = t.
Proof.
  revert m t. induction l as [|x l IH] using rev_ind; intros m t; [done|].
  rewrite prio_order_snoc. destruct (prio_order l) as [|h t'] eqn:E.
  - intros [= <- <-]. destruct l as [|y l] using rev_ind; [|by rewrite prio_order_snoc in E; destruct (prio_order l); simpl in E; bsplit].
    exists []. split; [|done]. exists [], []. repeat split; constructor.
  - destruct (IH h t' eq_refl) as (l' & Ht & Hl'). cbn [place].
    destruct (x.1 >? h.1) eqn:Hx; bprop; intros [= <- <-].
    + exists l. split; [|done]. exists l, []. rewrite app_nil_r. repeat split; [|constructor].
      apply Forall_forall. intros y Hy. pose proof (takes_max _ _ _ _ Ht Hy). lia.
    + destruct Ht as (a & b & -> & -> & Ha & Hb). exists (a ++ b ++ [x]). split.
      * exists a, (b ++ [x]). rewrite <- app_assoc. repeat split; [done|].
        apply Forall_app. split; [done|]. constructor; [lia|constructor].
      * by rewrite app_assoc, prio_order_snoc, Hl'.
Qed.

(** ** The abstraction relation *)

Definition content (m : gmap Z mymsg) (x : Z) (p : message) : Prop :=
  exists c, m !! x = Some c /\ msg_prio c = p.1 /\ msg_len c = Z.of_nat (length p.2) /\
    take (length p.2) (msg_body c) = p.2 /\ (length p.2 <= length (msg_body c))%nat.

(** The file represents the abstract queue: the messages and the free messages
    are two disjoint lists, all with enough space. *)
Definition represents (q : queue) (a : aqueue) : Prop :=
  0 < a_max a /\
  maxmsg q = a_max a /\ msgsize q = a_size a /\ curmsgs q = Z.of_nat (length (arrivals a)) /\
  mqh_nwait (hdr q) = a_nwait a /\ mqh_pid (hdr q) = a_pid a /\ mqh_event (hdr q) = a_event a /\
  exists l f,
    chain (mem q) (mqh_head (hdr q)) l /\ chain (mem q) (mqh_free (hdr q)) f /\ NoDup (l ++ f) /\
    Z.of_nat (length (l ++ f)) = a_max a /\
    (forall x c, x ∈ l ++ f -> mem q !! x = Some c -> a_size a <= Z.of_nat (length (msg_body c))) /\
    Forall2 (content (mem q)) l (prio_order (arrivals a)).

Lemma content_ext m m' x p : m' !! x = m !! x -> content m x p -> content m' x p.
Proof. unfold content. by intros ->. Qed.

Lemma Forall2_impl_in {A B} (P Q : A -> B -> Prop) l ps :
  (forall x p, x ∈ l -> P x p -> Q x p) -> Forall2 P l ps -> Forall2 Q l ps.
Proof.
  intros He H. induction H as [|x p l ps Hx Hl IH]; constructor.
  - apply He; [apply list_elem_of_here|done].
  - apply IH. intros y q Hy. apply He. by apply list_elem_of_further.
Qed.

Lemma Forall2_content_ext m m' l ps :
  (forall x, x ∈ l -> m' !! x = m !! x) ->
  Forall2 (content m) l ps -> Forall2 (content m') l ps.
Proof.
  intros He. apply Forall2_impl_in. intros x p Hx. apply content_ext. by apply He.
Qed.

(** Changing only the link of a message keeps the contents. *)
Lemma content_set_next m k c v x p :
  m !! k = Some c -> content m x p -> content (<[k := set_next c v]> m) x p.
Proof.
  intros Hk (c' & Hc & H). destruct (decide (x = k)) as [->|Hne].
  - exists (set_next c v). rewrite lookup_insert_eq. split; [done|].
    assert (c' = c) as -> by congruence. exact H.
  - exists c'. by rewrite lookup_insert_ne.
Qed.

(** ** Sending *)

Definition first_or_0 (l : list Z) : Z := match l with [] => 0 | y :: _ => y end.
Definition last_or (l : list Z) (d : option Z) : option Z :=
  match last l with Some x => Some x | None => d end.

Lemma last_or_cons x l d : last_or l (Some x) = last_or (x :: l) d.
Proof. unfold last_or. rewrite last_cons. by destruct (last l). Qed.

(** The search stops after the messages of at least the same priority: where
    [place] puts the new message. *)
Lemma find_place_spec m prio d l : forall ps pred i fuel,
  chain m i l -> Forall2 (content m) l ps -> (length l <= fuel)%nat ->
  exists l1 l2 ps1 ps2, l = l1 ++ l2 /\ ps = ps1 ++ ps2 /\
    Forall2 (content m) l1 ps1 /\ Forall2 (content m) l2 ps2 /\
    place (prio, d) ps = ps1 ++ (prio, d) :: ps2 /\ chain m (first_or_0 l2) l2 /\
    find_place fuel m prio pred i = Some (last_or l1 pred, first_or_0 l2).
Proof.
  induction l as [|x l IH]; intros ps pred i fuel Hc Hp Hf.
  - inversion Hp; subst. cbn [chain] in Hc. subst i.
    exists [], [], [], []. repeat split; try constructor. by destruct fuel.
  - inversion Hp as [|? p ? ps' Hx Hp']; subst. pose proof Hc as Hchain.
    cbn [chain] in Hc. destruct Hc as (-> & H0 & c & Hm & Hc).
    destruct fuel as [|fuel]; [simpl in Hf; lia|].
    destruct Hx as (c' & Hm' & Hpr & Hx). assert (c' = c) as -> by congruence.
    destruct (prio >? msg_prio c) eqn:Hgt.
    + exists [], (x :: l), [], (p :: ps'). repeat split; try constructor; try done.
      * by exists c.
      * cbn [place fst]. by rewrite <- Hpr, Hgt.
      * by exists c.
      * cbn [find_place]. rewrite (proj2 (Z.eqb_neq _ _) H0), Hm. cbn [mbind option_bind]. by rewrite Hgt.
    + destruct (IH ps' (Some x) (msg_next c) fuel Hc Hp' ltac:(simpl in Hf; lia))
        as (l1 & l2 & ps1 & ps2 & -> & -> & H1 & H2 & Hpl & Hc2 & Hfp).
      exists (x :: l1), l2, (p :: ps1), ps2. repeat split; try done.
      * constructor; [|done]. by exists c.
      * cbn [place fst]. by rewrite <- Hpr, Hgt, Hpl.
      * cbn [find_place]. rewrite (proj2 (Z.eqb_neq _ _) H0), Hm. cbn [mbind option_bind].
        rewrite Hgt, Hfp. by rewrite (last_or_cons _ _ pred).
Qed.

(** Writing the links around the new node [k]: the list with [k] between [l1] and
    [l2], in a file that differs only at [k] and in links. *)
Lemma link_spec q l1 l2 k new :
  chain (mem q) (mqh_head (hdr q)) (l1 ++ l2) -> chain (mem q) (first_or_0 l2) l2 ->
  NoDup (l1 ++ l2) -> k ∉ l1 ++ l2 -> k <> 0 ->
  exists q', link (Queue (hdr q) (<[k := set_next new (first_or_0 l2)]> (mem q)))
               (last_or l1 None) k = Some q' /\
    chain (mem q') (mqh_head (hdr q')) (l1 ++ k :: l2) /\
    (exists h, hdr q' = set_head (hdr q) h) /\
    (forall x, x ∉ l1 -> x <> k -> mem q' !! x = mem q !! x) /\
    mem q' !! k = Some (set_next new (first_or_0 l2)) /\
    (forall x p, x ∈ l1 -> content (mem q) x p -> content (mem q') x p) /\
    (forall x c, x <> k -> mem q' !! x = Some c ->
       exists c', mem q !! x = Some c' /\ length (msg_body c') = length (msg_body c)).
Proof.
  intros Hl Hl2 Hnd Hk Hk0. destruct l1 as [|p l1 _] using rev_ind.
  - cbn [link last_or last]. eexists. split; [reflexivity|]. cbn [hdr mem set_head mqh_head app] in *.
    split; [|split; [by eexists|split; [|split; [|split]]]].
    + cbn [chain]. split; [done|]. split; [done|]. eexists. rewrite lookup_insert_eq. split; [done|].
      by apply chain_insert_ne.
    + intros x _ Hx. by rewrite lookup_insert_ne.
    + by rewrite lookup_insert_eq.
    + intros x p H. by apply elem_of_nil in H.
    + intros x c Hx. rewrite lookup_insert_ne by done. eauto.
  - assert (Hp : exists c, mem q !! p = Some c).
    { clear -Hl. revert Hl. generalize (mqh_head (hdr q)). induction l1 as [|x l1 IH]; intros i Hl.
      - cbn [app chain] in Hl. destruct Hl as (_ & _ & c & Hc & _). eauto.
      - cbn [app chain] in Hl. destruct Hl as (_ & _ & c & _ & Hl). eauto. }
    destruct Hp as [c Hp].
    assert (Hpk : k <> p).
    { intros ->. apply Hk. rewrite !elem_of_app. left. right. apply list_elem_of_here. }
    unfold last_or. rewrite last_snoc. cbn [link mem hdr].
    rewrite lookup_insert_ne, Hp by done. cbn [mbind option_bind].
    eexists. split; [reflexivity|]. cbn [hdr mem].
    rewrite <- !app_assoc in *. cbn [app] in *.
    split; [|split; [exists (mqh_head (hdr q)); by destruct (hdr q)|split; [|split; [|split]]]].
    + by apply chain_splice.
    + intros x Hx Hxk. apply not_elem_of_app in Hx as [_ Hx]. apply not_elem_of_cons in Hx as [Hx _].
      by rewrite !lookup_insert_ne.
    + rewrite lookup_insert_ne, lookup_insert_eq by done. done.
    + intros x pr Hx Hc. apply content_set_next; [by rewrite lookup_insert_ne|].
      eapply content_ext; [|exact Hc]. rewrite lookup_insert_ne; [done|].
      intros ->. apply Hk. rewrite elem_of_app in Hx |- *.
      destruct Hx as [Hx|Hx]; [by left|right]. apply elem_of_cons. left.
      by apply elem_of_cons in Hx as [->|Hx%elem_of_nil].
    + intros x c' Hxk. destruct (decide (x = p)) as [->|Hxp].
      * rewrite lookup_insert_eq. intros [= <-]. eauto.
      * rewrite !lookup_insert_ne by done. eauto.
Qed.

Definition a_push (a : aqueue) (m : message) : aqueue :=
  AQ (a_max a) (a_size a) (arrivals a ++ [m]) (a_nwait a) (a_pid a) (a_event a).

Lemma write_at_0 body data : (length data <= length body)%nat ->
  write_at body 0 data = Some (data ++ drop (length data) body).
Proof. intros H. unfold write_at. by rewrite decide_True. Qed.

Lemma send_insert_ok q a data prio eff :
  represents q a -> Z.of_nat (length (arrivals a)) < a_max a -> Z.of_nat (length data) <= a_size a ->
  exists q', send_insert q data prio eff =
      Some (Done q' (Ret tt) (eff ++ if curmsgs q =? 0 then [CondSignal] else [])) /\
    represents q' (a_push a (prio, data)).
Proof.
  intros (Hpos & Hmax & Hsz & Hcur & Hnw & Hpid & Hev & l & f & Hl & Hf & Hnd & Hlen & Hcap & Hcont) Hroom Hfit.
  assert (Hll : length l = length (arrivals a))
    by (rewrite <- (prio_order_length (arrivals a)); by eapply Forall2_length).
  destruct f as [|k f]; [rewrite app_nil_r in Hlen; lia|].
  cbn [chain] in Hf. destruct Hf as (Hk & Hk0 & c & Hc & Hf).
  assert (Hcapk : a_size a <= Z.of_nat (length (msg_body c))).
  { apply (Hcap k); [|done]. apply elem_of_app. right. apply list_elem_of_here. }
  assert (Hkl : (k ∉ l) /\ (k ∉ f)).
  { apply NoDup_app in Hnd as (_ & H & Hnd). split.
    - intros Hx. apply (H k Hx). apply list_elem_of_here.
    - by apply NoDup_cons in Hnd as [? _]. }
  destruct Hkl as [Hkl Hkf].
  unfold send_insert. rewrite Hk, (proj2 (Z.eqb_neq _ _) Hk0), Hc. cbn [mbind option_bind].
  rewrite write_at_0 by lia. cbn [mbind option_bind mem hdr].
  set (new := Msg (msg_next c) (Z.of_nat (length data)) prio (data ++ drop (length data) (msg_body c))).
  set (q1 := Queue (set_free (hdr q) (msg_next c)) (<[k := new]> (mem q))).
  assert (Hl1 : chain (mem q1) (mqh_head (hdr q1)) l) by (by apply chain_insert_ne).
  assert (Hcont1 : Forall2 (content (mem q1)) l (prio_order (arrivals a))).
  { eapply Forall2_content_ext; [|exact Hcont]. intros x Hx. apply lookup_insert_ne. by intros ->. }
  assert (Hfuel : (length l <= S (Z.to_nat (maxmsg q)))%nat) by (rewrite length_app in Hlen; lia).
  destruct (find_place_spec (mem q1) prio data l _ None _ _ Hl1 Hcont1 Hfuel)
    as (l1 & l2 & ps1 & ps2 & -> & Hps & H1 & H2 & Hpl & Hc2 & Hfp).
  change (<[k := new]> (mem q)) with (mem q1).
  change (set_free (hdr q) (msg_next c)) with (hdr q1). rewrite Hfp. cbn [mbind option_bind].
  destruct (link_spec q1 l1 l2 k new Hl1 Hc2) as (q3 & Hlink & Hch & [h Hh] & Hother & Hnew & Hc1 & Hbody);
    [by apply NoDup_app in Hnd as [? _]|done|done|].
  rewrite Hlink. cbn [mbind option_bind]. eexists. split; [reflexivity|].
  assert (Hin : forall x, (x ∈ l1 ++ k :: l2 ++ f) <-> (x ∈ (l1 ++ l2) ++ k :: f))
    by (intros x; rewrite !elem_of_app, !elem_of_cons, !elem_of_app; tauto).
  assert (Hnd' : NoDup ((l1 ++ k :: l2) ++ f)).
  { rewrite <- app_assoc. cbn [app]. eapply NoDup_Permutation_proper; [|exact Hnd].
    rewrite <- app_assoc, <- Permutation_middle, <- !Permutation_middle. done. }
  unfold represents, maxmsg, msgsize, curmsgs in *. cbn [hdr mem set_curmsgs mqh_attr mq_maxmsg mq_msgsize
    mq_curmsgs mqh_nwait mqh_pid mqh_event mqh_head mqh_free a_push a_max a_size arrivals a_nwait a_pid a_event].
  rewrite Hh. cbn [set_head q1 set_free hdr mqh_attr mqh_nwait mqh_pid mqh_event mqh_free].
  repeat (split; [first [done | rewrite length_app; simpl; lia]|]).
  exists (l1 ++ k :: l2), f. split; [by rewrite Hh in Hch|]. split; [|split; [done|split; [|split]]].
  - eapply chain_ext; [|exact Hf]. intros x Hx.
    apply NoDup_app in Hnd as (_ & Hd & _).
    rewrite Hother; [apply lookup_insert_ne; by intros ->| |by intros ->].
    intros Hx1. apply (Hd x); [apply elem_of_app; by left|by apply list_elem_of_further].
  - rewrite <- Hlen, !length_app. simpl. lia.
  - intros x cx Hx Hcx. rewrite <- app_assoc in Hx. cbn [app] in Hx. apply Hin in Hx.
    destruct (decide (x = k)) as [->|Hxk].
    + rewrite Hnew in Hcx. injection Hcx as <-. cbn [new set_next msg_body].
      rewrite length_app, length_drop. lia.
    + destruct (Hbody x cx Hxk Hcx) as (c' & Hc' & <-). apply (Hcap x c' Hx).
      unfold q1 in Hc'. cbn [mem] in Hc'. by rewrite lookup_insert_ne in Hc'.
  - rewrite prio_order_snoc, Hpl. apply Forall2_app; [|constructor].
    + eapply Forall2_impl_in; [exact Hc1|exact H1].
    + exists (set_next new (first_or_0 l2)). split; [exact Hnew|].
      cbn [set_next new msg_prio msg_len msg_body fst snd].
      split; [done|]. split; [done|]. rewrite take_app_length, length_app. split; [done|lia].
    + eapply Forall2_content_ext; [|exact H2]. intros x Hx. apply Hother.
      * intros Hx1. apply NoDup_app in Hnd as [Hnd _]. apply NoDup_app in Hnd as (_ & Hd & _).
        by apply (Hd x).
      * intros ->. apply Hkl, elem_of_app. by right.
Qed.

(** ** Receiving *)

Definition a_set_arrivals (a : aqueue) (l : list message) : aqueue :=
  AQ (a_max a) (a_size a) l (a_nwait a) (a_pid a) (a_event a).

Lemma read_at_0 body n : (n <= length body)%nat -> read_at body 0 n = Some (take n body).
Proof. intros H. unfold read_at. by rewrite decide_True. Qed.

Lemma takes_length l m l' : takes l m l' -> length l = S (length l').
Proof. intros (a & b & -> & -> & _). rewrite !length_app. simpl. lia. Qed.

Lemma receive_remove_ok q a :
  represents q a -> arrivals a <> [] ->
  exists q' m l', receive_remove q =
      Some (Done q' (Ret (Received m.2 m.1)) (if curmsgs q =? maxmsg q then [CondSignal] else [])) /\
    takes (arrivals a) m l' /\ prio_order (arrivals a) = m :: prio_order l' /\
    represents q' (a_set_arrivals a l').
Proof.
  intros (Hpos & Hmax & Hsz & Hcur & Hnw & Hpid & Hev & l & f & Hl & Hf & Hnd & Hlen & Hcap & Hcont) Hne.
  destruct (prio_order (arrivals a)) as [|m t] eqn:Hpo.
  { pose proof (prio_order_length (arrivals a)) as L. rewrite Hpo in L. by destruct (arrivals a). }
  destruct (prio_order_takes _ _ _ Hpo) as (l' & Ht & Hpo').
  inversion Hcont as [|k ? l2 ? Hk Hcont2]; subst l.
  cbn [chain] in Hl. destruct Hl as (Hh & Hk0 & c & Hc & Hl).
  destruct Hk as (c' & Hc' & Hpr & Hln & Hbd & Hfit). assert (c' = c) as -> by congruence.
  cbn [app] in Hnd. apply NoDup_cons in Hnd as [Hknot Hnd].
  assert (Hkl : k ∉ l2) by (intros ?; apply Hknot, elem_of_app; by left).
  assert (Hkf : k ∉ f) by (intros ?; apply Hknot, elem_of_app; by right).
  unfold receive_remove. rewrite Hh, (proj2 (Z.eqb_neq _ _) Hk0), Hc. cbn [mbind option_bind].
  rewrite Hln, Nat2Z.id, read_at_0 by lia. cbn [mbind option_bind]. rewrite Hbd, Hpr.
  do 3 eexists. split; [reflexivity|]. split; [exact Ht|]. split; [by rewrite Hpo'|].
  pose proof (takes_length _ _ _ Ht).
  unfold represents, maxmsg, msgsize, curmsgs, a_set_arrivals in *.
  cbn [hdr mem set_curmsgs set_free set_head mqh_attr mq_maxmsg mq_msgsize mq_curmsgs
    mqh_nwait mqh_pid mqh_event mqh_head mqh_free a_max a_size arrivals a_nwait a_pid a_event].
  repeat (split; [first [done | lia]|]).
  exists l2, (k :: f). split; [by apply chain_insert_ne|]. split; [|split; [|split; [|split]]].
  - cbn [chain]. split; [done|]. split; [done|]. eexists. rewrite lookup_insert_eq. split; [done|].
    cbn [set_next msg_next]. by apply chain_insert_ne.
  - eapply NoDup_Permutation_proper; [apply Permutation_sym, Permutation_middle|].
    by apply NoDup_cons.
  - rewrite <- Hlen. cbn [app length]. rewrite !length_app. simpl. lia.
  - intros x cx Hx. destruct (decide (x = k)) as [->|Hxk].
    + rewrite lookup_insert_eq. intros [= <-]. cbn [set_next msg_body]. apply (Hcap k c); [|done].
      apply list_elem_of_here.
    + rewrite lookup_insert_ne by done. apply Hcap. cbn [app]. apply elem_of_cons. right.
      rewrite elem_of_app, elem_of_cons in Hx. rewrite elem_of_app. tauto.
  - rewrite Hpo'. eapply Forall2_content_ext; [|exact Hcont2].
    intros x Hx. apply lookup_insert_ne. by intros ->.
Qed.

(** ** The initial file *)

Fixpoint cells (n : nat) (index stride : Z) : list Z :=
  match n with O => [] | S n' => index :: cells n' (index + stride) stride end.

Lemma cells_above n index stride x : 0 < stride -> x ∈ cells n index stride -> index <= x.
Proof.
  intros Hs. revert index. induction n as [|n IH]; intros index; cbn [cells].
  - intros H. by apply elem_of_nil in H.
  - intros [->|H]%elem_of_cons; [lia|]. apply IH in H. lia.
Qed.

Lemma cells_NoDup n index stride : 0 < stride -> NoDup (cells n index stride).
Proof.
  intros Hs. revert index. induction n as [|n IH]; intros index; cbn [cells]; constructor; [|done].
  intros H. apply cells_above in H; lia.
Qed.

Lemma init_free_chain n index stride space :
  0 < stride -> 0 < index -> (0 < n)%nat ->
  chain (init_free n index stride space) index (cells n index stride).
Proof.
  intros Hs. revert index. induction n as [|n IH]; intros index Hi Hn; [lia|].
  cbn [init_free cells chain]. split; [done|]. split; [lia|].
  eexists. rewrite lookup_insert_eq. split; [reflexivity|]. cbn [msg_next].
  destruct n as [|n]; [done|]. apply chain_insert_ne; [|apply IH; lia].
  intros H. apply cells_above in H; lia.
Qed.

Lemma init_free_body n index stride space x c :
  init_free n index stride space !! x = Some c -> msg_body c = space.
Proof.
  revert index. induction n as [|n IH]; intros index; cbn [init_free].
  - by rewrite lookup_empty.
  - destruct (decide (index = x)) as [->|Hne].
    + rewrite lookup_insert_eq. by intros [= <-].
    + rewrite lookup_insert_ne by done. apply IH.
Qed.

Lemma length_cells n index stride : length (cells n index stride) = n.
Proof. revert index. induction n; intros; simpl; auto. Qed.

Lemma MSGSIZE_ge i : 0 <= i -> i <= MSGSIZE i < i + 8.
Proof.
  intros Hi. unfold MSGSIZE, SIZEOF_LONG. pose proof (Z.div_mod (i + 8 - 1) 8 ltac:(lia)).
  pose proof (Z.mod_pos_bound (i + 8 - 1) 8 ltac:(lia)). lia.
Qed.

Lemma init_queue_represents HDRSZ attr :
  0 < HDRSZ -> 0 < mq_maxmsg attr -> 0 < mq_msgsize attr ->
  represents (init_queue HDRSZ attr)
    (AQ (mq_maxmsg attr) (mq_msgsize attr) [] 0 0 (Sigevent 0 0 0)).
Proof.
  intros Hh Hm Hs. pose proof (MSGSIZE_ge (mq_msgsize attr) ltac:(lia)) as Hsz.
  unfold represents, init_queue, maxmsg, msgsize, curmsgs.
  cbn [hdr mem mqh_attr mq_maxmsg mq_msgsize mq_curmsgs mqh_nwait mqh_pid mqh_event mqh_head mqh_free
    a_max a_size arrivals a_nwait a_pid a_event length].
  repeat (split; [done|]).
  set (stride := SIZEOF_MSG_HDR + MSGSIZE (mq_msgsize attr)).
  assert (0 < stride) by (unfold stride, SIZEOF_MSG_HDR; lia).
  exists [], (cells (Z.to_nat (mq_maxmsg attr)) HDRSZ stride). cbn [app].
  split; [done|]. split; [apply init_free_chain; lia|]. split; [by apply cells_NoDup|].
  split; [rewrite length_cells; lia|]. split; [|constructor].
  intros x c _ Hc. apply init_free_body in Hc. rewrite Hc, length_replicate. lia.
Qed.

(** ** The operations and their specification

    One entry of a section of code: a call on the open descriptor [d], or a thread
    that comes back from pthread_cond_wait.  Any interleaving of the threads and
    processes that use a queue is a sequence of these. *)

Inductive op :=
| OSend (locked : result) (data : list Z) (prio : Z)
| OSendResume (data : list Z) (prio : Z)
| OReceive (locked : result) (maxlen : Z)
| OReceiveResume
| ONotify (locked : result) (pid : Z) (notification : option sigevent) (killed : result)
| OGetattr (locked : result)
| OSetattr (locked : result) (flags : Z).

Inductive answer :=
| AWait                                (* asleep in pthread_cond_wait *)
| AUnit (r : outcome unit)
| AReceived (r : outcome received)
| AAttr (r : outcome mymq_attr).

Definition of_section {R} (f : outcome R -> answer) (mqd : mymq_info) (x : section R) :
    mymq_info * queue * answer * list effect :=
  match x with
  | CondWait q => (mqd, q, AWait, [])
  | Done q r eff => (mqd, q, f r, eff)
  end.

Definition exec (mqd : mymq_info) (q : queue) (o : op) :
    option (mymq_info * queue * answer * list effect) :=
  match o with
  | OSend locked data prio => of_section AUnit mqd <$> mymq_send mqd q locked data prio
  | OSendResume data prio => of_section AUnit mqd <$> send_loop q data prio
  | OReceive locked maxlen => of_section AReceived mqd <$> mymq_receive mqd q locked maxlen
  | OReceiveResume => of_section AReceived mqd <$> receive_loop q
  | ONotify locked pid n killed =>
      let '(q', r) := mymq_notify mqd q locked pid n killed in Some (mqd, q', AUnit r, [])
  | OGetattr locked => Some (mqd, q, AAttr (mymq_getattr mqd q locked), [])
  | OSetattr locked flags =>
      let '(mqd', r) := mymq_setattr mqd q locked flags in Some (mqd', q, AAttr r, [])
  end.

Definition nonblock (flags : Z) : bool := negb (Z.land flags O_NONBLOCK =? 0).
Definition count (a : aqueue) : Z := Z.of_nat (length (arrivals a)).
Definition a_attr (flags : Z) (a : aqueue) : mymq_attr := Attr flags (a_max a) (a_size a) (count a).
Definition a_set_pid (a : aqueue) (pid : Z) (ev : sigevent) : aqueue :=
  AQ (a_max a) (a_size a) (arrivals a) (a_nwait a) pid ev.
Definition a_set_nwait (a : aqueue) (n : Z) : aqueue :=
  AQ (a_max a) (a_size a) (arrivals a) n (a_pid a) (a_event a).

(** A registered process is told, once, of a message sent to an empty queue when no
    thread waits in mq_receive. *)
Definition a_notified (a : aqueue) : aqueue * list effect :=
  if (count a =? 0) && negb (a_pid a =? 0) && (a_nwait a =? 0) then
    (a_set_pid a 0 (a_event a),
     if sigev_notify (a_event a) =? SIGEV_SIGNAL
     then [Sigqueue (a_pid a) (sigev_signo (a_event a)) (sigev_value (a_event a))] else [])
  else (a, []).

(** [aspec flags a o flags' a' r eff]: the operation [o] on a queue in the abstract
    state [a], through a descriptor with [flags], may answer [r]. *)
Inductive aspec (flags : Z) (a : aqueue) : op -> Z -> aqueue -> answer -> list effect -> Prop :=
| as_send_lock e data prio :
    aspec flags a (OSend (Some e) data prio) flags a (AUnit (Fail e)) []
| as_send_big data prio : a_size a < Z.of_nat (length data) ->
    aspec flags a (OSend None data prio) flags a (AUnit (Fail EMSGSIZE)) []
| as_send_again data prio : Z.of_nat (length data) <= a_size a -> a_max a <= count a ->
    nonblock flags = true ->
    aspec flags a (OSend None data prio) flags a (AUnit (Fail EAGAIN)) []
| as_send_wait data prio : Z.of_nat (length data) <= a_size a -> a_max a <= count a ->
    nonblock flags = false ->
    aspec flags a (OSend None data prio) flags a AWait []
| as_send data prio a1 eff : Z.of_nat (length data) <= a_size a -> count a < a_max a ->
    a_notified a = (a1, eff) ->
    aspec flags a (OSend None data prio) flags (a_push a1 (prio, data)) (AUnit (Ret tt))
      (eff ++ if count a =? 0 then [CondSignal] else [])
| as_sresume_wait data prio : a_max a <= count a ->
    aspec flags a (OSendResume data prio) flags a AWait []
| as_sresume data prio : count a < a_max a ->
    aspec flags a (OSendResume data prio) flags (a_push a (prio, data)) (AUnit (Ret tt))
      (if count a =? 0 then [CondSignal] else [])
| as_recv_lock e maxlen :
    aspec flags a (OReceive (Some e) maxlen) flags a (AReceived (Fail e)) []
| as_recv_small maxlen : maxlen < a_size a ->
    aspec flags a (OReceive None maxlen) flags a (AReceived (Fail EMSGSIZE)) []
| as_recv_again maxlen : a_size a <= maxlen -> arrivals a = [] -> nonblock flags = true ->
    aspec flags a (OReceive None maxlen) flags a (AReceived (Fail EAGAIN)) []
| as_recv_wait maxlen : a_size a <= maxlen -> arrivals a = [] -> nonblock flags = false ->
    aspec flags a (OReceive None maxlen) flags (a_set_nwait a (a_nwait a + 1)) AWait []
| as_recv maxlen m l' : a_size a <= maxlen -> takes (arrivals a) m l' ->
    aspec flags a (OReceive None maxlen) flags (a_set_arrivals a l')
      (AReceived (Ret (Received m.2 m.1))) (if count a =? a_max a then [CondSignal] else [])
| as_rresume_wait : arrivals a = [] -> aspec flags a OReceiveResume flags a AWait []
| as_rresume m l' : takes (arrivals a) m l' ->
    aspec flags a OReceiveResume flags (a_set_arrivals (a_set_nwait a (a_nwait a - 1)) l')
      (AReceived (Ret (Received m.2 m.1))) (if count a =? a_max a then [CondSignal] else [])
| as_notify_lock e pid n k :
    aspec flags a (ONotify (Some e) pid n k) flags a (AUnit (Fail e)) []
| as_unregister pid k :
    aspec flags a (ONotify None pid None k) flags
      (if a_pid a =? pid then a_set_pid a 0 (a_event a) else a) (AUnit (Ret tt)) []
| as_notify_busy pid ev k : a_pid a <> 0 -> k <> Some ESRCH ->
    aspec flags a (ONotify None pid (Some ev) k) flags a (AUnit (Fail EBUSY)) []
| as_notify pid ev k : a_pid a = 0 \/ k = Some ESRCH ->
    aspec flags a (ONotify None pid (Some ev) k) flags (a_set_pid a pid ev) (AUnit (Ret tt)) []
| as_getattr_lock e : aspec flags a (OGetattr (Some e)) flags a (AAttr (Fail e)) []
| as_getattr : aspec flags a (OGetattr None) flags a (AAttr (Ret (a_attr flags a))) []
| as_setattr_lock e fl : aspec flags a (OSetattr (Some e) fl) flags a (AAttr (Fail e)) []
| as_setattr fl fl' : nonblock fl' = nonblock fl ->
    (forall i, i <> 11 -> 0 <= i -> Z.testbit fl' i = Z.testbit flags i) ->
    aspec flags a (OSetattr None fl) fl' a (AAttr (Ret (a_attr flags a))) [].

(** A thread that waits to send has had its length checked. *)
Definition op_ok (a : aqueue) (o : op) : Prop :=
  match o with OSendResume data _ => Z.of_nat (length data) <= a_size a | _ => True end.

Lemma represents_fields q a : represents q a ->
  maxmsg q = a_max a /\ msgsize q = a_size a /\ curmsgs q = count a /\
  mqh_nwait (hdr q) = a_nwait a /\ mqh_pid (hdr q) = a_pid a /\ mqh_event (hdr q) = a_event a.
Proof. unfold represents, count. tauto. Qed.

Lemma represents_set_reg q a pid ev : represents q a ->
  represents (Queue (set_reg (hdr q) pid ev) (mem q)) (a_set_pid a pid ev).
Proof. intros H. unfold represents in *. cbn in *. tauto. Qed.

Lemma represents_set_nwait q a n : represents q a ->
  represents (Queue (set_nwait (hdr q) n) (mem q)) (a_set_nwait a n).
Proof. intros H. unfold represents in *. cbn in *. tauto. Qed.

Lemma count_zero a : (count a =? 0) = bool_decide (arrivals a = []).
Proof. unfold count. by destruct (arrivals a). Qed.

Lemma setattr_flags flags fl fl' :
  fl' = (if nonblock fl then Z.lor flags O_NONBLOCK else Z.land flags (Z.lnot O_NONBLOCK)) ->
  nonblock fl' = nonblock fl /\
  forall i, i <> 11 -> 0 <= i -> Z.testbit fl' i = Z.testbit flags i.
Proof.
  intros ->. assert (Hb : forall z, nonblock z = Z.testbit z 11).
  { intros z. unfold nonblock, O_NONBLOCK. change 0x800 with (2 ^ 11).
    destruct (Z.testbit z 11) eqn:E.
    - apply negb_true_iff, Z.eqb_neq. intros H.
      assert (H' : Z.testbit (Z.land z (2 ^ 11)) 11 = false) by (by rewrite H, Z.bits_0).
      rewrite Z.land_spec, E, Z.pow2_bits_true in H' by lia. done.
    - apply negb_false_iff, Z.eqb_eq, Z.bits_inj'. intros i Hi.
      rewrite Z.land_spec, Z.bits_0, Z.pow2_bits_eqb by lia.
      destruct (Z.eqb_spec 11 i) as [<-|]; [by rewrite E|by rewrite andb_false_r]. }
  assert (Ho : forall i, 0 <= i -> Z.testbit O_NONBLOCK i = (11 =? i)).
  { intros i Hi. unfold O_NONBLOCK. change 0x800 with (2 ^ 11). apply Z.pow2_bits_eqb. lia. }
  split.
  - rewrite !Hb. destruct (Z.testbit fl 11) eqn:E.
    + rewrite Z.lor_spec, Ho by lia. apply orb_true_r.
    + rewrite Z.land_spec, Z.lnot_spec, Ho by lia. apply andb_false_r.
  - intros i Hne Hi. assert (E : (11 =? i) = false) by (apply Z.eqb_neq; lia).
    destruct (nonblock fl).
    + rewrite Z.lor_spec, Ho, E by lia. apply orb_false_r.
    + rewrite Z.land_spec, Z.lnot_spec, Ho, E by lia. apply andb_true_r.
Qed.

(** ** Simulation, one operation at a time *)

Definition simulated (mqd : mymq_info) (q : queue) (a : aqueue) (o : op) : Prop :=
  exists mqd' q' r eff a', exec mqd q o = Some (mqd', q', r, eff) /\
    aspec (mqi_flags mqd) a o (mqi_flags mqd') a' r eff /\
    represents q' a' /\ mqi_magic mqd' = MQI_MAGIC.

Lemma mq_magic_ok mqd : mqi_magic mqd = MQI_MAGIC -> bad_magic mqd = false.
Proof. unfold bad_magic. by intros ->. Qed.

(** Close a case in which the file does not change. *)
Ltac unchanged mqd q a :=
  exists mqd, q; do 2 eexists; exists a; split; [reflexivity|]; split; [econstructor; eauto; lia|done].

Lemma sim_send mqd q a locked data prio : mqi_magic mqd = MQI_MAGIC -> represents q a ->
  simulated mqd q a (OSend locked data prio).
Proof.
  intros Hm Hr. destruct (represents_fields q a Hr) as (H1 & H2 & H3 & H4 & H5 & H6).
  unfold simulated. cbn [exec]. unfold mymq_send. rewrite mq_magic_ok by done.
  destruct locked as [e|]; [unchanged mqd q a|]. rewrite H1, H2, H3.
  destruct (_ >? a_size a) eqn:Hbig; bprop; [unchanged mqd q a|].
  assert (Hmax : 0 <= count a) by (unfold count; lia).
  destruct (count a =? 0) eqn:H0.
  - unfold notify_empty. rewrite H4, H5, H6.
    assert (Hpos : 0 < a_max a) by apply Hr.
    assert (Hroom : count a < a_max a) by (bprop; lia).
    destruct (negb (a_pid a =? 0) && (a_nwait a =? 0)) eqn:Hn.
    + destruct (send_insert_ok _ _ data prio
        (if sigev_notify (a_event a) =? SIGEV_SIGNAL
         then [Sigqueue (a_pid a) (sigev_signo (a_event a)) (sigev_value (a_event a))] else [])
        (represents_set_reg q a 0 (a_event a) Hr) Hroom ltac:(simpl; lia)) as (q' & E & Hr').
      rewrite E. exists mqd, q'. do 2 eexists. exists (a_push (a_set_pid a 0 (a_event a)) (prio, data)).
      split; [reflexivity|]. split; [|done].
      change (curmsgs (Queue (set_reg (hdr q) 0 (a_event a)) (mem q))) with (curmsgs q). rewrite H3.
      apply as_send; [lia|done|]. unfold a_notified. rewrite <- andb_assoc, Hn, H0. done.
    + destruct (send_insert_ok q a data prio [] Hr Hroom ltac:(lia)) as (q' & E & Hr').
      rewrite E. exists mqd, q'. do 2 eexists. exists (a_push a (prio, data)). split; [reflexivity|].
      split; [|done]. rewrite H3.
      apply (as_send _ _ _ _ a []); [lia|done|]. unfold a_notified. by rewrite <- andb_assoc, Hn, andb_false_r.
  - destruct (count a >=? a_max a) eqn:Hfull.
    + rewrite Z.geb_leb in Hfull. bprop. fold (nonblock (mqi_flags mqd)).
      change (nonblocking mqd) with (nonblock (mqi_flags mqd)).
      destruct (nonblock (mqi_flags mqd)) eqn:Hnb; [unchanged mqd q a|].
      unfold send_loop. rewrite H1, H3. replace (count a >=? a_max a) with true
        by (symmetry; rewrite Z.geb_leb; by apply Z.leb_le).
      unchanged mqd q a.
    + rewrite Z.geb_leb in Hfull. bprop.
      destruct (send_insert_ok q a data prio [] Hr ltac:(unfold count in *; lia) ltac:(lia)) as (q' & E & Hr').
      rewrite E. exists mqd, q'. do 2 eexists. exists (a_push a (prio, data)). split; [reflexivity|].
      split; [|done]. rewrite H3.
      apply (as_send _ _ _ _ a []); [lia|done|]. unfold a_notified. by rewrite (proj2 (Z.eqb_neq _ _) H0).
Qed.

Lemma sim_sresume mqd q a data prio : mqi_magic mqd = MQI_MAGIC -> represents q a ->
  op_ok a (OSendResume data prio) -> simulated mqd q a (OSendResume data prio).
Proof.
  intros Hm Hr Hok. destruct (represents_fields q a Hr) as (H1 & H2 & H3 & H4 & H5 & H6).
  unfold simulated. cbn [exec]. unfold send_loop. rewrite H1, H3, Z.geb_leb.
  destruct (a_max a <=? count a) eqn:Hfull; bprop.
  - unchanged mqd q a.
  - destruct (send_insert_ok q a data prio [] Hr Hfull Hok) as (q' & E & Hr').
    rewrite E. exists mqd, q'. do 2 eexists. exists (a_push a (prio, data)). split; [reflexivity|].
    split; [|done]. rewrite H3. by apply as_sresume.
Qed.

Lemma sim_receive mqd q a locked maxlen : mqi_magic mqd = MQI_MAGIC -> represents q a ->
  simulated mqd q a (OReceive locked maxlen).
Proof.
  intros Hm Hr. destruct (represents_fields q a Hr) as (H1 & H2 & H3 & H4 & H5 & H6).
  unfold simulated. cbn [exec]. unfold mymq_receive. rewrite mq_magic_ok by done.
  destruct locked as [e|]; [unchanged mqd q a|]. rewrite H2, H3.
  destruct (maxlen <? a_size a) eqn:Hsmall; bprop; [unchanged mqd q a|].
  rewrite count_zero. destruct (bool_decide (arrivals a = [])) eqn:H0; bprop.
  - change (nonblocking mqd) with (nonblock (mqi_flags mqd)).
    destruct (nonblock (mqi_flags mqd)) eqn:Hnb; [unchanged mqd q a|].
    unfold receive_loop. change (curmsgs (Queue _ (mem q))) with (curmsgs q).
    rewrite H3, count_zero, bool_decide_true by done.
    exists mqd. do 3 eexists. exists (a_set_nwait a (a_nwait a + 1)). split; [reflexivity|].
    split; [by apply as_recv_wait|]. split; [|done]. rewrite H4. by apply represents_set_nwait.
  - destruct (receive_remove_ok q a Hr H0) as (q' & m & l' & E & Ht & _ & Hr').
    rewrite E. exists mqd, q'. do 2 eexists. exists (a_set_arrivals a l'). split; [reflexivity|].
    split; [|done]. rewrite H1, H3. by apply as_recv.
Qed.

Lemma sim_rresume mqd q a : mqi_magic mqd = MQI_MAGIC -> represents q a ->
  simulated mqd q a OReceiveResume.
Proof.
  intros Hm Hr. destruct (represents_fields q a Hr) as (H1 & H2 & H3 & H4 & H5 & H6).
  unfold simulated. cbn [exec]. unfold receive_loop.
  rewrite H3, count_zero. destruct (bool_decide (arrivals a = [])) eqn:H0; bprop; [unchanged mqd q a|].
  rewrite H4. pose proof (represents_set_nwait q a (a_nwait a - 1) Hr) as Hr1.
  destruct (receive_remove_ok _ _ Hr1 H0) as (q' & m & l' & E & Ht & _ & Hr').
  rewrite E. exists mqd, q'. do 2 eexists. eexists. split; [reflexivity|]. split; [|done].
  change (curmsgs (Queue _ (mem q))) with (curmsgs q). change (maxmsg (Queue _ (mem q))) with (maxmsg q).
  rewrite H1, H3. by apply as_rresume.
Qed.

Lemma sim_admin mqd q a o : mqi_magic mqd = MQI_MAGIC -> represents q a ->
  match o with ONotify _ _ _ _ | OGetattr _ | OSetattr _ _ => True | _ => False end ->
  simulated mqd q a o.
Proof.
  intros Hm Hr Ho. destruct (represents_fields q a Hr) as (H1 & H2 & H3 & H4 & H5 & H6).
  unfold simulated. destruct o as [| | | |locked pid n k|locked|locked fl]; try done; cbn [exec].
  - unfold mymq_notify. rewrite mq_magic_ok by done. destruct locked as [e|]; [unchanged mqd q a|].
    destruct n as [ev|].
    + rewrite H5. destruct (negb _ && negb _) eqn:E.
      * apply andb_prop in E as [E1 E2]. bprop. unchanged mqd q a.
      * exists mqd. do 3 eexists. exists (a_set_pid a pid ev). split; [reflexivity|].
        split; [|split; [by apply represents_set_reg|done]]. apply as_notify.
        apply andb_false_iff in E as [E|E]; bprop; auto.
    + exists mqd. rewrite H5, H6.
      exists (if a_pid a =? pid then Queue (set_reg (hdr q) 0 (a_event a)) (mem q) else q).
      do 2 eexists. eexists.
      split; [destruct (a_pid a =? pid); reflexivity|]. split; [apply as_unregister|].
      split; [|done]. destruct (_ =? _); [by apply represents_set_reg|done].
  - unfold mymq_getattr. rewrite mq_magic_ok by done. destruct locked as [e|]; [unchanged mqd q a|].
    rewrite H1, H2, H3. unchanged mqd q a.
  - unfold mymq_setattr. rewrite mq_magic_ok by done. destruct locked as [e|]; [unchanged mqd q a|].
    rewrite H1, H2, H3. do 4 eexists. exists a. split; [reflexivity|].
    split; [|done]. apply as_setattr; by eapply setattr_flags.
Qed.

Lemma sim_step mqd q a o : mqi_magic mqd = MQI_MAGIC -> represents q a -> op_ok a o ->
  simulated mqd q a o.
Proof.
  intros Hm Hr Hok. destruct o; auto using sim_send, sim_sresume, sim_receive, sim_rresume, sim_admin.
Qed.

(** ** Runs

    A queue is used through several descriptors, each with its own flags; an
    operation names its descriptor. *)

Fixpoint run (fds : list mymq_info) (q : queue) (os : list (nat * op)) :
    option (list mymq_info * queue * list (answer * list effect)) :=
  match os with
  | [] => Some (fds, q, [])
  | (d, o) :: os' =>
      mqd ← fds !! d;
      '(mqd', q', r, eff) ← exec mqd q o;
      '(fds', q'', rs) ← run (<[d := mqd']> fds) q' os';
      Some (fds', q'', (r, eff) :: rs)
  end.

Inductive aruns : list Z -> aqueue -> list (nat * op) -> list Z -> aqueue ->
    list (answer * list effect) -> Prop :=
| aruns_nil fl a : aruns fl a [] fl a []
| aruns_cons fl a d flags o flags' a' r eff os fl'' a'' rs :
    fl !! d = Some flags -> aspec flags a o flags' a' r eff ->
    aruns (<[d := flags']> fl) a' os fl'' a'' rs ->
    aruns fl a ((d, o) :: os) fl'' a'' ((r, eff) :: rs).

Lemma aspec_size flags a o flags' a' r eff : aspec flags a o flags' a' r eff -> a_size a' = a_size a.
Proof.
  destruct 1; try done; cbn.
  - unfold a_notified in *. by bsplit; simplify_eq.
  - by bsplit.
Qed.

Lemma run_simulated os : forall fds q a,
  Forall (fun i => mqi_magic i = MQI_MAGIC) fds -> represents q a ->
  Forall (fun x => (x.1 < length fds)%nat /\ op_ok a x.2) os ->
  exists fds' q' a' rs, run fds q os = Some (fds', q', rs) /\
    aruns (mqi_flags <$> fds) a os (mqi_flags <$> fds') a' rs /\ represents q' a'.
Proof.
  induction os as [|[d o] os IH]; intros fds q a Hm Hr Hos.
  - exists fds, q, a, []. split; [done|]. split; [apply aruns_nil|done].
  - apply Forall_cons in Hos as [[Hd Hok] Hos]. cbn [fst snd] in *.
    destruct (lookup_lt_is_Some_2 fds d Hd) as [mqd Hfd].
    assert (Hmd : mqi_magic mqd = MQI_MAGIC) by (by eapply Forall_lookup_1 in Hm).
    destruct (sim_step mqd q a o Hmd Hr Hok) as (mqd' & q' & r & eff & a' & Hx & Hsp & Hr' & Hmd').
    destruct (IH (<[d := mqd']> fds) q' a') as (fds' & q'' & a'' & rs & Hrun & Har & Hr'').
    + by apply Forall_insert.
    + done.
    + eapply Forall_impl; [exact Hos|]. intros [d' o']. rewrite length_insert. cbn [fst snd].
      intros [? Ho]. split; [done|]. destruct o'; try done. cbn [op_ok] in *.
      by rewrite (aspec_size _ _ _ _ _ _ _ Hsp).
    + exists fds', q'', a'', ((r, eff) :: rs). cbn [run]. rewrite Hfd. cbn [mbind option_bind].
      rewrite Hx. cbn [mbind option_bind]. rewrite Hrun. split; [done|]. split; [|done].
      econstructor; [by rewrite list_lookup_fmap, Hfd|exact Hsp|]. by rewrite <- list_fmap_insert.
Qed.

(** ** Threads and the condition variable

    All waiting threads, senders and receivers, sleep on the one [mqh_wait]. *)

Inductive status :=
| Running
| RecvWait | RecvWake
| SendWait (data : list Z) (prio : Z) | SendWake (data : list Z) (prio : Z).

Definition waiting (x : status) : bool :=
  match x with RecvWait | SendWait _ _ => true | _ => false end.
Definition woken (x : status) : status :=
  match x with RecvWait => RecvWake | SendWait d p => SendWake d p | _ => x end.

Record system := System { sq : queue; ths : list status }.

(** pthread_cond_signal: one waiting thread, [chosen], if there is one. *)
Definition cond_signal (chosen : nat) (l : list status) : option (list status) :=
  match l !! chosen with
  | Some x => if waiting x then Some (<[chosen := woken x]> l)
              else if cnt waiting l =? 0 then Some l else None
  | None => if cnt waiting l =? 0 then Some l else None
  end.

Definition signalled (eff : list effect) : bool :=
  existsb (fun e => match e with CondSignal => true | _ => false end) eff.

(** The operation a thread may execute next in its situation. *)
Definition enabled (x : status) (o : op) : bool :=
  match x, o with
  | Running, (OSend None _ _ | OReceive None _) => true
  | RecvWake, OReceiveResume => true
  | SendWake d p, OSendResume d' p' => bool_decide (d = d' /\ p = p')
  | _, _ => false
  end.

Definition sleep_of (o : op) : status :=
  match o with
  | OSend _ d p | OSendResume d p => SendWait d p
  | OReceive _ _ | OReceiveResume => RecvWait
  | _ => Running
  end.

(** Thread [i] runs one section on the blocking descriptor [mqd], or wakes up
    spuriously. *)
Inductive event := ERun (i : nat) (o : op) (chosen : nat) | ESpurious (i : nat).

Definition sys_exec (mqd : mymq_info) (s : system) (e : event) : option system :=
  match e with
  | ERun i o chosen =>
      x ← ths s !! i;
      if enabled x o then
        '(_, q', r, eff) ← exec mqd (sq s) o;
        let l := <[i := match r with AWait => sleep_of o | _ => Running end]> (ths s) in
        l' ← (if signalled eff then cond_signal chosen l else Some l);
        Some (System q' l')
      else None
  | ESpurious i =>
      x ← ths s !! i;
      if waiting x then Some (System (sq s) (<[i := woken x]> (ths s))) else None
  end.

Definition sys_step (mqd : mymq_info) (s s' : system) : Prop := exists e, sys_exec mqd s e = Some s'.

Fixpoint sys_run (mqd : mymq_info) (s : system) (es : list event) : option system :=
  match es with
  | [] => Some s
  | e :: es' => s' ← sys_exec mqd s e; sys_run mqd s' es'
  end.

Definition sys_start (HDRSZ : Z) (attr : mymq_attr) (n : nat) (s : system) : Prop :=
  s = System (init_queue HDRSZ attr) (replicate n Running).

Definition blocking : mymq_info := Info MQI_MAGIC 0.

Lemma sys_run_reachable mqd init es : forall s s',
  reachable init (sys_step mqd) s -> sys_run mqd s es = Some s' -> reachable init (sys_step mqd) s'.
Proof.
  induction es as [|e es IH]; intros s s' Hs Hr; cbn in Hr; [by injection Hr as <-|].
  destruct (sys_exec mqd s e) as [s1|] eqn:Hx; [|done].
  apply (IH s1); [|done]. eapply reach_step; [exact Hs|]. by exists e.
Qed.

(** With two threads, a sleeper's reason to sleep still holds. *)
Definition awake_inv (s : system) : Prop :=
  exists a, represents (sq s) a /\ length (ths s) = 2%nat /\
    forall i x, ths s !! i = Some x ->
      match x with
      | RecvWait => arrivals a = []
      | SendWait d p => a_max a <= count a /\ Z.of_nat (length d) <= a_size a
      | SendWake d p => Z.of_nat (length d) <= a_size a
      | _ => True
      end.

(** After a signal no other thread of the two sleeps. *)
Lemma two_signal l i chosen l' : length l = 2%nat -> l !! i = Some Running ->
  cond_signal chosen l = Some l' ->
  forall j x, l' !! j = Some x -> waiting x = false /\
    (x = Running \/ exists y, l !! j = Some y /\ (x = woken y \/ x = y)).
Proof.
  assert (Hwk : forall y, waiting (woken y) = false) by (by intros []).
  destruct l as [|x0 [|x1 [|]]]; try done. intros _ Hi. unfold cond_signal, cnt.
  destruct i as [|[|i]]; simplify_eq/=; destruct chosen as [|[|chosen]]; cbn;
    match goal with |- context [waiting ?x] => destruct (waiting x) eqn:E end; cbn;
    intros Hs; try done; injection Hs as <-; intros [|[|j]] x Hj; simplify_eq/=; eauto 6.
Qed.

Lemma represents_count q a : represents q a -> count a <= a_max a.
Proof.
  intros (_ & _ & _ & _ & _ & _ & _ & l & f & _ & _ & _ & Hlen & _ & Hc).
  apply Forall2_length in Hc. rewrite prio_order_length in Hc.
  rewrite length_app in Hlen. unfold count. lia.
Qed.

Lemma takes_nonempty l m l' : takes l m l' -> l <> [].
Proof. intros (a & b & -> & _) H. by destruct a. Qed.

Lemma a_notified_eff a a1 eff : a_notified a = (a1, eff) ->
  signalled eff = false /\ arrivals a1 = arrivals a /\ a_max a1 = a_max a /\ a_size a1 = a_size a.
Proof. unfold a_notified. intros H. by bsplit; simplify_eq. Qed.

Lemma signalled_app e1 e2 : signalled (e1 ++ e2) = signalled e1 || signalled e2.
Proof. apply existsb_app. Qed.

(** What an operation of a running thread does to the reasons for sleeping: it goes
    to sleep with a reason, signals, leaves the messages alone, or finds the queue
    neither empty nor full. *)
Lemma aspec_reasons flags a x o flags' a' r eff :
  enabled x o = true -> count a <= a_max a -> aspec flags a o flags' a' r eff ->
  a_max a' = a_max a /\ a_size a' = a_size a /\
  ((r = AWait /\ signalled eff = false /\ arrivals a' = arrivals a /\
    match sleep_of o with
    | RecvWait => arrivals a = []
    | SendWait d p => a_max a <= count a /\ (x <> Running \/ Z.of_nat (length d) <= a_size a)
    | _ => False
    end) \/
   (r <> AWait /\ signalled eff = true) \/
   (r <> AWait /\ signalled eff = false /\ arrivals a' = arrivals a) \/
   (r <> AWait /\ signalled eff = false /\ arrivals a <> [] /\ count a < a_max a)).
Proof.
  intros He Hle H. destruct H; try (by destruct x); cbn [a_max a_size a_push a_set_nwait a_set_arrivals arrivals];
    try (split; [done|split; [done|]]); try (right; right; left; done);
    try (left; cbn [sleep_of]; repeat split; auto; first [lia | left; by intros ->]).
  - apply a_notified_eff in H1 as (Hs & Ha & Hm & Hz). rewrite Hm, Hz. split; [done|]. split; [done|].
    rewrite signalled_app, Hs. rewrite count_zero. case_bool_decide as E; [by right; left|].
    right; right; right. by repeat split.
  - rewrite count_zero. case_bool_decide as E; [by right; left|]. right; right; right. by repeat split.
  - destruct (count a =? a_max a) eqn:E; [by right; left|]. bprop. right; right; right.
    repeat split; [done|by eapply takes_nonempty|lia].
  - destruct (count a =? a_max a) eqn:E; [by right; left|]. bprop. right; right; right.
    repeat split; [done|by eapply takes_nonempty|lia].
Qed.

Lemma awake_step s s' : awake_inv s -> sys_step blocking s s' -> awake_inv s'.
Proof.
  intros (a & Hr & Hlen & Hinv) [e He]. pose proof (represents_count _ _ Hr) as Hle.
  destruct e as [i o chosen|i]; cbn in He.
  - destruct (ths s !! i) as [x|] eqn:Hi; [|done]. cbn in He.
    destruct (enabled x o) eqn:Hen; [|done].
    assert (Hok : op_ok a o).
    { destruct o; try done. destruct x; try done. cbn in Hen. apply bool_decide_eq_true in Hen as [<- <-].
      apply (Hinv i _ Hi). }
    destruct (sim_step blocking (sq s) a o eq_refl Hr Hok)
      as (mqd' & q' & r & eff & a' & Hx & Hsp & Hr' & _).
    rewrite Hx in He. cbn in He.
    destruct (aspec_reasons _ _ x _ _ _ _ _ Hen Hle Hsp) as (Hmax & Hsize & Hcase).
    exists a'. rewrite Hmax, Hsize.
    assert (Hlen' : forall y, length (<[i := y]> (ths s)) = 2%nat) by (intros; by rewrite length_insert).
    assert (Hir : forall y, <[i := y]> (ths s) !! i = Some y)
      by (intros; apply list_lookup_insert_eq; by eapply lookup_lt_Some).
    destruct Hcase as [(-> & Hs & Ha & Hsl)|[[Hw Hs]|[(Hw & Hs & Ha)|(Hw & Hs & Ha & Hc)]]];
      rewrite Hs in He; cbn in He.
    + injection He as <-. cbn [sq ths]. split; [done|]. split; [done|].
      intros j y Hj. assert (Hcnt : count a' = count a) by (unfold count; by rewrite Ha).
      rewrite Hcnt, Ha. destruct (decide (j = i)) as [->|Hji].
      * rewrite Hir in Hj. injection Hj as <-. destruct o; try done; cbn [sleep_of] in *.
        -- destruct Hsl as [? [H|H]]; [|done]. by destruct x.
        -- split; [tauto|]. apply Hok.
      * rewrite list_lookup_insert_ne in Hj by done. by apply (Hinv j).
    + assert (E : (match r with AWait => sleep_of o | _ => Running end) = Running) by (by destruct r).
      rewrite E in He. destruct (cond_signal _ _) as [l'|] eqn:Hcs; [|done]. injection He as <-.
      cbn [sq ths]. split; [done|].
      pose proof (two_signal _ _ _ _ (Hlen' _) (Hir _) Hcs) as H2.
      split.
      { unfold cond_signal in Hcs. repeat case_match; simplify_eq; by rewrite ?length_insert. }
      intros j y Hj. destruct (H2 j y Hj) as [Hwt [->|(z & Hz & Hy)]]; [done|].
      destruct (decide (j = i)) as [->|Hji]; [rewrite Hir in Hz; injection Hz as <-; by destruct Hy as [->| ->]|].
      rewrite list_lookup_insert_ne in Hz by done. apply Hinv in Hz.
      destruct Hy as [->| ->]; destruct z; try done; tauto.
    + assert (E : (match r with AWait => sleep_of o | _ => Running end) = Running) by (by destruct r).
      rewrite E in He. injection He as <-. cbn [sq ths]. split; [done|]. split; [done|].
      intros j y Hj. assert (Hcnt : count a' = count a) by (unfold count; by rewrite Ha).
      rewrite Hcnt, Ha. destruct (decide (j = i)) as [->|Hji].
      * rewrite Hir in Hj. by injection Hj as <-.
      * rewrite list_lookup_insert_ne in Hj by done. by apply (Hinv j).
    + assert (E : (match r with AWait => sleep_of o | _ => Running end) = Running) by (by destruct r).
      rewrite E in He. injection He as <-. cbn [sq ths]. split; [done|]. split; [done|].
      intros j y Hj. destruct (decide (j = i)) as [->|Hji].
      * rewrite Hir in Hj. by injection Hj as <-.
      * rewrite list_lookup_insert_ne in Hj by done. apply Hinv in Hj.
        destruct y; try done. destruct Hj. lia.
  - destruct (ths s !! i) as [x|] eqn:Hi; [|done]. cbn in He. destruct (waiting x) eqn:Hw; [|done].
    injection He as <-. exists a. cbn [sq ths]. split; [done|]. rewrite length_insert. split; [done|].
    intros j y Hj. destruct (decide (j = i)) as [->|Hji].
    + rewrite list_lookup_insert_eq in Hj by (by eapply lookup_lt_Some). injection Hj as <-.
      apply Hinv in Hi. destruct x; try done. apply Hi.
    + rewrite list_lookup_insert_ne in Hj by done. by apply (Hinv j).
Qed.

(** ** The order of delivery *)

Definition by_prio (x y : message) : Prop := y.1 <= x.1.

Lemma place_perm m l : place m l ≡ₚ m :: l.
Proof.
  induction l as [|x l IH]; cbn [place]; [done|]. bsplit; [done|].
  rewrite IH. apply Permutation_swap.
Qed.

Lemma place_sorted m l : StronglySorted by_prio l -> StronglySorted by_prio (place m l).
Proof.
  induction l as [|x l IH]; cbn [place]; intros H; [repeat constructor|].
  apply StronglySorted_inv in H as [H Hx]. destruct (_ >? _) eqn:E; bprop.
  - constructor; [by constructor|]. constructor; [unfold by_prio; lia|].
    eapply Forall_impl; [exact Hx|]. unfold by_prio. intros; simpl in *; lia.
  - constructor; [by apply IH|]. rewrite place_perm. constructor; [unfold by_prio; lia|done].
Qed.

Lemma place_stable m l p : StronglySorted by_prio l ->
  filter (fun x => x.1 = p) (place m l) = filter (fun x => x.1 = p) (l ++ [m]).
Proof.
  induction l as [|x l IH]; cbn [place app]; intros H; [done|].
  apply StronglySorted_inv in H as [H Hx]. destruct (_ >? _) eqn:E; bprop.
  - rewrite !filter_cons, filter_app, filter_cons, filter_nil.
    destruct (decide (m.1 = p)) as [Hm|Hm]; [|by rewrite app_nil_r].
    rewrite !decide_False by lia.
    assert (filter (fun x => x.1 = p) l = []) as ->; [|done].
    apply filter_none. eapply Forall_impl; [exact Hx|]. unfold by_prio. intros y Hy. simpl in Hy. lia.
  - rewrite !filter_cons. destruct (decide (x.1 = p)); [f_equal|]; by apply IH.
Qed.

Lemma prio_order_spec l :
  prio_order l ≡ₚ l /\ StronglySorted by_prio (prio_order l) /\
  forall p, filter (fun x => x.1 = p) (prio_order l) = filter (fun x => x.1 = p) l.
Proof.
  induction l as [|m l (IH1 & IH2 & IH3)] using rev_ind; [repeat constructor|].
  rewrite prio_order_snoc. split; [|split].
  - by rewrite place_perm, IH1, Permutation_cons_append.
  - by apply place_sorted.
  - intros p. rewrite place_stable by done. by rewrite !filter_app, IH3.
Qed.

Definition sends (ms : list message) : list (nat * op) := (fun m => (0%nat, OSend None m.2 m.1)) <$> ms.
Definition receives (n : nat) (maxlen : Z) : list (nat * op) := replicate n (0%nat, OReceive None maxlen).

Lemma run_app fds q os1 os2 fds1 q1 rs1 :
  run fds q os1 = Some (fds1, q1, rs1) ->
  run fds q (os1 ++ os2) = ('(fds2, q2, rs2) ← run fds1 q1 os2; Some (fds2, q2, rs1 ++ rs2)).
Proof.
  revert fds q fds1 q1 rs1. induction os1 as [|[d o] os1 IH]; intros fds q fds1 q1 rs1; cbn [run app].
  - intros [= <- <- <-]. by destruct (run fds q os2) as [[[? ?] ?]|].
  - destruct (fds !! d) as [mqd|]; [|done]. cbn [mbind option_bind].
    destruct (exec mqd q o) as [[[[mqd' q'] r] eff]|]; [|done]. cbn [mbind option_bind].
    destruct (run _ q' os1) as [[[fds' q''] rs]|] eqn:E; [|done]. cbn [mbind option_bind].
    intros [= <- <- <-]. rewrite (IH _ _ _ _ _ E).
    by destruct (run fds' q'' os2) as [[[? ?] ?]|].
Qed.

Lemma run_sends ms : forall q a,
  represents q a -> a_pid a = 0 -> count a + Z.of_nat (length ms) <= a_max a ->
  Forall (fun m => Z.of_nat (length m.2) <= a_size a) ms ->
  exists q' rs, run [blocking] q (sends ms) = Some ([blocking], q', rs) /\
    length rs = length ms /\ represents q' (a_set_arrivals a (arrivals a ++ ms)).
Proof.
  induction ms as [|m ms IH]; intros q a Hr Hp Hc Hs.
  - exists q, []. rewrite app_nil_r. by destruct a.
  - apply Forall_cons in Hs as [Hm Hs]. simpl in Hc.
    destruct (sim_send blocking q a None m.2 m.1 eq_refl Hr) as (mqd' & q' & r & eff & a' & Hx & Hsp & Hr' & _).
    inversion Hsp; subst; try (unfold count in *; lia).
    assert (a1 = a) as ->.
    { unfold a_notified in *. rewrite Hp, andb_false_r in *. by simplify_eq/=. }
    destruct mqd' as [mg fl].
    assert (mg = MQI_MAGIC /\ fl = 0) as [-> ->].
    { cbn [exec] in Hx. destruct (mymq_send _ _ _ _ _) as [[|]|]; [..|done]; by injection Hx. }
    destruct (IH q' _ Hr' Hp) as (q'' & rs & Hrun & Hlen & Hr'').
    { unfold count, a_push in *. cbn [arrivals a_max]. rewrite length_app. simpl. lia. }
    { done. }
    exists q''. eexists. split; [cbn [sends fmap list_fmap run]; change ([blocking] !! 0%nat) with (Some blocking);
      cbn [mbind option_bind]; rewrite Hx; cbn [mbind option_bind list_insert insert];
      unfold sends in Hrun; fold blocking; rewrite Hrun; reflexivity|].
    split; [by simpl; rewrite Hlen|]. unfold a_push, a_set_arrivals in *. cbn [arrivals] in Hr''.
    rewrite <- app_assoc in Hr''. rewrite <- surjective_pairing in Hr''. exact Hr''.
Qed.

Lemma run_receives n : forall q a maxlen,
  represents q a -> length (arrivals a) = n -> a_size a <= maxlen ->
  exists q' rs, run [blocking] q (receives n maxlen) = Some ([blocking], q', rs) /\
    rs.*1 = (fun m => AReceived (Ret (Received m.2 m.1))) <$> prio_order (arrivals a).
Proof.
  induction n as [|n IH]; intros q a maxlen Hr Hn Hmax.
  - exists q, []. by destruct (arrivals a).
  - assert (Hne : arrivals a <> []) by (intros H; by rewrite H in Hn).
    destruct (receive_remove_ok q a Hr Hne) as (q' & m & l' & E & Ht & Hpo & Hr').
    destruct (represents_fields q a Hr) as (H1 & H2 & H3 & _).
    assert (Hx : exec blocking q (OReceive None maxlen) = Some (blocking, q',
      AReceived (Ret (Received m.2 m.1)), if curmsgs q =? maxmsg q then [CondSignal] else [])).
    { cbn [exec]. unfold mymq_receive. change (bad_magic blocking) with false. cbv iota.
      rewrite H2, (proj2 (Z.ltb_ge _ _) Hmax), H3, count_zero, bool_decide_false by done.
      rewrite E. by rewrite H3. }
    destruct (IH q' (a_set_arrivals a l') maxlen Hr') as (q'' & rs & Hrun & Hrs).
    { apply takes_length in Ht. cbn [a_set_arrivals arrivals]. lia. }
    { done. }
    exists q''. eexists. split; [cbn [receives replicate run]; change ([blocking] !! 0%nat) with (Some blocking);
      cbn [mbind option_bind]; rewrite Hx; cbn [mbind option_bind list_insert insert];
      unfold receives in Hrun; rewrite Hrun; reflexivity|].
    rewrite Hpo. cbn [fmap list_fmap fst]. f_equal. exact Hrs.
Qed.

(** ** The properties *)

(** C3: refinement.  On a queue created with positive limits, every sequence of
    operations, through any number of descriptors and with threads that wait and
    come back in between, stays inside the mapped file, and its answers, signals
    and effects are those of the abstract queue: messages kept in the order of
    arrival, of which a receive takes the oldest of the highest priority. *)
Theorem mq_refines HDRSZ attr fds os :
  0 < HDRSZ -> 0 < mq_maxmsg attr -> 0 < mq_msgsize attr ->
  Forall (fun i => mqi_magic i = MQI_MAGIC) fds ->
  Forall (fun x => (x.1 < length fds)%nat /\
    match x.2 with OSendResume d _ => Z.of_nat (length d) <= mq_msgsize attr | _ => True end) os ->
  exists fds' q' a' rs, run fds (init_queue HDRSZ attr) os = Some (fds', q', rs) /\
    aruns (mqi_flags <$> fds) (AQ (mq_maxmsg attr) (mq_msgsize attr) [] 0 0 (Sigevent 0 0 0))
      os (mqi_flags <$> fds') a' rs /\
    represents q' a'.
Proof.
  intros Hh Hm Hs Hf Ho. apply run_simulated; [done|by apply init_queue_represents|].
  eapply Forall_impl; [exact Ho|]. intros [d o]. by destruct o.
Qed.

Lemma mq_refines_witness :
  exists fds' q' a' rs,
    run [Info MQI_MAGIC 0; Info MQI_MAGIC O_NONBLOCK] (init_queue 216 (Attr 0 2 16 0))
      [(0%nat, OReceive None 16); (1%nat, OSend None [1; 2] 5); (0%nat, OReceiveResume); (1%nat, OReceive None 16)]
      = Some (fds', q', rs) /\
    aruns [0; O_NONBLOCK] (AQ 2 16 [] 0 0 (Sigevent 0 0 0))
      [(0%nat, OReceive None 16); (1%nat, OSend None [1; 2] 5); (0%nat, OReceiveResume); (1%nat, OReceive None 16)]
      (mqi_flags <$> fds') a' rs /\ represents q' a'.
Proof.
  refine (mq_refines 216 (Attr 0 2 16 0) [Info MQI_MAGIC 0; Info MQI_MAGIC O_NONBLOCK] _ _ _ _ _ _);
    [lia|simpl; lia|simpl; lia| |].
  - repeat constructor.
  - repeat constructor; simpl; lia.
Defined.

(** C4: order of delivery.  Messages sent to a new queue that has room for them are
    received by decreasing priority, those of equal priority in the order in which
    they were sent, and none is lost, duplicated or altered. *)
Theorem mq_delivery HDRSZ attr ms maxlen :
  0 < HDRSZ -> 0 < mq_msgsize attr -> 0 < Z.of_nat (length ms) <= mq_maxmsg attr ->
  Forall (fun m => Z.of_nat (length m.2) <= mq_msgsize attr) ms -> mq_msgsize attr <= maxlen ->
  exists q' rs1 rs2 out,
    run [blocking] (init_queue HDRSZ attr) (sends ms ++ receives (length ms) maxlen)
      = Some ([blocking], q', rs1 ++ rs2) /\ length rs1 = length ms /\
    rs2.*1 = (fun m => AReceived (Ret (Received m.2 m.1))) <$> out /\
    out ≡ₚ ms /\ StronglySorted by_prio out /\
    forall p, filter (fun x => x.1 = p) out = filter (fun x => x.1 = p) ms.
Proof.
  intros Hh Hs Hn Hf Hmax.
  pose proof (init_queue_represents HDRSZ attr Hh ltac:(lia) Hs) as Hr.
  destruct (run_sends ms _ _ Hr eq_refl) as (q1 & rs1 & Hrun1 & Hlen & Hr1); [simpl; unfold count; simpl; lia|done|].
  destruct (run_receives (length ms) _ _ maxlen Hr1 eq_refl Hmax) as (q2 & rs2 & Hrun2 & Hrs2).
  exists q2, rs1, rs2, (prio_order ms). split.
  - rewrite (run_app _ _ _ _ _ _ _ Hrun1), Hrun2. done.
  - split; [done|]. split; [exact Hrs2|]. apply prio_order_spec.
Qed.

Lemma mq_delivery_witness :
  exists q' rs1 rs2 out,
    run [blocking] (init_queue 216 (Attr 0 4 8 0))
      (sends [(1, [10]); (7, [11]); (1, [12]); (7, [13])] ++ receives 4 8) = Some ([blocking], q', rs1 ++ rs2) /\
    length rs1 = 4%nat /\ rs2.*1 = (fun m => AReceived (Ret (Received m.2 m.1))) <$> out /\
    out ≡ₚ [(1, [10]); (7, [11]); (1, [12]); (7, [13])] /\ StronglySorted by_prio out /\
    forall p, filter (fun x => x.1 = p) out = filter (fun x => x.1 = p) [(1, [10]); (7, [11]); (1, [12]); (7, [13])].
Proof.
  refine (mq_delivery 216 (Attr 0 4 8 0) [(1, [10]); (7, [11]); (1, [12]); (7, [13])] 8 _ _ _ _ _);
    [lia|simpl; lia|simpl; lia| |simpl; lia].
  repeat constructor; simpl; lia.
Defined.

(** Two threads never sleep past a chance to go on: with two threads on a
    queue, one that waits in mq_receive implies that the queue is empty, and one
    that waits in mq_send that it is full. *)
Theorem mq_two_threads HDRSZ attr s i :
  0 < HDRSZ -> 0 < mq_maxmsg attr -> 0 < mq_msgsize attr ->
  reachable (sys_start HDRSZ attr 2) (sys_step blocking) s ->
  (ths s !! i = Some RecvWait -> curmsgs (sq s) = 0) /\
  (forall d p, ths s !! i = Some (SendWait d p) -> curmsgs (sq s) = maxmsg (sq s)).
Proof.
  intros Hh Hm Hs Hr. assert (I : awake_inv s).
  { revert Hr. apply reachable_inv; [|apply awake_step]. intros s0 ->.
    eexists. split; [by apply init_queue_represents|]. split; [done|].
    intros j x Hj. cbn [ths] in Hj. by apply lookup_replicate in Hj as [-> _]. }
  destruct I as (a & Ha & _ & Hinv). destruct (represents_fields _ _ Ha) as (H1 & _ & H3 & _).
  pose proof (represents_count _ _ Ha). rewrite H1, H3. split.
  - intros Hi. apply Hinv in Hi. unfold count. by rewrite Hi.
  - intros d p Hi. apply Hinv in Hi. lia.
Qed.

Lemma mq_two_threads_witness :
  exists s, sys_run blocking (System (init_queue 216 (Attr 0 2 16 0)) (replicate 2 Running))
      [ERun 0 (OReceive None 16) 0] = Some s /\
    ths s !! 0%nat = Some RecvWait /\ curmsgs (sq s) = 0.
Proof.
  eexists. split; [vm_compute; reflexivity|]. split; [reflexivity|].
  refine (proj1 (mq_two_threads 216 (Attr 0 2 16 0) _ 0%nat _ _ _ (sys_run_reachable blocking
    (sys_start 216 (Attr 0 2 16 0) 2) [ERun 0 (OReceive None 16) 0] _ _
    (reach_init _ _ _ eq_refl) _)) _); [lia|simpl; lia|simpl; lia| |].
  - vm_compute. reflexivity.
  - reflexivity.
Defined.

(** With more threads wake-ups are lost.  mq_send signals only when the queue
    was empty: two receivers wait, two messages arrive, one receiver is woken and
    takes one message, and the other sleeps on although the queue holds the second
    message and no thread is about to touch it. *)
Theorem mq_lost_wakeup :
  exists s, reachable (sys_start 216 (Attr 0 4 8 0) 3) (sys_step blocking) s /\
    ths s = [Running; RecvWait; Running] /\ curmsgs (sq s) = 1.
Proof.
  eexists. split.
  - eapply (sys_run_reachable blocking (sys_start 216 (Attr 0 4 8 0) 3)
      [ERun 0 (OReceive None 8) 0; ERun 1 (OReceive None 8) 0; ERun 2 (OSend None [1] 1) 0;
       ERun 2 (OSend None [2] 1) 0; ERun 0 OReceiveResume 0]).
    + apply reach_init. reflexivity.
    + vm_compute. reflexivity.
  - split; reflexivity.
Qed.

End MsgQueue.
