(* ===== verification/Sys.v ===== *)
(** * System calls as a script

    Functions that open a queue or a semaphore make a series of system calls and
    react to what the kernel answers.  They are written in a small monad: the
    kernel's answers are a list consumed call by call (a call without an answer
    left is still blocked), the calls are recorded, and the resources the process
    holds (open descriptors, mappings, heap blocks) are accounted for.  Closing,
    unmapping or freeing what is not held is recorded as a fault. *)

From S2P Require Import Prelude.

Inductive ans := Ok (v : Z) | OkStat (mode size : Z) | Err (e : errno).

Inductive call :=
| COpen (flags mode : Z) | CClose (fd : Z) | CWrite (fd n : Z) | CLseek (fd off : Z)
| CMmap (len fd : Z) | CMunmap (len : Z) | CMalloc | CFree
| CFchmod (fd mode : Z) | CStat | CSleep (n : Z) | CUnlink | CSysconf
| CMutexattrInit | CMutexInit | CCondattrInit | CCondInit
| CMkfifo (mode : Z) | CGetfl (fd : Z) | CSetfl (fd flags : Z)
| CFtok | CSemget (flags : Z) | CSetval (id v : Z) | CSemop (id op : Z) | CSemstat (id : Z) | CRmid (id : Z)
| CSocket (addr : Z) | CConnect (fd addr : Z) | CBind (fd addr : Z) | CReuseaddr (fd : Z) | CListen (fd : Z)
| CAlarm (seconds : Z).

#[global] Instance call_eq_dec : EqDecision call.
Proof. solve_decision. Defined.

(** Flags of open(2) and mode bits, as on Linux. *)
Definition O_RDONLY : Z := 0.
Definition O_WRONLY : Z := 1.
Definition O_RDWR : Z := 2.
Definition O_CREAT : Z := 0x40.
Definition O_EXCL : Z := 0x80.
Definition O_NONBLOCK : Z := 0x800.
Definition S_IXUSR : Z := 0x40.

(** [flags & bit] as a condition, and [flags & ~bit]. *)
Definition has (flags bit : Z) : bool := negb (Z.land flags bit =? 0).
Definition without (flags bit : Z) : Z := Z.ldiff flags bit.

Record res := Res { fds : list Z; maps : list Z; heap : nat; faults : list call }.
Definition no_res : res := Res [] [] 0 [].

Record sys := Sys { answers : list ans; trace : list call; held : res }.

Definition M (A : Type) : Type := sys -> outcome A * sys.

#[global] Instance M_ret : MRet M := fun A a s => (Ret a, s).
#[global] Instance M_bind : MBind M := fun A B k m s =>
  match m s with
  | (Ret a, s') => k a s'
  | (Fail e, s') => (Fail e, s')
  | (Exit c, s') => (Exit c, s')
  | (Abort, s') => (Abort, s')
  | (Blocked, s') => (Blocked, s')
  end.

Definition mfail_ {A} (e : errno) : M A := fun s => (Fail e, s).
Definition mblocked {A} : M A := fun s => (Blocked, s).

(** A call whose result is used, and a call whose result is ignored. *)
Definition ask (c : call) : M ans := fun s =>
  match answers s with
  | [] => (Blocked, Sys [] (c :: trace s) (held s))
  | a :: r => (Ret a, Sys r (c :: trace s) (held s))
  end.
Definition tell (c : call) (f : res -> res) : M unit := fun s =>
  (Ret tt, Sys (answers s) (c :: trace s) (f (held s))).
Definition update (f : res -> res) : M unit := fun s => (Ret tt, Sys (answers s) (trace s) (f (held s))).

(** A call that returns a number or fails. *)
Definition value_of (a : ans) : Z + errno :=
  match a with Ok v => inl v | OkStat m _ => inl m | Err e => inr e end.
Definition sys_call (c : call) : M (Z + errno) := a ← ask c; mret (value_of a).

Fixpoint remove_one (x : Z) (l : list Z) : option (list Z) :=
  match l with
  | [] => None
  | y :: l' => if x =? y then Some l' else (y ::.) <$> remove_one x l'
  end.

Definition set_fds (r : res) (l : list Z) : res := Res l (maps r) (heap r) (faults r).
Definition set_maps (r : res) (l : list Z) : res := Res (fds r) l (heap r) (faults r).
Definition set_heap (r : res) (n : nat) : res := Res (fds r) (maps r) n (faults r).
Definition add_fault (r : res) (c : call) : res := Res (fds r) (maps r) (heap r) (c :: faults r).

Definition sys_open (flags mode : Z) : M (Z + errno) :=
  a ← sys_call (COpen flags mode);
  match a with
  | inl fd => _ ← update (fun r => set_fds r (fd :: fds r)); mret (inl fd)
  | inr e => mret (inr e)
  end.

(** [close(-1)] fails without consequence; closing another descriptor that is not
    open is a fault. *)
Definition sys_close (fd : Z) : M unit :=
  tell (CClose fd) (fun r =>
    match remove_one fd (fds r) with
    | Some l => set_fds r l
    | None => if fd <? 0 then r else add_fault r (CClose fd)
    end).

Definition sys_mmap (len fd : Z) : M (Z + errno) :=
  a ← sys_call (CMmap len fd);
  match a with
  | inl v => _ ← update (fun r => set_maps r (len :: maps r)); mret (inl v)
  | inr e => mret (inr e)
  end.

Definition sys_munmap (len : Z) : M unit :=
  tell (CMunmap len) (fun r =>
    match remove_one len (maps r) with
    | Some l => set_maps r l
    | None => add_fault r (CMunmap len)
    end).

(** malloc: [false] is the null pointer. *)
Definition sys_malloc : M bool :=
  a ← sys_call CMalloc;
  match a with
  | inl _ => _ ← update (fun r => set_heap r (S (heap r))); mret true
  | inr _ => mret false
  end.

Definition sys_free : M unit :=
  tell CFree (fun r => match heap r with O => add_fault r CFree | S n => set_heap r n end).

Definition mexit {A} (code : Z) : M A := fun s => (Exit code, s).
Definition mabort {A} : M A := fun s => (Abort, s).

Definition when (b : bool) (m : M unit) : M unit := if b then m else mret tt.

(** ** Reasoning about resources, for every behaviour of the kernel *)

Definition wp {A} (m : M A) (Q : outcome A -> res -> Prop) (r : res) : Prop :=
  forall as_ tr, let '(o, s') := m (Sys as_ tr r) in Q o (held s').

Section Rules.
Context {A : Type}.
Implicit Types (Q : outcome A -> res -> Prop).

Lemma wp_ret (a : A) Q r : Q (Ret a) r -> wp (mret a) Q r.
Proof. intros H as_ tr. exact H. Qed.

Lemma wp_fail e Q r : Q (Fail e) r -> wp (mfail_ e) Q r.
Proof. intros H as_ tr. exact H. Qed.

Lemma wp_blocked Q r : Q Blocked r -> wp mblocked Q r.
Proof. intros H as_ tr. exact H. Qed.

Lemma wp_exit c Q r : Q (Exit c) r -> wp (mexit c) Q r.
Proof. intros H as_ tr. exact H. Qed.

Lemma wp_abort Q r : Q Abort r -> wp mabort Q r.
Proof. intros H as_ tr. exact H. Qed.

Lemma wp_mono (m : M A) Q Q' r : (forall o r', Q o r' -> Q' o r') -> wp m Q r -> wp m Q' r.
Proof. intros H Hm as_ tr. specialize (Hm as_ tr). destruct (m _) as [o s']. auto. Qed.
End Rules.

(** The postcondition of the first half of a sequence. *)
Definition wp_then {A B} (k : A -> M B) (Q : outcome B -> res -> Prop) (o : outcome A) (r : res) : Prop :=
  match o with
  | Ret a => wp (k a) Q r
  | Fail e => Q (Fail e) r
  | Exit c => Q (Exit c) r
  | Abort => Q Abort r
  | Blocked => Q Blocked r
  end.

Lemma wp_bind {A B} (m : M A) (k : A -> M B) Q r : wp m (wp_then k Q) r -> wp (m ≫= k) Q r.
Proof.
  intros H as_ tr. unfold mbind, M_bind. specialize (H as_ tr).
  destruct (m _) as [[a|e|c| |] [as' tr' r']]; [exact (H as' tr')|exact H..].
Qed.

Lemma wp_call c Q r :
  (forall v, Q (Ret (inl v)) r) -> (forall e, Q (Ret (inr e)) r) -> Q Blocked r ->
  wp (sys_call c) Q r.
Proof.
  intros H1 H2 H3 as_ tr. unfold sys_call, mbind, M_bind, ask. cbn [answers].
  destruct as_ as [|[v|m sz|e] as_]; cbn; auto.
Qed.

Lemma wp_ask c Q r : (forall a, Q (Ret a) r) -> Q Blocked r -> wp (ask c) Q r.
Proof. intros H1 H2 as_ tr. unfold ask. cbn [answers]. destruct as_; cbn; auto. Qed.

Lemma wp_open fl mo Q r :
  (forall fd, Q (Ret (inl fd)) (set_fds r (fd :: fds r))) -> (forall e, Q (Ret (inr e)) r) ->
  Q Blocked r -> wp (sys_open fl mo) Q r.
Proof.
  intros H1 H2 H3. apply wp_bind, wp_call; [intros v|intros e|done]; cbn [wp_then].
  - intros as_ tr. apply H1.
  - by apply wp_ret.
Qed.

Lemma wp_mmap len fd Q r :
  (forall v, Q (Ret (inl v)) (set_maps r (len :: maps r))) -> (forall e, Q (Ret (inr e)) r) ->
  Q Blocked r -> wp (sys_mmap len fd) Q r.
Proof.
  intros H1 H2 H3. apply wp_bind, wp_call; [intros v|intros e|done]; cbn [wp_then].
  - intros as_ tr. apply H1.
  - by apply wp_ret.
Qed.

Lemma wp_malloc Q r :
  Q (Ret true) (set_heap r (S (heap r))) -> Q (Ret false) r -> Q Blocked r -> wp sys_malloc Q r.
Proof.
  intros H1 H2 H3. apply wp_bind, wp_call; [intros v|intros e|done]; cbn [wp_then].
  - intros as_ tr. apply H1.
  - by apply wp_ret.
Qed.

Lemma wp_tell c f Q r : Q (Ret tt) (f r) -> wp (tell c f) Q r.
Proof. intros H as_ tr. exact H. Qed.

Lemma wp_when b m Q r : (b = true -> wp m Q r) -> (b = false -> Q (Ret tt) r) -> wp (when b m) Q r.
Proof. intros H1 H2. destruct b; [by apply H1|by apply wp_ret, H2]. Qed.

(** ** Progress: a function is blocked only on a call the kernel has not answered *)

Definition live {A} (n : nat) (m : M A) : Prop :=
  forall s, (length (answers s) <= n)%nat ->
    let '(o, s') := m s in
    (length (answers s') <= length (answers s))%nat /\ (o = Blocked -> answers s' = []).

(** The same for a function that consumes at least one answer. *)
Definition live1 {A} (n : nat) (m : M A) : Prop :=
  forall s, (length (answers s) <= n)%nat ->
    let '(o, s') := m s in
    (o <> Blocked -> length (answers s') < length (answers s))%nat /\
    (length (answers s') <= length (answers s))%nat /\ (o = Blocked -> answers s' = []).

Lemma live_ret {A} n (a : A) : live n (mret a).
Proof. intros s Hs. cbn. split; [lia|done]. Qed.
Lemma live_fail {A} n e : live n (mfail_ (A := A) e).
Proof. intros s Hs. cbn. split; [lia|done]. Qed.
Lemma live_tell n c f : live n (tell c f).
Proof. intros s Hs. cbn. split; [lia|done]. Qed.
Lemma live_update n f : live n (update f).
Proof. intros s Hs. cbn. split; [lia|done]. Qed.

Lemma live_bind {A B} n (m : M A) (k : A -> M B) : live n m -> (forall a, live n (k a)) -> live n (m ≫= k).
Proof.
  intros Hm Hk s Hs. specialize (Hm s Hs). unfold mbind, M_bind.
  destruct (m s) as [[a|e|c| |] s']; destruct Hm as [Hl Hb];
    [|(split; [done|intros; first [done | by apply Hb]])..].
  specialize (Hk a s' ltac:(lia)). destruct (k a s') as [o s'']. split; [lia|tauto].
Qed.

Lemma live1_ask n c : live1 n (ask c).
Proof.
  intros s Hs. unfold ask. destruct (answers s) as [|a r] eqn:E; cbn; (split; [|split]); try done; simpl in *; lia.
Qed.

Lemma live1_bind_l {A B} n (m : M A) (k : A -> M B) :
  live1 (S n) m -> (forall a, live n (k a)) -> live1 (S n) (m ≫= k).
Proof.
  intros Hm Hk s Hs. specialize (Hm s Hs). unfold mbind, M_bind.
  destruct (m s) as [[a|e|c| |] s']; destruct Hm as (H1 & Hl & Hb); 
    [|(split; [intros; first [done | by apply H1]|split; [done|intros; first [done | by apply Hb]]])..].
  specialize (H1 ltac:(done)). specialize (Hk a s' ltac:(lia)). destruct (k a s') as [o s'']. split; [lia|split; [lia|tauto]].
Qed.

Lemma live1_live {A} n (m : M A) : live1 n m -> live n m.
Proof. intros H s Hs. specialize (H s Hs). destruct (m s). tauto. Qed.

(** Every function has used up no answers when there are none. *)
Lemma live_zero_ask {A} c (k : ans -> M A) : live 0 (ask c ≫= k).
Proof.
  intros s Hs. unfold mbind, M_bind, ask. destruct (answers s) eqn:E; [|simpl in Hs; lia].
  cbn. split; [simpl; lia|done].
Qed.

Lemma live_call n c : live n (sys_call c).
Proof. apply live_bind; [apply live1_live, live1_ask|intros; apply live_ret]. Qed.
Lemma live_open n fl mo : live n (sys_open fl mo).
Proof.
  apply live_bind; [apply live_call|]. intros [v|e]; [|apply live_ret].
  apply live_bind; [apply live_update|intros; apply live_ret].
Qed.
Lemma live_mmap n len fd : live n (sys_mmap len fd).
Proof.
  apply live_bind; [apply live_call|]. intros [v|e]; [|apply live_ret].
  apply live_bind; [apply live_update|intros; apply live_ret].
Qed.
Lemma live_malloc n : live n sys_malloc.
Proof.
  apply live_bind; [apply live_call|]. intros [v|e]; [|apply live_ret].
  apply live_bind; [apply live_update|intros; apply live_ret].
Qed.
Lemma live_when n b m : live n m -> live n (when b m).
Proof. destruct b; [done|]. intros _. apply live_ret. Qed.
Lemma live_ask n c : live n (ask c).
Proof. apply live1_live, live1_ask. Qed.
Lemma live1_open n fl mo : live1 n (sys_open fl mo).
Proof.
  intros s Hs. unfold sys_open, sys_call, ask, mbind, M_bind. destruct (answers s) as [|a r] eqn:E; cbn.
  - (split; [|split]); try done; simpl in *; lia.
  - destruct a; cbn; (split; [|split]); try done; simpl in *; lia.
Qed.

#[export] Hint Resolve live_ret live_fail live_tell live_ask live_call live_open live_mmap live_malloc live_when : repo.
