(* ===== verification/MqOpen.v ===== *)
(** * Opening a message queue

    Model of [mymq_open] in src/IPC/unpv22e/my_pxmsg_mmap/mq_open.c over the script
    of kernel answers of Sys.v: the creation of the file with the user-execute bit
    as "not yet initialised" flag, the wait of the other openers for that bit to be
    turned off, the retries when the file vanishes, and the common error exit.
    The [goto again] is a recursion with fuel; [mymq_open] gives it one unit more
    than there are answers, and [mq_open_live] shows that this is always enough. *)

From S2P Require Import Prelude Sys MsgQueue.

Module MqOpen.
Import MsgQueue.

Definition MAX_TRIES : nat := 10.
Definition defattr : mymq_attr := Attr 0 128 1024 0.

(** The descriptor, and the contents of the file if this call created it. *)
Record opened := Opened { o_info : mymq_info; o_queue : option queue }.

(** The loop over stat(): the size of the initialised file, an error, or none. *)
Inductive stat_result := SReady (size : Z) | SErr (e : errno) | STimeout.

Fixpoint stat_loop (tries : nat) : M stat_result :=
  match tries with
  | O => mret STimeout
  | S tries' =>
      a ← ask CStat;
      match a with
      | Err e => mret (SErr e)
      | Ok mode => if has mode S_IXUSR then _ ← tell (CSleep 1) id; stat_loop tries' else mret (SReady 0)
      | OkStat mode size =>
          if has mode S_IXUSR then _ ← tell (CSleep 1) id; stat_loop tries' else mret (SReady size)
      end
  end.

Section Open.
Context (HDRSZ oflag0 mode0 : Z) (attr : option mymq_attr).

Definition nonblock : Z := Z.land oflag0 O_NONBLOCK.
Definition oflag : Z := without oflag0 O_NONBLOCK.
Definition mode : Z := without mode0 S_IXUSR.

(** The label [err]: [mptr] is the length of the mapping to undo. *)
Definition err_exit (created : bool) (mptr : option Z) (mqinfo : bool) (fd : Z) (e : errno) : M opened :=
  _ ← when created (tell CUnlink id);
  _ ← match mptr with Some filesize => sys_munmap filesize | None => mret tt end;
  _ ← when mqinfo sys_free;
  _ ← sys_close fd;
  mfail_ e.

(** From the label [exists]; [again] is the jump back. *)
Definition open_existing (again : M opened) : M opened :=
  r ← sys_open O_RDWR 0;
  match r with
  | inr e => if bool_decide (e = ENOENT) && has oflag O_CREAT then again
             else err_exit false None false (-1) e
  | inl fd =>
      st ← stat_loop MAX_TRIES;
      match st with
      | SErr e => if bool_decide (e = ENOENT) && has oflag O_CREAT then _ ← sys_close fd; again
                  else err_exit false None false fd e
      | STimeout => err_exit false None false fd ETIMEDOUT
      | SReady filesize =>
          m ← sys_mmap filesize fd;
          match m with
          | inr e => err_exit false None false fd e
          | inl _ =>
              _ ← sys_close fd;
              ok ← sys_malloc;
              if ok : bool then mret (Opened (Info MQI_MAGIC nonblock) None)
              else err_exit false (Some filesize) false fd ENOMEM
          end
      end
  end.

(** The initialisation of mutex and condition variable: the error number or 0. *)
Definition pthread_init : M result :=
  a ← sys_call CMutexattrInit;
  match a with inr e => mret (Some e) | inl _ =>
    b ← sys_call CMutexInit;
    match b with inr e => mret (Some e) | inl _ =>
      c ← sys_call CCondattrInit;
      match c with inr e => mret (Some e) | inl _ =>
        d ← sys_call CCondInit;
        match d with inr e => mret (Some e) | inl _ => mret None end
      end
    end
  end.

Definition attr_used : mymq_attr := default defattr attr.
Definition filesize : Z :=
  s64 (HDRSZ + mq_maxmsg attr_used * (SIZEOF_MSG_HDR + MSGSIZE (mq_msgsize attr_used))).

(** After the successful open() with O_EXCL: this process initialises the file. *)
Definition initialise (fd : Z) : M opened :=
  if match attr with Some a => (mq_maxmsg a <=? 0) || (mq_msgsize a <=? 0) | None => false end
  then err_exit true None false fd EINVAL
  else
    a ← sys_call (CLseek fd (filesize - 1));
    match a with inr e => err_exit true None false fd e | inl _ =>
    b ← sys_call (CWrite fd 1);
    match b with inr e => err_exit true None false fd e | inl _ =>
    m ← sys_mmap filesize fd;
    match m with inr e => err_exit true None false fd e | inl _ =>
    ok ← sys_malloc;
    if negb ok then err_exit true (Some filesize) false fd ENOMEM
    else
      p ← pthread_init;
      match p with Some i => err_exit true (Some filesize) true fd i | None =>
      c ← sys_call (CFchmod fd mode);
      match c with inr e => err_exit true (Some filesize) true fd e | inl _ =>
      _ ← sys_close fd;
      mret (Opened (Info MQI_MAGIC nonblock) (Some (init_queue HDRSZ attr_used)))
      end end
    end end end.

Fixpoint again (fuel : nat) : M opened :=
  match fuel with
  | O => mblocked
  | S fuel' =>
      if has oflag O_CREAT then
        r ← sys_open (Z.lor (Z.lor oflag O_EXCL) O_RDWR) (Z.lor mode S_IXUSR);
        match r with
        | inr e => if bool_decide (e = EEXIST) && negb (has oflag O_EXCL) then open_existing (again fuel')
                   else mfail_ e
        | inl fd => initialise fd
        end
      else open_existing (again fuel')
  end.

Definition mymq_open : M opened := fun s => again (S (length (answers s))) s.
End Open.

#[global] Arguments err_exit : simpl never.

(** ** Resources *)

(** At the return: one mapping and one descriptor block on success, nothing on
    failure; a failed malloc() of an opener is the only way to a fault. *)
Definition settled (o : outcome opened) (r : res) : Prop :=
  match o with
  | Ret _ => fds r = [] /\ length (maps r) = 1%nat /\ heap r = 1%nat /\ faults r = []
  | Fail e => fds r = [] /\ maps r = [] /\ heap r = 0%nat /\
              (faults r = [] \/ exists fd, faults r = [CClose fd] /\ e = ENOMEM)
  | Blocked => True
  | _ => False
  end.

Ltac step :=
  match goal with
  | |- wp (_ ≫= _) _ _ => apply wp_bind
  | |- wp (sys_open _ _) _ _ => apply wp_open; intros
  | |- wp (sys_mmap _ _) _ _ => apply wp_mmap; intros
  | |- wp sys_malloc _ _ => apply wp_malloc; intros
  | |- wp (sys_call _) _ _ => apply wp_call; intros
  | |- wp (ask _) _ _ => apply wp_ask; intros
  | |- wp (tell _ _) _ _ => apply wp_tell
  | |- wp (when _ _) _ _ => apply wp_when; intros
  | |- wp (mret _) _ _ => apply wp_ret
  | |- wp (mfail_ _) _ _ => apply wp_fail
  | |- wp mblocked _ _ => apply wp_blocked
  end;
  cbn [wp_then]; try exact I.

Lemma remove_one_here fd l : remove_one fd (fd :: l) = Some l.
Proof. cbn. by rewrite Z.eqb_refl. Qed.

Lemma wp_stat_loop n Q r :
  (forall st, Q (Ret st) r) -> Q Blocked r -> wp (stat_loop n) Q r.
Proof.
  intros H1 H2. induction n as [|n IH]; cbn [stat_loop]; [by step|].
  step. step; [|done]. destruct a as [m|m sz|e].
  - destruct (has m S_IXUSR); [|by step]. step. step. done.
  - destruct (has m S_IXUSR); [|by step]. step. step. done.
  - by step.
Qed.

Lemma wp_err_exit created mptr mqinfo fd e r :
  wp (err_exit created mptr mqinfo fd e) settled r <->
  settled (Fail e)
    (let r1 := match mptr with
               | Some l => match remove_one l (maps r) with
                           | Some m => set_maps r m | None => add_fault r (CMunmap l) end
               | None => r end in
     let r2 := if mqinfo then match heap r1 with O => add_fault r1 CFree | S n => set_heap r1 n end else r1 in
     match remove_one fd (fds r2) with
     | Some l => set_fds r2 l
     | None => if fd <? 0 then r2 else add_fault r2 (CClose fd)
     end).
Proof.
  unfold wp, err_exit, when, sys_munmap, sys_free, sys_close, tell, mbind, M_bind, mret, M_ret, mfail_.
  split.
  - intros H. specialize (H [] []). destruct created, mptr, mqinfo; exact H.
  - intros H as_ tr. destruct created, mptr, mqinfo; exact H.
Qed.

Ltac settle := apply wp_err_exit; repeat (cbn; rewrite Z.eqb_refl); cbn; auto.

Lemma open_existing_settled oflag0 again :
  wp again settled no_res -> wp (open_existing oflag0 again) settled no_res.
Proof.
  intros Ha. unfold open_existing. step. step.
  - step. apply wp_stat_loop; [|done]. intros [size|e|]; cbn [wp_then].
    + step. step.
      * step. unfold sys_close. step. cbn. rewrite Z.eqb_refl. step. step.
        -- step. cbn. auto.
        -- settle. destruct (fd <? 0); cbn; [tauto|]. repeat split; eauto.
      * settle.
    + destruct (_ && _).
      * step. unfold sys_close. step. cbn. rewrite Z.eqb_refl. exact Ha.
      * settle.
    + settle.
  - destruct (_ && _); [done|settle].
Qed.

Lemma wp_pthread_init Q r : (forall p, Q (Ret p) r) -> Q Blocked r -> wp pthread_init Q r.
Proof. intros H1 H2. unfold pthread_init. repeat (step; try done). Qed.

Lemma initialise_settled HDRSZ oflag0 mode0 attr fd :
  wp (initialise HDRSZ oflag0 mode0 attr fd) settled (set_fds no_res [fd]).
Proof.
  unfold initialise. destruct (match attr with Some _ => _ | None => _ end); [settle|].
  step. step; [|settle]. step. step; [|settle]. step. step; [|settle]. step. step; [|settle].
  cbn [negb]. step. apply wp_pthread_init; [|done]. intros [i|]; cbn [wp_then]; [settle|].
  step. step; [|settle]. step. unfold sys_close. step. cbn. rewrite Z.eqb_refl. step. cbn. auto.
Qed.

Lemma again_settled HDRSZ oflag0 mode0 attr fuel :
  wp (again HDRSZ oflag0 mode0 attr fuel) settled no_res.
Proof.
  induction fuel as [|fuel IH]; cbn [again]; [by step|].
  destruct (has _ O_CREAT); [|by apply open_existing_settled].
  step. step; [by apply initialise_settled|].
  destruct (_ && _); [by apply open_existing_settled|]. step. cbn. auto.
Qed.

(** ** Progress *)

Lemma live_stat_loop n k : live n (stat_loop k).
Proof.
  induction k as [|k IH]; cbn [stat_loop]; [apply live_ret|].
  apply live_bind; [apply live_ask|]. intros [m|m sz|e]; [| |apply live_ret];
    (destruct (has m S_IXUSR); [|apply live_ret]); (apply live_bind; [apply live_tell|done]).
Qed.

Lemma live_err_exit n created mptr mqinfo fd e : live n (err_exit created mptr mqinfo fd e).
Proof.
  unfold err_exit, sys_munmap, sys_free, sys_close.
  repeat (apply live_bind; intros); [by apply live_when, live_tell| |by apply live_when, live_tell|apply live_tell|apply live_fail].
  destruct mptr; [apply live_tell|apply live_ret].
Qed.

Lemma live_pthread_init n : live n pthread_init.
Proof.
  unfold pthread_init.
  repeat first [apply live_ret | apply live_bind; [apply live_call|intros [?|?]]].
Qed.

Lemma live_initialise n HDRSZ oflag0 mode0 attr fd : live n (initialise HDRSZ oflag0 mode0 attr fd).
Proof.
  unfold initialise. destruct (match attr with Some _ => _ | None => _ end); [apply live_err_exit|].
  repeat first [ apply live_err_exit | apply live_ret | apply live_bind; [first
    [apply live_call | apply live_mmap | apply live_malloc | apply live_pthread_init | apply live_tell]|intros []]
    | progress cbn [negb] ].
Qed.

(** What follows the open() of [open_existing] and of [again]. *)
Lemma live1_existing n oflag0 a : live n a -> live1 (S n) (open_existing oflag0 a).
Proof.
  intros Ha. apply live1_bind_l; [apply live1_open|]. intros [fd|e].
  - apply live_bind; [apply live_stat_loop|]. intros [size|e|].
    + apply live_bind; [apply live_mmap|]. intros [v|e]; [|apply live_err_exit].
      apply live_bind; [apply live_tell|]. intros _.
      apply live_bind; [apply live_malloc|]. intros []; [apply live_ret|apply live_err_exit].
    + destruct (_ && _); [apply live_bind; [apply live_tell|done]|apply live_err_exit].
    + apply live_err_exit.
  - destruct (_ && _); [done|apply live_err_exit].
Qed.

Lemma live_zero_open {A} fl mo (k : Z + errno -> M A) : live 0 (sys_open fl mo ≫= k).
Proof.
  intros s Hs. unfold sys_open, sys_call, mbind, M_bind, ask.
  destruct (answers s) eqn:E; [|simpl in Hs; lia]. cbn. split; [simpl; lia|done].
Qed.

Lemma live_existing n oflag0 a : live n a -> live n (open_existing oflag0 a).
Proof.
  intros Ha. destruct n as [|n]; [apply live_zero_open|].
  apply live1_live, live1_existing. intros s Hs. apply Ha. lia.
Qed.

Lemma live_again n HDRSZ oflag0 mode0 attr : forall fuel, (n < fuel)%nat ->
  live n (again HDRSZ oflag0 mode0 attr fuel).
Proof.
  induction n as [|n IH]; intros [|fuel] Hf; try lia; cbn [again].
  - destruct (has _ O_CREAT); apply live_zero_open.
  - assert (Hl : live n (again HDRSZ oflag0 mode0 attr fuel)) by (apply IH; lia).
    destruct (has _ O_CREAT); [|by apply live1_live, live1_existing].
    apply live1_live, live1_bind_l; [apply live1_open|]. intros [fd|e]; [apply live_initialise|].
    destruct (_ && _); [by apply live_existing|apply live_fail].
Qed.

(** ** The properties *)

(** Whatever the kernel answers, mymq_open ends with its resources settled: a
    successful open holds one mapping and one heap block and no file descriptor, a
    failed one holds nothing.  The only irregularity is that an opener whose
    malloc() fails closes its descriptor twice. *)
Theorem mq_open_resources HDRSZ oflag mode attr answers o s :
  mymq_open HDRSZ oflag mode attr (Sys answers [] no_res) = (o, s) -> settled o (held s).
Proof.
  intros H. pose proof (again_settled HDRSZ oflag mode attr (S (length answers)) answers []) as Hs.
  unfold mymq_open in H. cbn [Sys.answers] in H. by rewrite H in Hs.
Qed.

Definition opener_script : list ans :=
  [Err EEXIST; Ok 3; OkStat 0x1e4 4096; OkStat 0x1a4 4096; Ok 0x7f00; Err ENOMEM].

Lemma mq_open_resources_witness :
  exists o s, mymq_open 216 (Z.lor O_CREAT O_RDWR) 0x1a4 None (Sys opener_script [] no_res) = (o, s) /\
    o = Fail ENOMEM /\ faults (held s) = [CClose 3] /\ settled o (held s).
Proof.
  do 2 eexists. split; [vm_compute; reflexivity|]. split; [reflexivity|]. split; [reflexivity|].
  refine (mq_open_resources 216 (Z.lor O_CREAT O_RDWR) 0x1a4 None opener_script _ _ _).
  vm_compute. reflexivity.
Defined.

(** Mymq_open waits only for the kernel: it stops, with a result or at a call
    that has not been answered, after finitely many calls, however often the file
    vanishes and it has to start again. *)
Theorem mq_open_live HDRSZ oflag mode attr s o s' :
  mymq_open HDRSZ oflag mode attr s = (o, s') -> o = Blocked -> answers s' = [].
Proof.
  intros H Hb. pose proof (live_again (length (answers s)) HDRSZ oflag mode attr
    (S (length (answers s))) ltac:(lia) s ltac:(lia)) as Hl.
  unfold mymq_open in H. rewrite H in Hl. tauto.
Qed.

Lemma mq_open_live_witness :
  exists s', mymq_open 216 O_CREAT 0x1a4 None (Sys [Err EEXIST; Err ENOENT; Err EEXIST] [] no_res) = (Blocked, s') /\
    answers s' = [].
Proof.
  eexists. split; [vm_compute; reflexivity|].
  refine (mq_open_live 216 O_CREAT 0x1a4 None (Sys [Err EEXIST; Err ENOENT; Err EEXIST] [] no_res) Blocked _ _ _);
    [vm_compute; reflexivity|reflexivity].
Defined.

End MqOpen.
