(* ===== verification/PxSem.v ===== *)
(** * Three implementations of Posix semaphores

    Model of src/IPC/unpv22e/my_pxsem_mmap (a counter under a mutex in a mapped
    file), my_pxsem_fifo (bytes in a FIFO) and my_pxsem_svsem (a System V
    semaphore): sem_wait.c, sem_trywait.c, sem_post.c, sem_getvalue.c, sem_close.c.
    Opening and unlinking are in SemOpen.v.  The class [Semaphore] states what the
    programs that use semaphores rely on: my_pxsem_fifo and my_pxsem_svsem are
    instances, so that the clients' theorems (ProdCons.v and others) hold for them.
    my_pxsem_mmap is not one: its post wraps around and loses wake-ups; its
    threads and its condition variable are modelled as they are. *)

From S2P Require Import Prelude.

Abbreviation result := (option errno).
Abbreviation ERANGE := (Eother 34).

(** A counting semaphore: [down s = None] is a caller that has to wait, and that
    goes on as soon as the value is positive; [up] succeeds below the limit. *)
Class Semaphore (T : Type) := {
  value : T -> Z;
  sem_ok : T -> Prop;
  limit : T -> Z;
  down : T -> option T;
  up : T -> option T;
  value_range s : sem_ok s -> 0 <= value s <= limit s;
  down_wait s : sem_ok s -> down s = None <-> value s = 0;
  down_spec s s' : sem_ok s -> down s = Some s' ->
    value s' = value s - 1 /\ sem_ok s' /\ limit s' = limit s;
  up_spec s : sem_ok s -> value s < limit s -> exists s', up s = Some s' /\
    value s' = value s + 1 /\ sem_ok s' /\ limit s' = limit s
}.

(** The calls, and the abstract counter they implement: [lim] is the limit and
    [full] the error of a post at it; [intr] says that a signal arrives while the
    call waits. *)
Inductive call := Wait (intr : bool) | TryWait | Post | GetValue.

Definition counter (lim : Z) (full : errno) (v : Z) (c : call) : Z * outcome Z :=
  match c with
  | Wait intr => if v =? 0 then (v, if intr : bool then Fail EINTR else Blocked) else (v - 1, Ret 0)
  | TryWait => if v =? 0 then (v, Fail EAGAIN) else (v - 1, Ret 0)
  | Post => if v =? lim then (v, Fail full) else (v + 1, Ret 0)
  | GetValue => (v, Ret v)
  end.

(** A sequence of calls and their results. *)
Fixpoint calls {S} (f : S -> call -> S * outcome Z) (s : S) (cs : list call) : S * list (outcome Z) :=
  match cs with
  | [] => (s, [])
  | c :: cs' => let '(s1, r) := f s c in let '(s2, rs) := calls f s1 cs' in (s2, r :: rs)
  end.

(** An [int] function's success as the value 0. *)
Definition ret0 (r : outcome unit) : outcome Z :=
  match r with Ret _ => Ret 0 | Fail e => Fail e | Exit c => Exit c | Abort => Abort | Blocked => Blocked end.

(** The calls that took a unit, and those that gave one. *)
Definition took (x : call * outcome Z) : bool := match x with (Wait _, Ret _) | (TryWait, Ret _) => true | _ => false end.
Definition gave (x : call * outcome Z) : bool := match x with (Post, Ret _) => true | _ => false end.

Lemma counter_counts lim full cs : forall v, 0 <= v <= lim ->
  let '(v', rs) := calls (counter lim full) v cs in
  v' = v + cnt gave (zip cs rs) - cnt took (zip cs rs) /\ 0 <= v' <= lim.
Proof.
  induction cs as [|c cs IH]; intros v Hv; cbn [calls zip zip_with]; [rewrite !cnt_nil; lia|].
  destruct (counter lim full v c) as [v1 r] eqn:E.
  assert (G : v1 = v + b2z (gave (c, r)) - b2z (took (c, r)) /\ 0 <= v1 <= lim).
  { destruct c as [[]| | |]; cbn in E; try destruct (_ =? _) eqn:F; bprop; injection E as <- <-; cbn; lia. }
  specialize (IH v1 ltac:(lia)). destruct (calls _ v1 cs) as [v2 rs]. cbn [zip zip_with]. rewrite !cnt_cons. lia.
Qed.

(** An implementation whose calls are the counter's, as far as [can] allows. *)
Lemma calls_ext {S} (f : S -> call -> S * outcome Z) (st : Z -> S) lim full (can : call -> bool) :
  (forall v c, 0 <= v <= lim -> can c = true ->
     f (st v) c = (st (counter lim full v c).1, (counter lim full v c).2)) ->
  forall cs v, 0 <= v <= lim -> forallb can cs = true ->
  calls f (st v) cs = (st (calls (counter lim full) v cs).1, (calls (counter lim full) v cs).2).
Proof.
  intros Hf cs. induction cs as [|c cs IH]; intros v Hv Hc; [done|]. cbn in Hc. bprop.
  cbn [calls]. rewrite Hf by done. pose proof (counter_counts lim full [c] v Hv) as G. cbn [calls] in G.
  destruct (counter lim full v c) as [v1 r]. destruct G as [_ G]. cbn. rewrite IH by done.
  by destruct (calls _ v1 cs).
Qed.

(** ** my_pxsem_mmap *)

Module SemMmap.

Definition SEM_MAGIC : Z := 0x67458923.

(** [mysem_t]; the count is an [unsigned int]. *)
Record mysem := Sem { sem_count : Z; sem_magic : Z }.

Definition set_count (s : mysem) (n : Z) : mysem := Sem n (sem_magic s).
Definition bad_magic (s : mysem) : bool := negb (sem_magic s =? SEM_MAGIC).

(** How a section under [sem_mutex] ends. *)
Inductive section :=
| CondWait
| Done (s : mysem) (r : outcome unit) (signal : bool).

(** [while (sem->sem_count == 0) pthread_cond_wait(...); sem->sem_count--]. *)
Definition wait_loop (s : mysem) : section :=
  if sem_count s =? 0 then CondWait else Done (set_count s (u32 (sem_count s - 1))) (Ret tt) false.

Definition mysem_wait (s : mysem) (locked : result) : section :=
  if bad_magic s then Done s (Fail EINVAL) false
  else match locked with
  | Some n => Done s (Fail n) false
  | None => wait_loop s
  end.

Definition mysem_trywait (s : mysem) (locked : result) : section :=
  if bad_magic s then Done s (Fail EINVAL) false
  else match locked with
  | Some n => Done s (Fail n) false
  | None =>
      if sem_count s >? 0 then Done (set_count s (u32 (sem_count s - 1))) (Ret tt) false
      else Done s (Fail EAGAIN) false
  end.

Definition mysem_post (s : mysem) (locked : result) : section :=
  if bad_magic s then Done s (Fail EINVAL) false
  else match locked with
  | Some n => Done s (Fail n) false
  | None => Done (set_count s (u32 (sem_count s + 1))) (Ret tt) (sem_count s =? 0)
  end.

(** [*pvalue] is an [int]. *)
Definition mysem_getvalue (s : mysem) (locked : result) : outcome Z :=
  if bad_magic s then Fail EINVAL
  else match locked with
  | Some n => Fail n
  | None => Ret (s32 (sem_count s))
  end.

Definition mysem_close (s : mysem) (unmapped : result) : outcome unit :=
  if bad_magic s then Fail EINVAL
  else match unmapped with Some e => Fail e | None => Ret tt end.

Lemma sem_magic_ok s : sem_magic s = SEM_MAGIC -> bad_magic s = false.
Proof. unfold bad_magic. by intros ->. Qed.

(** ** Threads and the condition variable *)

Inductive status := Running | Waiting | Woken.
Definition waits (x : status) : bool := match x with Waiting => true | _ => false end.

Record state := St { sem : mysem; ths : list status }.

Inductive event :=
| EWait (i : nat)
| EResume (i : nat)
| EPost (i : nat) (chosen : nat)
| ESpurious (i : nat).

(** pthread_cond_signal: one waiting thread, [chosen], if there is one. *)
Definition cond_signal (chosen : nat) (l : list status) : option (list status) :=
  match l !! chosen with
  | Some Waiting => Some (<[chosen := Woken]> l)
  | _ => if cnt waits l =? 0 then Some l else None
  end.

Definition finish (s : state) (i : nat) (chosen : nat) (x : section) : option state :=
  match x with
  | CondWait => Some (St (sem s) (<[i := Waiting]> (ths s)))
  | Done s' _ signal =>
      let l := <[i := Running]> (ths s) in
      l' ← (if signal : bool then cond_signal chosen l else Some l);
      Some (St s' l')
  end.

Definition exec (s : state) (e : event) : option state :=
  match e with
  | EWait i => match ths s !! i with
               | Some Running => finish s i 0 (mysem_wait (sem s) None) | _ => None end
  | EResume i => match ths s !! i with
                 | Some Woken => finish s i 0 (wait_loop (sem s)) | _ => None end
  | EPost i chosen => match ths s !! i with
                      | Some Running => finish s i chosen (mysem_post (sem s) None) | _ => None end
  | ESpurious i => match ths s !! i with
                   | Some Waiting => Some (St (sem s) (<[i := Woken]> (ths s))) | _ => None end
  end.

Fixpoint run (s : state) (es : list event) : option state :=
  match es with
  | [] => Some s
  | e :: es' => s' ← exec s e; run s' es'
  end.

Definition start (v : Z) (n : nat) : state := St (Sem v SEM_MAGIC) (replicate n Running).

(** A call of a thread when no other thread is inside. *)
Definition mmap_call (s : mysem) (c : call) : mysem * outcome Z :=
  let ended (x : section) :=
    match x with CondWait => (s, Blocked) | Done s' r _ => (s', ret0 r) end in
  match c with
  | Wait _ => ended (mysem_wait s None)
  | TryWait => ended (mysem_trywait s None)
  | Post => ended (mysem_post s None)
  | GetValue => (s, mysem_getvalue s None)
  end.

Lemma mmap_call_spec v c : 0 <= v < 2 ^ 32 -> c <> Wait true ->
  mmap_call (Sem v SEM_MAGIC) c =
    match c with
    | Post => (Sem (u32 (v + 1)) SEM_MAGIC, Ret 0)
    | GetValue => (Sem v SEM_MAGIC, Ret (s32 v))
    | _ => let '(v', r) := counter v EAGAIN v c in (Sem v' SEM_MAGIC, r)
    end.
Proof.
  intros Hv Hc. destruct c as [[]| | |]; try done; cbn.
  - unfold wait_loop. cbn. destruct (v =? 0) eqn:E; bprop; [done|]. unfold set_count. cbn. by rewrite wrap_small by lia.
  - unfold mysem_trywait. cbn. rewrite Z.gtb_ltb. destruct (v =? 0) eqn:E; bprop; [by subst|].
    rewrite (proj2 (Z.ltb_lt _ _)) by lia. cbn. unfold set_count. cbn. by rewrite wrap_small by lia.
Qed.

(** Units given and taken in a run. *)
Definition takes (s : state) (e : event) : bool :=
  match e with EWait _ | EResume _ => negb (sem_count (sem s) =? 0) | _ => false end.
Definition posts (e : event) : bool := match e with EPost _ _ => true | _ => false end.

Fixpoint taken (s : state) (es : list event) : Z :=
  match es with
  | [] => 0
  | e :: es' => match exec s e with Some s' => b2z (takes s e) + taken s' es' | None => 0 end
  end.

(** The loop of a waiting thread [i], as a state. *)
Definition waited (s : state) (i : nat) : state :=
  if sem_count (sem s) =? 0 then St (sem s) (<[i := Waiting]> (ths s))
  else St (set_count (sem s) (u32 (sem_count (sem s) - 1))) (<[i := Running]> (ths s)).

Lemma exec_inv s e s' : sem_magic (sem s) = SEM_MAGIC -> exec s e = Some s' ->
  match e with
  | EWait i => ths s !! i = Some Running /\ s' = waited s i
  | EResume i => ths s !! i = Some Woken /\ s' = waited s i
  | EPost i chosen => ths s !! i = Some Running /\ exists l,
      (if sem_count (sem s) =? 0 then cond_signal chosen (<[i := Running]> (ths s)) else Some (<[i := Running]> (ths s))) = Some l /\
      s' = St (set_count (sem s) (u32 (sem_count (sem s) + 1))) l
  | ESpurious i => ths s !! i = Some Waiting /\ s' = St (sem s) (<[i := Woken]> (ths s))
  end.
Proof.
  intros Hm H. destruct e as [i|i|i chosen|i]; cbn in H; destruct (ths s !! i) as [[]|] eqn:E; try done;
    unfold mysem_wait, mysem_post in H; rewrite ?sem_magic_ok in H by done; (split; [done|]).
  - unfold waited. unfold wait_loop in H. destruct (_ =? 0); by injection H as <-.
  - unfold waited. unfold wait_loop in H. destruct (_ =? 0); by injection H as <-.
  - cbn in H. destruct (sem_count _ =? 0); cbn in H; [destruct (cond_signal _ _) as [l|]; [|done]|]; cbn in H;
      injection H as <-; by eexists.
  - by injection H as <-.
Qed.

(** One event: what it does to the count. *)
Lemma mmap_count s e s' : sem_magic (sem s) = SEM_MAGIC -> 0 <= sem_count (sem s) < 2 ^ 32 -> exec s e = Some s' ->
  sem_magic (sem s') = SEM_MAGIC /\
  sem_count (sem s') = u32 (sem_count (sem s) + b2z (posts e) - b2z (takes s e)).
Proof.
  intros Hm Hc H. apply exec_inv in H; [|done].
  destruct e as [i|i|i chosen|i]; cbn [posts takes b2z]; [| | destruct H as (_ & l & _ & ->)|destruct H as (_ & ->)].
  1,2: destruct H as (_ & ->); unfold waited; destruct (_ =? 0); cbn; (split; [done|]);
    [rewrite wrap_small by lia; lia | f_equal; lia].
  - cbn. split; [done|]. f_equal; lia.
  - cbn. split; [done|]. rewrite wrap_small by lia; lia.
Qed.

Lemma mmap_run_count es : forall s s', sem_magic (sem s) = SEM_MAGIC -> 0 <= sem_count (sem s) < 2 ^ 32 ->
  run s es = Some s' -> sem_count (sem s') = u32 (sem_count (sem s) + cnt posts es - taken s es).
Proof.
  induction es as [|e es IH]; intros s s' Hm Hc H; cbn in H.
  - injection H as <-. rewrite cnt_nil. cbn. rewrite wrap_small by lia; lia.
  - destruct (exec s e) as [s1|] eqn:E; [|done]. cbn [mbind option_bind] in H.
    destruct (mmap_count _ _ _ Hm Hc E) as [Hm1 Hc1]. rewrite (IH s1 s' Hm1); [|rewrite Hc1; apply wrap_range; lia|done].
    rewrite Hc1, cnt_cons. cbn [taken]. rewrite E, <- Z.add_sub_assoc, wrap_add_l. f_equal. lia.
Qed.

(** One waiting thread: [i] is the only one that calls mysem_wait. *)
Definition waits_of (i : nat) (e : event) : bool := match e with EWait j => (j =? i)%nat | _ => true end.

Definition awake (i : nat) (s : state) : Prop :=
  sem_magic (sem s) = SEM_MAGIC /\ (forall j, j <> i -> ths s !! j <> Some Waiting /\ ths s !! j <> Some Woken) /\
  (ths s !! i = Some Waiting -> sem_count (sem s) = 0).

Lemma no_waiting l : cnt waits l = 0 -> forall j, l !! j <> Some Waiting.
Proof.
  intros H j Hj. by pose proof (cnt_zero waits l j Waiting H Hj).
Qed.

(** pthread_cond_signal with one waiter at most leaves none. *)
Lemma signal_one i chosen l l' : (forall j, j <> i -> l !! j <> Some Waiting) -> cond_signal chosen l = Some l' ->
  (forall j, l' !! j <> Some Waiting) /\ (forall j, j <> i -> l' !! j = l !! j).
Proof.
  intros Ho H. unfold cond_signal in H. destruct (l !! chosen) as [[]|] eqn:E.
  2: { assert (chosen = i) as -> by (destruct (decide (chosen = i)); [done|]; by specialize (Ho _ n)).
       injection H as <-. pose proof (lookup_lt_Some _ _ _ E). split; intros j.
       - destruct (decide (j = i)) as [->|]; [rewrite list_lookup_insert_eq by done; congruence|rewrite list_lookup_insert_ne by done; by apply Ho].
       - intros ?. by rewrite list_lookup_insert_ne. }
  all: destruct (cnt waits l =? 0) eqn:F; [|done]; bprop; injection H as <-; (split; [by apply no_waiting|done]).
Qed.

Lemma mmap_awake_step i s e s' : awake i s -> 0 <= sem_count (sem s) -> sem_count (sem s) + b2z (posts e) < 2 ^ 32 -> waits_of i e = true ->
  exec s e = Some s' -> awake i s'.
Proof.
  intros (Hm & Ho & Hi) H0 Hc Hw H. split; [apply (mmap_count s e); try done; destruct (posts e); cbn in Hc; lia|].
  assert (Hone : forall j, ths s !! j = Some Waiting \/ ths s !! j = Some Woken -> j = i).
  { intros j Hj. destruct (decide (j = i)); [done|]. destruct (Ho _ n). naive_solver. }
  apply exec_inv in H; [|done]. destruct e as [j|j|j chosen|j].
  1,2: destruct H as [Hj ->]; assert (j = i) as -> by (first [apply Hone; by right | cbn in Hw; by apply Nat.eqb_eq in Hw]);
    pose proof (lookup_lt_Some _ _ _ Hj); unfold waited; destruct (_ =? 0) eqn:E; bprop; cbn;
    (split; [|done || by rewrite list_lookup_insert_eq]); intros k Hk; rewrite list_lookup_insert_ne by done; by apply Ho.
  - destruct H as (Hj & l & Hl & ->). cbn. pose proof (lookup_lt_Some _ _ _ Hj).
    assert (Hr : forall k x, x <> Running -> <[j:=Running]> (ths s) !! k = Some x -> ths s !! k = Some x).
    { intros k x Hx. destruct (decide (j = k)) as [->|]; [rewrite list_lookup_insert_eq by done; naive_solver|by rewrite list_lookup_insert_ne]. }
    destruct (sem_count (sem s) =? 0) eqn:E; bprop.
    + apply (signal_one i) in Hl as [H1 H2]; [|intros k Hk Hx; by apply (proj1 (Ho k Hk)), Hr].
      split; [|intros Hx; by destruct (H1 _ Hx)]. intros k Hk. rewrite H2 by done.
      split; intros Hx; apply Hr in Hx; by destruct (Ho k Hk).
    + injection Hl as <-. split; [|intros Hx; apply Hr in Hx; [|done]; by specialize (Hi Hx)].
      intros k Hk. split; intros Hx; apply Hr in Hx; by destruct (Ho k Hk).
  - destruct H as (Hj & ->). assert (j = i) as -> by (apply Hone; auto). pose proof (lookup_lt_Some _ _ _ Hj). cbn. split.
    + intros k Hk. rewrite list_lookup_insert_ne by done. by apply Ho.
    + by rewrite list_lookup_insert_eq.
Qed.

Lemma awake_run i es : forall s s', awake i s -> 0 <= sem_count (sem s) -> sem_count (sem s) + cnt posts es < 2 ^ 32 ->
  forallb (waits_of i) es = true -> run s es = Some s' -> awake i s'.
Proof.
  induction es as [|e es IH]; intros s s' Ha H0 Hc Hw H; cbn in H; [by injection H as <-|].
  cbn in Hw. bprop. rewrite cnt_cons in Hc. pose proof (cnt_nonneg posts es).
  destruct (exec s e) as [s1|] eqn:E; [|done]. cbn in H. pose proof (proj1 Ha) as Hm.
  destruct (mmap_count s e s1 Hm) as [_ G]; [destruct (posts e); cbn in Hc; lia|done|].
  assert (Hp : b2z (takes s e) <= sem_count (sem s)) by (destruct e; cbn; try destruct (_ =? 0) eqn:F; bprop; cbn; lia).
  assert (0 <= b2z (takes s e) <= 1 /\ 0 <= b2z (posts e) <= 1) by (destruct (takes s e), (posts e); cbn; lia).
  rewrite wrap_small in G by lia. apply (IH s1); try done; try lia.
  apply (mmap_awake_step i s e); try done; lia.
Qed.

Lemma awake_start i v n : awake i (start v n).
Proof.
  assert (H : forall j x, replicate n Running !! j = Some x -> x = Running) by (intros j x Hx; by apply lookup_replicate in Hx as [-> _]).
  split; [done|]. cbn. split; [intros j _; split|]; intros Hx; by apply H in Hx.
Qed.

(** Two threads wait and two posts follow: one thread is woken and takes one
    unit, the other sleeps on although the count is 1. *)
Definition lost : list event := [EWait 0; EWait 1; EPost 2 0; EPost 2 0; EResume 0].
Definition is_post (e : event) : Prop := exists i chosen, e = EPost i chosen.

(** Posts to a positive count wake nobody. *)
Lemma posts_no_wake j es : forall s s', sem_magic (sem s) = SEM_MAGIC -> 0 < sem_count (sem s) ->
  sem_count (sem s) + cnt posts es < 2 ^ 32 -> Forall is_post es -> ths s !! j = Some Waiting ->
  run s es = Some s' -> ths s' !! j = Some Waiting.
Proof.
  induction es as [|e es IH]; intros s s' Hm H0 Hc Hp Hj H; cbn in H; [by injection H as <-|].
  apply Forall_cons in Hp as [(i & chosen & ->) Hp]. rewrite cnt_cons in Hc. cbn [posts b2z] in Hc.
  destruct (exec s _) as [s1|] eqn:E; [|done]. cbn in H. apply exec_inv in E; [|done].
  destruct E as (Hi & l & Hl & ->). rewrite (proj2 (Z.eqb_neq _ _)) in Hl by lia. injection Hl as <-.
  pose proof (cnt_nonneg posts es).
  apply IH in H; cbn; rewrite ?wrap_small by lia; try done; try lia.
  rewrite list_lookup_insert_ne; [done|]. intros ->. congruence.
Qed.

End SemMmap.

(** ** my_pxsem_fifo: the count is the number of bytes in the FIFO *)

Module SemFifo.

Definition SEM_MAGIC : Z := 0x89674523.

(** The handle, and the FIFO in the kernel: bytes in it and its capacity. *)
Record handle := Handle { sem_fd : Z * Z; sem_magic : Z }.
Record fifo := Fifo { nbytes : Z; capacity : Z }.

Definition bad_magic (h : handle) : bool := negb (sem_magic h =? SEM_MAGIC).

(** read(2) of one byte from the blocking end, write(2) of one byte to the
    nonblocking end, and close(2): what the kernel does with the FIFO. *)
Definition k_read (f : fifo) (intr : bool) : fifo * outcome Z :=
  if nbytes f =? 0 then (f, if intr then Fail EINTR else Blocked) else (Fifo (nbytes f - 1) (capacity f), Ret 1).
Definition k_write (f : fifo) : fifo * outcome Z :=
  if nbytes f =? capacity f then (f, Fail EAGAIN) else (Fifo (nbytes f + 1) (capacity f), Ret 1).

(** [intr]: a signal handler interrupts the call while it waits. *)
Definition mysem_wait (h : handle) (f : fifo) (intr : bool) : fifo * outcome unit :=
  if bad_magic h then (f, Fail EINVAL)
  else match k_read f intr with
  | (f', Ret n) => (f', if n =? 1 then Ret tt else Fail (Eother 0))
  | (f', Fail e) => (f', Fail e)
  | (f', _) => (f', Blocked)
  end.

Definition mysem_post (h : handle) (f : fifo) : fifo * outcome unit :=
  if bad_magic h then (f, Fail EINVAL)
  else match k_write f with
  | (f', Ret n) => (f', if n =? 1 then Ret tt else Fail (Eother 0))
  | (f', Fail e) => (f', Fail e)
  | (f', _) => (f', Blocked)
  end.

(** mysem_close: the results of the two close(2), the second of which is not made
    when the first fails; the descriptors closed. *)
Definition mysem_close (h : handle) (c0 c1 : result) : handle * outcome unit * list Z :=
  if bad_magic h then (h, Fail EINVAL, [])
  else
    let h' := Handle (sem_fd h) 0 in
    match c0 with
    | Some e => (h', Fail e, [])
    | None => match c1 with
              | Some e => (h', Fail e, [(sem_fd h).1])
              | None => (h', Ret tt, [(sem_fd h).1; (sem_fd h).2])
              end
    end.

(** A handle together with its FIFO. *)
Record psem := PSem { ph : handle; pf : fifo }.

Definition f_ok (s : psem) : Prop :=
  sem_magic (ph s) = SEM_MAGIC /\ 0 <= nbytes (pf s) <= capacity (pf s).
Definition f_of (s : psem) (x : fifo * outcome unit) : option psem :=
  match x with (f, Ret _) => Some (PSem (ph s) f) | _ => None end.

Lemma fifo_magic_ok h : sem_magic h = SEM_MAGIC -> bad_magic h = false.
Proof. unfold bad_magic. by intros ->. Qed.

Definition fifo_call (h : handle) (f : fifo) (c : call) : fifo * outcome Z :=
  let ended (x : fifo * outcome unit) := (x.1, ret0 x.2) in
  match c with
  | Wait intr => ended (mysem_wait h f intr)
  | Post => ended (mysem_post h f)
  | _ => (f, Abort)
  end.
(** There is no sem_trywait.c and no sem_getvalue.c. *)
Definition fifo_has (c : call) : bool := match c with Wait _ | Post => true | _ => false end.

Lemma fifo_call_spec h cap v c : sem_magic h = SEM_MAGIC -> 0 <= v <= cap -> fifo_has c = true ->
  fifo_call h (Fifo v cap) c = (Fifo (counter cap EAGAIN v c).1 cap, (counter cap EAGAIN v c).2).
Proof.
  intros Hm Hv Hc. destruct c as [intr| | |]; try done; cbn; unfold mysem_wait, mysem_post, k_read, k_write;
    rewrite fifo_magic_ok by done; cbn; destruct (_ =? _); [by destruct intr|done..].
Qed.

#[global] Program Instance fifo_semaphore : Semaphore psem := {|
  value s := nbytes (pf s); sem_ok := f_ok; limit s := capacity (pf s);
  down s := f_of s (mysem_wait (ph s) (pf s) false);
  up s := f_of s (mysem_post (ph s) (pf s)) |}.
Next Obligation. intros s [_ H]. exact H. Qed.
Next Obligation.
  intros s [Hm Hr]. cbn beta. unfold mysem_wait, k_read. rewrite fifo_magic_ok by done.
  destruct (_ =? 0) eqn:E; bprop; cbn; split; done || lia.
Qed.
Next Obligation.
  intros s s' [Hm Hr]. cbn beta. unfold mysem_wait, k_read. rewrite fifo_magic_ok by done.
  destruct (_ =? 0) eqn:E; bprop; cbn; [done|]. intros [= <-]. repeat split; simpl; try done; lia.
Qed.
Next Obligation.
  intros s [Hm Hr]. cbn beta. unfold mysem_post, k_write. rewrite fifo_magic_ok by done.
  intros Hl. rewrite (proj2 (Z.eqb_neq _ _)) by lia. eexists. repeat split; simpl; try done; lia.
Qed.

End SemFifo.

(** ** my_pxsem_svsem: a System V semaphore *)

Module SemSv.

Definition SEM_MAGIC : Z := 0x45678923.
Definition SEMVMX : Z := 32767.
Definition IPC_NOWAIT : Z := 0x800.

Record handle := Handle { sem_semid : Z; sem_magic : Z }.
Definition bad_magic (h : handle) : bool := negb (sem_magic h =? SEM_MAGIC).

(** semop(2) with one operation on the value [v]; [intr] as above. *)
Definition k_semop (v op flg : Z) (intr : bool) : Z * outcome unit :=
  if 0 <? op then if v + op >? SEMVMX then (v, Fail ERANGE) else (v + op, Ret tt)
  else if v + op <? 0 then
    if negb (Z.land flg IPC_NOWAIT =? 0) then (v, Fail EAGAIN)
    else if intr then (v, Fail EINTR) else (v, Blocked)
  else (v + op, Ret tt).

Definition mysem_wait (h : handle) (v : Z) (intr : bool) : Z * outcome unit :=
  if bad_magic h then (v, Fail EINVAL) else k_semop v (-1) 0 intr.
Definition mysem_trywait (h : handle) (v : Z) : Z * outcome unit :=
  if bad_magic h then (v, Fail EINVAL) else k_semop v (-1) IPC_NOWAIT false.
Definition mysem_post (h : handle) (v : Z) : Z * outcome unit :=
  if bad_magic h then (v, Fail EINVAL) else k_semop v 1 0 false.
Definition mysem_getvalue (h : handle) (got : Z + errno) : outcome Z :=
  if bad_magic h then Fail EINVAL
  else match got with inl v => Ret v | inr e => Fail e end.
Definition mysem_close (h : handle) : handle * outcome unit :=
  if bad_magic h then (h, Fail EINVAL) else (Handle (sem_semid h) 0, Ret tt).

Record vsem := VSem { vh : handle; vv : Z }.
Definition v_ok (s : vsem) : Prop := sem_magic (vh s) = SEM_MAGIC /\ 0 <= vv s <= SEMVMX.
Definition v_of (s : vsem) (x : Z * outcome unit) : option vsem :=
  match x with (v, Ret _) => Some (VSem (vh s) v) | _ => None end.

Lemma sv_magic_ok h : sem_magic h = SEM_MAGIC -> bad_magic h = false.
Proof. unfold bad_magic. by intros ->. Qed.

Definition sv_call (h : handle) (v : Z) (c : call) : Z * outcome Z :=
  let ended (x : Z * outcome unit) := (x.1, ret0 x.2) in
  match c with
  | Wait intr => ended (mysem_wait h v intr)
  | TryWait => ended (mysem_trywait h v)
  | Post => ended (mysem_post h v)
  | GetValue => (v, mysem_getvalue h (inl v))
  end.

(** semop(2) on the value: -1 needs one unit, 1 needs room. *)
Lemma semop_spec v op flg intr : 0 <= v <= SEMVMX -> op = 1 \/ op = -1 ->
  k_semop v op flg intr =
    if 0 <? op then if v =? SEMVMX then (v, Fail ERANGE) else (v + 1, Ret tt)
    else if v =? 0 then (v, if negb (Z.land flg IPC_NOWAIT =? 0) then Fail EAGAIN else if intr then Fail EINTR else Blocked)
    else (v - 1, Ret tt).
Proof.
  intros Hr [-> | ->]; unfold k_semop; cbn [Z.ltb Z.compare].
  - rewrite Z.gtb_ltb. destruct (v =? SEMVMX) eqn:E; bprop; [by rewrite (proj2 (Z.ltb_lt _ _)) by lia|].
    by rewrite (proj2 (Z.ltb_ge _ _)) by lia.
  - destruct (v =? 0) eqn:E; bprop; [rewrite (proj2 (Z.ltb_lt _ _)) by lia; by repeat case_match|].
    by rewrite (proj2 (Z.ltb_ge _ _)) by lia.
Qed.

Lemma sv_call_spec h v c : sem_magic h = SEM_MAGIC -> 0 <= v <= SEMVMX ->
  sv_call h v c = counter SEMVMX ERANGE v c.
Proof.
  intros Hm Hv. destruct c as [intr| | |]; cbn; unfold mysem_wait, mysem_trywait, mysem_post, mysem_getvalue;
    rewrite sv_magic_ok by done; rewrite ?semop_spec by auto; try done; cbn -[SEMVMX];
    destruct (_ =? _); [by destruct intr|done..].
Qed.

#[global] Program Instance sv_semaphore : Semaphore vsem := {|
  value := vv; sem_ok := v_ok; limit := fun _ => SEMVMX;
  down s := v_of s (mysem_wait (vh s) (vv s) false);
  up s := v_of s (mysem_post (vh s) (vv s)) |}.
Next Obligation. intros s [_ H]. exact H. Qed.
Next Obligation.
  intros s [Hm Hr]. cbn beta. unfold mysem_wait. rewrite sv_magic_ok, semop_spec by auto. cbn -[SEMVMX].
  destruct (_ =? 0) eqn:E; bprop; cbn; split; done || lia.
Qed.
Next Obligation.
  intros s s' [Hm Hr]. cbn beta. unfold mysem_wait. rewrite sv_magic_ok, semop_spec by auto. cbn -[SEMVMX].
  destruct (_ =? 0) eqn:E; bprop; cbn; [done|]. intros [= <-]. repeat split; simpl; try done; lia.
Qed.
Next Obligation.
  intros s [Hm Hr]. cbn beta. unfold mysem_post. rewrite sv_magic_ok, semop_spec by auto. cbn -[SEMVMX].
  intros Hl. rewrite (proj2 (Z.eqb_neq _ _)) by lia. eexists. repeat split; simpl; try done; lia.
Qed.

End SemSv.

(** ** The properties *)

(** C40: the three codes against an abstract counter.  Every sequence of calls on
    my_pxsem_svsem (limit 32767) and of waits and posts on my_pxsem_fifo (limit:
    the capacity of the FIFO) gives the counter's values and results, whose value
    is the initial one plus the posts minus the waits that succeeded, between 0
    and the limit.  my_pxsem_mmap agrees with the counter in mysem_wait and
    mysem_trywait, but its post has no limit: it always succeeds and the count
    wraps modulo 2^32; and mysem_getvalue stores it as a signed [int].  Among
    threads its count is, modulo 2^32, the initial one plus the posts minus the
    waits that ended; with one waiting thread and no wrap-around a thread sleeps
    only while the count is 0; with two a wake-up can be lost: a thread sleeps
    although the count is 1, and no number of further posts wakes it. *)
Theorem semaphore_counts :
  (forall h v cs, SemSv.sem_magic h = SemSv.SEM_MAGIC -> 0 <= v <= SemSv.SEMVMX ->
     calls (SemSv.sv_call h) v cs = calls (counter SemSv.SEMVMX ERANGE) v cs) /\
  (forall h v cap cs, SemFifo.sem_magic h = SemFifo.SEM_MAGIC -> 0 <= v <= cap ->
     forallb SemFifo.fifo_has cs = true ->
     calls (SemFifo.fifo_call h) (SemFifo.Fifo v cap) cs =
       (SemFifo.Fifo (calls (counter cap EAGAIN) v cs).1 cap, (calls (counter cap EAGAIN) v cs).2)) /\
  (forall lim full v cs, 0 <= v <= lim ->
     let '(v', rs) := calls (counter lim full) v cs in
     v' = v + cnt gave (zip cs rs) - cnt took (zip cs rs) /\ 0 <= v' <= lim) /\
  (forall v c, 0 <= v < 2 ^ 32 -> c <> Wait true ->
     SemMmap.mmap_call (SemMmap.Sem v SemMmap.SEM_MAGIC) c =
       match c with
       | Post => (SemMmap.Sem (u32 (v + 1)) SemMmap.SEM_MAGIC, Ret 0)
       | GetValue => (SemMmap.Sem v SemMmap.SEM_MAGIC, Ret (s32 v))
       | _ => let '(v', r) := counter v EAGAIN v c in (SemMmap.Sem v' SemMmap.SEM_MAGIC, r)
       end) /\
  (forall v n es s, 0 <= v < 2 ^ 32 -> SemMmap.run (SemMmap.start v n) es = Some s ->
     SemMmap.sem_count (SemMmap.sem s) = u32 (v + cnt SemMmap.posts es - SemMmap.taken (SemMmap.start v n) es) /\
     (forall i j, forallb (SemMmap.waits_of i) es = true -> v + cnt SemMmap.posts es < 2 ^ 32 ->
        SemMmap.ths s !! j = Some SemMmap.Waiting -> SemMmap.sem_count (SemMmap.sem s) = 0)) /\
  (exists s, SemMmap.run (SemMmap.start 0 3) SemMmap.lost = Some s /\ SemMmap.sem_count (SemMmap.sem s) = 1 /\
     SemMmap.ths s !! 1%nat = Some SemMmap.Waiting /\
     forall es s', Forall SemMmap.is_post es -> cnt SemMmap.posts es < 2 ^ 32 - 1 ->
       SemMmap.run s es = Some s' -> SemMmap.ths s' !! 1%nat = Some SemMmap.Waiting).
Proof.
  split; [|split; [|split; [|split; [|split]]]].
  - intros h v cs Hm Hv. etransitivity; [|symmetry; apply surjective_pairing].
    apply (calls_ext (SemSv.sv_call h) id SemSv.SEMVMX ERANGE (fun _ => true)); [|done|by induction cs].
    intros u c Hu _. unfold id. rewrite SemSv.sv_call_spec by done. apply surjective_pairing.
  - intros h v cap cs Hm Hv Hc. apply (calls_ext (SemFifo.fifo_call h) (fun u => SemFifo.Fifo u cap) cap EAGAIN SemFifo.fifo_has); try done.
    intros u c Hu. by apply SemFifo.fifo_call_spec.
  - intros lim full v cs. apply counter_counts.
  - intros v c. apply SemMmap.mmap_call_spec.
  - intros v n es s Hv Hr. split; [by apply SemMmap.mmap_run_count in Hr|]. intros i j Hw Hc Hj.
    destruct (SemMmap.awake_run i es _ _ (SemMmap.awake_start i v n) (proj1 Hv) Hc Hw Hr) as (_ & Ho & Hi).
    destruct (decide (j = i)) as [->|Hn]; [by apply Hi|]. by destruct (Ho j Hn).
  - eexists. split; [vm_compute; reflexivity|]. split; [done|]. split; [done|].
    intros es s' Hp Hc. apply SemMmap.posts_no_wake; try done. cbn. lia.
Qed.

(** A semaphore that starts at 1: wait, post, post, wait, getvalue. *)
Lemma semaphore_counts_witness :
  calls (SemSv.sv_call (SemSv.Handle 7 SemSv.SEM_MAGIC)) 1 [Wait false; Post; Post; Wait false; Wait true; TryWait; GetValue] =
    (0, [Ret 0; Ret 0; Ret 0; Ret 0; Ret 0; Fail EAGAIN; Ret 0]) /\
  SemMmap.mmap_call (SemMmap.Sem 4294967295 SemMmap.SEM_MAGIC) Post = (SemMmap.Sem 0 SemMmap.SEM_MAGIC, Ret 0).
Proof.
  destruct semaphore_counts as (Hs & _ & _ & Hm & _). split.
  - rewrite Hs by (done || (unfold SemSv.SEMVMX; lia)). reflexivity.
  - rewrite Hm by (done || lia). reflexivity.
Defined.
