(* ===== verification/SemOpen.v ===== *)
(** * Opening and unlinking semaphores

    Model of sem_open.c and sem_unlink.c of src/IPC/unpv22e/my_pxsem_mmap,
    my_pxsem_fifo and my_pxsem_svsem over the script of kernel answers of Sys.v,
    with every error exit, and of what the three functions leave behind. *)

From S2P Require Import Prelude Sys PxSem.

(** The tactics that run a function symbolically, for every answer. *)
Ltac call_step :=
  match goal with
  | |- wp (_ ≫= _) _ _ => apply wp_bind
  | |- wp (sys_open _ _) _ _ => apply wp_open; intros
  | |- wp (sys_mmap _ _) _ _ => apply wp_mmap; intros
  | |- wp sys_malloc _ _ => apply wp_malloc; intros
  | |- wp (sys_call _) _ _ => apply wp_call; intros
  | |- wp (ask _) _ _ => apply wp_ask; intros
  | |- wp (sys_close _) _ _ => apply wp_tell
  | |- wp (sys_munmap _) _ _ => apply wp_tell
  | |- wp sys_free _ _ => apply wp_tell
  | |- wp (tell _ _) _ _ => apply wp_tell
  | |- wp (when _ _) _ _ => apply wp_when; intros
  | |- wp (mret _) _ _ => apply wp_ret
  | |- wp (mfail_ _) _ _ => apply wp_fail
  | |- wp mblocked _ _ => apply wp_blocked
  | |- wp (match ?x with _ => _ end) _ _ => destruct x eqn:?
  end; cbn [wp_then]; try exact I.

(** ** my_pxsem_mmap *)

Module MmapOpen.
Import SemMmap.

Definition MAX_TRIES : nat := 10.

Inductive stat_result := SReady | SErr (e : errno) | STimeout.

Section Open.
(** [SEMSZ] is [sizeof(mysem_t)]. *)
Context (SEMSZ oflag mode0 value : Z).

Definition mode : Z := without mode0 S_IXUSR.

Fixpoint stat_loop (tries : nat) : M stat_result :=
  match tries with
  | O => mret STimeout
  | S tries' =>
      a ← sys_call CStat;
      match a with
      | inr e => mret (SErr e)
      | inl m => if has m S_IXUSR then _ ← tell (CSleep 1) id; stat_loop tries' else mret SReady
      end
  end.

(** The label [err]; [mapped] says that [sem != MAP_FAILED]. *)
Definition err_exit (created mapped : bool) (fd : Z) (e : errno) : M mysem :=
  _ ← when created (tell CUnlink id);
  _ ← when mapped (sys_munmap SEMSZ);
  _ ← sys_close fd;
  mfail_ e.

(** From the label [exists]; [again] is the jump back with the current [sem]. *)
Definition open_existing (again : bool -> M mysem) (mapped : bool) : M mysem :=
  r ← sys_open O_RDWR 0;
  match r with
  | inr e => if bool_decide (e = ENOENT) && has oflag O_CREAT then again mapped
             else err_exit false mapped (-1) e
  | inl fd =>
      m ← sys_mmap SEMSZ fd;
      match m with
      | inr e => err_exit false false fd e
      | inl _ =>
          st ← stat_loop MAX_TRIES;
          match st with
          | SErr e => if bool_decide (e = ENOENT) && has oflag O_CREAT then _ ← sys_close fd; again true
                      else err_exit false true fd e
          | STimeout => err_exit false true fd ETIMEDOUT
          | SReady => _ ← sys_close fd; mret (Sem 0 SEM_MAGIC)
          end
      end
  end.

Definition pthread_init : M result :=
  a ← sys_call CMutexattrInit;
  match a with inr e => mret (Some e) | inl _ =>
    b ← sys_call CMutexInit;
    match b with inr e => mret (Some e) | inl _ =>
      c ← sys_call CCondattrInit;
      match c with inr e => mret (Some e) | inl _ =>
        d ← sys_call CCondInit;
        match d with inr e => mret (Some e) | inl _ => mret None end
      end
    end
  end.

(** This process created the file; a short write() leaves [errno] as it was, here
    [Eother 0]. *)
Definition initialise (mapped : bool) (fd : Z) : M mysem :=
  a ← sys_call (CWrite fd SEMSZ);
  match a with
  | inr e => err_exit true mapped fd e
  | inl n =>
      if negb (n =? SEMSZ) then err_exit true mapped fd (Eother 0) else
      m ← sys_mmap SEMSZ fd;
      match m with
      | inr e => err_exit true false fd e
      | inl _ =>
          p ← pthread_init;
          match p with
          | Some i => err_exit true true fd i
          | None =>
              mx ← sys_call CSysconf;
              if value >? match mx with inl v => v | inr _ => -1 end then err_exit true true fd EINVAL else
              c ← sys_call (CFchmod fd mode);
              match c with
              | inr e => err_exit true true fd e
              | inl _ => _ ← sys_close fd; mret (Sem value SEM_MAGIC)
              end
          end
      end
  end.

Fixpoint again (fuel : nat) (mapped : bool) : M mysem :=
  match fuel with
  | O => mblocked
  | S fuel' =>
      if has oflag O_CREAT then
        r ← sys_open (Z.lor (Z.lor oflag O_EXCL) O_RDWR) (Z.lor mode S_IXUSR);
        match r with
        | inr e => if bool_decide (e = EEXIST) && negb (has oflag O_EXCL)
                   then open_existing (again fuel') mapped else mfail_ e
        | inl fd => initialise mapped fd
        end
      else open_existing (again fuel') mapped
  end.

Definition mysem_open : M mysem := fun s => again (S (length (answers s))) false s.
End Open.

Definition mysem_unlink : M unit :=
  a ← sys_call CUnlink;
  match a with inr e => mfail_ e | inl _ => mret tt end.

#[global] Arguments err_exit : simpl never.
#[global] Arguments stat_loop : simpl never.

(** No descriptor stays open and nothing is closed or unmapped twice; mappings may
    be left over. *)
Definition tidy (o : outcome mysem) (r : res) : Prop :=
  match o with
  | Ret s => fds r = [] /\ faults r = [] /\ heap r = 0%nat /\ sem_magic s = SEM_MAGIC /\ maps r <> []
  | Fail _ => fds r = [] /\ faults r = [] /\ heap r = 0%nat
  | Blocked => True
  | _ => False
  end.

Definition holding (SEMSZ : Z) (mapped : bool) (r : res) : Prop :=
  fds r = [] /\ faults r = [] /\ heap r = 0%nat /\ (mapped = true -> exists l, maps r = SEMSZ :: l).

Lemma mmap_wp_stat_loop n Q r :
  (forall st, Q (Ret st) r) -> Q Blocked r -> wp (stat_loop n) Q r.
Proof.
  intros H1 H2. induction n as [|n IH]; [by apply wp_ret|]. unfold stat_loop; fold stat_loop.
  call_step. call_step; [| |done].
  - call_step; [|by call_step]. call_step. call_step. done.
  - by call_step.
Qed.

Lemma tidy_err SEMSZ created mapped fd e r :
  faults r = [] -> heap r = 0%nat -> (mapped = true -> exists l, maps r = SEMSZ :: l) ->
  fds r = [fd] \/ (fds r = [] /\ fd = -1) ->
  wp (err_exit SEMSZ created mapped fd e) tidy r.
Proof.
  intros Hf Hh Hm Hfd. unfold err_exit. destruct r as [rf rm rh rfl]. cbn in *. subst.
  assert (Hm' : mapped = false \/ exists l, rm = SEMSZ :: l) by (destruct mapped; auto).
  clear Hm. destruct Hm' as [->|[l ->]].
  - destruct created; cbn [when]; repeat call_step; cbn;
      destruct Hfd as [->|[-> ->]]; cbn; rewrite ?Z.eqb_refl; done.
  - destruct created, mapped; cbn [when]; repeat call_step; cbn; rewrite ?Z.eqb_refl; cbn;
      destruct Hfd as [->|[-> ->]]; cbn; rewrite ?Z.eqb_refl; done.
Qed.

Lemma existing_tidy SEMSZ oflag ag mapped r :
  (forall b r', holding SEMSZ b r' -> wp (ag b) tidy r') -> holding SEMSZ mapped r ->
  wp (open_existing SEMSZ oflag ag mapped) tidy r.
Proof.
  intros Ha (Hf & Hft & Hh & Hm). unfold open_existing. destruct r as [rf rm rh rfl]. cbn in *. subst.
  call_step. call_step.
  - call_step. call_step.
    + apply wp_bind, mmap_wp_stat_loop; [|done]. intros [|e|]; cbn [wp_then].
      * call_step. call_step. cbn. rewrite Z.eqb_refl. call_step. cbn. done.
      * destruct (_ && _); [|apply tidy_err; cbn; eauto].
        call_step. call_step. cbn. rewrite Z.eqb_refl. apply Ha.
        repeat split; cbn; eauto.
      * apply tidy_err; cbn; eauto.
    + apply tidy_err; cbn; eauto. done.
  - destruct (_ && _); [by apply Ha|]. apply tidy_err; cbn; eauto.
Qed.

Lemma mmap_wp_pthread_init Q r : (forall p, Q (Ret p) r) -> Q Blocked r -> wp pthread_init Q r.
Proof. intros H1 H2. unfold pthread_init. repeat (call_step; try done). Qed.

Lemma initialise_tidy SEMSZ mode0 value mapped fd r :
  fds r = [fd] -> faults r = [] -> heap r = 0%nat -> (mapped = true -> exists l, maps r = SEMSZ :: l) ->
  wp (initialise SEMSZ mode0 value mapped fd) tidy r.
Proof.
  intros Hf Hft Hh Hm. destruct r as [rf rm rh rfl]. cbn in *. subst. unfold initialise.
  call_step. call_step; [|by apply tidy_err; cbn; auto].
  destruct (negb _); [by apply tidy_err; cbn; auto|].
  call_step. call_step; [|by apply tidy_err; cbn; auto].
  call_step. apply mmap_wp_pthread_init; [|done]. intros [i|]; cbn [wp_then]; [by apply tidy_err; cbn; eauto|].
  call_step. call_step; (destruct (_ >? _); [by apply tidy_err; cbn; eauto|]);
    call_step; (call_step; [|by apply tidy_err; cbn; eauto]);
    call_step; call_step; cbn; rewrite Z.eqb_refl; call_step; cbn; done.
Qed.

Lemma again_tidy SEMSZ oflag mode0 value fuel : forall mapped r,
  holding SEMSZ mapped r -> wp (again SEMSZ oflag mode0 value fuel mapped) tidy r.
Proof.
  induction fuel as [|fuel IH]; intros mapped r Hr; cbn [again]; [by call_step|].
  destruct (has oflag O_CREAT); [|by apply existing_tidy].
  call_step. call_step.
  - destruct Hr as (Hf & Hft & Hh & Hm). apply initialise_tidy; cbn; auto. by rewrite Hf.
  - destruct (_ && _); [by apply existing_tidy|]. call_step. cbn. unfold holding in Hr. tauto.
Qed.


(** A create that waits for an initialisation which is abandoned: the file vanishes
    after the mapping was made, and the second attempt fails. *)
Definition abandoned : list ans := [Err EEXIST; Ok 3; Ok 0x7f00; Err ENOENT; Err ENOSPC].

(** Mysem_open over a mapped file, whatever the kernel answers: no descriptor
    stays open, nothing is closed or unmapped twice, and a success returns a mapped
    semaphore with the magic number; but it does not unmap when it starts again
    after the file vanished, so that a failed open can leave a mapping behind. *)
Theorem sem_open_mmap_tidy SEMSZ oflag mode value :
  (forall answers o s,
     mysem_open SEMSZ oflag mode value (Sys answers [] no_res) = (o, s) -> tidy o (held s)) /\
  (exists s, mysem_open SEMSZ O_CREAT mode value (Sys abandoned [] no_res) = (Fail ENOSPC, s) /\
     maps (held s) = [SEMSZ]).
Proof.
  split.
  - intros answers o s H.
    pose proof (again_tidy SEMSZ oflag mode value (S (length answers)) false no_res) as Hs.
    assert (Hh : holding SEMSZ false no_res) by (repeat split; done).
    specialize (Hs Hh answers []). unfold mysem_open in H. cbn [Sys.answers] in H. by rewrite H in Hs.
  - eexists. split; reflexivity.
Qed.

End MmapOpen.

(** ** my_pxsem_fifo *)

Module FifoOpen.
Import SemFifo.

Section Open.
Context (oflag0 mode value : Z).

(** The writes of the initial value, one byte each: an error number if one fails. *)
Fixpoint put_value (fd : Z) (n : nat) : M result :=
  match n with
  | O => mret None
  | S n' =>
      a ← sys_call (CWrite fd 1);
      match a with
      | inr e => mret (Some e)
      | inl w => if w =? 1 then put_value fd n' else mret (Some (Eother 0))
      end
  end.

(** The label [error]; [oflag] as it is by then, and the two descriptors. *)
Definition err_exit (oflag fd0 fd1 : Z) (e : errno) : M handle :=
  _ ← when (has oflag O_CREAT) (tell CUnlink id);
  _ ← sys_close fd0;
  _ ← sys_close fd1;
  _ ← sys_free;
  mfail_ e.

(** After mkfifo(). *)
Definition open_fifo (oflag : Z) : M handle :=
  ok ← sys_malloc;
  if negb ok then mfail_ ENOMEM else
  a ← sys_open (Z.lor O_RDONLY O_NONBLOCK) 0;
  match a with inr e => err_exit oflag (-1) (-1) e | inl fd0 =>
  b ← sys_open (Z.lor O_WRONLY O_NONBLOCK) 0;
  match b with inr e => err_exit oflag fd0 (-1) e | inl fd1 =>
  f ← sys_call (CGetfl fd0);
  match f with inr e => err_exit oflag fd0 fd1 e | inl flags =>
  g ← sys_call (CSetfl fd0 (without flags O_NONBLOCK));
  match g with inr e => err_exit oflag fd0 fd1 e | inl _ =>
  i ← (if has oflag O_CREAT then put_value fd1 (Z.to_nat value) else mret None);
  match i with
  | Some e => err_exit oflag fd0 fd1 e
  | None => mret (Handle (fd0, fd1) SEM_MAGIC)
  end end end end end.

Definition mysem_open : M handle :=
  if has oflag0 O_CREAT then
    a ← sys_call (CMkfifo mode);
    match a with
    | inl _ => open_fifo oflag0
    | inr e => if bool_decide (e = EEXIST) && negb (has oflag0 O_EXCL)
               then open_fifo (without oflag0 O_CREAT) else mfail_ e
    end
  else open_fifo oflag0.
End Open.

Definition mysem_unlink : M unit :=
  a ← sys_call CUnlink;
  match a with inr e => mfail_ e | inl _ => mret tt end.

#[global] Arguments err_exit : simpl never.
#[global] Arguments put_value : simpl never.

Definition settled (o : outcome handle) (r : res) : Prop :=
  match o with
  | Ret h => fds r = [(sem_fd h).2; (sem_fd h).1] /\ heap r = 1%nat /\ faults r = [] /\
             sem_magic h = SEM_MAGIC
  | Fail _ => fds r = [] /\ heap r = 0%nat /\ faults r = []
  | Blocked => True
  | _ => False
  end.

Lemma wp_put_value fd n Q r : (forall i, Q (Ret i) r) -> Q Blocked r -> wp (put_value fd n) Q r.
Proof.
  intros H1 H2. induction n as [|n IH]; [by apply wp_ret|]. unfold put_value; fold put_value.
  call_step. call_step; [|by call_step|done]. destruct (v =? 1); [done|by call_step].
Qed.

(** The descriptors are the ones the handle has so far. *)
Lemma err_exit_settled oflag fd0 fd1 e r :
  heap r = 1%nat -> faults r = [] ->
  (fds r = [fd1; fd0] \/ fds r = [fd0] /\ fd1 = -1 \/ fds r = [] /\ fd0 = -1 /\ fd1 = -1) ->
  wp (err_exit oflag fd0 fd1 e) settled r.
Proof.
  intros Hh Hf Hd. destruct r as [rf rm rh rfl]. cbn in *. subst. unfold err_exit.
  destruct (has oflag O_CREAT); cbn [when]; repeat call_step;
    (destruct Hd as [->|[[-> ->]|(-> & -> & ->)]]; cbn; rewrite ?Z.eqb_refl; cbn;
     [destruct (fd0 =? fd1) eqn:E; bprop; subst; cbn; rewrite ?Z.eqb_refl; done|done|done]).
Qed.

Lemma open_fifo_settled value oflag : wp (open_fifo value oflag) settled no_res.
Proof.
  unfold open_fifo. call_step. call_step; [|by call_step]. cbn [negb].
  call_step. call_step; [|apply err_exit_settled; auto].
  call_step. call_step; [|apply err_exit_settled; cbn; auto].
  call_step. call_step; [|apply err_exit_settled; cbn; auto].
  call_step. call_step; [|apply err_exit_settled; cbn; auto].
  assert (Hk : forall (i : option errno), wp match i with
    | Some e => err_exit oflag fd fd0 e | None => mret (Handle (fd, fd0) SEM_MAGIC) end settled
      (set_fds (set_fds (set_heap no_res 1) [fd]) [fd0; fd])).
  { intros [e|]; [apply err_exit_settled; cbn; auto|by apply wp_ret]. }
  apply wp_bind. destruct (has oflag O_CREAT); [|apply wp_ret; exact (Hk None)].
  apply wp_put_value; [|done]. exact Hk.
Qed.

(** mysem_open over a FIFO, whatever the kernel answers: a success holds the two
    descriptors of the handle and its block, a failure holds nothing. *)
Theorem sem_open_fifo_settled oflag mode value answers o s :
  mysem_open oflag mode value (Sys answers [] no_res) = (o, s) -> settled o (held s).
Proof.
  assert (H : wp (mysem_open oflag mode value) settled no_res).
  { unfold mysem_open. destruct (has oflag O_CREAT); [|apply open_fifo_settled].
    call_step. call_step; [apply open_fifo_settled|].
    destruct (_ && _); [apply open_fifo_settled|by call_step]. }
  intros E. specialize (H answers []). by rewrite E in H.
Qed.

Lemma sem_open_fifo_settled_witness :
  exists s, mysem_open O_CREAT 0x1a4 2 (Sys [Ok 0; Ok 9; Ok 3; Ok 4; Ok 0x800; Ok 0; Ok 1; Err EAGAIN] [] no_res)
            = (Fail EAGAIN, s) /\ settled (Fail EAGAIN) (held s).
Proof.
  eexists. split; [vm_compute; reflexivity|].
  refine (sem_open_fifo_settled O_CREAT 0x1a4 2 [Ok 0; Ok 9; Ok 3; Ok 4; Ok 0x800; Ok 0; Ok 1; Err EAGAIN] _ _ _).
  vm_compute. reflexivity.
Defined.

End FifoOpen.

(** ** my_pxsem_svsem *)

Module SvOpen.
Import SemSv.

Definition MAX_TRIES : nat := 10.
Definition SVSEM_MODE : Z := 0x1a4.
Definition IPC_CREAT : Z := 0x200.
Definition IPC_EXCL : Z := 0x400.

Inductive stat_result := SReady | SErr (e : errno) | STimeout.

(** The wait for [sem_otime] to become nonzero. *)
Fixpoint stat_loop (semid : Z) (tries : nat) : M stat_result :=
  match tries with
  | O => mret STimeout
  | S tries' =>
      a ← sys_call (CSemstat semid);
      match a with
      | inr e => mret (SErr e)
      | inl otime =>
          if negb (otime =? 0) then mret SReady
          else _ ← tell (CSleep 1) id; stat_loop semid tries'
      end
  end.

(** The label [err]. *)
Definition err_exit (semid : Z) (e : errno) : M handle :=
  _ ← when (negb (semid =? -1)) (tell (CRmid semid) id);
  mfail_ e.

(** The label [finish]. *)
Definition finish (semid : Z) : M handle :=
  ok ← sys_malloc;
  if ok : bool then mret (Handle semid SEM_MAGIC) else err_exit semid ENOMEM.

(** The semaphore exists: open it and make certain it has been initialised. *)
Definition open_existing (semflag : Z) : M handle :=
  k ← sys_call CFtok;
  match k with inr e => err_exit (-1) e | inl _ =>
  g ← sys_call (CSemget semflag);
  match g with inr e => err_exit (-1) e | inl semid =>
  st ← stat_loop semid MAX_TRIES;
  match st with
  | SReady => finish semid
  | SErr e => err_exit semid e
  | STimeout => err_exit semid ETIMEDOUT
  end end end.

(** semget() with IPC_EXCL succeeded: initialise. *)
Definition initialise (value semid : Z) : M handle :=
  a ← sys_call (CSetval semid 0);
  match a with inr e => err_exit semid e | inl _ =>
  if value >? SEMVMX then err_exit semid EINVAL else
  b ← sys_call (CSemop semid value);
  match b with inr e => err_exit semid e | inl _ => finish semid end
  end.

Definition mysem_open (oflag mode value : Z) : M handle :=
  if has oflag O_CREAT then
    a ← sys_open oflag mode;
    match a with inr e => mfail_ e | inl fd =>
    _ ← sys_close fd;
    k ← sys_call CFtok;
    match k with inr e => mfail_ e | inl _ =>
    let semflag0 := Z.lor IPC_CREAT (Z.land mode 0x1ff) in
    let semflag := if has oflag O_EXCL then Z.lor semflag0 IPC_EXCL else semflag0 in
    g ← sys_call (CSemget (Z.lor semflag IPC_EXCL));
    match g with
    | inl semid => initialise value semid
    | inr e => if negb (bool_decide (e = EEXIST)) || has semflag IPC_EXCL then err_exit (-1) e
               else open_existing semflag
    end end end
  else open_existing SVSEM_MODE.

Definition mysem_unlink : M unit :=
  k ← sys_call CFtok;
  match k with inr e => mfail_ e | inl _ =>
  u ← sys_call CUnlink;
  match u with inr e => mfail_ e | inl _ =>
  g ← sys_call (CSemget SVSEM_MODE);
  match g with inr e => mfail_ e | inl semid =>
  r ← sys_call (CRmid semid);
  match r with inr e => mfail_ e | inl _ => mret tt end end end end.

(** A failed opener has removed the semaphore, a successful one has a handle. *)
Definition opener (semid : Z) (o : outcome handle) (s : sys) : Prop :=
  match o with
  | Ret h => h = Handle semid SEM_MAGIC
  | Fail _ => head (trace s) = Some (CRmid semid)
  | Blocked => True
  | _ => False
  end.

Definition opens (semid : Z) (m : M handle) : Prop := forall s, let '(o, s') := m s in opener semid o s'.

Lemma opens_err semid e : semid <> -1 -> opens semid (err_exit semid e).
Proof. intros Hs s. unfold err_exit. by destruct (semid =? -1) eqn:E; bprop. Qed.

Lemma opens_finish semid : semid <> -1 -> opens semid (finish semid).
Proof.
  intros Hs s. unfold finish, sys_malloc, sys_call, ask, mbind, M_bind.
  destruct (answers s) as [|[v|v w|e'] l]; cbn; try done. by apply opens_err.
Qed.

Lemma opens_stat semid (k : stat_result -> M handle) : (forall st, opens semid (k st)) ->
  forall n, opens semid (stat_loop semid n ≫= k).
Proof.
  intros Hk n s. revert s. induction n as [|n IH]; intros s; [exact (Hk STimeout s)|].
  unfold mbind, M_bind in *. cbn [stat_loop]. unfold sys_call, ask, mbind, M_bind.
  destruct (answers s) as [|a l]; cbn; [done|].
  destruct (value_of a) as [v|e1]; [|apply Hk].
  destruct (negb (v =? 0)); [apply Hk|]. apply IH.
Qed.

(** Opening an existing System V semaphore: if anything fails after semget() -
    the wait for the initialisation times out, IPC_STAT or malloc() fails - the
    opener removes the semaphore that others created and use; otherwise it returns
    a handle on it. *)
Theorem sv_open_destroys oflag mode value key semid script o s :
  has oflag O_CREAT = false -> semid <> -1 ->
  mysem_open oflag mode value (Sys (Ok key :: Ok semid :: script) [] no_res) = (o, s) ->
  opener semid o s.
Proof.
  intros Hc Hs E. unfold mysem_open in E. rewrite Hc in E.
  pose proof (opens_stat semid (fun st => match st with
    | SReady => finish semid | SErr e => err_exit semid e | STimeout => err_exit semid ETIMEDOUT end)) as H.
  specialize (H ltac:(intros []; auto using opens_err, opens_finish) MAX_TRIES
                (Sys script [CSemget SVSEM_MODE; CFtok] no_res)).
  match type of H with let '(_, _) := ?x in _ => change (x = (o, s)) in E end. by rewrite E in H.
Qed.

Lemma sv_open_destroys_witness :
  exists s, mysem_open 0 0 0 (Sys (Ok 7 :: Ok 5 :: replicate 10 (Ok 0)) [] no_res) = (Fail ETIMEDOUT, s) /\
    opener 5 (Fail ETIMEDOUT) s.
Proof.
  eexists. split; [vm_compute; reflexivity|].
  refine (sv_open_destroys 0 0 0 7 5 (replicate 10 (Ok 0)) (Fail ETIMEDOUT) _ _ _ _);
    [reflexivity|done|vm_compute; reflexivity].
Defined.

End SvOpen.
