(* ===== verification/ProdCons.v ===== *)
(** * Bounded buffers protected by semaphores

    Model of the author's programs in src/IPC/Semaphore: SemMultiprodMulticons.c
    (several producers and consumers), and the ring that SemPair.v, SemMany.v and
    SemCopy.v share with it.  The semaphores are
    any implementation of the class [Semaphore] of PxSem.v.  A thread advances by
    one semaphore operation, or by the accesses to shared variables between two of
    them, at a time, in any interleaving. *)

From S2P Require Import Prelude PxSem.

(** [sem_post] with its result ignored. *)
Definition post `{Semaphore T} (s : T) : T := default s (up s).

Lemma sem_post_spec `{Semaphore T} (s : T) : sem_ok s -> value s < limit s ->
  value (post s) = value s + 1 /\ sem_ok (post s) /\ limit (post s) = limit s.
Proof.
  intros Hs Hl. unfold post. by destruct (up_spec s Hs Hl) as (s' & -> & ?).
Qed.

(** The semaphore operations of a step, replaced by what they do to the values. *)
Ltac semaphores :=
  repeat match goal with
  | Ok : sem_ok ?x |- context [post ?x] =>
      let P := fresh "P" in pose proof (sem_post_spec x Ok ltac:(lia)) as P;
      destruct P as (? & ? & ?); generalize dependent (post x); intros
  | Ok : sem_ok ?x, D : down ?x = Some ?y |- _ =>
      apply (down_spec x y Ok) in D; destruct D as (? & ? & ?);
      pose proof (value_range x Ok)
  end.

(** ** A ring of [n] slots that holds the entries [c .. p - 1] of a sequence *)

Definition slot (n k : Z) : nat := Z.to_nat (Z.rem k n).

Definition ring {A} (n : Z) (f : Z -> A) (c p : Z) (buff : list A) : Prop :=
  length buff = Z.to_nat n /\ forall k, c <= k < p -> buff !! slot n k = Some (f k).

Section Ring.
Context {A : Type} (n : Z) (f : Z -> A) (Hn : 0 < n).

Lemma slot_lt k (b : list A) : 0 <= k -> length b = Z.to_nat n -> (slot n k < length b)%nat.
Proof.
  intros Hk ->. unfold slot. rewrite Z.rem_mod_nonneg by lia.
  pose proof (Z.mod_pos_bound k n Hn). lia.
Qed.

Lemma slot_inj j k : 0 <= j -> j < k -> k < j + n -> slot n j <> slot n k.
Proof.
  intros Hj Hjk Hkn E. unfold slot in E. rewrite !Z.rem_mod_nonneg in E by lia.
  apply Z2Nat.inj in E; try (apply Z.mod_pos_bound; lia).
  assert (Hd : (k - j) mod n = 0) by (rewrite Zminus_mod, E, Z.sub_diag; apply Z.mod_0_l; lia).
  rewrite Z.mod_small in Hd by lia. lia.
Qed.

Lemma ring_push c p b x : ring n f c p b -> 0 <= c <= p -> p - c < n -> x = f p ->
  ring n f c (p + 1) (<[slot n p := x]> b).
Proof.
  intros [Hl Hr] Hc Hp ->. split; [by rewrite length_insert|]. intros k Hk.
  destruct (decide (k = p)) as [->|Hne].
  - apply list_lookup_insert_eq, slot_lt; [lia|done].
  - rewrite list_lookup_insert_ne by (intros E; symmetry in E; revert E; apply slot_inj; lia).
    apply Hr. lia.
Qed.

Lemma ring_pop c p b : ring n f c p b -> ring n f (c + 1) p b.
Proof. intros [Hl Hr]. split; [done|]. intros k Hk. apply Hr. lia. Qed.

End Ring.

(** ** SemMultiprodMulticons.c *)

Module MultiProdCons.

Definition NBUFF : Z := 20.
Definition PRODUCERNUM : nat := 10.
Definition CONSUMERNUM : nat := 8.
Definition cycleTimes : Z := 1000.

(** Where a thread is: before the named semaphore operation or access. *)
Inductive pc :=
| PEmpty | PMu | PBody | PPostMu | PPostStore | PExitMu | PExitEmpty | PDone
| CStore | CMu | CBody | CLast | CPostMu | CPostEmpty | CExitMu | CExitStore | CDone
| Wrong | Crash.

(** A thread and the counter main() gave it. *)
Record thread := Thread { tpc : pc; count : Z }.

Section Program.
Context `{Semaphore T} (NBUFF cycleTimes : Z).

Record shared := Shared {
  pIndex : Z; pValue : Z; cIndex : Z; cValue : Z;
  semMu : T; semEmpty : T; semStore : T; buff : list Z }.

Definition set_mu (s : shared) (x : T) : shared :=
  Shared (pIndex s) (pValue s) (cIndex s) (cValue s) x (semEmpty s) (semStore s) (buff s).
Definition set_empty (s : shared) (x : T) : shared :=
  Shared (pIndex s) (pValue s) (cIndex s) (cValue s) (semMu s) x (semStore s) (buff s).
Definition set_store (s : shared) (x : T) : shared :=
  Shared (pIndex s) (pValue s) (cIndex s) (cValue s) (semMu s) (semEmpty s) x (buff s).

(** The next step of the function [producer]; [None]: the thread waits or has ended. *)
Definition producer (s : shared) (t : thread) : option (shared * thread) :=
  let go s' p := Some (s', Thread p (count t)) in
  match tpc t with
  | PEmpty => x ← down (semEmpty s); go (set_empty s x) PMu
  | PMu => x ← down (semMu s); go (set_mu s x) PBody
  | PBody =>
      if pIndex s >=? cycleTimes then go s PExitMu
      else match astore (buff s) (slot NBUFF (pIndex s)) (pValue s) with
      | Some b => go (Shared (pIndex s + 1) (pValue s + 1) (cIndex s) (cValue s)
                        (semMu s) (semEmpty s) (semStore s) b) PPostMu
      | None => go s Crash
      end
  | PPostMu => go (set_mu s (post (semMu s))) PPostStore
  | PPostStore => Some (set_store s (post (semStore s)), Thread PEmpty (count t + 1))
  | PExitMu => go (set_mu s (post (semMu s))) PExitEmpty
  | PExitEmpty => go (set_empty s (post (semEmpty s))) PDone
  | _ => None
  end.

(** The next step of the function [consumer]; [Wrong] is its [exit(-1)]. *)
Definition consumer (s : shared) (t : thread) : option (shared * thread) :=
  let go s' p := Some (s', Thread p (count t)) in
  match tpc t with
  | CStore => x ← down (semStore s); go (set_store s x) CMu
  | CMu => x ← down (semMu s); go (set_mu s x) CBody
  | CBody =>
      if cIndex s >=? cycleTimes then go s CExitMu
      else match aload (buff s) (slot NBUFF (cIndex s)) with
      | None => go s Crash
      | Some v =>
          if negb (v =? cValue s) then go s Wrong
          else go (Shared (pIndex s) (pValue s) (cIndex s + 1) (cValue s + 1)
                     (semMu s) (semEmpty s) (semStore s) (buff s))
                  (if cIndex s + 1 >=? cycleTimes then CLast else CPostMu)
      end
  | CLast => go (set_store s (post (semStore s))) CPostMu
  | CPostMu => go (set_mu s (post (semMu s))) CPostEmpty
  | CPostEmpty => Some (set_empty s (post (semEmpty s)), Thread CStore (count t + 1))
  | CExitMu => go (set_mu s (post (semMu s))) CExitStore
  | CExitStore => go (set_store s (post (semStore s))) CDone
  | _ => None
  end.

Definition is_producer (p : pc) : bool :=
  match p with
  | PEmpty | PMu | PBody | PPostMu | PPostStore | PExitMu | PExitEmpty | PDone => true
  | _ => false
  end.

Definition advance (s : shared) (t : thread) : option (shared * thread) :=
  if is_producer (tpc t) then producer s t else consumer s t.

Record state := St { sh : shared; ths : list thread }.

Definition exec (s : state) (i : nat) : option state :=
  t ← ths s !! i;
  '(sh', t') ← advance (sh s) t;
  Some (St sh' (<[i := t']> (ths s))).

Definition step (s s' : state) : Prop := exists i, exec s i = Some s'.

(** main(): the semaphores at 1, NBUFF and 0, and the threads created. *)
Definition main (np nc : nat) (b : list Z) (mu empty store : T) : state :=
  St (Shared 0 0 0 0 mu empty store b)
     (replicate np (Thread PEmpty 0) ++ replicate nc (Thread CStore 0)).

(** ** The accounts *)

Definition holds_mu (t : thread) : Z :=
  match tpc t with PBody | PPostMu | PExitMu | CBody | CLast | CPostMu | CExitMu => 1 | _ => 0 end.
Definition owes_empty (t : thread) : Z :=
  match tpc t with PMu | PBody | PExitMu | PExitEmpty | CLast | CPostMu | CPostEmpty => 1 | _ => 0 end.
Definition owes_store (t : thread) : Z :=
  match tpc t with PPostMu | PPostStore | CMu | CBody | CExitMu | CExitStore | CLast => 1 | _ => 0 end.
Definition produced (t : thread) : Z :=
  match tpc t with
  | PPostMu | PPostStore => count t + 1
  | p => if is_producer p then count t else 0
  end.
Definition consumed (t : thread) : Z :=
  match tpc t with
  | CLast | CPostMu | CPostEmpty => count t + 1
  | p => if is_producer p then 0 else count t
  end.

(** What the position of a thread says about the indexes. *)
Definition fits (p c : Z) (t : thread) : Prop :=
  match tpc t with
  | PExitMu | PExitEmpty | PDone => cycleTimes <= p
  | CExitMu | CExitStore | CDone | CLast => cycleTimes <= c
  | Wrong | Crash => False
  | _ => True
  end.

Record inv (s : state) : Prop := Inv {
  ok_mu : sem_ok (semMu (sh s)) /\ 1 <= limit (semMu (sh s));
  ok_empty : sem_ok (semEmpty (sh s)) /\ NBUFF <= limit (semEmpty (sh s));
  ok_store : sem_ok (semStore (sh s)) /\ NBUFF + 1 <= limit (semStore (sh s));
  mu_one : value (semMu (sh s)) + sumz holds_mu (ths s) = 1;
  empty_sum : value (semEmpty (sh s)) + sumz owes_empty (ths s) + (pIndex (sh s) - cIndex (sh s)) = NBUFF;
  store_sum : value (semStore (sh s)) + sumz owes_store (ths s) =
              pIndex (sh s) - cIndex (sh s) + b2z (cIndex (sh s) >=? cycleTimes);
  order : 0 <= cIndex (sh s) <= pIndex (sh s) /\ pIndex (sh s) <= cycleTimes;
  values : pValue (sh s) = pIndex (sh s) /\ cValue (sh s) = cIndex (sh s);
  contents : ring NBUFF id (cIndex (sh s)) (pIndex (sh s)) (buff (sh s));
  placed : Forall (fits (pIndex (sh s)) (cIndex (sh s))) (ths s);
  counts : sumz produced (ths s) = pIndex (sh s) /\ sumz consumed (ths s) = cIndex (sh s) }.

Context (HN : 0 < NBUFF) (HC : 0 < cycleTimes).

(** What a thread sees of the invariant, and what its step must respect. *)
Definition local (s : shared) (t : thread) : Prop :=
  (sem_ok (semMu s) /\ 1 <= limit (semMu s)) /\
  (sem_ok (semEmpty s) /\ NBUFF <= limit (semEmpty s)) /\
  (sem_ok (semStore s) /\ NBUFF + 1 <= limit (semStore s)) /\
  value (semMu s) + holds_mu t <= 1 /\
  value (semEmpty s) + owes_empty t + (pIndex s - cIndex s) <= NBUFF /\
  value (semStore s) + owes_store t <= pIndex s - cIndex s + b2z (cIndex s >=? cycleTimes) /\
  0 <= cIndex s <= pIndex s /\ pIndex s <= cycleTimes /\
  pValue s = pIndex s /\ cValue s = cIndex s /\
  ring NBUFF id (cIndex s) (pIndex s) (buff s) /\ fits (pIndex s) (cIndex s) t.

Definition respects (s : shared) (t : thread) (s' : shared) (t' : thread) : Prop :=
  local s' t' /\
  pIndex s <= pIndex s' /\ cIndex s <= cIndex s' /\
  value (semMu s') + holds_mu t' = value (semMu s) + holds_mu t /\
  value (semEmpty s') + owes_empty t' + (pIndex s' - cIndex s') =
    value (semEmpty s) + owes_empty t + (pIndex s - cIndex s) /\
  value (semStore s') + owes_store t' - (pIndex s' - cIndex s' + b2z (cIndex s' >=? cycleTimes)) =
    value (semStore s) + owes_store t - (pIndex s - cIndex s + b2z (cIndex s >=? cycleTimes)) /\
  produced t' - produced t = pIndex s' - pIndex s /\
  consumed t' - consumed t = cIndex s' - cIndex s.

(** The conjuncts of a local step. *)
Ltac conjuncts :=
  semaphores; repeat match goal with |- _ /\ _ => split end; first [lia | done].

(** Opens [local] and the step of a thread at a given position. *)
Ltac open_local s t Hx :=
  destruct t as [p n]; destruct s as [pI pV cI cV mu em st b]; cbn in *; subst pV cV;
  pose proof (b2z_range (cI >=? cycleTimes)); destruct p; try done;
  unfold holds_mu, owes_empty, owes_store, produced, consumed, fits in *; cbn in *;
  repeat match type of Hx with
  | context [down ?x] => destruct (down x) eqn:?; [|done]; cbn in Hx
  end.

Lemma producer_respects s t s' t' : is_producer (tpc t) = true ->
  local s t -> producer s t = Some (s', t') -> respects s t s' t'.
Proof.
  intros Hp ([Om Lm] & [Oe Le] & [Os Ls] & Vm & Ve & Vs & Hc & Hpc & Epv & Ecv & Hr & Hf) Hx.
  pose proof (value_range _ Om). pose proof (value_range _ Oe). pose proof (value_range _ Os).
  unfold producer, respects, local in *. open_local s t Hx.
  all: try (simplify_eq; cbn; conjuncts).
  destruct (pI >=? cycleTimes) eqn:E; [simplify_eq; cbn; conjuncts|].
  rewrite astore_ok in Hx by (destruct Hr; apply slot_lt; lia). simplify_eq; cbn.
  assert (ring NBUFF id cI (pI + 1) (<[slot NBUFF pI := pI]> b)) by (apply ring_push; auto; lia).
  conjuncts.
Qed.

Lemma consumer_respects s t s' t' : is_producer (tpc t) = false ->
  local s t -> consumer s t = Some (s', t') -> respects s t s' t'.
Proof.
  intros Hp ([Om Lm] & [Oe Le] & [Os Ls] & Vm & Ve & Vs & Hc & Hpc & Epv & Ecv & Hr & Hf) Hx.
  pose proof (value_range _ Om). pose proof (value_range _ Oe). pose proof (value_range _ Os).
  unfold consumer, respects, local in *. open_local s t Hx.
  all: try (simplify_eq; cbn; conjuncts).
  destruct (cI >=? cycleTimes) eqn:E; cbn [b2z] in *; [simplify_eq; cbn; rewrite E; cbn [b2z]; conjuncts|].
  unfold aload in Hx. rewrite (proj2 Hr) in Hx by lia. unfold id in Hx. rewrite Z.eqb_refl in Hx.
  cbn [negb] in Hx. pose proof (ring_pop _ _ _ _ _ Hr).
  destruct (cI + 1 >=? cycleTimes) eqn:E1; simplify_eq; cbn; rewrite E1; cbn [b2z]; conjuncts.
Qed.

Lemma mp_inv_local s i t : inv s -> ths s !! i = Some t -> local (sh s) t.
Proof.
  intros [] Ht. unfold local.
  assert (Hb : forall x, 0 <= holds_mu x /\ 0 <= owes_empty x /\ 0 <= owes_store x).
  { intros [[] n]; cbv; repeat split; done. }
  pose proof (sumz_lookup holds_mu _ _ _ ltac:(intros x; apply (Hb x)) Ht).
  pose proof (sumz_lookup owes_empty _ _ _ ltac:(intros x; apply (Hb x)) Ht).
  pose proof (sumz_lookup owes_store _ _ _ ltac:(intros x; apply (Hb x)) Ht).
  pose proof (Forall_lookup_1 _ _ _ _ placed0 Ht).
  repeat match goal with |- _ /\ _ => split end; try tauto; lia.
Qed.

Lemma mp_fits_mono p c p' c' t : p <= p' -> c <= c' -> fits p c t -> fits p' c' t.
Proof. unfold fits. destruct (tpc t); intros; try done; lia. Qed.

Lemma mp_inv_step s s' : inv s -> step s s' -> inv s'.
Proof.
  intros I [i Hx]. unfold exec in Hx. destruct (ths s !! i) as [t|] eqn:Ht; [|done].
  cbn in Hx. destruct (advance (sh s) t) as [[sh' t']|] eqn:Ha; [|done]. injection Hx as <-.
  assert (R : respects (sh s) t sh' t').
  { pose proof (mp_inv_local _ _ _ I Ht). unfold advance in Ha.
    destruct (is_producer (tpc t)) eqn:E; [by apply producer_respects|by apply consumer_respects]. }
  destruct R as ((? & ? & ? & ? & ? & ? & ? & ? & ? & ? & ? & ?) & ? & ? & ? & ? & ? & ? & ?).
  destruct I as [? ? ? ? ? ? ? ? ? Hpl [? ?]].
  constructor; cbn [sh ths]; rewrite ?(sumz_insert _ _ _ _ _ Ht); try done; try tauto; try lia.
  - apply Forall_insert; [|done]. eapply Forall_impl; [exact Hpl|]. intros. by eapply mp_fits_mono.
Qed.

Lemma mp_inv_main np nc b mu empty store :
  length b = Z.to_nat NBUFF ->
  sem_ok mu -> sem_ok empty -> sem_ok store ->
  value mu = 1 -> value empty = NBUFF -> value store = 0 -> NBUFF + 1 <= limit store ->
  inv (main np nc b mu empty store).
Proof.
  intros Hb Om Oe Os Vm Ve Vs Ls.
  pose proof (value_range _ Om). pose proof (value_range _ Oe).
  assert (Hc : (0 >=? cycleTimes) = false) by lia.
  constructor; cbn; rewrite ?sumz_app, ?sumz_replicate; cbn; rewrite ?Hc; cbn [b2z];
    unfold holds_mu, owes_empty, owes_store, produced, consumed; cbn; try (split; done || lia); try lia.
  apply Forall_app. split; apply Forall_replicate; done.
Qed.

(** ** No deadlock *)

Definition finished (t : thread) : bool := match tpc t with PDone | CDone => true | _ => false end.

(** A thread that is neither finished nor waiting at a semaphore at 0 can go on. *)
Lemma can_step s i t : inv s -> ths s !! i = Some t -> finished t = false ->
  (exists s', step s s') \/
  (tpc t = PEmpty /\ value (semEmpty (sh s)) = 0) \/ (tpc t = CStore /\ value (semStore (sh s)) = 0) \/
  ((tpc t = PMu \/ tpc t = CMu) /\ value (semMu (sh s)) = 0).
Proof.
  intros I Ht Hf. pose proof (mp_inv_local _ _ _ I Ht) as L.
  destruct (advance (sh s) t) as [[sh' t']|] eqn:Ha.
  { left. exists (St sh' (<[i := t']> (ths s))). exists i. unfold exec. rewrite Ht. cbn. by rewrite Ha. }
  right. destruct L as ([Om _] & [Oe _] & [Os _] & _ & _ & _ & _ & _ & _ & _ & Hr & Hft).
  unfold advance in Ha. destruct t as [p n]. unfold fits in Hft. cbn in *.
  destruct p; cbn in Ha; try done.
  all: repeat match type of Ha with
    | context [down ?x] => let E := fresh in destruct (down x) eqn:E; [done|apply down_wait in E; [|done]]
    | context [if ?x then _ else _] => destruct x; try done
    | context [match ?x with _ => _ end] => destruct x; try done
    end; auto.
Qed.

(** The holder of the mutex is never blocked. *)
Lemma mu_free s : inv s -> (forall s', ~ step s s') -> value (semMu (sh s)) = 1.
Proof.
  intros I Hs. pose proof (mu_one _ I) as Hm. rewrite (sumz_zero holds_mu) in Hm; [lia|].
  intros i t Ht. destruct (finished t) eqn:E.
  - unfold finished, holds_mu in *. by destruct (tpc t).
  - destruct (can_step s i t I Ht E) as [[s' Hst]|[[E1 _]|[[E1 _]|[[E1|E1] _]]]];
      [by destruct (Hs s')|unfold holds_mu; by rewrite E1..].
Qed.

Lemma waits_where s i t : inv s -> (forall s', ~ step s s') -> ths s !! i = Some t ->
  finished t = true \/ (tpc t = PEmpty /\ value (semEmpty (sh s)) = 0) \/
  (tpc t = CStore /\ value (semStore (sh s)) = 0).
Proof.
  intros I Hs Ht. destruct (finished t) eqn:E; [by left|]. right.
  pose proof (mu_free _ I Hs).
  destruct (can_step s i t I Ht E) as [[s' Hst]|[?|[?|[_ Hm]]]]; [by destruct (Hs s')|auto|auto|lia].
Qed.

(** The two kinds of threads stay what they are. *)
Definition kinds (s : state) : list bool := map (fun t => is_producer (tpc t)) (ths s).

Lemma advance_kind s t s' t' : advance s t = Some (s', t') -> tpc t' <> Crash ->
  is_producer (tpc t') = is_producer (tpc t).
Proof.
  destruct t as [p n]. unfold advance, producer, consumer. cbn.
  destruct p; cbn; intros Ha Hc; try done;
    repeat match type of Ha with
    | context [down ?x] => destruct (down x); cbn in Ha; [|done]
    | context [if ?x then _ else _] => destruct x
    | context [match ?x with _ => _ end] => destruct x
    end; by simplify_eq.
Qed.

Lemma kinds_step s s' : inv s -> step s s' -> kinds s' = kinds s.
Proof.
  intros I Hst. pose proof (mp_inv_step _ _ I Hst) as I'. destruct Hst as [i Hx].
  unfold exec in Hx. destruct (ths s !! i) as [t|] eqn:Ht; [|done]. cbn in Hx.
  destruct (advance (sh s) t) as [[sh' t']|] eqn:Ha; [|done]. injection Hx as <-.
  unfold kinds. cbn [ths]. rewrite list_fmap_insert. apply list_insert_id.
  rewrite (advance_kind _ _ _ _ Ha).
  - by rewrite list_lookup_fmap, Ht.
  - intros E. pose proof (Forall_lookup_1 _ _ i t' (placed _ I')) as Hf. cbn [ths] in Hf.
    rewrite list_lookup_insert_eq in Hf by (by eapply lookup_lt_Some).
    specialize (Hf eq_refl). unfold fits in Hf. by rewrite E in Hf.
Qed.

(** ** Termination *)

Definition rank (t : thread) : Z :=
  match tpc t with
  | PEmpty | CStore => 5 | PMu | CMu => 4 | PBody | CBody => 3
  | PExitMu | CExitMu => 2 | PExitEmpty | CExitStore => 1
  | PPostStore | CPostEmpty => 6 | PPostMu | CPostMu => 7 | CLast => 8
  | PDone | CDone | Wrong | Crash => 0
  end.

Definition work (s : state) : Z :=
  sumz rank (ths s) + 5 * (cycleTimes - pIndex (sh s)) + 6 * (cycleTimes - cIndex (sh s)).

Lemma advance_rank s t s' t' : advance s t = Some (s', t') ->
  rank t' - 5 * pIndex s' - 6 * cIndex s' < rank t - 5 * pIndex s - 6 * cIndex s.
Proof.
  destruct t as [p n]. unfold advance, producer, consumer, rank. cbn [tpc count].
  destruct p; cbn; intros Ha; try done;
    repeat match type of Ha with
    | context [down ?x] => destruct (down x); cbn in Ha; [|done]
    | context [match ?x with _ => _ end] => destruct x
    end; simplify_eq; cbn; try lia.
  all: destruct (_ >=? _); cbn; lia.
Qed.

Lemma mp_work_step s s' : step s s' -> work s' < work s.
Proof.
  intros [i Hx]. unfold exec in Hx. destruct (ths s !! i) as [t|] eqn:Ht; [|done]. cbn in Hx.
  destruct (advance (sh s) t) as [[sh' t']|] eqn:Ha; [|done]. injection Hx as <-.
  apply advance_rank in Ha. unfold work. cbn [sh ths]. rewrite (sumz_insert _ _ _ _ _ Ht). lia.
Qed.

Lemma mp_work_nonneg s : inv s -> 0 <= work s.
Proof.
  intros I. pose proof (order _ I). unfold work.
  assert (0 <= sumz rank (ths s)); [|lia].
  induction (ths s) as [|[[] n] l IH]; [done|..]; rewrite sumz_cons; cbn [rank tpc]; lia.
Qed.

Lemma mp_run_inv n s s' : nsteps step n s s' -> inv s ->
  inv s' /\ kinds s' = kinds s /\ work s' <= work s - Z.of_nat n.
Proof.
  induction 1 as [s|n s1 s2 s3 Hs Hn IH]; intros I; [split; [done|split; [done|lia]]|].
  destruct (IH (mp_inv_step _ _ I Hs)) as (I' & Hk & Hw). pose proof (mp_work_step _ _ Hs).
  split; [done|]. split; [by rewrite Hk, (kinds_step _ _ I Hs)|lia].
Qed.

Lemma mp_step_or_stuck s : (exists s', step s s') \/ (forall s', ~ step s s').
Proof.
  destruct (decide (Exists (fun i => is_Some (exec s i)) (seq 0 (length (ths s))))) as [E|E].
  - left. apply Exists_exists in E as (i & _ & [s' Hs]). by exists s', i.
  - right. intros s' [i Hi]. apply E, Exists_exists. exists i. split; [|by exists s'].
    apply elem_of_seq. unfold exec in Hi. destruct (ths s !! i) eqn:Ht; [|done].
    apply lookup_lt_Some in Ht. lia.
Qed.

(** What remains when no thread can go on. *)
Lemma stuck_finished s : inv s -> In true (kinds s) -> In false (kinds s) ->
  (forall s', ~ step s s') ->
  Forall (fun t => finished t = true) (ths s) /\
  pIndex (sh s) = cycleTimes /\ cIndex (sh s) = cycleTimes.
Proof.
  intros I Hp Hc Hs. pose proof (order _ I). pose proof (placed _ I) as Hpl.
  pose proof (fun i t => waits_where s i t I Hs) as W.
  assert (Sum : forall f : thread -> Z, (forall t, finished t = true -> f t = 0) ->
    (forall t, tpc t = PEmpty -> f t = 0) -> (forall t, tpc t = CStore -> f t = 0) -> sumz f (ths s) = 0).
  { intros f F1 F2 F3. apply sumz_zero. intros i t Ht. destruct (W i t Ht) as [?|[[? _]|[? _]]]; auto. }
  pose proof (empty_sum _ I) as He. pose proof (store_sum _ I) as Hst.
  rewrite Sum in He by (intros [[] ?]; done). rewrite Sum in Hst by (intros [[] ?]; done).
  assert (Wp : exists i t, ths s !! i = Some t /\ is_producer (tpc t) = true).
  { apply in_map_iff in Hp as (t & Ht & Hin). apply list_elem_of_In, list_elem_of_lookup in Hin as [i Hi]. eauto. }
  assert (Wc : exists i t, ths s !! i = Some t /\ is_producer (tpc t) = false).
  { apply in_map_iff in Hc as (t & Ht & Hin). apply list_elem_of_In, list_elem_of_lookup in Hin as [i Hi]. eauto. }
  destruct Wp as (i & t & Hi & Hit), Wc as (j & u & Hj & Hju).
  pose proof (Forall_lookup_1 _ _ _ _ Hpl Hi) as Fi. pose proof (Forall_lookup_1 _ _ _ _ Hpl Hj) as Fj.
  assert (Hd : cycleTimes <= cIndex (sh s)).
  { destruct (W j u Hj) as [Fin|[[E _]|[E Hv]]].
    - unfold finished, fits in *. by destruct (tpc u).
    - by rewrite E in Hju.
    - destruct (cIndex (sh s) >=? cycleTimes) eqn:Ec; cbn [b2z] in Hst; [lia|].
      destruct (W i t Hi) as [Fin|[[E' Hv']|[E' _]]]; [|lia|by rewrite E' in Hit].
      unfold finished, fits in *. destruct (tpc t); try done. lia. }
  split; [|lia]. apply Forall_lookup_2. intros k v Hk.
  destruct (W k v Hk) as [?|[[? ?]|[? ?]]]; [done|lia|].
  destruct (cIndex (sh s) >=? cycleTimes) eqn:Ec; cbn [b2z] in Hst; lia.
Qed.

End Program.

(** The semaphores as main() initialises them. *)
Definition ready `{Semaphore T} (NBUFF : Z) (mu empty store : T) : Prop :=
  (sem_ok mu /\ value mu = 1) /\ (sem_ok empty /\ value empty = NBUFF) /\
  (sem_ok store /\ value store = 0 /\ NBUFF + 1 <= limit store).

(** The counters of the producers, and of the consumers, added up. *)
Definition total (producers : bool) (l : list thread) : Z :=
  sumz (fun t => if Bool.eqb (is_producer (tpc t)) producers then count t else 0) l.

Lemma total_finished (l : list thread) : Forall (fun t => finished t = true) l ->
  sumz produced l = total true l /\ sumz consumed l = total false l.
Proof.
  unfold total. induction 1 as [|[p k] l Hp Hf [IH1 IH2]]; [done|]. rewrite !sumz_cons, IH1, IH2. by destruct p.
Qed.

(** C6: any number of producers and consumers over any of the semaphore
    implementations: in every interleaving the consumers find the values in order
    (the program never takes its exit(-1)) and no access leaves the buffer; no
    state is a deadlock; and the program ends, within a number of steps known in
    advance, with every thread finished and [cycleTimes] items produced and
    consumed according to the threads' own counters. *)
Theorem prodcons_correct `{Semaphore T} NBUFF cycleTimes np nc b (mu empty store : T) n s :
  0 < NBUFF -> 0 < cycleTimes -> (0 < np)%nat -> (0 < nc)%nat ->
  length b = Z.to_nat NBUFF -> ready NBUFF mu empty store ->
  nsteps (step NBUFF cycleTimes) n (main np nc b mu empty store) s ->
  Z.of_nat n <= 5 * Z.of_nat (np + nc) + 11 * cycleTimes /\
  Forall (fun t => tpc t <> Wrong /\ tpc t <> Crash) (ths s) /\
  ((exists s', step NBUFF cycleTimes s s') \/
   (Forall (fun t => finished t = true) (ths s) /\
    total true (ths s) = cycleTimes /\ total false (ths s) = cycleTimes)).
Proof.
  intros HN HC Hnp Hnc Hb ((Om & Vm) & (Oe & Ve) & (Os & Vs & Ls)) Hrun.
  destruct (mp_run_inv NBUFF cycleTimes HN n _ s Hrun) as (I & Hk & Hw); [by apply mp_inv_main|].
  pose proof (mp_work_nonneg _ _ _ I). split.
  { unfold work in Hw at 2. cbn [main sh ths pIndex cIndex] in Hw.
    rewrite sumz_app, !sumz_replicate in Hw. cbn [rank tpc] in Hw. lia. }
  split.
  { eapply Forall_impl; [apply (placed _ _ _ I)|]. intros t Ht. unfold fits in Ht. by destruct (tpc t). }
  destruct (mp_step_or_stuck NBUFF cycleTimes s) as [?|Hst]; [by left|right].
  destruct (stuck_finished NBUFF cycleTimes HN s I) as (Hf & Hp & Hc); [| |done|].
  - rewrite Hk. apply in_map_iff. exists (Thread PEmpty 0). split; [done|].
    destruct np; [lia|]. by left.
  - rewrite Hk. apply in_map_iff. exists (Thread CStore 0). split; [done|].
    apply in_app_iff. right. destruct nc; [lia|]. by left.
  - split; [done|]. destruct (counts _ _ _ I) as [Cp Cc]. rewrite Hp in Cp. rewrite Hc in Cc.
    split; [rewrite <- Cp|rewrite <- Cc]; symmetry; by apply total_finished.
Qed.

Lemma prodcons_correct_witness :
  exists s' : state (T := SemSv.vsem),
    nsteps (step 20 1000) 1 (main 10 8 (replicate 20 0) (SemSv.VSem (SemSv.Handle 1 SemSv.SEM_MAGIC) 1)
      (SemSv.VSem (SemSv.Handle 2 SemSv.SEM_MAGIC) 20) (SemSv.VSem (SemSv.Handle 3 SemSv.SEM_MAGIC) 0)) s' /\
    Z.of_nat 1 <= 5 * Z.of_nat (10 + 8) + 11 * 1000.
Proof.
  assert (Hrun : exists s' : state (T := SemSv.vsem),
    nsteps (step 20 1000) 1 (main 10 8 (replicate 20 0) (SemSv.VSem (SemSv.Handle 1 SemSv.SEM_MAGIC) 1)
      (SemSv.VSem (SemSv.Handle 2 SemSv.SEM_MAGIC) 20) (SemSv.VSem (SemSv.Handle 3 SemSv.SEM_MAGIC) 0)) s').
  { eexists. apply nsteps_once. exists 0%nat. vm_compute. reflexivity. }
  destruct Hrun as [s' Hs']. exists s'. split; [exact Hs'|].
  refine (proj1 (prodcons_correct 20 1000 10 8 (replicate 20 0) _ _ _ 1 s' _ _ _ _ _ _ Hs'));
    try lia; [reflexivity|].
  repeat split; cbn; unfold SemSv.SEMVMX; lia.
Defined.

End MultiProdCons.
