(* ===== verification/SemCopy.v ===== *)
(** * One producer and one consumer over semaphores

    Model of src/IPC/Semaphore/SemMultiBuff.c, which copies a file to the standard
    output through a ring of blocks filled by one thread and written by another.  The
    ring and the semaphores are those of ProdCons.v.  The counters [i] are ints: after
    2^31 rounds [i] is negative, and so is [i % NBUFF], the index into the ring. *)

From S2P Require Import Prelude PxSem ProdCons.

(** ** SemMultiBuff.c *)

Module MultiBuff.

Definition NBUFF : Z := 20.
Definition MYBUFFSIZE : Z := 50.

(** A slot of [shared.data]: the result of read() and the block. *)
Record slot_data := Slot { n : Z; bytes : list Z }.

Inductive ppc := PEmpty | PMu | PUnMu | PRead | PPost | PLast | PDone | PCrash.
Inductive cpc := CStore | CMu | CUnMu | CTest | CPost | CDone | CCrash.

#[global] Instance ppc_eq_dec : EqDecision ppc.
Proof. solve_decision. Defined.

Section Program.
(** [read k] is what the [k]-th read() of the file returns: the bytes, or an error.
    [write k] is how many of the bytes it is given the [k]-th write() to the standard
    output writes, 0 when it fails; a count of [-1] fails. *)
Context `{Semaphore T} (NBUFF : Z) (read : Z -> option (list Z)) (write : Z -> Z).

(** [pi] and [ci] are the ints [i] of the two threads, [rd] and [wr] count the calls
    of read() that filled a block and of write(). *)
Record state := St {
  pi : Z; ci : Z; rd : Z; wr : Z; semMu : T; semEmpty : T; semStore : T;
  data : list slot_data; out : list Z; pp : ppc; cp : cpc }.

Definition read_into (d : slot_data) (r : option (list Z)) : slot_data :=
  match r with
  | None => Slot (-1) (bytes d)
  | Some l => Slot (Z.of_nat (length l)) (l ++ drop (length l) (bytes d))
  end.

(** [data[i % NBUFF]]: C's remainder has the sign of [i]; [None] is an index outside. *)
Definition index (i : Z) : option nat :=
  let j := Z.rem i NBUFF in if j <? 0 then None else Some (Z.to_nat j).

Definition producer (s : state) : option state :=
  match pp s with
  | PEmpty => x ← down (semEmpty s);
      Some (St (pi s) (ci s) (rd s) (wr s) (semMu s) x (semStore s) (data s) (out s) PMu (cp s))
  | PMu => x ← down (semMu s);
      Some (St (pi s) (ci s) (rd s) (wr s) x (semEmpty s) (semStore s) (data s) (out s) PUnMu (cp s))
  | PUnMu => Some (St (pi s) (ci s) (rd s) (wr s) (post (semMu s)) (semEmpty s) (semStore s) (data s) (out s) PRead (cp s))
  | PRead =>
      match (j ← index (pi s); d ← data s !! j; Some (j, d)) with
      | None => Some (St (pi s) (ci s) (rd s) (wr s) (semMu s) (semEmpty s) (semStore s) (data s) (out s) PCrash (cp s))
      | Some (j, d) =>
          let d' := read_into d (read (rd s)) in
          let l := <[j := d']> (data s) in
          if n d' =? 0
          then Some (St (pi s) (ci s) (rd s) (wr s) (semMu s) (semEmpty s) (semStore s) l (out s) PLast (cp s))
          else Some (St (s32 (pi s + 1)) (ci s) (rd s + 1) (wr s) (semMu s) (semEmpty s) (semStore s) l (out s) PPost (cp s))
      end
  | PPost => Some (St (pi s) (ci s) (rd s) (wr s) (semMu s) (semEmpty s) (post (semStore s)) (data s) (out s) PEmpty (cp s))
  | PLast => Some (St (pi s) (ci s) (rd s) (wr s) (semMu s) (semEmpty s) (post (semStore s)) (data s) (out s) PDone (cp s))
  | PDone | PCrash => None
  end.

Definition consumer (s : state) : option state :=
  match cp s with
  | CStore => x ← down (semStore s);
      Some (St (pi s) (ci s) (rd s) (wr s) (semMu s) (semEmpty s) x (data s) (out s) (pp s) CMu)
  | CMu => x ← down (semMu s);
      Some (St (pi s) (ci s) (rd s) (wr s) x (semEmpty s) (semStore s) (data s) (out s) (pp s) CUnMu)
  | CUnMu => Some (St (pi s) (ci s) (rd s) (wr s) (post (semMu s)) (semEmpty s) (semStore s) (data s) (out s) (pp s) CTest)
  | CTest =>
      match (j ← index (ci s); data s !! j) with
      | None => Some (St (pi s) (ci s) (rd s) (wr s) (semMu s) (semEmpty s) (semStore s) (data s) (out s) (pp s) CCrash)
      | Some d =>
          if n d =? 0
          then Some (St (pi s) (ci s) (rd s) (wr s) (semMu s) (semEmpty s) (semStore s) (data s) (out s) (pp s) CDone)
          else Some (St (pi s) (s32 (ci s + 1)) (rd s) (wr s + 1) (semMu s) (semEmpty s) (semStore s) (data s)
                        (out s ++ take (Z.to_nat (write (wr s))) (take (Z.to_nat (n d)) (bytes d))) (pp s) CPost)
      end
  | CPost => Some (St (pi s) (ci s) (rd s) (wr s) (semMu s) (post (semEmpty s)) (semStore s) (data s) (out s) (pp s) CStore)
  | CDone | CCrash => None
  end.

(** An access outside the ring ends what the language defines. *)
Definition crashed (s : state) : bool :=
  match pp s, cp s with PCrash, _ | _, CCrash => true | _, _ => false end.

Definition step (s s' : state) : Prop :=
  crashed s = false /\ (producer s = Some s' \/ consumer s = Some s').

Definition main (d : list slot_data) (mu empty store : T) : state :=
  St 0 0 0 0 mu empty store d [] PEmpty CStore.

(** ** The accounts *)

Definition p_mu (p : ppc) : Z := match p with PUnMu => 1 | _ => 0 end.
Definition c_mu (c : cpc) : Z := match c with CUnMu => 1 | _ => 0 end.
Definition p_empty (p : ppc) : Z := match p with PMu | PUnMu | PRead | PCrash => 1 | _ => 0 end.
Definition c_empty (c : cpc) : Z := match c with CPost => 1 | _ => 0 end.
Definition p_store (p : ppc) : Z := match p with PPost | PLast => 1 | _ => 0 end.
Definition c_store (c : cpc) : Z := match c with CMu | CUnMu | CTest | CDone | CCrash => 1 | _ => 0 end.

(** The blocks read so far, the end of file included. *)
Definition filled (s : state) : Z := rd s + match pp s with PLast | PDone => 1 | _ => 0 end.

Definition chunk (k : Z) : list Z := default [] (read k).
Definition put (k : Z) : list Z := take (Z.to_nat (write k)) (chunk k).
Definition copied (c : Z) : list Z := concat (map put (seqZ 0 c)).

(** What a slot holds, without the bytes of earlier blocks behind the end. *)
Definition view (d : slot_data) : Z * list Z := (n d, take (Z.to_nat (n d)) (bytes d)).
Definition entry (k : Z) : Z * list Z :=
  match read k with None => (-1, []) | Some l => (Z.of_nat (length l), l) end.

Record inv (s : state) : Prop := Inv {
  ok_mu : sem_ok (semMu s) /\ 1 <= limit (semMu s);
  ok_empty : sem_ok (semEmpty s) /\ NBUFF <= limit (semEmpty s);
  ok_store : sem_ok (semStore s) /\ NBUFF <= limit (semStore s);
  mu_one : value (semMu s) + p_mu (pp s) + c_mu (cp s) = 1;
  empty_sum : value (semEmpty s) + p_empty (pp s) + c_empty (cp s) + (filled s - wr s) = NBUFF;
  store_sum : value (semStore s) + p_store (pp s) + c_store (cp s) = filled s - wr s;
  order : 0 <= wr s <= rd s /\ rd s <= 2 ^ 31;
  ints : pi s = s32 (rd s) /\ ci s = s32 (wr s);
  contents : ring NBUFF entry (wr s) (filled s) (view <$> data s);
  before_eof : forall k, 0 <= k < rd s -> read k <> Some [];
  at_eof : pp s = PLast \/ pp s = PDone -> rd s < 2 ^ 31 /\ read (rd s) = Some [];
  ended : cp s = CDone -> wr s = rd s /\ read (wr s) = Some [];
  crash_at : pp s = PCrash -> rd s = 2 ^ 31;
  no_crash : cp s <> CCrash;
  written : out s = copied (wr s) }.

Context (HN : 0 < NBUFF) (Hodd : Z.rem (2 ^ 31) NBUFF <> 0).

Lemma view_read_into d r : view (read_into d r) =
  match r with None => (-1, []) | Some l => (Z.of_nat (length l), l) end.
Proof. destruct r as [l|]; [|done]. unfold view. cbn. by rewrite Nat2Z.id, take_app_length. Qed.

(** The index of the int that counts [k] rounds. *)
Lemma index_ints k : 0 <= k < 2 ^ 31 -> index (s32 k) = Some (slot NBUFF k).
Proof.
  intros Hk. unfold index. rewrite swrap_small by lia. pose proof (Z.rem_nonneg k NBUFF ltac:(lia) ltac:(lia)).
  by rewrite (proj2 (Z.ltb_ge _ _)) by lia.
Qed.

Lemma index_wrapped : index (s32 (2 ^ 31)) = None.
Proof.
  change (s32 (2 ^ 31)) with (- 2 ^ 31). unfold index. rewrite Z.rem_opp_l by lia.
  pose proof (Z.rem_nonneg (2 ^ 31) NBUFF ltac:(lia) ltac:(lia)). by rewrite (proj2 (Z.ltb_lt _ _)) by lia.
Qed.

Lemma s32_succ k : s32 (s32 k + 1) = s32 (k + 1).
Proof. by apply swrap_add. Qed.

Lemma copied_succ c : 0 <= c -> copied (c + 1) = copied c ++ put c.
Proof.
  intros Hc. unfold copied. rewrite seqZ_app by lia. rewrite map_app, concat_app.
  replace (seqZ (0 + c) 1) with [c] by (unfold seqZ; simpl; f_equal; lia).
  cbn. by rewrite app_nil_r.
Qed.

Lemma p_range x : 0 <= p_mu x <= 1 /\ 0 <= p_empty x <= 1 /\ 0 <= p_store x <= 1.
Proof. destruct x; cbn; lia. Qed.
Lemma c_range y : 0 <= c_mu y <= 1 /\ 0 <= c_empty y <= 1 /\ 0 <= c_store y <= 1.
Proof. destruct y; cbn; lia. Qed.

(** Closes the accounts after a step on a semaphore. *)
Ltac account :=
  cbn in *; semaphores; constructor; unfold filled in *; cbn in *;
  try done; try lia; try tauto; try (split; first [done | lia]); try (intros [?|?]; done).

Lemma cp_inv_producer s s' : inv s -> producer s = Some s' -> inv s'.
Proof.
  intros [[Om Lm] [Oe Le] [Os Ls] Vm Ve Vs [Ho Hm] [Hip Hic] Hr Hb Ha He Hx0 Hc Hw] Hx.
  pose proof (value_range _ Om). pose proof (value_range _ Oe). pose proof (value_range _ Os).
  destruct s as [ip ic p c mu em st d o x y]. unfold producer in Hx. unfold filled in *. cbn in *. subst ip ic.
  pose proof (c_range y).
  destruct x; try done;
    try match type of Hx with context [down ?z] => destruct (down z) eqn:?; [|done] end.
  all: try (injection Hx as <-; account; fail).
  cbn [p_mu p_empty p_store] in *.
  destruct (decide (p = 2 ^ 31)) as [->|Hp31].
  { rewrite index_wrapped in Hx. cbn in Hx. injection Hx as <-. account. }
  rewrite index_ints in Hx by lia. cbn [mbind option_bind] in Hx.
  assert (Hl : length d = Z.to_nat NBUFF) by (destruct Hr as [Hl _]; by rewrite length_fmap in Hl).
  destruct (lookup_lt_is_Some_2 d (slot NBUFF p)) as [sl Hsl]; [by apply slot_lt; [|lia|]|].
  rewrite Hsl in Hx. cbn [mbind option_bind] in Hx.
  assert (Hp : ring NBUFF entry c (p + 1) (view <$> <[slot NBUFF p := read_into sl (read p)]> d)).
  { rewrite (list_fmap_insert view). apply ring_push; try lia; [by rewrite Z.add_0_r in Hr|unfold entry; apply view_read_into]. }
  assert (Hn : n (read_into sl (read p)) = 0 <-> read p = Some []).
  { destruct (read p) as [[|z l]|]; cbn; split; try done; lia. }
  destruct (n (read_into sl (read p)) =? 0) eqn:E; bprop; injection Hx as <-; account.
  - intros _. split; [lia|tauto].
  - split; [by apply s32_succ|done].
  - by rewrite Z.add_0_r.
  - intros k Hk. destruct (decide (k = p)) as [->|]; [tauto|]. apply Hb. lia.
  - intros Hd. destruct (He Hd) as [-> ?]. tauto.
Qed.

Lemma cp_inv_consumer s s' : inv s -> consumer s = Some s' -> inv s'.
Proof.
  intros [[Om Lm] [Oe Le] [Os Ls] Vm Ve Vs [Ho Hm] [Hip Hic] Hr Hb Ha He Hx0 Hc Hw] Hx.
  pose proof (value_range _ Om). pose proof (value_range _ Oe). pose proof (value_range _ Os).
  destruct s as [ip ic p c mu em st d o x y]. unfold consumer in Hx. unfold filled in *. cbn in *. subst ip ic.
  pose proof (p_range x). assert (0 <= match x with PLast | PDone => 1 | _ => 0 end <= 1) by (destruct x; lia).
  destruct y; try done;
    try match type of Hx with context [down ?z] => destruct (down z) eqn:?; [|done] end.
  all: try (injection Hx as <-; account; fail).
  cbn [c_mu c_empty c_store] in *.
  set (q := p + match x with PLast | PDone => 1 | _ => 0 end) in *.
  assert (Hc' : c < q) by lia.
  assert (Hc31 : c < 2 ^ 31) by (unfold q in Hc'; destruct x; try lia; destruct Ha as [? _]; auto; lia).
  rewrite index_ints in Hx by lia. cbn [mbind option_bind] in Hx.
  pose proof (proj2 Hr c ltac:(lia)) as Hsl. rewrite list_lookup_fmap in Hsl.
  destruct (d !! slot NBUFF c) as [sl|]; [|done]. cbn in Hsl. injection Hsl as Hsl.
  assert (Hn : n sl = (entry c).1) by (by rewrite <- Hsl).
  assert (Hbs : take (Z.to_nat (n sl)) (bytes sl) = (entry c).2) by (by rewrite <- Hsl).
  assert (Hz : n sl = 0 <-> read c = Some []).
  { rewrite Hn. unfold entry. destruct (read c) as [[|z l]|]; cbn; split; try done; lia. }
  assert (Hk : take (Z.to_nat (write c)) (take (Z.to_nat (n sl)) (bytes sl)) = put c).
  { rewrite Hbs. unfold put, entry, chunk. by destruct (read c). }
  destruct (n sl =? 0) eqn:E; bprop; injection Hx as <-; account.
  - intros _. split; [|tauto]. destruct (decide (c = p)); [done|]. destruct (Hb c); [lia|tauto].
  - split; [|lia]. split; [lia|]. destruct (decide (c = p)) as [->|]; [|lia]. destruct Hz as [_ Hz']. destruct E.
    apply Hz'. unfold q in *. destruct x; try lia; apply Ha; auto.
  - split; [done|]. by apply s32_succ.
  - by apply ring_pop.
  - rewrite copied_succ by lia. by rewrite Hk, Hw.
Qed.

Lemma cp_inv_step s s' : inv s -> step s s' -> inv s'.
Proof. intros I [_ [Hx|Hx]]; [by eapply cp_inv_producer|by eapply cp_inv_consumer]. Qed.

Lemma cp_inv_main d mu empty store : length d = Z.to_nat NBUFF ->
  sem_ok mu -> sem_ok empty -> sem_ok store ->
  value mu = 1 -> value empty = NBUFF -> value store = 0 -> NBUFF <= limit store ->
  inv (main d mu empty store).
Proof.
  intros Hd Om Oe Os Vm Ve Vs Ls. pose proof (value_range _ Om). pose proof (value_range _ Oe).
  constructor; unfold filled; cbn; try done; try lia; try (split; done || lia).
  - split; [by rewrite length_fmap|]. intros; lia.
  - intros [?|?]; done.
Qed.

(** ** No deadlock, and the number of steps *)

Lemma not_crashed s : inv s -> pp s <> PCrash -> crashed s = false.
Proof. intros I Hp. pose proof (no_crash _ I). unfold crashed. by destruct (pp s), (cp s). Qed.

Lemma cp_stuck_done s : inv s -> (forall s', ~ step s s') ->
  (pp s = PDone /\ cp s = CDone) \/ pp s = PCrash.
Proof.
  intros I Hs. destruct (decide (pp s = PCrash)) as [|Hpc]; [by right|left].
  pose proof (not_crashed s I Hpc) as Hcr.
  assert (Hp : producer s = None) by (destruct (producer s) as [s0|] eqn:E; [by destruct (Hs s0); split; [|left]|done]).
  assert (Hq : consumer s = None) by (destruct (consumer s) as [s0|] eqn:E; [by destruct (Hs s0); split; [|right]|done]).
  destruct I as [[Om Lm] [Oe Le] [Os Ls] Vm Ve Vs Ho Hi Hr Hb Ha He Hx0 Hc Hw]; clear Hs.
  pose proof (value_range _ Om); pose proof (value_range _ Oe); pose proof (value_range _ Os).
  destruct s as [ip ic p c mu em st d o x y]; unfold producer, consumer, filled in *; cbn in *.
  assert (Hx : x = PEmpty /\ value em = 0 \/ x = PMu /\ value mu = 0 \/ x = PDone).
  { clear Hq. destruct x; try done; try (destruct (down _) eqn:D; [done|apply down_wait in D; [|done]]); auto.
    case_match; [|done]. case_match. by destruct (_ =? 0). }
  assert (Hy : y = CStore /\ value st = 0 \/ y = CMu /\ value mu = 0 \/ y = CDone).
  { clear Hp. destruct y; try done; try (destruct (down _) eqn:D; [done|apply down_wait in D; [|done]]); auto.
    case_match; [|done]. by destruct (_ =? 0). }
  destruct Hx as [[-> Zx]|[[-> Zx]| ->]], Hy as [[-> Zy]|[[-> Zy]| ->]]; cbn in *;
    try (destruct He as [-> _]; [done|]); try lia; done.
Qed.

Definition p_rank (x : ppc) : Z :=
  match x with PEmpty => 5 | PMu => 4 | PUnMu => 3 | PRead => 2 | PPost => 6 | PLast => 1 | PDone | PCrash => 0 end.
Definition c_rank (y : cpc) : Z :=
  match y with CStore => 4 | CMu => 3 | CUnMu => 2 | CTest => 1 | CPost => 5 | CDone | CCrash => 0 end.

(** The work left when the file ends at the [e]-th read(). *)
Definition work (e : Z) (s : state) : Z :=
  p_rank (pp s) + c_rank (cp s) + 5 * (e - rd s) + 5 * (e - wr s).

Lemma cp_work_step e s s' : step s s' -> work e s' < work e s.
Proof.
  destruct s as [ip ic p c mu em st d o x y].
  intros [_ [Hx|Hx]]; unfold producer, consumer in Hx; cbn in Hx; unfold work.
  - destruct x; try done; repeat (case_match || (destruct (down _); cbn in Hx; [|done])); injection Hx as <-; cbn; lia.
  - destruct y; try done; repeat (case_match || (destruct (down _); cbn in Hx; [|done])); injection Hx as <-; cbn; lia.
Qed.

Lemma cp_work_nonneg e s : inv s -> rd s <= e -> 0 <= work e s.
Proof.
  intros I He. pose proof (order _ I). unfold work. assert (0 <= p_rank (pp s)) by (destruct (pp s); done).
  assert (0 <= c_rank (cp s)) by (destruct (cp s); done). lia.
Qed.

Lemma eof_bound e s : inv s -> 0 <= e -> read e = Some [] -> rd s <= e.
Proof. intros I He Hr. destruct (decide (rd s <= e)); [done|]. destruct (before_eof _ I e); [lia|done]. Qed.

Lemma cp_run_inv k s s' : nsteps step k s s' -> inv s ->
  inv s' /\ forall e, work e s' <= work e s - Z.of_nat k.
Proof.
  induction 1 as [s|k s1 s2 s3 Hs Hn IH]; intros I; [split; [done|intros; lia]|].
  destruct (IH (cp_inv_step _ _ I Hs)) as (I' & Hw).
  split; [done|]. intros e. pose proof (cp_work_step e _ _ Hs). specialize (Hw e). lia.
Qed.

Lemma cp_step_or_stuck s : (exists s', step s s') \/ (forall s', ~ step s s').
Proof.
  destruct (crashed s) eqn:C; [right; intros s' [? _]; congruence|].
  destruct (producer s) as [s'|] eqn:E; [left; exists s'; by split; [|left]|].
  destruct (consumer s) as [s'|] eqn:F; [left; exists s'; by split; [|right]|].
  right. intros s' [_ [?|?]]; congruence.
Qed.

End Program.

(** C37: SemMultiBuff writes what it reads: in every interleaving the output is the
    sequence, in order, of what each write() wrote of the block of the read() of the
    same number, and when every write() wrote its whole block it is the concatenation
    of the blocks; no state is a deadlock.  The program always stops, within [10 e +
    9] steps when the file ends at the [e]-th read(), having given every block before
    it to write().  It ends no other way but one: after 2^31 reads none of which
    returned 0, as when the file could not be opened and every read() fails, the int
    [i] has become negative and the next store is outside the ring; this does not
    happen when the file ends before. *)
Theorem copy_correct `{Semaphore T} NBUFF read write d (mu empty store : T) k s :
  0 < NBUFF -> Z.rem (2 ^ 31) NBUFF <> 0 -> length d = Z.to_nat NBUFF -> MultiProdCons.ready NBUFF mu empty store ->
  nsteps (step NBUFF read write) k (main d mu empty store) s ->
  out s = copied read write (wr s) /\
  ((forall j, 0 <= j < wr s -> Z.of_nat (length (chunk read j)) <= write j) ->
     out s = concat (map (chunk read) (seqZ 0 (wr s)))) /\
  ((exists s', step NBUFF read write s s') \/
   (pp s = PDone /\ cp s = CDone /\ wr s = rd s /\ read (wr s) = Some []) \/
   (pp s = PCrash /\ rd s = 2 ^ 31)) /\
  (forall e, 0 <= e -> read e = Some [] -> Z.of_nat k <= 10 * e + 9 /\ (e < 2 ^ 31 -> pp s <> PCrash)) /\
  Z.of_nat k <= 10 * 2 ^ 31 + 9.
Proof.
  intros HN Hodd Hd ((Om & Vm) & (Oe & Ve) & (Os & Vs & Ls)) Hrun.
  destruct (cp_run_inv NBUFF read write HN Hodd k _ s Hrun) as (I & Hw); [apply cp_inv_main; auto; lia|].
  assert (Hk : forall e, rd s <= e -> Z.of_nat k <= 10 * e + 9).
  { intros e He. pose proof (cp_work_nonneg _ _ _ _ _ I He). specialize (Hw e). unfold work in Hw at 2. cbn in Hw. lia. }
  split; [apply (written _ _ _ _ I)|]. split; [|split; [|split]].
  - intros Hf. rewrite (written _ _ _ _ I). unfold copied. f_equal. apply map_ext_in. intros j Hj.
    apply list_elem_of_In, elem_of_seqZ in Hj. unfold put. apply take_ge. specialize (Hf j). lia.
  - destruct (cp_step_or_stuck NBUFF read write s) as [?|Hs]; [by left|right].
    destruct (cp_stuck_done NBUFF read write HN s I Hs) as [[Hp Hc]|Hp]; [left|right].
    + split; [done|]. split; [done|]. by apply (ended _ _ _ _ I).
    + split; [done|]. by apply (crash_at _ _ _ _ I).
  - intros e He Hr. pose proof (eof_bound _ _ _ _ _ I He Hr). split; [by apply Hk|].
    intros Hlt Hp. pose proof (crash_at _ _ _ _ I Hp). lia.
  - apply Hk. by apply (order _ _ _ _ I).
Qed.

(** Three slots; the first write() writes one byte of two, the file ends at the
    second read(). *)
Definition ends (k : Z) : option (list Z) := if k =? 0 then Some [7; 8] else Some [].

Lemma copy_correct_witness :
  exists s : state (T := SemSv.vsem),
    nsteps (step 3 ends (fun _ => 1)) 1
      (main (replicate 3 (Slot 0 [])) (SemSv.VSem (SemSv.Handle 1 SemSv.SEM_MAGIC) 1)
        (SemSv.VSem (SemSv.Handle 2 SemSv.SEM_MAGIC) 3) (SemSv.VSem (SemSv.Handle 3 SemSv.SEM_MAGIC) 0)) s /\
    out s = copied ends (fun _ => 1) (wr s).
Proof.
  assert (Hrun : exists s : state (T := SemSv.vsem),
    nsteps (step 3 ends (fun _ => 1)) 1
      (main (replicate 3 (Slot 0 [])) (SemSv.VSem (SemSv.Handle 1 SemSv.SEM_MAGIC) 1)
        (SemSv.VSem (SemSv.Handle 2 SemSv.SEM_MAGIC) 3) (SemSv.VSem (SemSv.Handle 3 SemSv.SEM_MAGIC) 0)) s).
  { eexists. apply nsteps_once. split; [reflexivity|]. left. vm_compute. reflexivity. }
  destruct Hrun as [s Hs]. exists s. split; [exact Hs|].
  refine (proj1 (copy_correct 3 ends (fun _ => 1) (replicate 3 (Slot 0 [])) _ _ _ 1 s _ _ _ _ Hs));
    [lia|discriminate|reflexivity|].
  repeat split; cbn; unfold SemSv.SEMVMX; lia.
Defined.

End MultiBuff.
