(* ===== verification/MutexCond.v ===== *)
(** * Producers, a consumer, a mutex and a condition variable

    Model of src/IPC/MutexAndCondAndRwlock/MutexAndCond.c and MutexAndCond.h: the
    producers fill the array under [mutexCtrl.mutex] and count the items under
    [condCtrl.mutex]; the consumer waits on [condCtrl.cond] and checks the items.
    A thread advances by one call on a mutex or the condition variable, or by the
    accesses to shared variables between two of them, at a time. *)

From S2P Require Import Prelude.

Module MutexCond.

Definition MAXITEMS : Z := 100000.
Definition MAX_PRODUCERPTHREAD : nat := 10.

Inductive ppc := PLock1 | PBody | PUnlock1 | PLock2 | PIncr | PSignal | PUnlock2 | PExit | PDone | PCrash.
Inductive cpc := CLoop | CLock | CTest | CWait | CWake | CCheck | CUnlock | CDone | CWrong | CCrash.

Record thread := Thread { tpc : ppc; count : Z }.

(** [mutexStru] and [condStru], with a flag for a locked mutex; the consumer's [i]. *)
Record shared := Shared {
  mutex1 : bool; buffIndex : Z; buffVal : Z; buff : list Z;
  mutex2 : bool; uncheck : Z; ci : Z; cpos : cpc }.

Section Program.
Context (MAXITEMS : Z).

Definition set_mutex1 (s : shared) (b : bool) : shared :=
  Shared b (buffIndex s) (buffVal s) (buff s) (mutex2 s) (uncheck s) (ci s) (cpos s).
Definition set_mutex2 (s : shared) (b : bool) : shared :=
  Shared (mutex1 s) (buffIndex s) (buffVal s) (buff s) b (uncheck s) (ci s) (cpos s).
Definition set_uncheck (s : shared) (u : Z) : shared :=
  Shared (mutex1 s) (buffIndex s) (buffVal s) (buff s) (mutex2 s) u (ci s) (cpos s).
Definition set_cpos (s : shared) (c : cpc) : shared :=
  Shared (mutex1 s) (buffIndex s) (buffVal s) (buff s) (mutex2 s) (uncheck s) (ci s) c.

(** pthread_cond_signal: only the consumer ever waits. *)
Definition cond_signal (s : shared) : shared :=
  match cpos s with CWait => set_cpos s CWake | _ => s end.

Definition producer (s : shared) (t : thread) : option (shared * thread) :=
  let go s' p := Some (s', Thread p (count t)) in
  match tpc t with
  | PLock1 => if mutex1 s then None else go (set_mutex1 s true) PBody
  | PBody =>
      if buffIndex s >=? MAXITEMS then go s PExit
      else match astore (buff s) (Z.to_nat (buffIndex s)) (buffVal s) with
      | Some b => go (Shared (mutex1 s) (buffIndex s + 1) (buffVal s + 1) b
                        (mutex2 s) (uncheck s) (ci s) (cpos s)) PUnlock1
      | None => go s PCrash
      end
  | PUnlock1 => go (set_mutex1 s false) PLock2
  | PLock2 => if mutex2 s then None else go (set_mutex2 s true) PIncr
  | PIncr => go (set_uncheck s (uncheck s + 1)) PSignal
  | PSignal => go (cond_signal s) PUnlock2
  | PUnlock2 => Some (set_mutex2 s false, Thread PLock1 (count t + 1))
  | PExit => go (set_mutex1 s false) PDone
  | PDone | PCrash => None
  end.

Definition consumer (s : shared) : option shared :=
  match cpos s with
  | CLoop => Some (set_cpos s (if ci s <? MAXITEMS then CLock else CDone))
  | CLock | CWake => if mutex2 s then None else Some (set_cpos (set_mutex2 s true) CTest)
  | CTest => if uncheck s =? 0 then Some (set_cpos (set_mutex2 s false) CWait) else Some (set_cpos s CCheck)
  | CCheck =>
      if uncheck s >? 0 then
        match aload (buff s) (Z.to_nat (ci s)) with
        | None => Some (set_cpos s CCrash)
        | Some v =>
            if negb (v =? ci s) then Some (set_cpos s CWrong)
            else Some (Shared (mutex1 s) (buffIndex s) (buffVal s) (buff s)
                         (mutex2 s) (uncheck s - 1) (ci s + 1) CCheck)
        end
      else Some (set_cpos s CUnlock)
  | CUnlock => Some (set_cpos (set_mutex2 s false) CLoop)
  | CWait | CDone | CWrong | CCrash => None
  end.

Record state := St { sh : shared; ths : list thread }.

Inductive event := EProducer (i : nat) | EConsumer | ESpurious.

Definition exec (s : state) (e : event) : option state :=
  match e with
  | EProducer i =>
      t ← ths s !! i;
      '(sh', t') ← producer (sh s) t;
      Some (St sh' (<[i := t']> (ths s)))
  | EConsumer => sh' ← consumer (sh s); Some (St sh' (ths s))
  | ESpurious => match cpos (sh s) with CWait => Some (St (set_cpos (sh s) CWake) (ths s)) | _ => None end
  end.

Fixpoint run (s : state) (es : list event) : option state :=
  match es with
  | [] => Some s
  | e :: es' => s' ← exec s e; run s' es'
  end.

Definition main (np : nat) : state :=
  St (Shared false 0 0 (replicate (Z.to_nat MAXITEMS) 0) false 0 0 CLoop)
     (replicate np (Thread PLock1 0)).

(** ** The accounts *)

Definition holds1 (t : thread) : Z := match tpc t with PBody | PUnlock1 | PExit => 1 | _ => 0 end.
Definition holds2 (t : thread) : Z := match tpc t with PIncr | PSignal | PUnlock2 => 1 | _ => 0 end.
Definition c_holds2 (c : cpc) : Z := match c with CTest | CCheck | CUnlock => 1 | _ => 0 end.
Definition pending (t : thread) : Z := match tpc t with PUnlock1 | PLock2 | PIncr => 1 | _ => 0 end.
Definition signals (t : thread) : Z := match tpc t with PSignal => 1 | _ => 0 end.
Definition produced (t : thread) : Z :=
  match tpc t with PUnlock1 | PLock2 | PIncr | PSignal | PUnlock2 => count t + 1 | _ => count t end.

Definition fits (idx : Z) (t : thread) : Prop :=
  match tpc t with PExit | PDone => MAXITEMS <= idx | PCrash => False | _ => True end.

Definition c_fits (s : shared) : Prop :=
  match cpos s with
  | CLock | CTest | CWake => ci s < MAXITEMS
  | CWait => ci s < MAXITEMS
  | CDone => MAXITEMS <= ci s
  | CWrong | CCrash => False
  | _ => True
  end.

Record inv (s : state) : Prop := Inv {
  one1 : b2z (mutex1 (sh s)) = sumz holds1 (ths s);
  one2 : b2z (mutex2 (sh s)) = sumz holds2 (ths s) + c_holds2 (cpos (sh s));
  items : buffIndex (sh s) = ci (sh s) + uncheck (sh s) + sumz pending (ths s);
  bounds : 0 <= ci (sh s) /\ 0 <= uncheck (sh s) /\ buffIndex (sh s) <= MAXITEMS;
  filled : buffVal (sh s) = buffIndex (sh s) /\ length (buff (sh s)) = Z.to_nat MAXITEMS /\
    (forall k, 0 <= k < buffIndex (sh s) -> buff (sh s) !! Z.to_nat k = Some k);
  placed : Forall (fits (buffIndex (sh s))) (ths s);
  c_placed : c_fits (sh s);
  no_lost : cpos (sh s) = CWait -> 0 < uncheck (sh s) -> 0 < sumz signals (ths s);
  counts : sumz produced (ths s) = buffIndex (sh s) }.

Lemma weights t : 0 <= holds1 t <= 1 /\ 0 <= holds2 t <= 1 /\ 0 <= pending t <= 1 /\ 0 <= signals t <= 1.
Proof. destruct t as [[] n]; cbn; lia. Qed.

Lemma sums (l : list thread) : 0 <= sumz holds2 l /\ 0 <= sumz pending l /\ 0 <= sumz signals l.
Proof.
  induction l as [|t l IH]; [done|]. rewrite !sumz_cons. pose proof (weights t). lia.
Qed.

Lemma mc_fits_mono i j t : i <= j -> fits i t -> fits j t.
Proof. unfold fits. destruct (tpc t); intros; try done; lia. Qed.

(** Rebuilds the accounts after a step of the thread found by [Ht]. *)
Ltac reaccount Ht Hpl Hn :=
  constructor; cbn; rewrite ?(sumz_insert _ _ _ _ _ Ht); cbn in *; try done; try lia; try tauto;
  try (apply Hpl; cbn; done || lia); try (intros E1 E2; specialize (Hn E1 E2); lia).

Lemma mc_inv_producer s i t sh' t' : inv s -> ths s !! i = Some t ->
  producer (sh s) t = Some (sh', t') -> inv (St sh' (<[i := t']> (ths s))).
Proof.
  intros [H1 H2 Hi Hb (Hv & Hl & Hf) Hp Hc Hn Hk] Ht Hx.
  pose proof (sums (ths s)).
  pose proof (sumz_lookup holds1 _ _ _ ltac:(intros x; apply (weights x)) Ht).
  pose proof (sumz_lookup holds2 _ _ _ ltac:(intros x; apply (weights x)) Ht).
  pose proof (sumz_lookup pending _ _ _ ltac:(intros x; apply (weights x)) Ht).
  pose proof (Forall_lookup_1 _ _ _ _ Hp Ht) as Hft.
  destruct t as [p n], s as [[m1 bi bv b m2 u c cp] l]. unfold producer in Hx. cbn in *. subst bv.
  pose proof (b2z_range m1). pose proof (b2z_range m2). assert (0 <= c_holds2 cp) by (destruct cp; cbn; lia).
  assert (Hpl : forall j x, bi <= j -> fits j x -> Forall (fits j) (<[i := x]> l)).
  { intros j x Hj Hx'. apply Forall_insert; [|done]. eapply Forall_impl; [exact Hp|].
    intros y. by apply mc_fits_mono. }
  destruct p; try done.
  all: try (destruct m1; [done|]). all: try (destruct m2; [done|]).
  all: try (injection Hx as <- <-; reaccount Ht Hpl Hn; fail).
  - destruct (bi >=? MAXITEMS) eqn:E; [injection Hx as <- <-; reaccount Ht Hpl Hn|].
    rewrite astore_ok in Hx by lia. injection Hx as <- <-; reaccount Ht Hpl Hn.
    split; [done|]. split; [by rewrite length_insert|]. intros k Hk'.
    destruct (decide (k = bi)) as [->|Hne]; [apply list_lookup_insert_eq; lia|].
    rewrite list_lookup_insert_ne by lia. apply Hf. lia.
  - injection Hx as <- <-. unfold cond_signal. cbn. destruct cp; reaccount Ht Hpl Hn.
Qed.

Lemma mc_inv_consumer s sh' : inv s -> consumer (sh s) = Some sh' -> inv (St sh' (ths s)).
Proof.
  intros [H1 H2 Hi Hb (Hv & Hl & Hf) Hp Hc Hn Hk] Hx.
  pose proof (sums (ths s)).
  destruct s as [[m1 bi bv b m2 u c cp] l]. unfold consumer in Hx. cbn in *. subst bv.
  pose proof (b2z_range m1). pose proof (b2z_range m2).
  destruct cp; try done.
  all: try (destruct m2; [done|]).
  all: unfold c_fits in Hc; cbn in Hc.
  - injection Hx as <-. constructor; cbn; try done; try lia; unfold c_fits;
      destruct (c <? MAXITEMS) eqn:E; cbn in *; bprop; try done; lia.
  - injection Hx as <-. constructor; cbn in *; try done; try lia.
  - destruct (u =? 0) eqn:E; injection Hx as <-; constructor; cbn in *; try done; bprop; try lia.
  - injection Hx as <-. constructor; cbn in *; try done; try lia.
  - destruct (u >? 0) eqn:E; [|injection Hx as <-; constructor; cbn in *; done || lia].
    bprop. unfold aload in Hx. rewrite Hf, Z.eqb_refl in Hx by lia. cbn in Hx. injection Hx as <-.
    constructor; cbn in *; try done; try lia.
  - injection Hx as <-. constructor; cbn in *; try done; try lia.
Qed.

Lemma inv_exec s e s' : inv s -> exec s e = Some s' -> inv s'.
Proof.
  intros I Hx. destruct e as [i| |]; unfold exec in Hx.
  - destruct (ths s !! i) as [t|] eqn:Ht; [|done]. cbn in Hx.
    destruct (producer (sh s) t) as [[sh' t']|] eqn:Hp; [|done]. injection Hx as <-.
    by eapply mc_inv_producer.
  - destruct (consumer (sh s)) as [sh'|] eqn:Hc; [|done]. injection Hx as <-. by apply mc_inv_consumer.
  - destruct s as [[m1 bi bv b m2 u c cp] l]. destruct I. cbn in *.
    destruct cp; try done. injection Hx as <-. constructor; cbn in *; try done; lia.
Qed.

Lemma mc_inv_main np : 0 <= MAXITEMS -> inv (main np).
Proof.
  intros HM. constructor; cbn; rewrite ?sumz_replicate; cbn; try done; try lia.
  - split; [done|]. split; [apply length_replicate|]. intros; lia.
  - by apply Forall_replicate.
Qed.

(** ** No deadlock *)

Lemma consumer_waits s : consumer s = None ->
  cpos s = CWait \/ cpos s = CDone \/ cpos s = CWrong \/ cpos s = CCrash \/
  ((cpos s = CLock \/ cpos s = CWake) /\ mutex2 s = true).
Proof. unfold consumer. intros H. repeat case_match; simplify_eq; tauto. Qed.

Lemma producer_waits s t : producer s t = None -> tpc t <> PCrash ->
  (tpc t = PLock1 /\ mutex1 s = true) \/ (tpc t = PLock2 /\ mutex2 s = true) \/ tpc t = PDone.
Proof. unfold producer. intros H Hc. repeat case_match; simplify_eq; tauto. Qed.

Lemma mc_stuck_done s : inv s -> (0 < length (ths s))%nat ->
  (forall i, exec s (EProducer i) = None) -> exec s EConsumer = None ->
  Forall (fun t => tpc t = PDone) (ths s) /\ cpos (sh s) = CDone.
Proof.
  intros I Hlen Hp Hc. destruct I as [H1 H2 Hi Hb (Hv & Hl & Hf) Hpl Hcf Hn Hk].
  assert (Hw : forall i t, ths s !! i = Some t ->
    tpc t = PLock1 /\ mutex1 (sh s) = true \/ tpc t = PLock2 /\ mutex2 (sh s) = true \/ tpc t = PDone).
  { intros i t Ht. pose proof (Forall_lookup_1 _ _ _ _ Hpl Ht) as Hft.
    specialize (Hp i). unfold exec in Hp. rewrite Ht in Hp. cbn in Hp.
    apply producer_waits; [by destruct (producer (sh s) t) as [[? ?]|]|].
    intros E. unfold fits in Hft. by rewrite E in Hft. }
  assert (Z1 : sumz holds1 (ths s) = 0).
  { apply sumz_zero. intros i t Ht. unfold holds1. by destruct (Hw i t Ht) as [[-> _]|[[-> _]| ->]]. }
  assert (Z2 : sumz holds2 (ths s) = 0).
  { apply sumz_zero. intros i t Ht. unfold holds2. by destruct (Hw i t Ht) as [[-> _]|[[-> _]| ->]]. }
  assert (M1 : mutex1 (sh s) = false) by (destruct (mutex1 (sh s)); [cbn in H1; lia|done]).
  assert (Hcs : consumer (sh s) = None) by (unfold exec in Hc; by destruct (consumer (sh s))).
  apply consumer_waits in Hcs. unfold c_fits in Hcf.
  assert (M2 : mutex2 (sh s) = false).
  { destruct (mutex2 (sh s)); [|done]. cbn in H2.
    destruct Hcs as [E|[E|[E|[E|[[E|E] _]]]]]; rewrite E in H2; cbn in H2; lia. }
  assert (Hd : forall i t, ths s !! i = Some t -> tpc t = PDone).
  { intros i t Ht. destruct (Hw i t Ht) as [[_ ?]|[[_ ?]|?]]; congruence. }
  split; [by apply Forall_lookup_2|].
  assert (Hidx : MAXITEMS <= buffIndex (sh s)).
  { destruct (lookup_lt_is_Some_2 (ths s) 0 Hlen) as [t Ht].
    pose proof (Forall_lookup_1 _ _ _ _ Hpl Ht) as Hft. unfold fits in Hft. by rewrite (Hd _ _ Ht) in Hft. }
  rewrite (sumz_zero pending) in Hi by (intros i t Ht; unfold pending; by rewrite (Hd i t Ht)).
  rewrite (sumz_zero signals) in Hn by (intros i t Ht; unfold signals; by rewrite (Hd i t Ht)).
  destruct Hcs as [E|[E|[E|[E|[_ E]]]]]; [|done|by rewrite E in Hcf..|congruence].
  rewrite E in Hcf. destruct (decide (0 < uncheck (sh s))) as [Hu|Hu]; [specialize (Hn E Hu)|]; lia.
Qed.

(** ** The number of steps *)

Definition rank (t : thread) : Z :=
  match tpc t with
  | PLock1 => 3 | PBody => 2 | PExit => 1 | PDone | PCrash => 0
  | PUnlock1 => 11 | PLock2 => 10 | PIncr => 9 | PSignal => 8 | PUnlock2 => 4
  end.
Definition c_rank (s : shared) : Z :=
  match cpos s with
  | CWait | CDone | CWrong | CCrash => 0
  | CTest => 1 | CLock | CWake => 2 | CLoop => 3 | CUnlock => 4
  | CCheck => if uncheck s >? 0 then 0 else 5
  end.

Definition work (s : state) : Z :=
  sumz rank (ths s) + c_rank (sh s) + 10 * (MAXITEMS - buffIndex (sh s)) + 6 * (MAXITEMS - ci (sh s)).

Definition is_spurious (e : event) : bool := match e with ESpurious => true | _ => false end.

Lemma work_exec s e s' : inv s -> exec s e = Some s' ->
  work s' <= work s - 1 + 3 * b2z (is_spurious e).
Proof.
  intros I Hx. destruct e as [i| |]; unfold exec in Hx; unfold work, c_rank.
  - destruct (ths s !! i) as [t|] eqn:Ht; [|done]. cbn in Hx.
    destruct (producer (sh s) t) as [[sh' t']|] eqn:Hp; [|done]. injection Hx as <-.
    cbn [sh ths]. rewrite (sumz_insert _ _ _ _ _ Ht). destruct t as [p n].
    pose proof (one2 _ I) as H2. pose proof (sums (ths s)).
    pose proof (sumz_lookup holds2 _ _ _ ltac:(intros x; apply (weights x)) Ht) as Hh2.
    pose proof (b2z_range (mutex2 (sh s))).
    unfold producer, cond_signal in Hp. destruct (sh s) as [m1 bi bv b m2 u c cp]. cbn in *.
    destruct p; try done; repeat case_match; simplify_eq; cbn in *; lia.
  - destruct (consumer (sh s)) as [sh'|] eqn:Hc; [|done]. injection Hx as <-. cbn [sh ths].
    pose proof (c_placed _ (mc_inv_consumer _ _ I Hc)) as Hcf. pose proof (bounds _ I).
    unfold c_fits in Hcf. cbn [sh] in Hcf. unfold consumer in Hc. destruct (sh s) as [m1 bi bv b m2 u c cp]. cbn in *.
    destruct cp; try done; repeat case_match; simplify_eq; cbn in *; bprop; try lia.
  - destruct s as [[m1 bi bv b m2 u c cp] l]. cbn in *. destruct cp; try done. injection Hx as <-. cbn. lia.
Qed.

Lemma mc_run_inv es : forall s s', inv s -> run s es = Some s' ->
  inv s' /\ length (ths s') = length (ths s) /\
  work s' <= work s - Z.of_nat (length es) + 3 * cnt is_spurious es.
Proof.
  induction es as [|e es IH]; intros s s' I Hr; cbn in Hr.
  { injection Hr as <-. rewrite cnt_nil. cbn. split; [done|split; [done|lia]]. }
  destruct (exec s e) as [s1|] eqn:Hx; [|done]. cbn in Hr.
  pose proof (work_exec _ _ _ I Hx). destruct (IH s1 s' (inv_exec _ _ _ I Hx) Hr) as (I' & Hl & Hw).
  rewrite cnt_cons. split; [done|]. cbn [length]. split; [|lia]. rewrite Hl.
  destruct e as [i| |]; unfold exec in Hx.
  - destruct (ths s !! i) as [t|]; [|done]. cbn in Hx. destruct (producer (sh s) t) as [[? ?]|]; [|done].
    injection Hx as <-. cbn. apply length_insert.
  - destruct (consumer (sh s)); [|done]. by injection Hx as <-.
  - destruct (cpos (sh s)); try done. by injection Hx as <-.
Qed.

Lemma mc_work_nonneg s : inv s -> ci (sh s) <= MAXITEMS -> 0 <= work s.
Proof.
  intros I Hc. pose proof (bounds _ I). unfold work.
  assert (0 <= sumz rank (ths s)).
  { induction (ths s) as [|[[] n] l IH]; [done|..]; rewrite sumz_cons; cbn [rank tpc]; lia. }
  assert (0 <= c_rank (sh s)); [|lia].
  unfold c_rank. destruct (cpos (sh s)); try lia. destruct (_ >? 0); lia.
Qed.

Lemma ci_bound s : inv s -> ci (sh s) <= MAXITEMS.
Proof. intros I. pose proof (bounds _ I). pose proof (items _ I). pose proof (sums (ths s)). lia. Qed.
End Program.

(** C13: any number of producers: in every interleaving, spurious wake-ups included,
    the consumer finds every item in its place (the program never takes its
    exit(-1)) and no access leaves the array; as long as not every thread has
    finished some thread can go on; and the program ends: apart from three for each
    spurious wake-up, the number of its steps is bounded in advance.  When it has
    ended the producers' counters add up to the number of items. *)
Theorem mutexcond_correct MAXITEMS np es s :
  0 <= MAXITEMS -> (0 < np)%nat -> run MAXITEMS (main MAXITEMS np) es = Some s ->
  cpos (sh s) <> CWrong /\ cpos (sh s) <> CCrash /\ Forall (fun t => tpc t <> PCrash) (ths s) /\
  Z.of_nat (length es) <= 3 * Z.of_nat np + 3 + 16 * MAXITEMS + 3 * cnt is_spurious es /\
  ((exists e, e <> ESpurious /\ is_Some (exec MAXITEMS s e)) \/
   (cpos (sh s) = CDone /\ Forall (fun t => tpc t = PDone) (ths s) /\
    ci (sh s) = MAXITEMS /\ sumz count (ths s) = MAXITEMS)).
Proof.
  intros HM Hnp Hr.
  destruct (mc_run_inv _ es _ s (mc_inv_main MAXITEMS np HM) Hr) as (I & Hl & Hw).
  cbn in Hl. rewrite length_replicate in Hl.
  pose proof (mc_work_nonneg _ s I (ci_bound _ s I)). pose proof (ci_bound _ s I).
  pose proof (c_placed _ _ I) as Hcf. unfold c_fits in Hcf.
  split; [intros E; by rewrite E in Hcf|]. split; [intros E; by rewrite E in Hcf|]. split.
  { eapply Forall_impl; [apply (placed _ _ I)|]. intros t Ht E. unfold fits in Ht. by rewrite E in Ht. }
  split.
  { unfold work in Hw at 2. cbn in Hw. rewrite sumz_replicate in Hw. cbn in Hw. lia. }
  destruct (exec MAXITEMS s EConsumer) eqn:Ec.
  { left. exists EConsumer. by rewrite Ec. }
  destruct (decide (Exists (fun i => is_Some (exec MAXITEMS s (EProducer i))) (seq 0 np))) as [E|E].
  { left. apply Exists_exists in E as (i & _ & Hi). by exists (EProducer i). }
  right. destruct (mc_stuck_done MAXITEMS s I) as [Hd Hc]; [lia| |done|].
  - intros i. destruct (exec MAXITEMS s (EProducer i)) eqn:Ei; [|done]. destruct E.
    apply Exists_exists. exists i. split; [|by rewrite Ei]. apply elem_of_seq.
    unfold exec in Ei. destruct (ths s !! i) eqn:Ht; [|done]. apply lookup_lt_Some in Ht. lia.
  - rewrite Hc in Hcf. split; [done|]. split; [done|]. split; [lia|].
    pose proof (bounds _ _ I). pose proof (items _ _ I) as Hi. pose proof (counts _ _ I) as Hk.
    assert (Hs : sumz produced (ths s) = sumz count (ths s) /\ sumz pending (ths s) = 0).
    { clear -Hd. induction Hd as [|t l Ht _ [IH1 IH2]]; [done|]. rewrite !sumz_cons, IH1, IH2.
      unfold produced, pending. by rewrite Ht. }
    lia.
Qed.

Lemma mutexcond_correct_witness :
  exists s, run 1 (main 1 2) [EConsumer; EConsumer; EConsumer; EProducer 1] = Some s /\
    cpos (sh s) <> CWrong.
Proof.
  eexists. split; [vm_compute; reflexivity|].
  refine (proj1 (mutexcond_correct 1 2 [EConsumer; EConsumer; EConsumer; EProducer 1] _ _ _ _)); [lia|lia|].
  vm_compute. reflexivity.
Defined.

End MutexCond.
