(* ===== verification/RobustIO.v ===== *)
(** * Reading and writing whole records and lines

    Model of src/UNPLearning/unpv13e/lib: readn.c, writen.c, readline.c, str_echo.c
    and str_cli.c.  A descriptor that is read is a list of what its read() calls
    meet: blocks of bytes, interruptions and errors; a block larger than the count
    asked for is returned in parts, an empty block is the end of file, and a read()
    beyond the list is still waiting.  A descriptor that is written is the list of
    what its write() calls answer, with the bytes accepted so far. *)

From S2P Require Import Prelude.

Module RobustIO.

Inductive arrival := Block (l : list Z) | Interrupted | Broken (e : errno).

(** read(fd, ptr, n) with [n > 0]. *)
Inductive read_result := Got (l : list Z) | RError (e : errno) | RWait.

Definition k_read (n : nat) (s : list arrival) : read_result * list arrival :=
  match s with
  | [] => (RWait, [])
  | Interrupted :: s' => (RError EINTR, s')
  | Broken e :: s' => (RError e, s')
  | Block l :: s' =>
      if (length l <=? n)%nat then (Got l, s') else (Got (take n l), Block (drop n l) :: s')
  end.

(** ** readn *)

(** The loop with [done_] bytes already at the start of the buffer.  A store outside
    the buffer is [Abort]. *)
Fixpoint readn_loop (fuel : nat) (s : list arrival) (buf : list Z) (done_ nleft : nat)
  : outcome nat * list Z * list arrival :=
  match nleft with
  | O => (Ret done_, buf, s)
  | _ =>
    match fuel with
    | O => (Blocked, buf, s)
    | S fuel' =>
      match k_read nleft s with
      | (RWait, s') => (Blocked, buf, s')
      | (RError e, s') =>
          if bool_decide (e = EINTR) then readn_loop fuel' s' buf done_ nleft else (Fail e, buf, s')
      | (Got [], s') => (Ret done_, buf, s')
      | (Got l, s') =>
          match write_at buf done_ l with
          | None => (Abort, buf, s')
          | Some buf' => readn_loop fuel' s' buf' (done_ + length l) (nleft - length l)
          end
      end
    end
  end.

Definition readn (s : list arrival) (buf : list Z) (n : nat) : outcome nat * list Z * list arrival :=
  readn_loop (S (length s)) s buf 0 n.

(** ** writen *)

Inductive answer := Took (n : nat) | WInterrupted | WError (e : errno).
Record sink := Sink { accepted : list Z; answers : list answer }.

(** write(fd, ptr, n): at most [n] bytes are taken, and at least one unless [n = 0]
    or the answer is a 0; [None] is a write() that waits. *)
Definition k_write (w : sink) (l : list Z) : option (nat + errno) * sink :=
  match answers w with
  | [] => (None, w)
  | Took k :: r => let k' := Nat.min k (length l) in (Some (inl k'), Sink (accepted w ++ take k' l) r)
  | WInterrupted :: r => (Some (inr EINTR), Sink (accepted w) r)
  | WError e :: r => (Some (inr e), Sink (accepted w) r)
  end.

(** A write() that returns 0 is an error with the [errno] of some earlier call, here
    [Eother 0]. *)
Fixpoint writen_loop (fuel : nat) (w : sink) (l : list Z) : outcome unit * sink :=
  match l with
  | [] => (Ret tt, w)
  | _ =>
    match fuel with
    | O => (Blocked, w)
    | S fuel' =>
      match k_write w l with
      | (None, w') => (Blocked, w')
      | (Some (inr e), w') => if bool_decide (e = EINTR) then writen_loop fuel' w' l else (Fail e, w')
      | (Some (inl O), w') => (Fail (Eother 0), w')
      | (Some (inl k), w') => writen_loop fuel' w' (drop k l)
      end
    end
  end.

(** The count returned is [length l]. *)
Definition writen (w : sink) (l : list Z) : outcome unit * sink := writen_loop (S (length (answers w))) w l.
(** The wrapper ends the process. *)
Definition Writen (w : sink) (l : list Z) : outcome unit * sink :=
  match writen w l with (Fail _, w') => (Exit 1, w') | x => x end.

(** ** readline *)

Definition MAXLINE : nat := 4096.

(** The static buffer: [read_buf] from [read_ptr] on, of which [read_cnt] bytes count. *)
Record rbuf := RBuf { read_cnt : Z; pending : list Z }.

Inductive byte_result := Byte (c : Z) | Eof | ByteError (e : errno) | ByteWait | ByteFault.

(** The read() of [my_read], with its [goto again]. *)
Fixpoint fill (fuel : nat) (s : list arrival) : read_result * list arrival :=
  match fuel with
  | O => (RWait, s)
  | S fuel' =>
      match k_read MAXLINE s with
      | (RError e, s') => if bool_decide (e = EINTR) then fill fuel' s' else (RError e, s')
      | x => x
      end
  end.

Definition my_read (b : rbuf) (s : list arrival) : byte_result * rbuf * list arrival :=
  let next b s := match pending b with
    | c :: l => (Byte c, RBuf (read_cnt b - 1) l, s)
    | [] => (ByteFault, b, s)
    end in
  if read_cnt b <=? 0 then
    match fill (S (length s)) s with
    | (RWait, s') => (ByteWait, b, s')
    | (RError e, s') => (ByteError e, RBuf (-1) (pending b), s')
    | (Got [], s') => (Eof, RBuf 0 (pending b), s')
    | (Got l, s') => next (RBuf (Z.of_nat (length l)) l) s'
    end
  else next b s.

Definition newline : Z := 10.

(** [for (n = 1; n < maxlen; n++)]: [todo] is [maxlen - n], [acc] the bytes stored. *)
Fixpoint readline_loop (todo : nat) (n : nat) (b : rbuf) (s : list arrival) (acc : list Z)
  : outcome nat * list Z * rbuf * list arrival :=
  match todo with
  | O => (Ret n, acc, b, s)
  | S todo' =>
      match my_read b s with
      | (Byte c, b', s') =>
          if c =? newline then (Ret n, acc ++ [c], b', s')
          else readline_loop todo' (S n) b' s' (acc ++ [c])
      | (Eof, b', s') => (Ret (Nat.pred n), acc, b', s')
      | (ByteError e, b', s') => (Fail e, acc, b', s')
      | (ByteWait, b', s') => (Blocked, acc, b', s')
      | (ByteFault, b', s') => (Abort, acc, b', s')
      end
  end.

(** The bytes stored are followed by a null byte, also at the end of file; [maxlen]
    is the size of the caller's buffer. *)
Definition readline (b : rbuf) (s : list arrival) (maxlen : nat) : outcome nat * list Z * rbuf * list arrival :=
  readline_loop (maxlen - 1) 1 b s [].

(** What readline() has not handed out yet. *)
Definition readlinebuf (b : rbuf) : Z * list Z := (read_cnt b, pending b).

(** ** str_echo *)

Fixpoint str_echo_loop (fuel : nat) (s : list arrival) (w : sink) : outcome unit * list arrival * sink :=
  match fuel with
  | O => (Blocked, s, w)
  | S fuel' =>
      match k_read MAXLINE s with
      | (RWait, s') => (Blocked, s', w)
      | (RError e, s') => if bool_decide (e = EINTR) then str_echo_loop fuel' s' w else (Exit 1, s', w)
      | (Got [], s') => (Ret tt, s', w)
      | (Got l, s') =>
          match Writen w l with
          | (Ret _, w') => str_echo_loop fuel' s' w'
          | (o, w') => (o, s', w')
          end
      end
  end.

(** What is left to read, in calls. *)
Fixpoint size (s : list arrival) : nat :=
  match s with [] => 0%nat | Block l :: s' => S (length l + size s') | _ :: s' => S (size s') end.

Definition str_echo (s : list arrival) (w : sink) : outcome unit * list arrival * sink :=
  str_echo_loop (S (size s)) s w.

(** ** The stream behind a descriptor, however it is cut into blocks *)

Inductive ending := AtEof | AtError (e : errno) | AtWait.

Fixpoint stream (s : list arrival) : list Z * ending :=
  match s with
  | [] => ([], AtWait)
  | Interrupted :: s' => stream s'
  | Broken e :: s' => if bool_decide (e = EINTR) then stream s' else ([], AtError e)
  | Block [] :: _ => ([], AtEof)
  | Block l :: s' => (l ++ (stream s').1, (stream s').2)
  end.

Definition end_nat (k : nat) (e : ending) : outcome nat :=
  match e with AtEof => Ret k | AtError e => Fail e | AtWait => Blocked end.

#[global] Arguments k_read : simpl never.

(** One read(): it delivers the beginning of the stream, or its end. *)
Lemma k_read_spec n s : (0 < n)%nat ->
  match k_read n s with
  | (RWait, s') => s = [] /\ s' = []
  | (RError e, s') => size s = S (size s') /\ length s = S (length s') /\
      (e = EINTR /\ stream s = stream s' \/ e <> EINTR /\ stream s = ([], AtError e))
  | (Got [], s') => stream s = ([], AtEof)
  | (Got l, s') => (length l <= n)%nat /\ (size s' < size s)%nat /\
      (length s = S (length s') \/ length l = n /\ length s = length s') /\
      stream s = (l ++ (stream s').1, (stream s').2)
  end.
Proof.
  intros Hn. unfold k_read. destruct s as [|[l| |e] s]; [done|..].
  - destruct (length l <=? n)%nat eqn:E.
    + apply Nat.leb_le in E. destruct l as [|c l]; [done|]. repeat split; [done|cbn; lia|by left].
    + apply Nat.leb_gt in E. destruct l as [|c l]; [simpl in E; lia|]. destruct n as [|n]; [lia|].
      cbn [take drop]. split; [cbn; rewrite length_take; simpl in E; lia|].
      split; [cbn; rewrite length_drop; simpl in E; lia|].
      split; [right; split; [cbn; rewrite length_take; simpl in E; lia|done]|].
      simpl in E. assert (Hd : drop n l <> []) by (intros Hd; apply (f_equal length) in Hd; rewrite length_drop in Hd; cbn [length] in *; lia).
      cbn [stream]. destruct (drop n l) as [|x m] eqn:Em; [done|]. cbn [fst snd].
      rewrite <- Em. cbn [app]. by rewrite app_assoc, take_drop.
  - repeat split. by left.
  - repeat split. cbn [stream]. case_bool_decide; auto.
Qed.

(** ** readn *)

Lemma readn_loop_spec : forall fuel n s pre buf post,
  (length s < fuel)%nat \/ n = 0%nat -> length buf = n ->
  exists s', readn_loop fuel s (pre ++ buf ++ post) (length pre) n =
    (let '(d, e) := stream s in
     if decide (n <= length d)%nat
     then (Ret (length pre + n)%nat, pre ++ take n d ++ post, s')
     else (end_nat (length pre + length d) e, pre ++ d ++ drop (length d) buf ++ post, s')) /\
    (let '(d, e) := stream s in (n <= length d)%nat -> stream s' = (drop n d, e)).
Proof.
  induction fuel as [|fuel IH]; intros n s pre buf post Hf Hb.
  { destruct Hf as [?| ->]; [lia|]. apply nil_length_inv in Hb as ->.
    exists s. cbn. destruct (stream s) as [d e]. rewrite decide_True by lia. cbn.
    rewrite Nat.add_0_r. done. }
  destruct n as [|n].
  { apply nil_length_inv in Hb as ->. exists s. cbn. destruct (stream s) as [d e].
    rewrite decide_True by lia. cbn. rewrite Nat.add_0_r. done. }
  destruct Hf as [Hf|?]; [|done]. cbn [readn_loop].
  pose proof (k_read_spec (S n) s ltac:(lia)) as Hk. destruct (k_read (S n) s) as [[l|e|] s1].
  - destruct l as [|c l].
    + exists s1. rewrite Hk. rewrite decide_False by (cbn; lia). cbn. rewrite Nat.add_0_r. split; [done|lia].
    + destruct Hk as (Hl & _ & Hsz & Hs). set (m := length (c :: l)) in *.
      destruct (IH (S n - m)%nat s1 (pre ++ c :: l) (drop m buf) post) as (s' & E & Hs').
      { destruct Hsz as [?|[? _]]; [left; lia|right; lia]. }
      { rewrite length_drop. lia. }
      exists s'. rewrite (write_at_eq _ pre (take m buf) (drop m buf ++ post) (length pre) (c :: l));
        [|by rewrite (app_assoc (take m buf)), take_drop|done|by rewrite length_take; unfold m; lia].
      rewrite length_app in E. rewrite <- !app_assoc in E. fold m in E. rewrite E. clear E.
      rewrite Hs. destruct (stream s1) as [d e]. cbn [fst snd]. rewrite length_app. fold m. split.
      * destruct (decide (S n - m <= length d)%nat) as [Hle|Hle].
        -- rewrite decide_True by lia. rewrite take_app. fold m. rewrite (take_ge (c :: l)) by done.
           rewrite <- !app_assoc. do 3 f_equal. lia.
        -- rewrite decide_False by lia. rewrite <- drop_drop, <- !app_assoc, Nat.add_assoc. done.
      * intros Hle. rewrite Hs' by lia. rewrite drop_app. fold m. rewrite (drop_ge (c :: l)) by done. done.
  - destruct Hk as (_ & Hlen & [[-> Hs]|[He Hs]]).
    + rewrite bool_decide_true by done. rewrite Hs. apply IH; [left; lia|done].
    + rewrite bool_decide_false by done. rewrite Hs. exists s1. rewrite decide_False by (cbn; lia).
      cbn. split; [done|lia].
  - destruct Hk as [-> ->]. exists []. cbn. done.
Qed.

(** ** writen *)

Lemma writen_loop_spec fuel : forall w l o w', (length (answers w) < fuel)%nat ->
  writen_loop fuel w l = (o, w') ->
  exists k, accepted w' = accepted w ++ take k l /\ (k <= length l)%nat /\
    match o with
    | Ret _ => k = length l
    | Fail e => (k < length l)%nat /\ e <> EINTR
    | Blocked => answers w' = []
    | _ => False
    end.
Proof.
  induction fuel as [|fuel IH]; intros w l o w' Hf H; [lia|].
  destruct l as [|c l]; [injection H as <- <-; exists 0%nat; by rewrite app_nil_r|].
  cbn [writen_loop] in H. unfold k_write in H. destruct w as [acc [|[k| |e] r]]; cbn [answers accepted] in *.
  - injection H as <- <-. exists 0%nat. cbn. rewrite app_nil_r. split; [done|]. split; [lia|done].
  - cbn [length] in Hf. destruct (Nat.min k (length (c :: l))) as [|m] eqn:Em.
    + injection H as <- <-. exists 0%nat. cbn. split; [done|]. split; [lia|]. split; [lia|done].
    + apply IH in H as (k' & Ha & Hk & Ho); [|cbn; lia]. cbn [accepted] in Ha.
      exists (S m + k')%nat. rewrite length_drop in *. split; [|split; [lia|]].
      * rewrite Ha, <- app_assoc. f_equal. by rewrite take_take_drop.
      * destruct o; try done; [lia|]. destruct Ho; split; [lia|done].
  - rewrite bool_decide_true in H by done. apply IH in H; [exact H|cbn in *; lia].
  - case_bool_decide as E; [apply IH in H; [exact H|cbn in *; lia]|].
    injection H as <- <-. exists 0%nat. cbn. rewrite app_nil_r. split; [done|]. split; [lia|]. split; [lia|done].
Qed.

(** ** readline *)

(** What the buffer and the descriptor still deliver. *)
Definition ahead (b : rbuf) (s : list arrival) : list Z * ending :=
  if read_cnt b <=? 0 then stream s else (pending b ++ (stream s).1, (stream s).2).
Definition sound (b : rbuf) : Prop := 0 < read_cnt b -> read_cnt b = Z.of_nat (length (pending b)).

Lemma fill_spec fuel : forall s, (length s < fuel)%nat ->
  match fill fuel s with
  | (RWait, s') => stream s = ([], AtWait)
  | (RError e, s') => stream s = ([], AtError e)
  | (Got [], s') => stream s = ([], AtEof)
  | (Got l, s') => stream s = (l ++ (stream s').1, (stream s').2)
  end.
Proof.
  induction fuel as [|fuel IH]; intros s Hf; [lia|]. cbn [fill].
  pose proof (k_read_spec MAXLINE s ltac:(unfold MAXLINE; lia)) as Hk.
  destruct (k_read MAXLINE s) as [[[|c l]|e|] s'].
  - done.
  - apply Hk.
  - destruct Hk as (_ & Hl & [[-> Hs]|[He Hs]]).
    + rewrite bool_decide_true by done. rewrite Hs. apply IH. lia.
    + by rewrite bool_decide_false.
  - by destruct Hk as [-> _].
Qed.

Lemma my_read_spec b s : sound b ->
  match my_read b s with
  | (Byte c, b', s') => sound b' /\ ahead b s = (c :: (ahead b' s').1, (ahead b' s').2)
  | (Eof, b', s') => sound b' /\ ahead b s = ([], AtEof)
  | (ByteError e, b', s') => sound b' /\ ahead b s = ([], AtError e)
  | (ByteWait, b', s') => ahead b s = ([], AtWait)
  | (ByteFault, _, _) => False
  end.
Proof.
  intros Hb.
  assert (Ha : ahead b s = if read_cnt b <=? 0 then stream s else (pending b ++ (stream s).1, (stream s).2)) by done.
  rewrite Ha. clear Ha. unfold my_read. destruct (read_cnt b <=? 0) eqn:E.
  - pose proof (fill_spec (S (length s)) s ltac:(lia)) as Hf.
    destruct (fill (S (length s)) s) as [[[|c l]|e|] s']; try done.
    cbn [pending read_cnt]. unfold sound, ahead; cbn [pending read_cnt]. rewrite Hf. split; [cbn; lia|].
    destruct (Z.of_nat (length (c :: l)) - 1 <=? 0) eqn:E1; bprop; [|done].
    destruct l; [done|cbn in E1; lia].
  - bprop. specialize (Hb E). destruct (pending b) as [|c l]; [cbn in Hb; lia|].
    cbn [pending read_cnt]. unfold sound, ahead; cbn [pending read_cnt]. cbn [length] in Hb. split; [lia|].
    destruct (read_cnt b - 1 <=? 0) eqn:E1; bprop; [|done].
    destruct l; [done|cbn in Hb; lia].
Qed.

(** The line at the head of [d], of at most [m] bytes: up to and with a newline, or
    [None] if there is no newline within them. *)
Fixpoint line_of (m : nat) (d : list Z) : option (list Z) :=
  match m, d with
  | O, _ | _, [] => None
  | S m', c :: d' => if c =? newline then Some [c] else (c ::.) <$> line_of m' d'
  end.

Lemma readline_loop_spec m : forall n b s acc o res b' s', sound b -> (1 <= n)%nat ->
  readline_loop m n b s acc = (o, res, b', s') ->
  let '(d, e) := ahead b s in
  match line_of m d with
  | Some l => o = Ret (n - 1 + length l)%nat /\ res = acc ++ l /\ sound b' /\ ahead b' s' = (drop (length l) d, e)
  | None =>
      if decide (m <= length d)%nat
      then o = Ret (n + m)%nat /\ res = acc ++ take m d /\ sound b' /\ ahead b' s' = (drop m d, e)
      else o = end_nat (n - 1 + length d) e /\ res = acc ++ d
  end.
Proof.
  induction m as [|m IH]; intros n b s acc o res b' s' Hb Hn H; cbn [readline_loop] in H.
  { injection H as <- <- <- <-. destruct (ahead b s) as [d e] eqn:E. cbn. rewrite decide_True by lia.
    rewrite app_nil_r, Nat.add_0_r. auto. }
  pose proof (my_read_spec b s Hb) as Hr.
  destruct (my_read b s) as [[[c| |e1| |] b1] s1].
  - destruct Hr as [Hb1 ->]. cbn [line_of]. destruct (c =? newline) eqn:Ec.
    + injection H as <- <- <- <-. cbn. split; [f_equal; lia|]. split; [done|]. split; [done|].
      by rewrite drop_0, <- surjective_pairing.
    + apply IH in H; [|done|lia]. destruct (ahead b1 s1) as [d e]. cbn [fst snd].
      destruct (line_of m d) as [l|]; cbn [fmap option_fmap option_map].
      * destruct H as (-> & -> & ? & Ha). cbn [length drop]. rewrite <- app_assoc.
        split; [f_equal; lia|auto].
      * cbn [length]. destruct (decide (m <= length d)%nat).
        -- rewrite decide_True by lia. destruct H as (-> & -> & ? & Ha). rewrite <- app_assoc.
           split; [f_equal; lia|auto].
        -- rewrite decide_False by lia. destruct H as (-> & ->). rewrite <- app_assoc.
           split; [f_equal; lia|done].
  - destruct Hr as [_ ->]. cbn. injection H as <- <- <- <-. rewrite app_nil_r, Nat.add_0_r.
    split; [cbn; f_equal; lia|done].
  - destruct Hr as [_ ->]. cbn. injection H as <- <- <- <-. by rewrite app_nil_r.
  - rewrite Hr. cbn. injection H as <- <- <- <-. by rewrite app_nil_r.
  - done.
Qed.

(** ** The properties *)

(** C5: readn() delivers the beginning of the stream, however read() cuts it into
    blocks and however often it is interrupted: all [n] bytes when they come before
    the end, otherwise the bytes there are, with the shorter count at the end of
    file and -1 on an error; the rest of the caller's buffer is unchanged and no
    store falls outside it; and writen() in turn hands over exactly the bytes it is
    given, or a proper prefix of them and an error. *)
Theorem readn_writen_spec s buf n w l :
  (n <= length buf)%nat ->
  (let '(d, e) := stream s in
   let '(o, buf', s') := readn s buf n in
   if decide (n <= length d)%nat
   then o = Ret n /\ buf' = take n d ++ drop n buf /\ stream s' = (drop n d, e)
   else o = end_nat (length d) e /\ buf' = d ++ drop (length d) buf) /\
  (let '(o, w') := writen w l in
   exists k, accepted w' = accepted w ++ take k l /\
     match o with
     | Ret _ => k = length l
     | Fail e => (k < length l)%nat /\ e <> EINTR
     | Blocked => answers w' = []
     | _ => False
     end).
Proof.
  intros Hn. split.
  - destruct (readn_loop_spec (S (length s)) n s [] (take n buf) (drop n buf)) as (s' & E & Hs).
    { left. lia. } { rewrite length_take. lia. }
    cbn [app length] in E. rewrite take_drop in E. unfold readn. rewrite E. clear E.
    destruct (stream s) as [d e]. destruct (decide (n <= length d)%nat) as [Hle|Hle]; [auto|].
    split; [done|]. f_equal. rewrite <- (take_drop n buf) at 3. rewrite drop_app_le by (rewrite length_take; lia).
    done.
  - unfold writen. destruct (writen_loop _ w l) as [o w'] eqn:E.
    apply writen_loop_spec in E as (k & Ha & _ & Ho); [|lia]. exists k. auto.
Qed.

Lemma readn_writen_spec_witness :
  readn [Block [1; 2]; Interrupted; Block [3; 4; 5]] [0; 0; 0; 9] 3 = (Ret 3%nat, [1; 2; 3; 9], [Block [4; 5]]) /\
  (let '(o, w') := writen (Sink [] [Took 2; WInterrupted; Took 9]) [1; 2; 3] in
   exists k, accepted w' = [] ++ take k [1; 2; 3] /\
     match o with
     | Ret _ => k = length [1; 2; 3]
     | Fail e => (k < length [1; 2; 3])%nat /\ e <> EINTR
     | Blocked => answers w' = []
     | _ => False
     end).
Proof.
  split; [reflexivity|].
  refine (proj2 (readn_writen_spec [] [0] 1 (Sink [] [Took 2; WInterrupted; Took 9]) [1; 2; 3] _)).
  simpl. lia.
Defined.

(** C17: readline() returns the lines of the stream: with a newline among the first
    [maxlen - 1] bytes, the line and its length; at the end of file the bytes left
    and their number; and nothing is lost between two calls.  But when the line does
    not fit, it stores [maxlen - 1] bytes and returns [maxlen]: one more than there
    are. *)
Theorem readline_spec b s maxlen o res b' s' :
  sound b -> (1 <= maxlen)%nat -> readline b s maxlen = (o, res, b', s') ->
  let '(d, e) := ahead b s in
  match line_of (maxlen - 1) d with
  | Some l => o = Ret (length l) /\ res = l /\ sound b' /\ ahead b' s' = (drop (length l) d, e)
  | None =>
      if decide (maxlen <= length d + 1)%nat
      then o = Ret maxlen /\ res = take (maxlen - 1) d /\ length res = (maxlen - 1)%nat /\
           sound b' /\ ahead b' s' = (drop (maxlen - 1) d, e)
      else o = end_nat (length d) e /\ res = d
  end.
Proof.
  intros Hb Hm H. apply readline_loop_spec in H; [|done|lia]. destruct (ahead b s) as [d e].
  destruct (line_of (maxlen - 1) d) as [l|].
  - destruct H as (-> & -> & ?). split; [f_equal; lia|auto].
  - destruct (decide (maxlen <= length d + 1)%nat).
    + rewrite decide_True in H by lia. destruct H as (-> & -> & ?). cbn [app].
      split; [f_equal; lia|]. split; [done|]. split; [rewrite length_take; lia|done].
    + rewrite decide_False in H by lia. destruct H as (-> & ->). split; [f_equal; lia|done].
Qed.

Lemma readline_spec_witness :
  readline (RBuf 0 []) [Block [65; 66; 67; 68; 10]] 3 =
    (Ret 3%nat, [65; 66], RBuf 3 [67; 68; 10], []) /\
  ahead (RBuf 3 [67; 68; 10]) [] = ([67; 68; 10], AtWait).
Proof.
  split; [vm_compute; reflexivity|].
  refine (proj2 (proj2 (proj2 (proj2 (readline_spec (RBuf 0 []) [Block [65; 66; 67; 68; 10]] 3
    (Ret 3%nat) [65; 66] (RBuf 3 [67; 68; 10]) [] _ _ _)))));
    [unfold sound; simpl; lia|lia|vm_compute; reflexivity].
Defined.

(** str_echo() *)
Lemma str_echo_loop_spec fuel : forall s w o s' w', (size s < fuel)%nat ->
  str_echo_loop fuel s w = (o, s', w') ->
  exists k, accepted w' = accepted w ++ take k (stream s).1 /\
    match o with
    | Ret _ => (stream s).2 = AtEof /\ k = length (stream s).1
    | Exit _ => (exists e, (stream s).2 = AtError e) /\ k = length (stream s).1 \/ (k < length (stream s).1)%nat
    | Blocked => (stream s).2 = AtWait /\ k = length (stream s).1 \/ answers w' = []
    | _ => False
    end.
Proof.
  induction fuel as [|fuel IH]; intros s w o s' w' Hf H; [lia|]. cbn [str_echo_loop] in H.
  pose proof (k_read_spec MAXLINE s ltac:(unfold MAXLINE; lia)) as Hk.
  destruct (k_read MAXLINE s) as [[l|e|] s1].
  - destruct l as [|c l].
    { injection H as <- <- <-. exists 0%nat. rewrite Hk, app_nil_r. auto. }
    destruct Hk as (_ & Hsz & _ & Hs). rewrite Hs. cbn [fst snd]. unfold Writen, writen in H.
    destruct (writen_loop _ w (c :: l)) as [o1 w1] eqn:E.
    apply writen_loop_spec in E as (k & Ha & Hkl & Ho); [|lia].
    destruct o1; try done.
    + apply IH in H as (k' & Ha' & Ho'); [|lia]. subst k. rewrite take_ge in Ha by done.
      exists (length (c :: l) + k')%nat. rewrite Ha', Ha, <- app_assoc.
      split; [by rewrite take_app_add|]. rewrite length_app.
      destruct o; try done; try lia.
      * destruct Ho'; split; [done|lia].
      * destruct Ho' as [[? ?]|?]; [left; split; [done|lia]|right; lia].
      * destruct Ho' as [[? ?]|?]; [left; split; [done|lia]|by right].
    + injection H as <- <- <-. exists k. rewrite take_app_le by done. split; [done|]. right.
      rewrite length_app. destruct Ho. lia.
    + injection H as <- <- <-. exists k. rewrite take_app_le by done. auto.
  - destruct Hk as (Hsz & _ & [[-> Hs]|[He Hs]]).
    + rewrite bool_decide_true in H by done. rewrite Hs. eapply IH; [lia|exact H].
    + rewrite bool_decide_false in H by done. injection H as <- <- <-. exists 0%nat. rewrite Hs, app_nil_r.
      split; [done|]. left. split; [by exists e|done].
  - destruct Hk as [-> ->]. injection H as <- <- <-. exists 0%nat. cbn. rewrite app_nil_r. auto.
Qed.

(** Str_echo() sends back what it received: the bytes written are a prefix of the
    bytes of the connection, in order, and when it returns it has reached the end of
    file and echoed every byte; it ends the process only after a read or write error
    and waits only for a read() or a write(). *)
Theorem str_echo_echoes s w o s' w' :
  str_echo s w = (o, s', w') ->
  exists k, accepted w' = accepted w ++ take k (stream s).1 /\
    match o with
    | Ret _ => (stream s).2 = AtEof /\ k = length (stream s).1
    | Exit _ => (exists e, (stream s).2 = AtError e) /\ k = length (stream s).1 \/ (k < length (stream s).1)%nat
    | Blocked => (stream s).2 = AtWait /\ k = length (stream s).1 \/ answers w' = []
    | _ => False
    end.
Proof. intros H. eapply str_echo_loop_spec; [|exact H]. lia. Qed.

Lemma str_echo_echoes_witness :
  exists k, [72; 105; 33] = [] ++ take k [72; 105; 33] /\ (AtEof = AtEof /\ k = length [72; 105; 33]).
Proof.
  refine (str_echo_echoes [Block [72; 105]; Interrupted; Block [33]; Block []]
            (Sink [] [Took 1; Took 5; WInterrupted; Took 1]) (Ret tt) [] (Sink [72; 105; 33] []) _).
  vm_compute. reflexivity.
Defined.

End RobustIO.
