(* ===== verification/Rtt.v ===== *)
(** * Request and reply over UDP with retransmission

    Model of src/UNPLearning/unpv13e: lib/unprtt.h and lib/rtt.c (round-trip time
    estimation in floating point) and rtt/dg_send_recv.c (a request that is
    retransmitted until its reply arrives), and of the author's version of both in
    src/UNPLearning/notes/UDP/advancedUDPprogram/echoCli.c.

    A [float] is a binary32 and a [double] a binary64 number of SpecFloat; an
    expression is evaluated in the type C gives it and rounded where it is stored. *)

From S2P Require Import Prelude.
From Stdlib Require Import Floats.SpecFloat.

Module Fl.

(** Rounding of [m * 2 ^ e] to [float] and to [double]. *)
Definition to_f (m e : Z) : spec_float := binary_normalize 24 128 m e false.
Definition to_d (m e : Z) : spec_float := binary_normalize 53 1024 m e false.

Definition round (mk : Z -> Z -> spec_float) (x : spec_float) : spec_float :=
  match x with
  | S754_finite s m e => mk (if s then Zneg m else Zpos m) e
  | _ => x
  end.
(** The conversions between the two types. *)
Definition f2d (x : spec_float) : spec_float := round to_d x.
Definition d2f (x : spec_float) : spec_float := round to_f x.

Definition dadd := SFadd 53 1024.
Definition dsub := SFsub 53 1024.
Definition dmul := SFmul 53 1024.
Definition ddiv := SFdiv 53 1024.
Definition fsub := SFsub 24 128.
Definition fadd := SFadd 24 128.
Definition fmul := SFmul 24 128.

(** (int) of a floating-point number: towards zero; [None] is undefined. *)
Definition to_int (x : spec_float) : option Z :=
  match x with
  | S754_zero _ => Some 0
  | S754_finite s m e =>
      let a := if 0 <=? e then Zpos m * 2 ^ e else Zpos m / 2 ^ (- e) in
      let v := if s then - a else a in
      if (- 2 ^ 31 <=? v) && (v <? 2 ^ 31) then Some v else None
  | _ => None
  end.

Definition int_f (z : Z) : spec_float := to_f z 0.
Definition int_d (z : Z) : spec_float := to_d z 0.
Definition half : spec_float := to_d 1 (-1).
Definition three_quarters : spec_float := to_d 3 (-2).
End Fl.

(** ** lib/rtt.c *)

Module Rtt.
Import Fl.

Definition RTT_RXTMIN : Z := 2.
Definition RTT_RXTMAX : Z := 60.
Definition RTT_MAXNREXMT : Z := 3.

Record timeval := Tv { tv_sec : Z; tv_usec : Z }.

Record rtt_info := RttInfo {
  rtt_rtt : spec_float; rtt_srtt : spec_float; rtt_rttvar : spec_float; rtt_rto : spec_float;
  rtt_nrexmt : Z; rtt_base : Z }.

(** [RTT_RTOCALC(ptr)], a double. *)
Definition RTT_RTOCALC (srtt rttvar : spec_float) : spec_float :=
  dadd (f2d srtt) (dmul (int_d 4) (f2d rttvar)).

Definition rtt_minmax (rto : spec_float) : spec_float :=
  if SFltb rto (int_f RTT_RXTMIN) then int_f RTT_RXTMIN
  else if SFltb (int_f RTT_RXTMAX) rto then int_f RTT_RXTMAX
  else rto.

Definition rtt_init (now : timeval) : rtt_info :=
  let srtt := int_f 0 in
  let rttvar := d2f three_quarters in
  RttInfo (int_f 0) srtt rttvar (rtt_minmax (d2f (RTT_RTOCALC srtt rttvar))) 0 (u32 (tv_sec now)).

Definition rtt_ts (ptr : rtt_info) (now : timeval) : Z :=
  u32 ((tv_sec now - rtt_base ptr) * 1000 + Z.quot (tv_usec now) 1000).

Definition rtt_newpack (ptr : rtt_info) : rtt_info :=
  RttInfo (rtt_rtt ptr) (rtt_srtt ptr) (rtt_rttvar ptr) (rtt_rto ptr) 0 (rtt_base ptr).

Definition rtt_start (ptr : rtt_info) : option Z := to_int (dadd (f2d (rtt_rto ptr)) half).

Definition rtt_stop (ptr : rtt_info) (ms : Z) : rtt_info :=
  let rtt := d2f (ddiv (int_d ms) (int_d 1000)) in
  let delta := f2d (fsub rtt (rtt_srtt ptr)) in
  let srtt := d2f (dadd (f2d (rtt_srtt ptr)) (ddiv delta (int_d 8))) in
  let delta := if SFltb delta (S754_zero false) then SFopp delta else delta in
  let rttvar := d2f (dadd (f2d (rtt_rttvar ptr)) (ddiv (dsub delta (f2d (rtt_rttvar ptr))) (int_d 4))) in
  RttInfo rtt srtt rttvar (rtt_minmax (d2f (RTT_RTOCALC srtt rttvar))) (rtt_nrexmt ptr) (rtt_base ptr).

(** The new state, and whether it is time to give up. *)
Definition rtt_timeout (ptr : rtt_info) : rtt_info * bool :=
  let n := s32 (rtt_nrexmt ptr + 1) in
  (RttInfo (rtt_rtt ptr) (rtt_srtt ptr) (rtt_rttvar ptr) (fmul (rtt_rto ptr) (int_f 2)) n (rtt_base ptr),
   n >? RTT_MAXNREXMT).

(** ** rtt/dg_send_recv.c *)

Definition SIZEOF_HDR : Z := 8.

(** What happens while recvmsg() waits: a datagram of [n] bytes whose header holds
    [seq] and [ts], an error, or the SIGALRM whose handler jumps back. *)
Inductive event := Datagram (n seq ts : Z) | RecvError (e : errno) | Alarm.

(** The static variables, the times the clock has been read, and what was sent: the
    sequence number, the time stamp and the timer, newest first. *)
Record sent := Sent { s_seq : Z; s_ts : Z; s_alarm : option Z }.
Record state := St { rttinfo : option rtt_info; seq : Z; reads : nat; log : list sent }.

Section DgSendRecv.
Context (clock : nat -> timeval) (sendmsg : nat -> option errno).

(** From the label [sendagain]: time stamp, Sendmsg(), alarm(); an error of
    sendmsg() ends the process. *)
Definition send (r : rtt_info) (s : state) : outcome unit * state :=
  let ts := rtt_ts r (clock (reads s)) in
  match sendmsg (length (log s)) with
  | Some _ => (Exit 1, St (Some r) (seq s) (S (reads s)) (log s))
  | None => (Ret tt, St (Some r) (seq s) (S (reads s)) (Sent (seq s) ts (rtt_start r) :: log s))
  end.

(** The wait for the reply, with the retransmissions. *)
Fixpoint wait (es : list event) (r : rtt_info) (s : state) : outcome Z * state :=
  match es with
  | [] => (Blocked, s)
  | Alarm :: es' =>
      let '(r', giveup) := rtt_timeout r in
      if giveup : bool then (Fail ETIMEDOUT, St None (seq s) (reads s) (log s))
      else match send r' s with
           | (Ret _, s') => wait es' r' s'
           | (_, s') => (Exit 1, s')
           end
  | RecvError _ :: _ => (Exit 1, s)
  | Datagram n sq ts :: es' =>
      if (n <? SIZEOF_HDR) || negb (sq =? seq s) then wait es' r s
      else
        let now := rtt_ts r (clock (reads s)) in
        (Ret (n - SIZEOF_HDR), St (Some (rtt_stop r (u32 (now - ts)))) (seq s) (S (reads s)) (log s))
  end.

Definition dg_send_recv (es : list event) (s : state) : outcome Z * state :=
  let '(r0, reads0) := match rttinfo s with
    | Some r => (r, reads s)
    | None => (rtt_init (clock (reads s)), S (reads s))
    end in
  let r := rtt_newpack r0 in
  match send r (St (Some r) (u32 (seq s + 1)) reads0 []) with
  | (Ret _, s') => wait es r s'
  | (_, s') => (Exit 1, s')
  end.
End DgSendRecv.

(** ** Properties *)

Definition in_range (x : spec_float) : Prop :=
  SFltb x (int_f RTT_RXTMIN) = false /\ SFltb (int_f RTT_RXTMAX) x = false.

Lemma minmax_in_range x : in_range (rtt_minmax x).
Proof.
  unfold rtt_minmax, in_range. destruct (SFltb x (int_f RTT_RXTMIN)) eqn:E1; [split; reflexivity|].
  destruct (SFltb (int_f RTT_RXTMAX) x) eqn:E2; [split; reflexivity|done].
Qed.

(** The state after [i] timeouts. *)
Fixpoint timeouts (r : rtt_info) (i : nat) : rtt_info :=
  match i with O => r | S i' => (rtt_timeout (timeouts r i')).1 end.

Lemma timeouts_nrexmt r i : rtt_nrexmt r = 0 -> (i <= 4)%nat -> rtt_nrexmt (timeouts r i) = Z.of_nat i.
Proof.
  intros Hr Hi. induction i as [|i IH]; [done|]. cbn [timeouts rtt_timeout fst rtt_nrexmt].
  rewrite IH by lia. rewrite swrap_small by lia. lia.
Qed.

(** The retransmission timeout is kept between 2 and 60 seconds by rtt_init()
    and rtt_stop(), whatever the measurements, and is 3 seconds at the start; but
    rtt_timeout() doubles it without a bound: a timeout of 60 seconds becomes 480
    seconds within the three retransmissions of one request. *)
Theorem rto_bounds :
  (forall now, in_range (rtt_rto (rtt_init now)) /\ rtt_start (rtt_init now) = Some 3) /\
  (forall r ms, in_range (rtt_rto (rtt_stop r ms))) /\
  (exists r ms, rtt_start (rtt_stop r ms) = Some RTT_RXTMAX /\
     rtt_start (timeouts (rtt_stop r ms) 3) = Some 480).
Proof.
  split; [intros now; split; [apply minmax_in_range|vm_compute; reflexivity]|].
  split; [intros; apply minmax_in_range|].
  exists (rtt_init (Tv 0 0)), 60000. split; vm_compute; reflexivity.
Qed.

(** A positive [float] with a full mantissa, far from the largest: the timeouts between
    the limits are such numbers. *)
Definition normal (x : spec_float) : Prop :=
  match x with S754_finite false m e => digits2_pos m = 24%positive /\ -149 <= e <= 96 | _ => False end.
(** [x * 2 ^ i]. *)
Definition doubled (x : spec_float) (i : nat) : spec_float :=
  match x with S754_finite s m e => S754_finite s m (e + Z.of_nat i) | _ => x end.
(** (int) (x + 0.5) *)
Definition timer (x : spec_float) : option Z := to_int (dadd (f2d x) half).

(** The multiplication by two is exact. *)
Lemma fmul_two m e : digits2_pos m = 24%positive -> -149 <= e < 104 ->
  fmul (S754_finite false m e) (int_f 2) = S754_finite false m (e + 1).
Proof.
  intros Hm He. unfold fmul. change (int_f 2) with (S754_finite false 8388608 (-22)). unfold SFmul.
  replace (m * 8388608)%positive with (Pos.iter xO m 23) by (cbn [Pos.iter]; lia).
  unfold binary_round_aux, shr_fexp, fexp, emin. cbn [Pos.iter Zdigits2 digits2_pos]. rewrite Hm.
  replace (Z.max _ _ - (e + -22)) with 23 by lia.
  cbn [shr shr_record_of_loc iter_pos shr_1 orb shr_m loc_of_shr_record round_nearest_even Zdigits2]. rewrite Hm.
  replace (Z.max _ _ - (e + -22 + 23)) with 0 by lia. cbn [shr shr_record_of_loc shr_m].
  replace (e + -22 + 23 <=? 128 - 24) with true by lia. f_equal. lia.
Qed.

Lemma timeouts_doubled r i : normal (rtt_rto r) -> (i <= 8)%nat -> rtt_rto (timeouts r i) = doubled (rtt_rto r) i.
Proof.
  intros Hn Hi. induction i as [|i IH]; cbn [timeouts rtt_timeout fst rtt_rto].
  - unfold doubled. destruct (rtt_rto r); try done. by rewrite Z.add_0_r.
  - rewrite IH by lia. unfold normal in Hn. destruct (rtt_rto r) as [| | |[] m e]; try done. destruct Hn as [Hm He].
    cbn [doubled]. rewrite fmul_two by (done || lia). f_equal. lia.
Qed.

(** The log of [k] transmissions that started with the state [r]. *)
Definition logged (r : rtt_info) (sq : Z) (l : list sent) : Prop :=
  Forall (fun x => s_seq x = sq) l /\
  map s_alarm (rev l) = map (fun i => rtt_start (timeouts r i)) (List.seq 0 (length l)).

Lemma logged_cons r sq l ts : logged r sq l ->
  logged r sq (Sent sq ts (rtt_start (timeouts r (length l))) :: l).
Proof.
  intros [Hs Ha]. split; [by constructor|]. cbn [rev length].
  rewrite map_app, Ha, seq_S, map_app. done.
Qed.

Lemma logged_doubled r sq l : logged r sq l -> (length l <= 4)%nat -> normal (rtt_rto r) ->
  map s_alarm (rev l) = map (fun i => timer (doubled (rtt_rto r) i)) (List.seq 0 (length l)).
Proof.
  intros [_ ->] Hl Hn. apply map_ext_in. intros i Hi%in_seq. unfold rtt_start, timer. by rewrite timeouts_doubled by (done || lia).
Qed.

Lemma logged_fresh now sq l : logged (rtt_newpack (rtt_init now)) sq l -> (length l <= 4)%nat ->
  map s_alarm (rev l) = take (length l) [Some 3; Some 6; Some 12; Some 24].
Proof.
  intros Hl Hn. rewrite (logged_doubled _ _ _ Hl Hn) by (vm_compute; split; [done|split; done]).
  destruct (length l) as [|[|[|[|[|]]]]]; try lia; reflexivity.
Qed.

Lemma rtt_wait_spec clock sendmsg r0 : rtt_nrexmt r0 = 0 -> forall es r s o s' k,
  (k <= 3)%nat -> r = timeouts r0 k -> length (log s) = S k -> logged r0 (seq s) (log s) ->
  rttinfo s = Some r ->
  wait clock sendmsg es r s = (o, s') ->
  seq s' = seq s /\ logged r0 (seq s) (log s') /\ (length (log s') <= 4)%nat /\
  match o with
  | Ret n => 0 <= n /\ exists ts ms, In (Datagram (n + SIZEOF_HDR) (seq s) ts) es /\
      rttinfo s' = Some (rtt_stop (timeouts r0 (length (log s') - 1)) ms)
  | Fail e => e = ETIMEDOUT /\ rttinfo s' = None /\ length (log s') = 4%nat
  | Exit c => c = 1
  | Blocked => exists r', rttinfo s' = Some r'
  | Abort => False
  end.
Proof.
  intros Hr0. induction es as [|[n sq ts|e|] es IH]; intros r s o s' k Hk -> Hl Hlog Hinfo H; cbn [wait] in H.
  - injection H as <- <-. rewrite Hl. split; [done|]. split; [done|]. split; [lia|eauto].
  - destruct ((n <? SIZEOF_HDR) || negb (sq =? seq s)) eqn:E.
    + apply IH with (k := k) in H; auto. destruct H as (? & ? & ? & Ho). do 3 (split; [done|]).
      destruct o; try done. destruct Ho as (? & t & ms & ? & ?). split; [done|]. exists t, ms. split; [by right|done].
    + bprop. injection H as <- <-. cbn [seq log rttinfo]. rewrite Hl. split; [done|]. split; [done|].
      split; [lia|]. split; [lia|]. exists ts. eexists. split; [left; f_equal; lia|].
      by replace (S k - 1)%nat with k by lia.
  - injection H as <- <-. rewrite Hl. split; [done|]. split; [done|]. split; [lia|done].
  - destruct (rtt_timeout (timeouts r0 k)) as [r' giveup] eqn:E.
    assert (Hr' : r' = timeouts r0 (S k)) by (cbn [timeouts]; by rewrite E).
    assert (Hg : giveup = (Z.of_nat (S k) >? RTT_MAXNREXMT)).
    { rewrite <- (timeouts_nrexmt r0 (S k)) by (done || lia). rewrite <- Hr'.
      unfold rtt_timeout in E. by injection E as <- <-. }
    destruct giveup.
    + injection H as <- <-. cbn [seq log rttinfo]. unfold RTT_MAXNREXMT in Hg. symmetry in Hg. bprop.
      rewrite Hl. repeat split; try done; try lia; apply Hlog.
    + unfold RTT_MAXNREXMT in Hg. symmetry in Hg. bprop. subst r'. unfold send in H.
      destruct (sendmsg (length (log s))) as [e|].
      * injection H as <- <-. cbn [seq log]. rewrite Hl. repeat split; try done; try lia; apply Hlog.
      * apply IH with (k := S k) in H; [|lia|done|cbn; by rewrite Hl| |done].
        -- cbn [seq] in H. destruct H as (? & ? & ? & Ho). do 3 (split; [done|]).
           destruct o; try done. destruct Ho as (? & t & ms & ? & ?). split; [done|]. exists t, ms. split; [by right|done].
        -- cbn [seq log]. rewrite <- Hl. by apply logged_cons.
Qed.

(** C19: one request, whatever arrives, whenever the timer expires: it is sent at most
    four times, always under its own new sequence number, and the [i]th retransmission
    sets the timer to the timeout at the beginning times [2 ^ i], in seconds rounded to
    the nearest (3, 6, 12 and 24 in the first request of a process); a result is the size of a
    datagram that carries this sequence number and a whole header, and the estimators
    are updated once; after the fourth timeout it fails with ETIMEDOUT and the
    estimators start afresh at the next call. *)
Theorem dg_send_recv_spec clock sendmsg es s o s' :
  dg_send_recv clock sendmsg es s = (o, s') ->
  exists r0, rtt_nrexmt r0 = 0 /\ (forall r, rttinfo s = Some r -> r0 = rtt_newpack r) /\
  seq s' = u32 (seq s + 1) /\ logged r0 (u32 (seq s + 1)) (log s') /\ (length (log s') <= 4)%nat /\
  (normal (rtt_rto r0) ->
     map s_alarm (rev (log s')) = map (fun i => timer (doubled (rtt_rto r0) i)) (List.seq 0 (length (log s')))) /\
  (rttinfo s = None -> map s_alarm (rev (log s')) = take (length (log s')) [Some 3; Some 6; Some 12; Some 24]) /\
  match o with
  | Ret n => 0 <= n /\ exists ts ms, In (Datagram (n + SIZEOF_HDR) (u32 (seq s + 1)) ts) es /\
      rttinfo s' = Some (rtt_stop (timeouts r0 (length (log s') - 1)) ms)
  | Fail e => e = ETIMEDOUT /\ rttinfo s' = None /\ length (log s') = 4%nat
  | Exit c => c = 1
  | Blocked => exists r', rttinfo s' = Some r'
  | Abort => False
  end.
Proof.
  intros H. unfold dg_send_recv in H.
  destruct (match rttinfo s with Some r => (r, reads s) | None => _ end) as [r1 n1] eqn:E.
  exists (rtt_newpack r1). split; [done|].
  split; [intros r Hr; rewrite Hr in E; by injection E as <- _|].
  unfold send in H. cbn [log seq reads length] in H. destruct (sendmsg 0%nat).
  { injection H as <- <-. cbn. repeat split; done || lia. }
  apply (rtt_wait_spec clock sendmsg (rtt_newpack r1) eq_refl) with (k := 0%nat) in H; [|lia|done|done|by apply (logged_cons _ _ [])|done].
  destruct H as (H1 & H2 & H3 & H4). do 3 (split; [done|]). split; [exact (logged_doubled _ _ _ H2 H3)|]. split; [|exact H4].
  intros Hs. rewrite Hs in E. injection E as <- _. exact (logged_fresh (clock (reads s)) _ _ H2 H3).
Qed.

Definition late_reply : list event := [Alarm; Datagram 20 5 0; Datagram 20 7 6000].

Lemma dg_send_recv_spec_witness :
  let r := dg_send_recv (fun k => Tv (100 + 3 * Z.of_nat k) 0) (fun _ => None) late_reply (St None 6 0 []) in
  r.1 = Ret 12 /\ map s_alarm (rev (log r.2)) = [Some 3; Some 6].
Proof.
  cbv zeta. destruct (dg_send_recv (fun k => Tv (100 + 3 * Z.of_nat k) 0) (fun _ => None) late_reply (St None 6 0 [])) as [o s'] eqn:E.
  destruct (dg_send_recv_spec _ _ _ _ _ _ E) as (r0 & _ & _ & _ & _ & _ & _ & Ha & _). specialize (Ha eq_refl).
  vm_compute in E. injection E as <- <-. split; [reflexivity|exact Ha].
Defined.

End Rtt.

(** ** The author's client (notes/UDP/advancedUDPprogram/echoCli.c) *)

Module AdvUdp.
Import Fl.

Definition MAX_RESEND_TIMES : Z := 3.
Definition RTT_MIN : Z := 2.
Definition RTT_MAX : Z := 60.

Record rttInfo := RttInfo {
  rttratio : spec_float; drttratio : spec_float; rtt : spec_float; drtt : spec_float }.

Definition rttInitial : rttInfo := RttInfo (to_f 1 (-3)) (to_f 1 (-2)) (int_f 2) (int_f 0).

(** The two tests that keep [rtt] between the limits. *)
Definition clamp (x : spec_float) : spec_float :=
  let x := if SFltb (int_f RTT_MAX) x then int_f RTT_MAX else x in
  if SFltb x (int_f RTT_MIN) then int_f RTT_MIN else x.

Definition updateRtt (d : rttInfo) (curtime sendtime : Z) : rttInfo :=
  let sampletime := int_f (s32 (curtime - sendtime)) in
  let dtime := f2d (fsub sampletime (rtt d)) in
  let r := d2f (dadd (f2d (rtt d)) (dmul (f2d (rttratio d)) dtime)) in
  let dtime := if SFltb dtime (S754_zero false) then SFopp dtime else dtime in
  let dr := d2f (dadd (f2d (drtt d)) (dmul (f2d (drttratio d)) (dsub dtime (f2d (drtt d))))) in
  RttInfo (rttratio d) (drttratio d) (clamp (fadd r (fmul (int_f 4) dr))) dr.

(** Defined but never called. *)
Definition rtt_timeout (d : rttInfo) : rttInfo :=
  RttInfo (rttratio d) (drttratio d) (clamp (fmul (rtt d) (int_f 2))) (drtt d).
Definition getrtt (d : rttInfo) : option Z := to_int (dadd (f2d (rtt d)) half).

(** [tv_usec] is below one million. *)
Definition gettime (tv : Rtt.timeval) : Z := s32 (Rtt.tv_sec tv + Z.quot (Rtt.tv_usec tv) 1000000).

Definition SIZEOF_RELHEAD : Z := 8.

(** What recvmsg() meets: a datagram of [n] bytes, with the contents of the header
    variable afterwards, an error, or the SIGALRM whose handler jumps back. *)
Inductive event := Datagram (n : Z) (ts seq : Z) | RecvError (e : errno) | Alarm.

Record state := St { rttData : rttInfo; SeqNum : Z; reads : nat; log : list Rtt.sent }.

Section DgSendRecv.
Context (clock : nat -> Rtt.timeval) (sendmsg : nat -> Z).

(** Time stamp, next sequence number, sendmsg() and alarm(): the timer is [rtt] itself,
    converted to an unsigned integer.  The first transmission also takes 0 for an
    error. *)
Definition send (first : bool) (s : state) : outcome unit * state :=
  let ts := u32 (gettime (clock (reads s))) in
  let sq := u32 (SeqNum s + 1) in
  let k := sendmsg (length (log s)) in
  if (if first then k <=? 0 else k <? 0) then (Exit (-1), St (rttData s) sq (S (reads s)) (log s))
  else (Ret tt, St (rttData s) sq (S (reads s)) (Rtt.Sent sq ts (to_int (rtt (rttData s))) :: log s)).

(** The loop; [head] is the header variable (time stamp, sequence number), which keeps
    its contents when recvmsg() is interrupted, and [resendCount] the global. *)
Fixpoint loop (es : list event) (head : Z * Z) (resendCount : Z) (s : state) : outcome Z * state :=
  let received n head :=
    (Ret (s32 (n - SIZEOF_RELHEAD)),
     St (updateRtt (rttData s) (gettime (clock (reads s))) (s32 head.1)) (SeqNum s) (S (reads s)) (log s)) in
  match es with
  | [] => (Blocked, s)
  | Alarm :: es' =>
      let c := u32 (resendCount + 1) in
      if c >? MAX_RESEND_TIMES then (Exit (-1), s)
      else match send false s with
           | (Ret _, s') => loop es' head c s'
           | (_, s') => (Exit (-1), s')
           end
  | RecvError e :: es' =>
      if negb (bool_decide (e = EINTR)) then (Exit (-1), s)
      else if (u64 (-1) <? SIZEOF_RELHEAD) || negb (head.2 =? SeqNum s) then loop es' head resendCount s
      else received (-1) head
  | Datagram n ts sq :: es' =>
      if (u64 n <? SIZEOF_RELHEAD) || negb (sq =? SeqNum s) then loop es' (ts, sq) resendCount s
      else received n (ts, sq)
  end.

(** [garbage] is what the uninitialised header variable holds. *)
Definition dgSendRecv (es : list event) (garbage : Z * Z) (s : state) : outcome Z * state :=
  match send true (St (rttData s) (SeqNum s) (reads s) []) with
  | (Ret _, s') => loop es garbage 0 s'
  | (_, s') => (Exit (-1), s')
  end.
End DgSendRecv.

(** The transmissions carry the sequence numbers after [sq0], and all the same timer. *)
Definition numbered (d : rttInfo) (sq0 : Z) (l : list Rtt.sent) : Prop :=
  map Rtt.s_seq (rev l) = map (fun i => u32 (sq0 + 1 + Z.of_nat i)) (List.seq 0 (length l)) /\
  Forall (fun x => Rtt.s_alarm x = to_int (rtt d)) l.

Definition good (e : event) : Prop :=
  match e with Datagram n _ _ => 0 <= n < 2 ^ 31 | RecvError e => e <> EINTR | Alarm => True end.

Lemma numbered_send clock sendmsg first s s' d sq0 : numbered d sq0 (log s) -> rttData s = d ->
  SeqNum s = u32 (sq0 + Z.of_nat (length (log s))) ->
  send clock sendmsg first s = (Ret tt, s') ->
  numbered d sq0 (log s') /\ rttData s' = d /\ length (log s') = S (length (log s)) /\
  SeqNum s' = u32 (sq0 + Z.of_nat (length (log s'))).
Proof.
  intros [Hn Ha] Hd Hs H. unfold send in H. destruct (if first then _ else _); [done|].
  injection H as <-. cbn [log rttData SeqNum length]. rewrite Hs, wrap_add_l.
  split; [|split; [done|split; [done|f_equal; lia]]]. split.
  - cbn [rev length]. rewrite map_app, Hn, seq_S, map_app. cbn [map Rtt.s_seq]. do 3 f_equal. lia.
  - constructor; [cbn; by rewrite Hd|done].
Qed.

Lemma loop_spec clock sendmsg d sq0 es : forall head c s o s',
  Forall good es -> 0 <= c <= 3 -> length (log s) = S (Z.to_nat c) ->
  numbered d sq0 (log s) -> rttData s = d -> SeqNum s = u32 (sq0 + Z.of_nat (length (log s))) ->
  loop clock sendmsg es head c s = (o, s') ->
  numbered d sq0 (log s') /\ (length (log s') <= 4)%nat /\
  match o with
  | Ret n => 0 <= n /\ exists ts, In (Datagram (n + SIZEOF_RELHEAD) ts (u32 (sq0 + Z.of_nat (length (log s'))))) es
  | Exit c => c = -1
  | Blocked => True
  | _ => False
  end.
Proof.
  induction es as [|[n ts sq|e|] es IH]; intros head c s o s' Hg Hc Hl Hn Hd Hs H; cbn [loop] in H.
  - injection H as <- <-. rewrite Hl. split; [done|split; [lia|done]].
  - apply Forall_cons in Hg as [Hg1 Hg]. cbn [good] in Hg1. rewrite wrap_small in H by lia.
    destruct ((n <? SIZEOF_RELHEAD) || negb (sq =? SeqNum s)) eqn:E.
    + eapply IH in H; eauto. destruct H as (? & ? & Ho). split; [done|split; [done|]].
      destruct o; try done. destruct Ho as (? & t & ?). split; [done|]. exists t. by right.
    + apply orb_false_elim in E as [E1 E2]. bprop. injection H as <- <-. cbn [log]. rewrite Hl. split; [done|]. split; [lia|].
      unfold SIZEOF_RELHEAD in *. rewrite swrap_small by lia. split; [lia|]. exists ts. left.
      rewrite <- Hl, <- Hs, E2. f_equal. lia.
  - apply Forall_cons in Hg as [Hg1 Hg]. cbn [good] in Hg1. rewrite bool_decide_false in H by done.
    injection H as <- <-. rewrite Hl. split; [done|split; [lia|done]].
  - apply Forall_cons in Hg as [_ Hg]. rewrite wrap_small in H by lia.
    destruct (c + 1 >? MAX_RESEND_TIMES) eqn:E; unfold MAX_RESEND_TIMES in E; bprop.
    { injection H as <- <-. rewrite Hl. split; [done|split; [lia|done]]. }
    destruct (send clock sendmsg false s) as [o1 s1] eqn:Es. pose proof Es as Es0.
    unfold send in Es0. destruct (sendmsg (length (log s)) <? 0).
    { injection Es0 as <- <-. injection H as <- <-. cbn [log]. rewrite Hl. split; [done|split; [lia|done]]. }
    assert (o1 = Ret tt) as -> by (by injection Es0 as <- _). clear Es0.
    destruct (numbered_send _ _ _ _ _ _ _ Hn Hd Hs Es) as (Hn1 & Hd1 & Hl1 & Hs1).
    eapply IH in H; eauto; [|lia|rewrite Hl1, Hl; lia].
    destruct H as (? & ? & Ho). split; [done|split; [done|]].
    destruct o; try done. destruct Ho as (? & t & ?). split; [done|]. exists t. by right.
Qed.

(** The author's client: a request is sent at most four times, under consecutive
    sequence numbers, and all its transmissions have the same timer (rtt_timeout() is
    never called, so there is no backoff); a result is the size of a datagram with a
    whole header and the last sequence number, provided that no signal but SIGALRM
    interrupts recvmsg(): after such an interruption the test of the length compares
    -1 as an unsigned number, and -9 can be returned without any datagram. *)
Theorem adv_dgSendRecv_spec clock sendmsg es garbage s :
  0 <= SeqNum s < 2 ^ 32 ->
  (Forall good es ->
   let '(o, s') := dgSendRecv clock sendmsg es garbage s in
   numbered (rttData s) (SeqNum s) (log s') /\ (length (log s') <= 4)%nat /\
   match o with
   | Ret n => 0 <= n /\
       exists ts, In (Datagram (n + SIZEOF_RELHEAD) ts (u32 (SeqNum s + Z.of_nat (length (log s'))))) es
   | Exit c => c = -1
   | Blocked => True
   | _ => False
   end) /\
  (sendmsg 0%nat = 9 -> exists s', dgSendRecv clock sendmsg [RecvError EINTR] (0, u32 (SeqNum s + 1)) s = (Ret (-9), s')).
Proof.
  intros Hsq. split.
  - intros Hg. unfold dgSendRecv.
    destruct (send clock sendmsg true _) as [o1 s1] eqn:Es. pose proof Es as Es0.
    unfold send in Es0. cbn [log length] in Es0. destruct (sendmsg 0%nat <=? 0).
    { injection Es0 as <- <-. cbn. split; [split; done|split; [lia|done]]. }
    assert (o1 = Ret tt) as -> by (by injection Es0 as <- _). clear Es0.
    apply (numbered_send _ _ _ _ _ (rttData s) (SeqNum s)) in Es as (Hn1 & Hd1 & Hl1 & Hs1);
      [|split; [done|constructor]|done|cbn; by rewrite Z.add_0_r, wrap_small by lia].
    destruct (loop clock sendmsg es garbage 0 s1) as [o s'] eqn:El.
    eapply loop_spec in El; eauto; lia.
  - intros Hm. unfold dgSendRecv, send. cbn [log length SeqNum reads rttData]. rewrite Hm. cbn [Z.leb Z.compare].
    cbn [loop]. rewrite bool_decide_true by done. cbn [negb snd SeqNum].
    change (u64 (-1) <? SIZEOF_RELHEAD) with false. rewrite Z.eqb_refl. cbn [orb negb].
    eexists. change (s32 (-1 - SIZEOF_RELHEAD)) with (-9). reflexivity.
Qed.

Lemma adv_dgSendRecv_spec_witness :
  0 <= SeqNum (St rttInitial 4 0 []) < 2 ^ 32 /\
  (let '(o, s') := dgSendRecv (fun _ => Rtt.Tv 5 0) (fun _ => 9) [Alarm; Datagram 8 5 5; Datagram 20 5 6] (0, 0) (St rttInitial 4 0 []) in
   numbered rttInitial 4 (log s') /\ (length (log s') <= 4)%nat /\
   match o with
   | Ret n => 0 <= n /\
       exists ts, In (Datagram (n + SIZEOF_RELHEAD) ts (u32 (4 + Z.of_nat (length (log s')))))
                     [Alarm; Datagram 8 5 5; Datagram 20 5 6]
   | Exit c => c = -1
   | Blocked => True
   | _ => False
   end).
Proof.
  split; [simpl; lia|].
  refine (proj1 (adv_dgSendRecv_spec (fun _ => Rtt.Tv 5 0) (fun _ => 9)
    [Alarm; Datagram 8 5 5; Datagram 20 5 6] (0, 0) (St rttInitial 4 0 []) _) _).
  - simpl; lia.
  - repeat constructor; simpl; lia.
Defined.

End AdvUdp.
