(* ===== verification/FileServer.v ===== *)
(** * File servers over pipes, FIFOs and message queues

    Model of the message framing of src/IPC/unpv22e/pipemesg (mesg.h, mesg_send.c,
    mesg_recv.c), and of the author's client and server that pass a path and the
    contents of the file: src/IPC/PipeFIFO (Pipe.c, FifoServer.c, FifoClient.c) and
    src/IPC/MsgQueue (SystemVMsgQServer.c, SystemVMsgQClient.c).  Pipes are read as
    the descriptors of RobustIO.v. *)

From S2P Require Import Prelude CString RobustIO.

(** ** pipemesg: messages on a byte stream *)

Module Mesg.
Import RobustIO.

(** [PIPE_BUF] is 4096 on Linux and a [long] has 8 bytes. *)
Definition PIPE_BUF : Z := 4096.
Definition MAXMESGDATA : Z := PIPE_BUF - 2 * 8.
Definition MESGHDRSIZE : Z := 16.

Record mymesg := Mymesg { mesg_len : Z; mesg_type : Z; mesg_data : list Z }.

Section Endian.
Context (be : bool).

(** The bytes of the structure. *)
Definition image (m : mymesg) : list Z :=
  store_bytes be 8 (mesg_len m) ++ store_bytes be 8 (mesg_type m) ++ mesg_data m.

(** write() of the header and the data: the bytes handed over and the count; reading
    past the structure is [Abort]. *)
Definition mesg_send (w : sink) (m : mymesg) : outcome (nat + errno) * sink :=
  match read_at (image m) 0 (Z.to_nat (u64 (MESGHDRSIZE + mesg_len m))) with
  | None => (Abort, w)
  | Some bs => match k_write w bs with
               | (None, w') => (Blocked, w')
               | (Some r, w') => (Ret r, w')
               end
  end.

(** [Mesg_send]: err_quit() unless the count is [mesg_len]. *)
Definition Mesg_send (w : sink) (m : mymesg) : outcome unit * sink :=
  match mesg_send w m with
  | (Ret (inl n), w') => if Z.of_nat n =? mesg_len m then (Ret tt, w') else (Exit 1, w')
  | (Ret (inr _), w') => if -1 =? mesg_len m then (Ret tt, w') else (Exit 1, w')
  | (Abort, w') => (Abort, w')
  | (_, w') => (Blocked, w')
  end.

(** [Read]: an error ends the process. *)
Definition Read (s : list arrival) (n : nat) : outcome (list Z) * list arrival :=
  match k_read n s with
  | (Got l, s') => (Ret l, s')
  | (RError _, s') => (Exit 1, s')
  | (RWait, s') => (Blocked, s')
  end.

(** The count returned and the structure; a [Got] longer than [mesg_data] is [Abort]. *)
Definition mesg_recv (s : list arrival) (m : mymesg) : outcome Z * mymesg * list arrival :=
  match Read s (Z.to_nat MESGHDRSIZE) with
  | (Ret [], s1) => (Ret 0, m, s1)
  | (Ret h, s1) =>
      if negb (Z.of_nat (length h) =? MESGHDRSIZE) then (Exit 1, m, s1) else
      let m1 := Mymesg (s64 (load_bytes be (take 8 h))) (s64 (load_bytes be (drop 8 h))) (mesg_data m) in
      let len := u64 (mesg_len m1) in
      if len >? 0 then
        match Read s1 (Z.to_nat len) with
        | (Ret d, s2) =>
            match write_at (mesg_data m1) 0 d with
            | None => (Abort, m1, s2)
            | Some data =>
                let m2 := Mymesg (mesg_len m1) (mesg_type m1) data in
                if Z.of_nat (length d) =? len then (Ret (s64 len), m2, s2) else (Exit 1, m2, s2)
            end
        | (Exit c, s2) => (Exit c, m1, s2)
        | (_, s2) => (Blocked, m1, s2)
        end
      else (Ret (s64 len), m1, s1)
  | (Exit c, s1) => (Exit c, m, s1)
  | (_, s1) => (Blocked, m, s1)
  end.

Definition valid (m : mymesg) : Prop :=
  0 <= mesg_len m <= MAXMESGDATA /\ - 2 ^ 63 <= mesg_type m < 2 ^ 63 /\
  length (mesg_data m) = Z.to_nat MAXMESGDATA.

(** The bytes on the wire. *)
Definition frame (m : mymesg) : list Z :=
  store_bytes be 8 (mesg_len m) ++ store_bytes be 8 (mesg_type m) ++ take (Z.to_nat (mesg_len m)) (mesg_data m).

Lemma s64_load z : - 2 ^ 63 <= z < 2 ^ 63 -> s64 (load_bytes be (store_bytes be 8 z)) = z.
Proof.
  intros Hz. rewrite load_store_bytes. change (8 * Z.of_nat 8) with 64. unfold swrap. rewrite wrap_wrap.
  fold (swrap 64 z). apply swrap_small; lia.
Qed.

Lemma read_frame m : valid m ->
  read_at (image m) 0 (Z.to_nat (u64 (MESGHDRSIZE + mesg_len m))) = Some (frame m).
Proof.
  intros (Hl & _ & Hd). unfold MAXMESGDATA, PIPE_BUF, MESGHDRSIZE in *. rewrite wrap_small by lia.
  apply (read_at_eq _ [] (frame m) (drop (Z.to_nat (mesg_len m)) (mesg_data m))); [|done|].
  - unfold image, frame. cbn [app]. rewrite <- !app_assoc, take_drop. done.
  - unfold frame. rewrite !length_app, !length_store_bytes, length_take. lia.
Qed.

(** What is left in a block after its beginning was read. *)
Definition push (t : list Z) (s : list arrival) : list arrival :=
  if decide (t = []) then s else Block t :: s.

Lemma k_read_block h t s n : length h = n -> k_read n (Block (h ++ t) :: s) = (Got h, push t s).
Proof.
  intros <-. unfold k_read, push. rewrite length_app. destruct (decide (t = [])) as [->|Ht].
  - rewrite app_nil_r. by rewrite (proj2 (Nat.leb_le _ _)) by (cbn; lia).
  - rewrite (proj2 (Nat.leb_gt _ _)) by (destruct t; [done|cbn; lia]).
    by rewrite take_app_length, drop_app_length.
Qed.

(** Receiving the frame of [m] at the head of the stream, whatever follows it. *)
Lemma recv_frame m m0 rest s : valid m -> length (mesg_data m0) = Z.to_nat MAXMESGDATA ->
  exists m', mesg_recv (Block (frame m ++ rest) :: s) m0 =
      (Ret (mesg_len m), m', push rest s) /\
    mesg_len m' = mesg_len m /\ mesg_type m' = mesg_type m /\ length (mesg_data m') = Z.to_nat MAXMESGDATA /\
    take (Z.to_nat (mesg_len m)) (mesg_data m') = take (Z.to_nat (mesg_len m)) (mesg_data m).
Proof.
  intros (Hl & Ht & Hd) Hd0. unfold MAXMESGDATA, PIPE_BUF in *.
  set (h := store_bytes be 8 (mesg_len m) ++ store_bytes be 8 (mesg_type m)).
  set (d := take (Z.to_nat (mesg_len m)) (mesg_data m)).
  assert (Hh : length h = 16%nat) by (unfold h; by rewrite length_app, !length_store_bytes).
  assert (Hdl : length d = Z.to_nat (mesg_len m)) by (unfold d; rewrite length_take; lia).
  assert (Hf : frame m = h ++ d) by (unfold frame, h, d; by rewrite <- app_assoc).
  rewrite Hf, <- app_assoc. unfold mesg_recv, Read. change (Z.to_nat MESGHDRSIZE) with 16%nat.
  rewrite (k_read_block h (d ++ rest) s 16) by done.
  assert (H1 : s64 (load_bytes be (take 8 h)) = mesg_len m).
  { unfold h. rewrite take_app_length' by (by rewrite length_store_bytes). apply s64_load. lia. }
  assert (H2 : s64 (load_bytes be (drop 8 h)) = mesg_type m).
  { unfold h. rewrite drop_app_length' by (by rewrite length_store_bytes). by apply s64_load. }
  clearbody h. destruct h as [|c h']; [done|]. set (h := c :: h') in *.
  rewrite Hh. change (negb (Z.of_nat 16 =? MESGHDRSIZE)) with false. cbn iota.
  rewrite H1, H2. cbn [mesg_len mesg_type mesg_data]. rewrite (wrap_small 64) by lia.
  rewrite (swrap_small 64) by lia.
  destruct (mesg_len m >? 0) eqn:E; bprop.
  - unfold push at 1. rewrite decide_False by (destruct d; [cbn in Hdl; lia|done]).
    rewrite (k_read_block d rest s) by done.
    rewrite (write_at_eq _ [] (take (length d) (mesg_data m0)) (drop (length d) (mesg_data m0)));
      [|by rewrite app_nil_l, take_drop|done|rewrite length_take; lia].
    rewrite Hdl, Z2Nat.id, Z.eqb_refl by lia. eexists. split; [reflexivity|]. cbn [mesg_len mesg_type mesg_data app].
    split; [done|]. split; [done|]. split; [rewrite length_app, length_drop; lia|].
    rewrite take_app_length' by done. done.
  - assert (Hd' : d = []) by (apply nil_length_inv; lia). rewrite Hd' in *. cbn [app].
    eexists. split; [reflexivity|]. cbn [mesg_len mesg_type mesg_data].
    split; [done|]. split; [done|]. split; [done|]. replace (mesg_len m) with 0 by lia. done.
Qed.

(** What a message carries; and [n] calls of mesg_recv() with one structure. *)
Definition payload (m : mymesg) : Z * list Z := (mesg_type m, take (Z.to_nat (mesg_len m)) (mesg_data m)).

Fixpoint recv_all (n : nat) (s : list arrival) (m : mymesg) : option (list (Z * list Z)) :=
  match n with
  | O => Some []
  | S n' =>
      match mesg_recv s m with
      | (Ret _, m', s') => (payload m' ::.) <$> recv_all n' s' m'
      | _ => None
      end
  end.

(** Messages that arrive together. *)
Definition together (g : list mymesg) : arrival := Block (concat (map frame g)).

Lemma frame_nonnil m : frame m <> [].
Proof.
  intros E. apply (f_equal length) in E. unfold frame in E.
  rewrite !length_app, !length_store_bytes in E. cbn in E. lia.
Qed.

Lemma recv_groups gs : forall m0, Forall (fun g => g <> [] /\ Forall valid g) gs ->
  length (mesg_data m0) = Z.to_nat MAXMESGDATA ->
  recv_all (length (concat gs)) (map together gs) m0 = Some (map payload (concat gs)).
Proof.
  induction gs as [|g gs IH]; intros m0 Hg Hm0; [done|].
  apply Forall_cons in Hg as [[Hne Hv] Hgs]. cbn [concat map].
  revert m0 Hm0. induction g as [|m g IHg]; intros m0 Hm0; [done|].
  apply Forall_cons in Hv as [Hm Hv]. cbn [app length recv_all map].
  destruct (recv_frame m m0 (concat (map frame g)) (map together gs) Hm Hm0) as (m' & E & Hl & Ht & Hd & Hp).
  change (together (m :: g)) with (Block (frame m ++ concat (map frame g))). rewrite E. clear E.
  assert (Epay : payload m' = payload m) by (unfold payload; by rewrite Hl, Ht, Hp).
  unfold push. destruct g as [|m1 g].
  - cbn [map concat app]. rewrite decide_True by done. rewrite IH by done. cbn. by rewrite Epay.
  - rewrite decide_False.
    + change (Block (concat (map frame (m1 :: g)))) with (together (m1 :: g)).
      rewrite IHg by done. cbn [fmap option_fmap option_map]. by rewrite Epay.
    + cbn. intros E. apply app_nil in E as [E _]. by apply frame_nonnil in E.
Qed.

End Endian.

(** C33: messages survive the byte stream: whatever messages are sent, and however
    they arrive together in blocks, as many calls of mesg_recv() return their types
    and data in order, on hosts of either byte order; mesg_send() hands the frame to
    write() and never reads past the structure.  But the wrapper Mesg_send() compares
    the count with the length of the data alone, and ends the process after every
    message that was sent as a whole. *)
Theorem mesg_roundtrip be m0 gs :
  length (mesg_data m0) = Z.to_nat MAXMESGDATA ->
  Forall (fun g => g <> [] /\ Forall valid g) gs ->
  recv_all be (length (concat gs)) (map (together be) gs) m0 = Some (map payload (concat gs)) /\
  Forall (fun m => forall acc k r, (length (frame be m) <= k)%nat ->
    mesg_send be (Sink acc (Took k :: r)) m = (Ret (inl (length (frame be m))), Sink (acc ++ frame be m) r) /\
    Mesg_send be (Sink acc (Took k :: r)) m = (Exit 1, Sink (acc ++ frame be m) r)) (concat gs).
Proof.
  intros Hm0 Hgs. split; [by apply recv_groups|].
  apply Forall_concat, (Forall_impl _ _ _ Hgs). intros g [_ Hv]. apply (Forall_impl _ _ _ Hv).
  intros m Hm acc k r Hk.
  assert (E : mesg_send be (Sink acc (Took k :: r)) m =
    (Ret (inl (length (frame be m))), Sink (acc ++ frame be m) r)).
  { unfold mesg_send. rewrite read_frame by done. cbn. rewrite Nat.min_r by done. by rewrite take_ge. }
  split; [done|]. unfold Mesg_send. rewrite E. destruct Hm as (Hl & _ & Hd).
  unfold frame. rewrite !length_app, !length_store_bytes, length_take.
  rewrite (proj2 (Z.eqb_neq _ _)); [done|]. unfold MAXMESGDATA, PIPE_BUF in *. lia.
Qed.

Lemma mesg_roundtrip_witness :
  length (replicate 4080 0) = Z.to_nat MAXMESGDATA /\
  recv_all false 1 [Block (frame false (Mymesg 2 1 (7 :: 8 :: replicate 4078 0)))] (Mymesg 0 0 (replicate 4080 0)) =
    Some [(1, [7; 8])].
Proof.
  split; [reflexivity|].
  pose proof (proj1 (mesg_roundtrip false (Mymesg 0 0 (replicate 4080 0))
    [[Mymesg 2 1 (7 :: 8 :: replicate 4078 0)]] eq_refl
    ltac:(repeat constructor; cbn; unfold MAXMESGDATA, PIPE_BUF; lia || done))) as H.
  exact H.
Defined.

End Mesg.

(** ** What the two servers share *)

(** A file system: the contents of a file that can be opened, or the text that
    strerror() gives for the failure. *)
Definition files := list Z -> list Z + list Z.

(** The string in a buffer that starts with these bytes and is null-terminated after
    them at the latest. *)
Fixpoint c_string (l : list Z) : list Z :=
  match l with [] => [] | c :: l' => if c =? 0 then [] else c :: c_string l' end.

Lemma c_string_id l : Forall (fun c => c <> 0) l -> c_string l = l.
Proof.
  induction 1 as [|c l Hc _ IH]; [done|]. cbn. rewrite (proj2 (Z.eqb_neq _ _)) by done. by rewrite IH.
Qed.

(** fgets() with a buffer of [size] bytes: [None] at the end of the input. *)
Definition fgets (size : nat) (d : list Z) : option (list Z) :=
  match d with
  | [] => None
  | _ => Some (default (take (size - 1) d) (RobustIO.line_of (size - 1) d))
  end.

(** The path a client makes of its line, without the newline; a null string and the
    end of the input make it use what it has not got ([buff[-1]], the uninitialised
    buffer). *)
Definition path_of (size : nat) (stdin : list Z) : outcome (list Z) :=
  match fgets size stdin with
  | None => Abort
  | Some line =>
      match reverse (c_string line) with
      | [] => Abort
      | c :: l => if c =? RobustIO.newline then Ret (reverse l) else Ret (c_string line)
      end
  end.

(** The blocks in which a file is read. *)
Fixpoint blocks (fuel size : nat) (content : list Z) : list (list Z) :=
  match fuel with
  | O => []
  | S fuel' =>
      match content with
      | [] => []
      | _ => take size content :: blocks fuel' size (drop size content)
      end
  end.
Definition file_blocks (size : nat) (content : list Z) : list (list Z) :=
  blocks (length content) size content.

Lemma blocks_concat size : (0 < size)%nat -> forall fuel content, (length content <= fuel)%nat ->
  concat (blocks fuel size content) = content /\ Forall (fun b => b <> []) (blocks fuel size content).
Proof.
  intros Hs. induction fuel as [|fuel IH]; intros content Hf.
  { by rewrite (nil_length_inv content) by lia. }
  destruct content as [|c content]; [done|]. cbn [blocks concat].
  destruct (IH (drop size (c :: content))) as [H1 H2]; [rewrite length_drop; lia|].
  rewrite H1, take_drop. split; [done|]. constructor; [|done]. by destruct size; [lia|].
Qed.

(** The answer to a path that cannot be opened: [room] bytes are left in the buffer
    behind the path of [n] bytes, and strlen() is taken of the result. *)
Definition cannot_open (room : nat) (path reason : list Z) : list Z :=
  c_string (path ++ take (room - 1) (cstr ":can not open " ++ c_string reason ++ [10])).

Lemma cannot_open_all room path reason :
  Forall (fun c => c <> 0) path -> Forall (fun c => c <> 0) reason -> (length reason + 15 < room)%nat ->
  cannot_open room path reason = path ++ cstr ":can not open " ++ reason ++ [10].
Proof.
  intros Hp Hr Hl. unfold cannot_open. rewrite (c_string_id reason) by done.
  rewrite take_ge by (rewrite !length_app; cbn; lia). apply c_string_id.
  repeat (apply Forall_app; split); try done; repeat constructor; done.
Qed.

(** ** Pipe.c, FifoServer.c and FifoClient.c *)

Module Pipe.
Import RobustIO.

(** The server on what its first read() met: the blocks it writes.  An error of that
    read() makes it store at [buffer[-1]]. *)
Definition serve (fs : files) (request : read_result) : outcome (list (list Z)) :=
  match request with
  | RWait => Blocked
  | RError _ => Abort
  | Got [] => Exit (-1)
  | Got path =>
      match fs (c_string path) with
      | inr reason => Ret [cannot_open (MAXLINE + 1 - length path) path reason]
      | inl content => Ret (file_blocks MAXLINE content)
      end
  end.

(** The client's loop: what it copies to the standard output.  Any error of read(),
    interruptions included, ends it. *)
Fixpoint copy (fuel : nat) (s : list arrival) (out : list Z) : outcome (list Z) :=
  match fuel with
  | O => Blocked
  | S fuel' =>
      match k_read MAXLINE s with
      | (Got [], _) | (RError _, _) => Ret out
      | (Got l, s') => copy fuel' s' (out ++ l)
      | (RWait, _) => Blocked
      end
  end.

(** Both processes: the client writes its path; an empty path is an empty write(), so
    that the server goes on waiting, and the client waits for the server.  When the
    server ends the client meets the end of file. *)
Definition session (fs : files) (stdin : list Z) : outcome (list Z) :=
  match path_of MAXLINE stdin with
  | Ret path =>
      let request := match path with [] => RWait | _ => (k_read MAXLINE [Block path]).1 end in
      match serve fs request with
      | Ret ws => let s := map Block ws ++ [Block []] in copy (S (size s)) s []
      | Blocked => Blocked
      | _ => copy 1 [Block []] []
      end
  | o => o
  end.

Lemma copy_blocks ws : Forall (fun b => b <> []) ws -> forall fuel out,
  (size (map Block ws ++ [Block []]) < fuel)%nat ->
  copy fuel (map Block ws ++ [Block []]) out = Ret (out ++ concat ws).
Proof.
  intros Hws fuel. remember (map Block ws ++ [Block []]) as s eqn:Es.
  assert (Hst : stream s = (concat ws, AtEof)).
  { subst s. clear -Hws. induction Hws as [|w ws Hw _ IH]; [done|].
    cbn [map app concat stream]. destruct w; [done|]. by rewrite IH. }
  assert (Hq : Forall (fun a => exists l, a = Block l) s).
  { subst s. apply Forall_app. split; [|by repeat constructor; exists []].
    apply Forall_map. apply Forall_true. eauto. }
  clear Es. revert s Hst Hq. generalize (concat ws). clear ws Hws.
  induction fuel as [|fuel IH]; intros d s Hst Hq out Hf; [lia|]. cbn [copy].
  pose proof (k_read_spec MAXLINE s ltac:(unfold MAXLINE; lia)) as Hk.
  assert (Hq' : Forall (fun a => exists l, a = Block l) (k_read MAXLINE s).2).
  { unfold k_read. destruct Hq as [|a s' [l ->] Hq]; [done|].
    destruct (length l <=? MAXLINE)%nat; [done|]. constructor; [eauto|done]. }
  assert (Hnr : forall e s', k_read MAXLINE s <> (RError e, s')).
  { intros e s'. unfold k_read. destruct Hq as [|a s1 [l ->] Hq]; [done|]. by destruct (_ <=? _)%nat. }
  destruct (k_read MAXLINE s) as [[[|c l]|e|] s'].
  - rewrite Hk in Hst. injection Hst as <-. by rewrite app_nil_r.
  - destruct Hk as (_ & Hsz & _ & Hs). rewrite Hs in Hst. injection Hst as <- He.
    rewrite (IH (stream s').1 s'); [cbn [app]; by rewrite <- app_assoc|by rewrite <- He, <- surjective_pairing|done|lia].
  - by destruct (Hnr e s').
  - by destruct Hk as [-> _].
Qed.
End Pipe.

(** FifoServer.c and FifoClient.c repeat the functions of Pipe.c over two FIFOs. *)
Module Fifo.
Definition serve := Pipe.serve.
Definition client_path := path_of RobustIO.MAXLINE.
Definition client_copy := Pipe.copy.
End Fifo.

(** ** SystemVMsgQServer.c and SystemVMsgQClient.c *)

Module SvMsg.

Definition MAXMESGDATA : nat := Z.to_nat (4096 - 8).

(** A message: its type and its data. *)
Definition mymsg : Type := Z * list Z.

(** The server on its first message: the messages it sends.  The null byte behind a
    path of the full size is stored past the structure. *)
Definition server (fs : files) (request : mymsg) : outcome (list mymsg) :=
  let '(type, path) := request in
  if bool_decide (path = []) then Exit (-1)
  else if (MAXMESGDATA <=? length path)%nat then Abort
  else match fs (c_string path) with
  | inr reason => Ret [(type, cannot_open (MAXMESGDATA - length path) path reason); (type, [])]
  | inl content => Ret (map (pair type) (file_blocks MAXMESGDATA content) ++ [(type, [])])
  end.

(** The client's message, and its loop over the messages of its own type: the output
    and the messages left in the queue; [Blocked] while none is there. *)
Definition client_request (pid : Z) (stdin : list Z) : outcome mymsg :=
  match path_of MAXMESGDATA stdin with
  | Ret path => Ret (pid, path)
  | Fail e => Fail e | Exit c => Exit c | Abort => Abort | Blocked => Blocked
  end.

Fixpoint client (pid : Z) (q : list mymsg) (out : list Z) : outcome (list Z) * list mymsg :=
  match q with
  | [] => (Blocked, [])
  | (t, d) :: q' =>
      if t =? pid then
        match d with
        | [] => (Ret out, q')
        | _ => client pid q' (out ++ d)
        end
      else let '(o, rest) := client pid q' out in (o, (t, d) :: rest)
  end.

(** Only the messages of the client's type matter to it, and it leaves the others. *)
Lemma client_filter pid q : forall out,
  (client pid q out).1 = (client pid (filter (fun m => m.1 = pid) q) out).1.
Proof.
  induction q as [|[t d] q IH]; intros out; [done|]. cbn [client]. rewrite filter_cons. cbn [fst].
  destruct (decide (t = pid)) as [->|Hne].
  - cbn [client]. rewrite Z.eqb_refl. destruct d; [done|apply IH].
  - rewrite (proj2 (Z.eqb_neq _ _)) by done. rewrite <- IH. by destruct (client pid q out).
Qed.

Lemma client_blocks pid ws : Forall (fun b => b <> []) ws -> forall out,
  client pid (map (pair pid) ws ++ [(pid, [])]) out = (Ret (out ++ concat ws), []).
Proof.
  induction 1 as [|w ws Hw _ IH]; intros out; cbn [map app client concat]; rewrite Z.eqb_refl.
  - by rewrite app_nil_r.
  - destruct w as [|c w]; [done|]. by rewrite IH, <- app_assoc.
Qed.
End SvMsg.

(** ** A whole session *)

Section Session.
Context (fs : files).

(** What the user should see. *)
Definition answer_to (path : list Z) : list Z :=
  match fs path with inl content => content | inr reason => path ++ cstr ":can not open " ++ reason ++ [10] end.

Definition plain (c : Z) : Prop := c <> 0 /\ c <> RobustIO.newline.

Lemma line_of_newline m line rest : Forall plain line -> (length line < m)%nat ->
  RobustIO.line_of m (line ++ RobustIO.newline :: rest) = Some (line ++ [RobustIO.newline]).
Proof.
  intros Hp. revert m. induction Hp as [|c line [_ Hc] _ IH]; intros [|m] Hm; try (simpl in Hm; lia).
  - done.
  - cbn [app RobustIO.line_of]. rewrite (proj2 (Z.eqb_neq _ _)) by done.
    rewrite IH by (simpl in Hm; lia). done.
Qed.

Lemma path_of_line size line rest : Forall plain line -> (length line + 1 < size)%nat ->
  path_of size (line ++ RobustIO.newline :: rest) = Ret line.
Proof.
  intros Hp Hl. unfold path_of, fgets.
  destruct (line ++ RobustIO.newline :: rest) as [|c l] eqn:E; [by destruct line|]. rewrite <- E. clear E.
  rewrite line_of_newline by (done || lia). cbn [from_option]. unfold id.
  rewrite c_string_id.
  - rewrite reverse_app. change (reverse [RobustIO.newline] ++ reverse line) with (RobustIO.newline :: reverse line).
    cbn iota. change (RobustIO.newline =? RobustIO.newline) with true. cbn iota. by rewrite reverse_involutive.
  - apply Forall_app. split; [|by repeat constructor]. eapply Forall_impl; [exact Hp|]. by intros c' [].
Qed.

(** A session of the author's client and server over two pipes: for a path on
    the first line of the input that fits the buffers, the client copies the contents
    of the file to its output, byte for byte and however long the file is, or the
    message that it cannot be opened; for an empty line both processes wait for each
    other forever.  Over System V message queues the client obtains the same, and
    messages of other clients in the same queue do not disturb it. *)
Theorem file_sessions line rest pid q :
  Forall plain line -> (length line + 1 < SvMsg.MAXMESGDATA)%nat ->
  (forall reason, fs line = inr reason ->
     Forall (fun c => c <> 0) reason /\ (length reason + 15 + length line < SvMsg.MAXMESGDATA)%nat) ->
  Pipe.session fs (line ++ RobustIO.newline :: rest) =
    (if bool_decide (line = []) then Blocked else Ret (answer_to line)) /\
  (line <> [] ->
   SvMsg.client_request pid (line ++ RobustIO.newline :: rest) = Ret (pid, line) /\
   exists ms, SvMsg.server fs (pid, line) = Ret ms /\
     (filter (fun m => m.1 = pid) q = ms -> (SvMsg.client pid q []).1 = Ret (answer_to line))).
Proof.
  intros Hp Hl Hr.
  assert (Hz : Forall (fun c => c <> 0) line) by (eapply Forall_impl; [exact Hp|]; by intros c []).
  split.
  - unfold Pipe.session. rewrite path_of_line by (done || (unfold SvMsg.MAXMESGDATA, RobustIO.MAXLINE in *; lia)).
    case_bool_decide as E; [by rewrite E|].
    replace (match line with [] => RobustIO.RWait | _ => (RobustIO.k_read RobustIO.MAXLINE [RobustIO.Block line]).1 end)
      with (RobustIO.Got line).
    2:{ destruct line; [done|]. unfold RobustIO.k_read.
        by rewrite (proj2 (Nat.leb_le _ _)) by (unfold SvMsg.MAXMESGDATA, RobustIO.MAXLINE in *; lia). }
    unfold Pipe.serve, answer_to. destruct line as [|c line]; [done|]. set (path := c :: line) in *.
    rewrite c_string_id by done. destruct (fs path) as [content|reason] eqn:Ef.
    + destruct (blocks_concat RobustIO.MAXLINE ltac:(unfold RobustIO.MAXLINE; lia) (length content) content)
        as [Hc Hb]; [lia|]. cbn zeta. rewrite Pipe.copy_blocks by (done || lia). cbn [app].
      unfold file_blocks. by rewrite Hc.
    + destruct (Hr _ eq_refl) as [Hz' Hl']. cbn zeta.
      rewrite cannot_open_all by (done || (unfold SvMsg.MAXMESGDATA, RobustIO.MAXLINE in *; lia)).
      rewrite Pipe.copy_blocks by (lia || by repeat constructor). cbn [app concat]. by rewrite app_nil_r.
  - intros Hne. split; [unfold SvMsg.client_request; by rewrite path_of_line|].
    unfold SvMsg.server, answer_to. rewrite bool_decide_false by done.
    rewrite (proj2 (Nat.leb_gt _ _)) by lia. rewrite c_string_id by done.
    destruct (fs line) as [content|reason] eqn:Ef.
    + eexists. split; [reflexivity|]. intros Hq. rewrite SvMsg.client_filter, Hq.
      destruct (blocks_concat SvMsg.MAXMESGDATA ltac:(unfold SvMsg.MAXMESGDATA; lia) (length content) content)
        as [Hc Hb]; [lia|]. rewrite SvMsg.client_blocks by done. cbn [fst app]. unfold file_blocks. by rewrite Hc.
    + destruct (Hr _ eq_refl) as [Hz' Hl']. eexists. split; [reflexivity|]. intros Hq.
      rewrite SvMsg.client_filter, Hq. rewrite cannot_open_all by (done || lia).
      set (w := line ++ cstr ":can not open " ++ reason ++ [10]).
      assert (Hw : w <> []) by (unfold w; by destruct line).
      pose proof (SvMsg.client_blocks pid [w] ltac:(by repeat constructor) []) as Hb.
      cbn [map app concat] in Hb. rewrite Hb, app_nil_r. done.
Qed.
End Session.

Lemma file_sessions_witness :
  let fs : files := fun p => if bool_decide (p = [97]) then inl [1; 2; 3] else inr [110; 111] in
  Pipe.session fs (98 :: RobustIO.newline :: [5]) =
    (if bool_decide ([98] = []) then Blocked else Ret (answer_to fs [98])) /\
  answer_to fs [98] = 98 :: cstr ":can not open no" ++ [10].
Proof.
  intros fs. split; [|reflexivity].
  refine (proj1 (file_sessions fs [98] [5] 1 [] _ _ _)).
  - repeat constructor; done.
  - simpl. unfold SvMsg.MAXMESGDATA. lia.
  - intros reason E. injection E as <-. split; [repeat constructor; done|].
    simpl. unfold SvMsg.MAXMESGDATA. lia.
Defined.
