(* ===== verification/SeqFile.v ===== *)
(** * A sequence number in a file, incremented under a lock

    Model of the author's src/IPC/RecordLock/RecordLockingFcntl.c,
    src/IPC/Semaphore/RecordLockingSem.c and RecordLockingNone.c: several processes
    run the same main(), which reads a number from a file, adds one and writes it
    back, between mylock() and myunlock().  The class [FileLock] states what the loop
    relies on; the fcntl() lock and the System V semaphore, with the protocol that
    initialises it, are instances, the empty lock is not. *)

From S2P Require Import Prelude CString.

(** A step of mylock(): the lock is held now, something was done on the way to it, or
    the process has to wait. *)
Inductive attempt (L : Type) := Got (l : L) | Moved (l : L) | Wait.
Arguments Got {L} l.
Arguments Moved {L} l.
Arguments Wait {L}.

(** [tracks l h] relates the lock to the process that holds it. *)
Class FileLock (L : Type) := {
  acquire : nat -> L -> attempt L;
  release : nat -> L -> L;
  fresh : L;
  tracks : L -> option nat -> Prop;
  tracks_fresh : tracks fresh None;
  got_law i l l' h : tracks l h -> acquire i l = Got l' -> h = None /\ tracks l' (Some i);
  moved_law i l l' h : tracks l h -> acquire i l = Moved l' -> tracks l' h;
  release_law i l : tracks l (Some i) -> tracks (release i l) None
}.

(** ** RecordLockingFcntl.c: a write lock on the whole file *)

Module Fcntl.
(** The owner of the lock, for the F_SETLKW and F_SETLK of one range. *)
Definition mylock (i : nat) (l : option nat) : attempt (option nat) :=
  match l with
  | None => Got (Some i)
  | Some j => if decide (i = j) then Moved l else Wait
  end.
Definition myunlock (i : nat) (l : option nat) : option nat :=
  if decide (l = Some i) then None else l.

#[global] Program Instance fcntl_lock : FileLock (option nat) :=
  {| acquire := mylock; release := myunlock; fresh := None; tracks := eq |}.
Next Obligation. done. Qed.
Next Obligation. intros i l l' h <-. unfold mylock. destruct l; [by case_decide|]. by intros [= <-]. Qed.
Next Obligation. intros i l l' h <-. unfold mylock. destruct l; [|done]. case_decide; [|done]. by intros [= <-]. Qed.
Next Obligation. intros i l ->. unfold myunlock. by rewrite decide_True. Qed.
End Fcntl.

(** ** RecordLockingSem.c: a System V semaphore *)

Module Sem.

(** The semaphore, if it exists: its value and whether a semop() was ever done. *)
Record sem := SemVal { semval : Z; otime : bool }.

(** How far a process has come with [initflag]: not at all, it has created the
    semaphore, it found it and waits for its first use, or it is past this. *)
Inductive stage := Fresh | Created | Opened | Ready.

Record lock := Lock { the_sem : option sem; stages : nat -> stage }.

Definition set_stage (f : nat -> stage) (i : nat) (x : stage) : nat -> stage :=
  fun j => if decide (j = i) then x else f j.

Definition mylock (i : nat) (l : lock) : attempt lock :=
  match stages l i, the_sem l with
  | Fresh, None => Moved (Lock (Some (SemVal 0 false)) (set_stage (stages l) i Created))
  | Fresh, Some s => Moved (Lock (Some s) (set_stage (stages l) i Opened))
  | Created, Some s => Moved (Lock (Some (SemVal 1 (otime s))) (set_stage (stages l) i Ready))
  | Opened, Some s => if otime s then Moved (Lock (Some s) (set_stage (stages l) i Ready)) else Wait
  | Ready, Some s =>
      if semval s - 1 >=? 0 then Got (Lock (Some (SemVal (semval s - 1) true)) (stages l)) else Wait
  | _, None => Wait
  end.

Definition myunlock (i : nat) (l : lock) : lock :=
  match the_sem l with
  | Some s => Lock (Some (SemVal (semval s + 1) true)) (stages l)
  | None => l
  end.

Definition sem_tracks (l : lock) (h : option nat) : Prop :=
  match the_sem l with
  | None => h = None /\ forall i, stages l i = Fresh
  | Some s =>
      (h = None /\ otime s = false /\ exists c, stages l c = Created /\
         forall i, i <> c -> stages l i = Fresh \/ stages l i = Opened) \/
      ((forall i, stages l i <> Created) /\ semval s = match h with None => 1 | Some _ => 0 end)
  end.

Lemma set_stage_eq f i x : set_stage f i x i = x.
Proof. unfold set_stage. by rewrite decide_True. Qed.
Lemma set_stage_ne f i j x : j <> i -> set_stage f i x j = f j.
Proof. intros. unfold set_stage. by rewrite decide_False. Qed.

#[global] Program Instance sem_lock : FileLock lock :=
  {| acquire := mylock; release := myunlock; fresh := Lock None (fun _ => Fresh); tracks := sem_tracks |}.
Next Obligation. done. Qed.
Next Obligation.
  intros i [[[v t]|] f] l' h Ht Ha; unfold mylock, sem_tracks in *; cbn in *; [|by destruct (f i)].
  destruct (f i) eqn:E; try done; [by destruct t|].
  destruct Ht as [(_ & _ & c & Hc & Ho)|[Hn Hv]].
  - destruct (decide (i = c)) as [->|Hne]; [congruence|]. destruct (Ho i Hne); congruence.
  - destruct (v - 1 >=? 0) eqn:Ev; [|done]. injection Ha as <-. cbn.
    destruct h; [lia|]. split; [done|]. right. split; [done|]. lia.
Qed.
Next Obligation.
  intros i [[[v t]|] f] l' h Ht Ha; unfold mylock, sem_tracks in *; cbn in *; destruct (f i) eqn:E; try done.
  - injection Ha as <-. cbn. destruct Ht as [(-> & -> & c & Hc & Ho)|[Hn Hv]].
    + left. split; [done|]. split; [done|]. exists c. assert (c <> i) by congruence.
      rewrite set_stage_ne by done. split; [done|]. intros j Hj.
      destruct (decide (j = i)) as [->|]; [rewrite set_stage_eq; auto|rewrite set_stage_ne by done; auto].
    + right. split; [|done]. intros j. destruct (decide (j = i)) as [->|]; [by rewrite set_stage_eq|by rewrite set_stage_ne].
  - injection Ha as <-. cbn. destruct Ht as [(-> & -> & c & Hc & Ho)|[Hn Hv]]; [|by destruct (Hn i)].
    right. assert (i = c) as ->.
    { destruct (decide (i = c)); [done|]. destruct (Ho i); [done|congruence..]. }
    split; [|done]. intros j. destruct (decide (j = c)) as [->|Hj]; [by rewrite set_stage_eq|].
    rewrite set_stage_ne by done. destruct (Ho j Hj) as [->| ->]; done.
  - destruct t; [|done]. injection Ha as <-. cbn. destruct Ht as [(_ & ? & _)|[Hn Hv]]; [done|].
    right. split; [|done]. intros j. destruct (decide (j = i)) as [->|]; [by rewrite set_stage_eq|by rewrite set_stage_ne].
  - by destruct (_ >=? 0).
  - injection Ha as <-. cbn. destruct Ht as [-> Hf]. left. split; [done|]. split; [done|]. exists i.
    rewrite set_stage_eq. split; [done|]. intros j Hj. rewrite set_stage_ne by done. auto.
Qed.
Next Obligation.
  intros i [[[v t]|] f] Ht; unfold myunlock, sem_tracks in *; cbn in *; [|by destruct Ht].
  destruct Ht as [(? & _)|[Hn Hv]]; [done|]. right. split; [done|]. lia.
Qed.
End Sem.

(** RecordLockingNone.c: both functions only return. *)
Module NoLock.
Definition mylock (i : nat) (l : unit) : attempt unit := Got tt.
Definition myunlock (i : nat) (l : unit) : unit := tt.
End NoLock.

(** ** The loop of main() *)

Definition MAXLINE : nat := 4096.
Definition cycletimes : nat := 30.
Definition NL : Z := 10.

(** snprintf(buff, MAXLINE, "%ld\n", v) *)
Definition fmt_ld (v : Z) : list Z :=
  (if v <? 0 then 45 :: fmt_aux 20 10 (- v) [] else fmt_aux 20 10 v []) ++ [NL].

(** sscanf(buff, "%ld\n", &v): white space, a sign, digits; [None] when it stores
    nothing. *)
Definition isspace (c : Z) : bool := (c =? 32) || ((9 <=? c) && (c <=? 13)).

Fixpoint scan_digits (l : list Z) (v : Z) (some : bool) : option Z :=
  match l with
  | c :: l' => if (48 <=? c) && (c <=? 57) then scan_digits l' (v * 10 + (c - 48)) true
               else if some then Some v else None
  | [] => if some then Some v else None
  end.

Fixpoint scan_ld (l : list Z) : option Z :=
  match l with
  | [] => None
  | c :: l' =>
      if isspace c then scan_ld l'
      else if c =? 45 then Z.opp <$> scan_digits l' 0 false
      else if c =? 43 then scan_digits l' 0 false
      else scan_digits l 0 false
  end.

Inductive pc := PLock | PRead | PWrite | PUnlock | PDone | PCrash.
(** A process: the iterations left and [seqNum]. *)
Record proc := Proc { ppc : pc; left : nat; seqNum : Z }.

Section Program.
Context {L : Type} (mylock : nat -> L -> attempt L) (myunlock : nat -> L -> L).

Record state := St { file : list Z; lock : L; procs : list proc }.

(** write() at offset 0: what was behind the new text stays. *)
Definition overwrite (f bs : list Z) : list Z := bs ++ drop (length bs) f.

Definition exec (s : state) (i : nat) : option state :=
  p ← procs s !! i;
  let go f l p' := Some (St f l (<[i := p']> (procs s))) in
  match ppc p with
  | PLock =>
      match mylock i (lock s) with
      | Got l => go (file s) l (Proc PRead (left p) (seqNum p))
      | Moved l => go (file s) l p
      | Wait => None
      end
  | PRead =>
      if (MAXLINE <=? length (file s))%nat then go (file s) (lock s) (Proc PCrash (left p) (seqNum p))
      else go (file s) (lock s) (Proc PWrite (left p) (default (seqNum p) (scan_ld (file s))))
  | PWrite =>
      let v := s64 (seqNum p + 1) in
      go (overwrite (file s) (fmt_ld v)) (lock s) (Proc PUnlock (left p) v)
  | PUnlock =>
      let n := pred (left p) in
      go (file s) (myunlock i (lock s)) (Proc (if (n =? 0)%nat then PDone else PLock) n (seqNum p))
  | PDone | PCrash => None
  end.

Fixpoint run (s : state) (es : list nat) : option state :=
  match es with [] => Some s | i :: es' => s' ← exec s i; run s' es' end.

(** [n] processes with [k] iterations each. *)
Definition start (f : list Z) (l : L) (n k : nat) : state :=
  St f l (replicate n (Proc (if (k =? 0)%nat then PDone else PLock) k 0)).
End Program.

(** ** The text of a number *)

Lemma scan_digits_spec ds r : Forall (fun d => 0 <= d < 10) ds -> forall v b,
  (b = true \/ ds <> []) ->
  scan_digits (map digit_char ds ++ NL :: r) v b = Some (horner 10 ds v).
Proof.
  induction 1 as [|d ds Hd _ IH]; intros v b Hb.
  - destruct Hb as [->|]; done.
  - cbn [map app scan_digits].
    assert (E : digit_char d = 48 + d) by (unfold digit_char; by rewrite (proj2 (Z.ltb_lt _ _)) by lia).
    rewrite E, (proj2 (Z.leb_le 48 _)), (proj2 (Z.leb_le _ 57)) by lia. cbn [andb].
    rewrite IH by auto. by replace (48 + d - 48) with d by lia.
Qed.

Lemma scan_fmt v r : 0 <= v < 10 ^ 20 -> scan_ld (fmt_ld v ++ r) = Some v.
Proof.
  intros Hv. unfold fmt_ld. rewrite (proj2 (Z.ltb_ge _ _)) by lia.
  rewrite fmt_aux_digits, app_nil_r, <- app_assoc. cbn [app].
  pose proof (digits_of_range 20 10 v ltac:(lia)) as Hr.
  pose proof (digits_of_nonnil 20 10 v ltac:(lia)) as Hne.
  pose proof (horner_digits 20 10 v ltac:(lia) ltac:(lia)) as Hh.
  pose proof (scan_digits_spec _ r Hr 0 false (or_intror Hne)) as Hs. rewrite Hh in Hs.
  destruct (digits_of 20 10 v) as [|d ds]; [done|]. apply Forall_cons in Hr as [Hd _].
  cbn [map app scan_ld] in *.
  assert (E : digit_char d = 48 + d) by (unfold digit_char; by rewrite (proj2 (Z.ltb_lt _ _)) by lia).
  unfold isspace. rewrite E in *.
  rewrite (proj2 (Z.eqb_neq _ 32)), (proj2 (Z.leb_gt _ 13)), (proj2 (Z.eqb_neq _ 45)),
    (proj2 (Z.eqb_neq _ 43)) by lia.
  rewrite andb_false_r. exact Hs.
Qed.

Lemma length_fmt v : 0 <= v -> (length (fmt_ld v) <= 21)%nat.
Proof.
  intros Hv. unfold fmt_ld. rewrite (proj2 (Z.ltb_ge _ _)) by lia.
  rewrite fmt_aux_digits, app_nil_r, length_app, length_map. pose proof (digits_of_length 20 10 v).
  change (length [NL]) with 1%nat. lia.
Qed.

(** The file holds the number [v], possibly with remains behind it. *)
Definition holds (v : Z) (f : list Z) : Prop := (exists r, f = fmt_ld v ++ r) /\ (length f < MAXLINE)%nat.

Lemma overwrite_holds u v f : holds u f -> 0 <= v -> holds v (overwrite f (fmt_ld v)).
Proof.
  intros [_ Hl] Hv. unfold holds, overwrite. split; [eauto|].
  rewrite length_app, length_drop. pose proof (length_fmt v Hv). unfold MAXLINE in *. lia.
Qed.

(** ** With a lock no increment is lost *)

Section Exact.
Context `{FileLock L} (n k : nat) (v0 : Z).

Definition critical (p : proc) : bool := match ppc p with PRead | PWrite | PUnlock => true | _ => false end.
(** The increments a process has written. *)
Definition done_by (p : proc) : Z := Z.of_nat k - Z.of_nat (left p) + match ppc p with PUnlock => 1 | _ => 0 end.
Definition total (l : list proc) : Z := sumz done_by l.

Definition proc_ok (v : Z) (p : proc) : Prop :=
  (left p <= k)%nat /\
  match ppc p with
  | PLock | PRead | PUnlock => (0 < left p)%nat
  | PWrite => (0 < left p)%nat /\ seqNum p = v
  | PDone => left p = 0%nat
  | PCrash => False
  end.

Record inv (s : state (L := L)) (h : option nat) : Prop := Inv {
  tracked : tracks (lock s) h;
  count : length (procs s) = n;
  one : forall i p, procs s !! i = Some p -> critical p = true -> h = Some i;
  value : holds (v0 + total (procs s)) (file s);
  each : Forall (proc_ok (v0 + total (procs s))) (procs s) }.

Context (Hv0 : 0 <= v0) (Hmax : v0 + Z.of_nat n * Z.of_nat k < 2 ^ 63).

Lemma total_bound l v : Forall (proc_ok v) l -> 0 <= total l <= Z.of_nat (length l) * Z.of_nat k.
Proof.
  intros Hl. unfold total. induction Hl as [|p l [Hp Hq] _ IH]; [done|].
  assert (0 <= done_by p <= Z.of_nat k) by (unfold done_by; destruct (ppc p); try done; lia).
  rewrite sumz_cons. cbn [length]. rewrite Nat2Z.inj_succ, Z.mul_succ_l. lia.
Qed.

(** A process at its write() leaves room for one more increment. *)
Lemma total_room l v i p : Forall (proc_ok v) l -> l !! i = Some p -> ppc p = PWrite ->
  total l + 1 <= Z.of_nat (length l) * Z.of_nat k.
Proof.
  intros Hl. unfold total. revert i. induction Hl as [|q l [Hq Hq'] Hl IH]; intros [|i] Hp Epc; simplify_eq/=;
    rewrite sumz_cons, Nat2Z.inj_succ, Z.mul_succ_l.
  - pose proof (total_bound l v Hl) as Hb. unfold total in Hb. unfold done_by at 1. rewrite Epc in *. lia.
  - specialize (IH _ Hp Epc). assert (done_by q <= Z.of_nat k) by (unfold done_by; destruct (ppc q); try done; lia). lia.
Qed.

Lemma proc_ok_idle v v' p : critical p = false -> proc_ok v p -> proc_ok v' p.
Proof. unfold critical, proc_ok. by destruct (ppc p). Qed.

(** Replacing the process [i] by [p'], when it is the only one in its critical
    section, and the number in the file moves with what [p'] has written. *)
Lemma inv_update s h i p p' f l h' :
  inv s h -> procs s !! i = Some p ->
  tracks l h' -> (critical p' = true -> h' = Some i) ->
  (forall j q, j <> i -> procs s !! j = Some q -> critical q = true -> h' = Some j) ->
  done_by p' - done_by p = 0 \/ critical p = true ->
  holds (v0 + (total (procs s) + (done_by p' - done_by p))) f ->
  proc_ok (v0 + (total (procs s) + (done_by p' - done_by p))) p' ->
  inv (St f l (<[i := p']> (procs s))) h'.
Proof.
  intros [Ht Hc Ho Hv He] Hp Ht' Hi Hj Hd Hf Hok.
  assert (Hs : total (<[i := p']> (procs s)) = total (procs s) + (done_by p' - done_by p)).
  { unfold total. rewrite (sumz_insert _ _ _ _ _ Hp). lia. }
  constructor; cbn [lock procs file].
  - done.
  - by rewrite length_insert.
  - intros j q Hq Hcr. destruct (decide (j = i)) as [->|Hne].
    + rewrite list_lookup_insert_eq in Hq by (by eapply lookup_lt_Some). injection Hq as <-. auto.
    + rewrite list_lookup_insert_ne in Hq by done. eauto.
  - by rewrite Hs.
  - rewrite Hs. apply Forall_lookup_2. intros j q Hq. destruct (decide (j = i)) as [->|Hne].
    + rewrite list_lookup_insert_eq in Hq by (by eapply lookup_lt_Some). by injection Hq as <-.
    + rewrite list_lookup_insert_ne in Hq by done. pose proof (Forall_lookup_1 _ _ _ _ He Hq) as Hokq.
      destruct Hd as [->|Hcr]; [by rewrite Z.add_0_r|].
      destruct (critical q) eqn:Eq; [|by eapply proc_ok_idle].
      pose proof (Ho i p Hp Hcr). pose proof (Ho j q Hq Eq). congruence.
Qed.

Lemma seq_exec s h i s' : inv s h -> exec acquire release s i = Some s' -> exists h', inv s' h'.
Proof.
  intros I Hx. pose proof I as [Ht Hc Ho Hv He]. unfold exec in Hx.
  destruct (procs s !! i) as [p|] eqn:Hp; [|done]. cbn [mbind option_bind] in Hx.
  pose proof (Forall_lookup_1 _ _ _ _ He Hp) as [Hpk Hpo].
  pose proof (total_bound _ _ He) as Htot. rewrite Hc in Htot.
  destruct (ppc p) eqn:Epc; try done; unfold proc_ok in Hpo; rewrite ?Epc in Hpo.
  - destruct (acquire i (lock s)) as [l|l|] eqn:Ea; [| |done]; injection Hx as <-.
    + destruct (got_law _ _ _ _ Ht Ea) as [-> Ht']. exists (Some i).
      eapply inv_update; [exact I|exact Hp|done|done| | | |];
        unfold done_by, proc_ok; cbn [ppc left seqNum]; rewrite ?Epc, ?Z.sub_diag, ?Z.add_0_r; auto.
      intros j q _ Hq Hcr. by specialize (Ho j q Hq Hcr).
    + exists h. rewrite list_insert_id by done. constructor; try done. by eapply moved_law.
  - assert (Hcr : critical p = true) by (unfold critical; by rewrite Epc).
    destruct Hv as [[r Er] Hl]. rewrite (proj2 (Nat.leb_gt _ _)) in Hx by done. injection Hx as <-.
    exists h. eapply inv_update; [exact I|exact Hp|done|intros _; by apply (Ho i p)|eauto| | |];
      unfold done_by, proc_ok; cbn [ppc left seqNum]; rewrite ?Epc, ?Z.sub_diag, ?Z.add_0_r; auto.
    + split; [eauto|done].
    + rewrite Er, scan_fmt by lia. auto.
  - assert (Hcr : critical p = true) by (unfold critical; by rewrite Epc). destruct Hpo as [Hlp Hsq]. rewrite Hsq in Hx.
    pose proof (Ho i p Hp Hcr) as ->. injection Hx as <-. exists (Some i).
    assert (Hv' : s64 (v0 + total (procs s) + 1) = v0 + (total (procs s) + 1)).
    { pose proof (total_room _ _ _ _ He Hp Epc) as Hroom. rewrite Hc in Hroom.
      rewrite swrap_small by lia. lia. }
    eapply inv_update; [exact I|exact Hp|done|done| |auto| |];
      unfold done_by, proc_ok; cbn [ppc left seqNum]; rewrite ?Epc.
    + intros j q _ Hq Hcq. by apply (Ho j q).
    + rewrite Hv'. match goal with |- holds ?x _ => replace x with (v0 + (total (procs s) + 1)) by lia end.
      eapply overwrite_holds; [exact Hv|lia].
    + auto.
  - assert (Hcr : critical p = true) by (unfold critical; by rewrite Epc).
    pose proof (Ho i p Hp Hcr) as ->. injection Hx as <-. exists None.
    assert (Hd : done_by (Proc (if (pred (left p) =? 0)%nat then PDone else PLock) (pred (left p)) (seqNum p)) - done_by p = 0).
    { unfold done_by. cbn [ppc left]. rewrite Epc. destruct (_ =? 0)%nat; lia. }
    eapply inv_update; [exact I|exact Hp|by apply release_law| | |by left| |].
    + unfold critical. cbn [ppc]. by destruct (_ =? 0)%nat.
    + intros j q Hne Hq Hcq. specialize (Ho j q Hq Hcq). congruence.
    + by rewrite Hd, Z.add_0_r.
    + rewrite Hd, Z.add_0_r. unfold proc_ok. cbn [ppc left]. split; [lia|].
      destruct (pred (left p) =? 0)%nat eqn:E; [by apply Nat.eqb_eq|apply Nat.eqb_neq in E; lia].
Qed.

Lemma seq_run es : forall s h s', inv s h -> run acquire release s es = Some s' -> exists h', inv s' h'.
Proof.
  induction es as [|e es IH]; intros s h s' I Hr; cbn in Hr; [injection Hr as <-; eauto|].
  destruct (exec acquire release s e) as [s1|] eqn:Hx; [|done].
  destruct (seq_exec _ _ _ _ I Hx) as [h1 I1]. by eapply IH.
Qed.

Lemma seq_start f : holds v0 f -> inv (start f fresh n k) None.
Proof.
  intros Hf.
  assert (Ht : total (procs (start f fresh n k)) = 0).
  { unfold total. cbn. rewrite sumz_replicate. unfold done_by. cbn. destruct k; cbn; lia. }
  constructor; rewrite ?Ht, ?Z.add_0_r; cbn.
  - apply tracks_fresh.
  - apply length_replicate.
  - intros i p Hp Hcr. apply lookup_replicate in Hp as [-> _]. unfold critical in Hcr. cbn in Hcr.
    by destruct (k =? 0)%nat.
  - done.
  - apply Forall_replicate. unfold proc_ok. cbn. split; [lia|]. destruct k; cbn; lia.
Qed.
End Exact.

(** C31: a sequence number incremented under a lock: with the fcntl() lock or the
    semaphore (any implementation of the interface), whatever the interleaving of [n]
    processes with [k] iterations each, at most one process is between mylock() and
    myunlock(), the file always holds the initial number plus the increments written,
    no process overruns its buffer, and when all have finished it holds the initial
    number plus [n * k].  Without a lock two increments can count as one. *)
Theorem seqfile_exact `{FileLock L} n k v0 f es s :
  0 <= v0 -> v0 + Z.of_nat n * Z.of_nat k < 2 ^ 63 -> holds v0 f ->
  run acquire release (start f fresh n k) es = Some s ->
  (exists h, forall i p, procs s !! i = Some p -> critical p = true -> h = Some i) /\
  holds (v0 + total k (procs s)) (file s) /\
  Forall (fun p => ppc p <> PCrash) (procs s) /\
  (Forall (fun p => ppc p = PDone) (procs s) -> scan_ld (file s) = Some (v0 + Z.of_nat n * Z.of_nat k)) /\
  (exists es' s', run NoLock.mylock NoLock.myunlock (start (fmt_ld 1) tt 2 1) es' = Some s' /\
     map ppc (procs s') = [PDone; PDone] /\ scan_ld (file s') = Some 2).
Proof.
  intros Hv0 Hmax Hf Hr.
  destruct (seq_run n k v0 Hv0 Hmax es _ None s (seq_start n k v0 Hmax f Hf) Hr) as [h I].
  pose proof I as [Ht Hc Ho Hv He]. split; [by exists h|]. split; [done|]. split.
  { eapply Forall_impl; [exact He|]. intros p [_ Hp] E. by rewrite E in Hp. }
  split.
  - intros Hd. assert (Htot : total k (procs s) = Z.of_nat n * Z.of_nat k).
    { rewrite <- Hc. clear -Hd He. unfold total in *. revert He.
      generalize (v0 + sumz (done_by k) (procs s)). intros v He. induction (procs s) as [|p l IH]; [done|].
      apply Forall_cons in He as [[_ Hq] He]. apply Forall_cons in Hd as [Hp Hd].
      assert (E : done_by k p = Z.of_nat k) by (unfold done_by; rewrite Hp in *; lia).
      rewrite sumz_cons, IH, E by done. cbn [length]. lia. }
    rewrite Htot in Hv. destruct Hv as [[r ->] _]. apply scan_fmt. lia.
  - exists [0; 1; 0; 1; 0; 1; 0; 1]%nat. eexists. split; [vm_compute; reflexivity|]. split; reflexivity.
Qed.

Lemma seqfile_exact_witness :
  exists s, run Fcntl.mylock Fcntl.myunlock (start (fmt_ld 1) None 2 1) [0; 0; 0; 0; 1; 1; 1; 1]%nat = Some s /\
    scan_ld (file s) = Some (1 + Z.of_nat 2 * Z.of_nat 1).
Proof.
  assert (Hr : exists s, run Fcntl.mylock Fcntl.myunlock (start (fmt_ld 1) None 2 1) [0; 0; 0; 0; 1; 1; 1; 1]%nat = Some s /\
    Forall (fun p => ppc p = PDone) (procs s)).
  { eexists. split; [vm_compute; reflexivity|]. repeat constructor. }
  destruct Hr as (s & Hr & Hd). exists s. split; [exact Hr|].
  refine (proj1 (proj2 (proj2 (proj2 (seqfile_exact 2 1 1 (fmt_ld 1) [0; 0; 0; 0; 1; 1; 1; 1]%nat s _ _ _ Hr)))) Hd);
    [lia|lia|].
  split; [exists []; by rewrite app_nil_r|vm_compute; lia].
Defined.
