(* ===== verification/GetAddrInfo.v ===== *)
(** * Host and service lookup

    Model of src/UNPLearning/unpv13e/libfree/getaddrinfo.c.  The [addrinfo]
    structures, the socket addresses and the canonical name live in a heap of
    blocks; reading or writing a block that is not there, or freeing it twice,
    makes the computation [None] (undefined behaviour).  The allocator fails
    where the oracle [ok] says so, so that the theorems cover every pattern of
    allocation failures.  The build switch [IPV6] is a variable, the resolver
    and the services database are functions given to the model.  [inet_pton] is
    the one of InetAddr.v, from the same directory. *)

From S2P Require Import Prelude CString InetAddr.

Definition str : Type := list Z.

(** The character at the start of a C string, the terminating null included. *)
Definition char0 (s : str) : Z := hd 0 s.
Definition SLASH : Z := 47.
Definition isdigit (c : Z) : bool := (48 <=? c) && (c <=? 57).
Definition isxdigit (c : Z) : bool :=
  isdigit c || ((65 <=? c) && (c <=? 70)) || ((97 <=? c) && (c <=? 102)).

(** addrinfo.h *)
Definition AI_PASSIVE : Z := 1.
Definition AI_CANONNAME : Z := 2.
Definition AI_CLONE : Z := 4.
Definition EAI_ADDRFAMILY : Z := 1.
Definition EAI_AGAIN : Z := 2.
Definition EAI_BADFLAGS : Z := 3.
Definition EAI_FAIL : Z := 4.
Definition EAI_FAMILY : Z := 5.
Definition EAI_MEMORY : Z := 6.
Definition EAI_NODATA : Z := 7.
Definition EAI_NONAME : Z := 8.
Definition EAI_SERVICE : Z := 9.
Definition EAI_SOCKTYPE : Z := 10.
(** <sys/socket.h> and <netdb.h>, as on Linux *)
Definition SOCK_STREAM : Z := 1.
Definition SOCK_DGRAM : Z := 2.
Definition SOCK_RAW : Z := 3.
Definition HOST_NOT_FOUND : Z := 1.
Definition TRY_AGAIN : Z := 2.
Definition NO_RECOVERY : Z := 3.
Definition NO_DATA : Z := 4.
Definition HENTBUFSIZ : Z := 8192.
Definition HENTMAXADDR : nat := 32.
Definition SUN_PATH : nat := 108.

Abbreviation loc := Z (only parsing).
Definition NULL : loc := 0.

Record addrinfo := AI {
  ai_flags : Z; ai_family : family; ai_socktype : Z; ai_protocol : Z;
  ai_addrlen : Z; ai_canonname : loc; ai_addr : loc; ai_next : loc }.

Inductive sockaddr :=
| SockIn (sin_family : family) (sin_port : Z) (sin_addr : list Z)
| SockIn6 (sin6_family : family) (sin6_port : Z) (sin6_addr : list Z)
| SockUn (sun_family : family) (sun_path : list Z).

Definition sa_size (sa : sockaddr) : Z :=
  match sa with SockIn _ _ _ => 16 | SockIn6 _ _ _ => 28 | SockUn _ _ => 110 end.

(** A block of [malloc] holds an [addrinfo], a socket address, a string, or
    bytes not written yet. *)
Inductive block := BInfo (a : addrinfo) | BSock (sa : sockaddr) | BName (s : str) | BRaw (size : Z).

Record hostent := Hostent { h_name : option str; h_addrtype : family; h_addr_list : list (list Z) }.

(** The part of the resolver's global [_res] that is used. *)
Record resolver := Resolver { res_inited : bool; res_use_inet6 : bool }.

Record st := St { heap : gmap loc block; brk : loc; res : resolver; unlinked : list str }.

(** ** Computations that may be undefined *)

Definition M (A : Type) : Type := st -> option (A * st).
#[global] Instance M_ret : MRet M := fun A a s => Some (a, s).
#[global] Instance M_bind : MBind M := fun A B k m s =>
  match m s with Some (a, s') => k a s' | None => None end.
Definition ub {A} : M A := fun _ => None.
Definition lift {A} (o : option A) : M A := fun s => (fun a => (a, s)) <$> o.

Definition set_heap (s : st) (h : gmap loc block) : st := St h (brk s) (res s) (unlinked s).

Definition load (l : loc) : M block := fun s => (fun b => (b, s)) <$> heap s !! l.
Definition store (l : loc) (b : block) : M unit := fun s =>
  match heap s !! l with Some _ => Some (tt, set_heap s (<[l := b]> (heap s))) | None => None end.
Definition free (l : loc) : M unit := fun s =>
  match heap s !! l with Some _ => Some (tt, set_heap s (delete l (heap s))) | None => None end.

Definition load_info (l : loc) : M addrinfo :=
  b ← load l; match b with BInfo a => mret a | _ => ub end.
Definition modify_info (l : loc) (f : addrinfo -> addrinfo) : M unit :=
  a ← load_info l; store l (BInfo (f a)).

Definition set_flags (v : Z) (a : addrinfo) : addrinfo :=
  AI v (ai_family a) (ai_socktype a) (ai_protocol a) (ai_addrlen a) (ai_canonname a) (ai_addr a) (ai_next a).
Definition set_family (v : family) (a : addrinfo) : addrinfo :=
  AI (ai_flags a) v (ai_socktype a) (ai_protocol a) (ai_addrlen a) (ai_canonname a) (ai_addr a) (ai_next a).
Definition set_socktype (v : Z) (a : addrinfo) : addrinfo :=
  AI (ai_flags a) (ai_family a) v (ai_protocol a) (ai_addrlen a) (ai_canonname a) (ai_addr a) (ai_next a).
Definition set_protocol (v : Z) (a : addrinfo) : addrinfo :=
  AI (ai_flags a) (ai_family a) (ai_socktype a) v (ai_addrlen a) (ai_canonname a) (ai_addr a) (ai_next a).
Definition set_addrlen (v : Z) (a : addrinfo) : addrinfo :=
  AI (ai_flags a) (ai_family a) (ai_socktype a) (ai_protocol a) v (ai_canonname a) (ai_addr a) (ai_next a).
Definition set_canonname (v : loc) (a : addrinfo) : addrinfo :=
  AI (ai_flags a) (ai_family a) (ai_socktype a) (ai_protocol a) (ai_addrlen a) v (ai_addr a) (ai_next a).
Definition set_addr (v : loc) (a : addrinfo) : addrinfo :=
  AI (ai_flags a) (ai_family a) (ai_socktype a) (ai_protocol a) (ai_addrlen a) (ai_canonname a) v (ai_next a).
Definition set_next (v : loc) (a : addrinfo) : addrinfo :=
  AI (ai_flags a) (ai_family a) (ai_socktype a) (ai_protocol a) (ai_addrlen a) (ai_canonname a) (ai_addr a) v.

(** A structure cleared by [calloc]. *)
Definition zero_info : addrinfo := AI 0 AF_UNSPEC 0 0 0 NULL NULL NULL.

(** [htons] on a little-endian host. *)
Definition htons (v : Z) : Z := load_bytes true (store_bytes false 2 v).

(** [atoi]: the value of the leading digits, computed as a 64-bit [long] that
    saturates, then cut to an [int]; the sources call it on strings that start
    with a digit. *)
Fixpoint leading_digits (s : str) : list Z :=
  match s with
  | [] => []
  | c :: s' => if isdigit c then c - 48 :: leading_digits s' else []
  end.
Definition atoi (s : str) : Z :=
  swrap 32 (Z.min (horner 10 (leading_digits s) 0) (2 ^ 63 - 1)).

Section WithEnvironment.
Context (IPV6 : bool) (uninit : Z) (ok : loc -> bool).
Context (res_init : resolver -> resolver)
        (gethostbyname : bool -> str -> Z + hostent)
        (getservbyname : str -> str -> option Z).

(** [malloc] and [calloc] of a block with the given first contents. *)
Definition alloc (b : block) : M loc := fun s =>
  if ok (brk s)
  then Some (brk s, St (<[brk s := b]> (heap s)) (brk s + 1) (res s) (unlinked s))
  else Some (NULL, St (heap s) (brk s + 1) (res s) (unlinked s)).

Fixpoint free_list (fuel : nat) (ai : loc) : M unit :=
  if ai =? NULL then mret tt else
  match fuel with
  | O => ub
  | S fuel' =>
      a ← load_info ai;
      _ ← (if ai_addr a =? NULL then mret tt else free (ai_addr a));
      _ ← (if ai_canonname a =? NULL then mret tt else free (ai_canonname a));
      _ ← free ai;
      free_list fuel' (ai_next a)
  end.

(** Every round frees a block, so the size of the heap is enough fuel. *)
Definition freeaddrinfo (aihead : loc) : M unit := fun s => free_list (size (heap s)) aihead s.

(** [memcpy(dst, src, n)] of a whole socket address. *)
Definition memcpy_addr (dst src : loc) (n : Z) : M unit :=
  b ← load src;
  d ← load dst;
  match b, d with
  | BSock sa, BRaw m => if (sa_size sa =? n) && (n =? m) then store dst (BSock sa) else ub
  | _, _ => ub
  end.

Definition getaddrinfo_clone (ai : loc) : M loc :=
  new ← alloc (BInfo zero_info);
  if new =? NULL then mret NULL else
  a ← load_info ai;
  _ ← modify_info new (set_next (ai_next a));
  _ ← modify_info ai (set_next new);
  _ ← modify_info new (set_flags 0);
  a ← load_info ai;
  _ ← modify_info new (set_family (ai_family a));
  _ ← modify_info new (set_socktype (ai_socktype a));
  _ ← modify_info new (set_protocol (ai_protocol a));
  _ ← modify_info new (set_canonname NULL);
  _ ← modify_info new (set_addrlen (ai_addrlen a));
  p ← alloc (BRaw (ai_addrlen a));
  _ ← modify_info new (set_addr p);
  if p =? NULL then mret NULL else
  _ ← memcpy_addr p (ai_addr a) (ai_addrlen a);
  mret new.

(** The switch at the end of the loop of [getaddrinfo_port]: the number of
    structures filled in. *)
Definition set_port (a : addrinfo) (port : Z) : M Z :=
  match ai_family a with
  | AF_INET =>
      b ← load (ai_addr a);
      match b with
      | BSock (SockIn f _ ad) => _ ← store (ai_addr a) (BSock (SockIn f port ad)); mret 1
      | _ => ub
      end
  | AF_INET6 =>
      if IPV6 then
        b ← load (ai_addr a);
        match b with
        | BSock (SockIn6 f _ ad) => _ ← store (ai_addr a) (BSock (SockIn6 f port ad)); mret 1
        | _ => ub
        end
      else mret 0
  | _ => mret 0
  end.

Fixpoint port_loop (fuel : nat) (ai : loc) (port socktype nfound : Z) : M Z :=
  if ai =? NULL then mret nfound else
  match fuel with
  | O => ub
  | S fuel' =>
      a ← load_info ai;
      let fill (ai : loc) : M Z :=
        _ ← modify_info ai (set_socktype socktype);
        a ← load_info ai;
        k ← set_port a port;
        port_loop fuel' (ai_next a) port socktype (nfound + k) in
      if negb (Z.land (ai_flags a) AI_CLONE =? 0) then
        if negb (ai_socktype a =? 0) then
          new ← getaddrinfo_clone ai;
          if new =? NULL then mret (-1) else fill new
        else fill ai
      else if negb (ai_socktype a =? socktype) then port_loop fuel' (ai_next a) port socktype nfound
      else fill ai
  end.

Definition getaddrinfo_port (aihead : loc) (port socktype : Z) : M Z := fun s =>
  port_loop (size (heap s)) aihead port socktype 0 s.

(** One half of the lookup in the services database: [inl] is an early return. *)
Definition try_service (aihead : loc) (hintsptr : addrinfo) (serv proto : str) (socktype nfound : Z)
  : M (Z + Z) :=
  if (ai_socktype hintsptr =? 0) || (ai_socktype hintsptr =? socktype) then
    match getservbyname serv proto with
    | Some s_port =>
        rc ← getaddrinfo_port aihead s_port socktype;
        if rc <? 0 then mret (inl EAI_MEMORY) else mret (inr (nfound + rc))
    | None => mret (inr nfound)
    end
  else mret (inr nfound).

Definition getaddrinfo_serv (aihead : loc) (hintsptr : addrinfo) (serv : str) : M Z :=
  if isdigit (char0 serv) && negb (ai_socktype hintsptr =? 0) then
    rc ← getaddrinfo_port aihead (htons (atoi serv)) (ai_socktype hintsptr);
    if rc =? 0 then mret EAI_NONAME else if rc <? 0 then mret EAI_MEMORY else mret 0
  else
    r ← try_service aihead hintsptr serv (cstr "tcp") SOCK_STREAM 0;
    match r with
    | inl e => mret e
    | inr nfound =>
        r ← try_service aihead hintsptr serv (cstr "udp") SOCK_DGRAM nfound;
        match r with
        | inl e => mret e
        | inr nfound =>
            if nfound =? 0 then
              mret (if ai_socktype hintsptr =? 0 then EAI_NONAME else EAI_SERVICE)
            else mret 0
        end
    end.

(** [hent] after [inet_pton] succeeded: the copy of the string in [hentbuf] and
    the address at the start of [hent_addr]. *)
Definition own_hent (host : str) (f : family) (bs : list Z) : option hostent :=
  a ← write_at (replicate HENTMAXADDR uninit) 0 bs;
  Some (Hostent (Some (take (Z.to_nat (HENTBUFSIZ - 1)) host)) f [a]).

Definition try_numeric (f : family) (host : str) : M (option hostent) :=
  r ← lift (inet_pton uninit f host);
  match r with
  | (Ret 1, Some bs) => h ← lift (own_hent host f bs); mret (Some h)
  | _ => mret None
  end.

Definition set_res (r : resolver) : M unit := fun s => Some (tt, St (heap s) (brk s) r (unlinked s)).
Definition get_res : M resolver := fun s => Some (res s, s).

Definition try_dns (host : str) (f : family) : M (Z + hostent) :=
  r ← get_res;
  let r := if res_inited r then r else res_init r in
  let r := if IPV6 && bool_decide (f = AF_INET6) then Resolver (res_inited r) true else r in
  _ ← set_res r;
  match gethostbyname (res_use_inet6 r) host with
  | inr hptr => mret (inr hptr)
  | inl h_errno =>
      mret (inl (if h_errno =? HOST_NOT_FOUND then EAI_NONAME
                 else if h_errno =? TRY_AGAIN then EAI_AGAIN
                 else if h_errno =? NO_RECOVERY then EAI_FAIL
                 else if h_errno =? NO_DATA then EAI_NODATA
                 else EAI_NONAME))
  end.

(** The error code, or the [hostent] that [hptr] points to. *)
Definition getaddrinfo_host (host : str) (f : family) : M (Z + hostent) :=
  r ← (if isdigit (char0 host) then try_numeric AF_INET host else mret None);
  match r with
  | Some h => mret (inr h)
  | None =>
      r ← (if IPV6 && (isxdigit (char0 host) || (char0 host =? COLON))
           then try_numeric AF_INET6 host else mret None);
      match r with
      | Some h => mret (inr h)
      | None => try_dns host f
      end
  end.

Definition unlink (path : str) : M unit := fun s =>
  Some (tt, St (heap s) (brk s) (res s) (path :: unlinked s)).

(** The return value and what is stored in [*result], if anything. *)
Definition addrinfo_local (path : str) (hints : addrinfo) : M (Z * option loc) :=
  if ai_socktype hints =? 0 then mret (EAI_SOCKTYPE, None) else
  ai ← alloc (BInfo zero_info);
  if ai =? NULL then mret (NULL, None) else
  _ ← modify_info ai (set_flags 0);
  _ ← modify_info ai (set_family AF_UNIX);
  _ ← modify_info ai (set_socktype (ai_socktype hints));
  _ ← modify_info ai (set_protocol 0);
  _ ← modify_info ai (set_addrlen 110);
  p ← alloc (BRaw 110);
  _ ← modify_info ai (set_addr p);
  if p =? NULL then mret (EAI_MEMORY, None) else
  _ ← store p (BSock (SockUn AF_UNIX (take SUN_PATH (path ++ replicate SUN_PATH 0))));
  _ ← modify_info ai (set_canonname NULL);
  _ ← modify_info ai (set_next NULL);
  _ ← (if negb (Z.land (ai_flags hints) AI_PASSIVE =? 0)
       then unlink path else mret tt);
  mret (0, Some ai).

Definition invalid_type (t : Z) (allowed : list Z) : bool :=
  negb (t =? 0) && forallb (fun x => negb (t =? x)) allowed.

(** Lines 177 to 218. *)
Definition check_hints (h : addrinfo) : option Z :=
  if negb (Z.ldiff (ai_flags h) (Z.lor AI_PASSIVE AI_CANONNAME) =? 0) then Some EAI_BADFLAGS else
  let inet := if invalid_type (ai_socktype h) [SOCK_STREAM; SOCK_DGRAM; SOCK_RAW]
              then Some EAI_SOCKTYPE else None in
  match ai_family h with
  | AF_UNSPEC => None
  | AF_INET => inet
  | AF_INET6 => if IPV6 then inet else Some EAI_FAMILY
  | AF_UNIX => if invalid_type (ai_socktype h) [SOCK_STREAM; SOCK_DGRAM] then Some EAI_SOCKTYPE else None
  | AF_other _ => Some EAI_FAMILY
  end.

Definition absent (s : option str) : bool :=
  match s with None => true | Some s => char0 s =? 0 end.

Definition is_address (f : family) (host : str) : option bool :=
  r ← inet_pton uninit f host;
  Some (match r with (Ret v, _) => v =? 1 | _ => false end).

(** Lines 220 to 282: the error, or the host string and the family to use. *)
Definition choose_host (h : addrinfo) (host serv : option str) : option (Z + (option str * addrinfo)) :=
  if absent host then
    if absent serv then Some (inl EAI_NONAME) else
    if negb (Z.land (ai_flags h) AI_PASSIVE =? 0) then
      match ai_family h with
      | AF_INET => Some (inr (Some (cstr "0.0.0.0"), h))
      | AF_INET6 => if IPV6 then Some (inr (Some (cstr "0::0"), h)) else Some (inr (host, h))
      | AF_UNIX =>
          match serv with
          | Some s => if negb (char0 s =? SLASH) then Some (inl EAI_ADDRFAMILY) else Some (inr (host, h))
          | None => None
          end
      | AF_UNSPEC => Some (inl EAI_ADDRFAMILY)
      | AF_other _ => Some (inr (host, h))
      end
    else Some (inr (Some (cstr "localhost"), h))
  else
    match ai_family h, host with
    | AF_UNSPEC, Some s =>
        v4 ← is_address AF_INET s;
        v6 ← (if IPV6 then is_address AF_INET6 s else Some false);
        let h := if (v4 : bool) then set_family AF_INET h else h in
        Some (inr (host, if (v6 : bool) then set_family AF_INET6 h else h))
    | _, _ => Some (inr (host, h))
    end.

Inductive front :=
| FErr (e : Z)                                        (* goto bad, [aihead] not set yet *)
| FLocal (path : str) (hints : addrinfo)
| FHost (host : str) (hints : addrinfo) (hptr : hostent).

Definition starts_slash (s : option str) : option str :=
  match s with Some p => if char0 p =? SLASH then Some p else None | None => None end.

(** Lines 168 to 342. *)
Definition getaddrinfo_front (host serv : option str) (hintsptr : option addrinfo) : M front :=
  let hints := match hintsptr with None => zero_info | Some h => h end in
  match check_hints hints with
  | Some e => mret (FErr e)
  | None =>
      r ← lift (choose_host hints host serv);
      match (r : Z + (option str * addrinfo)) with
      | inl e => mret (FErr e)
      | inr (host, hints) =>
          match starts_slash host, starts_slash serv with
          | Some p, _ => mret (FLocal p hints)
          | None, Some p => mret (FLocal p hints)
          | None, None =>
              match host with
              | None => ub                                 (* host[0] of a null pointer *)
              | Some host =>
                  rc ← getaddrinfo_host host (ai_family hints);
                  match rc with
                  | inl e => mret (FErr e)
                  | inr hptr =>
                      if negb (bool_decide (ai_family hints = AF_UNSPEC))
                         && negb (bool_decide (ai_family hints = h_addrtype hptr))
                      then mret (FErr EAI_ADDRFAMILY) else mret (FHost host hints hptr)
                  end
              end
          end
      end
  end.

(** The switch of the address loop, lines 364 to 397: the error code, or 0. *)
Definition fill_addr (ai : loc) (f : family) (ap : list Z) : M Z :=
  match f with
  | AF_INET =>
      p ← alloc (BSock (SockIn AF_UNSPEC 0 (replicate 4 0)));
      if p =? NULL then mret EAI_MEMORY else
      bs ← lift (read_at ap 0 4);
      _ ← store p (BSock (SockIn AF_INET 0 bs));
      _ ← modify_info ai (set_addr p);
      _ ← modify_info ai (set_addrlen 16);
      mret 0
  | AF_INET6 =>
      if IPV6 then
        p ← alloc (BSock (SockIn6 AF_UNSPEC 0 (replicate 16 0)));
        if p =? NULL then mret EAI_MEMORY else
        bs ← lift (read_at ap 0 16);
        _ ← store p (BSock (SockIn6 AF_INET6 0 bs));
        _ ← modify_info ai (set_addr p);
        _ ← modify_info ai (set_addrlen 28);
        mret 0
      else mret 0
  | _ => mret 0
  end.

(** The address loop.  [aipnext] is [None] while it points to [aihead], then the
    structure whose [ai_next] it points to.  Returns the error code and [aihead]. *)
Fixpoint addr_loop (hints : addrinfo) (f : family) (aps : list (list Z))
    (aihead : loc) (aipnext : option loc) : M (Z * loc) :=
  match aps with
  | [] => mret (0, aihead)
  | ap :: aps' =>
      ai ← alloc (BInfo zero_info);
      if ai =? NULL then mret (EAI_MEMORY, aihead) else
      _ ← match aipnext with None => mret tt | Some p => modify_info p (set_next ai) end;
      let aihead := match aipnext with None => ai | Some _ => aihead end in
      _ ← modify_info ai (set_socktype (ai_socktype hints));
      _ ← (if ai_socktype hints =? 0
           then a ← load_info ai; modify_info ai (set_flags (Z.lor (ai_flags a) AI_CLONE))
           else mret tt);
      _ ← modify_info ai (set_protocol (ai_protocol hints));
      _ ← modify_info ai (set_family f);
      e ← fill_addr ai f ap;
      if negb (e =? 0) then mret (e, aihead) else addr_loop hints f aps' aihead (Some ai)
  end.

(** Lines 401 to 419. *)
Definition canon_name (hints : addrinfo) (host : str) (hptr : hostent) (aihead : loc) : M Z :=
  if negb (Z.land (ai_flags hints) AI_CANONNAME =? 0) then
    p ← alloc (BName (default host (h_name hptr)));
    _ ← modify_info aihead (set_canonname p);
    mret (if p =? NULL then EAI_MEMORY else 0)
  else mret 0.

(** From line 350: the return value of the body and [aihead]. *)
Definition build (host : str) (serv : option str) (hints : addrinfo) (hptr : hostent) : M (Z * loc) :=
  r ← addr_loop hints (h_addrtype hptr) (h_addr_list hptr) NULL None;
  let '(e, aihead) := (r : Z * loc) in
  if negb (e =? 0) then mret (e, aihead) else
  e ← canon_name hints host hptr aihead;
  if negb (e =? 0) then mret (e, aihead) else
  match serv with
  | Some s =>
      if char0 s =? 0 then mret (0, aihead) else
      rc ← getaddrinfo_serv aihead hints s;
      mret (rc, aihead)
  | None => mret (0, aihead)
  end.

(** The label [bad]: [None] is the indeterminate [aihead]. *)
Definition bad (aihead : option loc) (error : Z) : M (Z * option loc) :=
  match aihead with
  | None => ub
  | Some p => _ ← freeaddrinfo p; mret (error, None)
  end.

Definition getaddrinfo (host serv : option str) (hintsptr : option addrinfo) : M (Z * option loc) :=
  r ← getaddrinfo_front host serv hintsptr;
  match r with
  | FErr e => bad None e
  | FLocal path hints => addrinfo_local path hints
  | FHost host hints hptr =>
      r ← build host serv hints hptr;
      let '(rc, aihead) := (r : Z * loc) in
      if negb (rc =? 0) then bad (Some aihead) rc else mret (0, Some aihead)
  end.
End WithEnvironment.

(** ** Ownership of heap cells

    [owns e s cs]: the heap of [s] consists of exactly the cells [cs], the
    resolver and the unlinked paths are [e]. *)

Definition cell : Type := loc * block.
Definition env : Type := resolver * list str.

Definition owns (e : env) (s : st) (cs : list cell) : Prop :=
  NoDup cs.*1 /\ heap s = list_to_map cs /\ Forall (fun c => 0 < c.1 < brk s) cs /\ 0 < brk s /\
  (res s, unlinked s) = e.

Definition wp {A} (m : M A) (Q : A -> st -> Prop) (s : st) : Prop :=
  match m s with Some (a, s') => Q a s' | None => False end.

Section Rules.
Implicit Types (cs R : list cell) (e : env).

Lemma owns_perm e s cs cs' : cs ≡ₚ cs' -> owns e s cs -> owns e s cs'.
Proof.
  intros Hp (Hn & Hh & Hb & Hs & He). unfold owns. split_and!; [| |by rewrite <- Hp|done|done].
  - by rewrite <- Hp.
  - rewrite Hh. by apply list_to_map_proper.
Qed.

Lemma owns_swap e s c c' R : owns e s (c :: c' :: R) -> owns e s (c' :: c :: R).
Proof. apply owns_perm. constructor. Qed.

Lemma owns_pick e s A c R : owns e s (A ++ c :: R) -> owns e s (c :: A ++ R).
Proof. apply owns_perm. symmetry. apply Permutation_middle. Qed.

Lemma owns_fourth e s c1 c2 c3 c4 R :
  owns e s (c1 :: c2 :: c3 :: c4 :: R) -> owns e s (c4 :: c1 :: c2 :: c3 :: R).
Proof. apply (owns_pick e s [c1; c2; c3]). Qed.

Lemma owns_lookup e s l b R : owns e s ((l, b) :: R) -> heap s !! l = Some b.
Proof. intros (_ & -> & _). simpl. by rewrite lookup_insert_eq. Qed.

Lemma owns_fresh e s cs l : owns e s cs -> brk s <= l -> l ∉ cs.*1.
Proof.
  intros (_ & _ & Hb & _) Hl Hin. apply list_elem_of_fmap in Hin as (c & -> & Hc).
  rewrite Forall_forall in Hb. specialize (Hb c Hc). lia.
Qed.

Lemma owns_pos e s l b R : owns e s ((l, b) :: R) -> 0 < l.
Proof. intros (_ & _ & Hb & _). apply Forall_cons in Hb as [Hb _]. simpl in Hb. lia. Qed.

Lemma owns_store e s l b b' R :
  owns e s ((l, b) :: R) -> owns e (set_heap s (<[l := b']> (heap s))) ((l, b') :: R).
Proof.
  intros (Hn & Hh & Hb & Hs & He). unfold owns; simpl. split_and!; try done.
  - rewrite Hh. simpl. by rewrite insert_insert_eq.
  - apply Forall_cons in Hb as [? ?]. by constructor.
Qed.

Lemma owns_delete e s l b R : owns e s ((l, b) :: R) -> owns e (set_heap s (delete l (heap s))) R.
Proof.
  intros (Hn & Hh & Hb & Hs & He). apply NoDup_cons in Hn as [Hni Hn].
  apply Forall_cons in Hb as [_ Hb]. unfold owns; simpl. split_and!; try done.
  rewrite Hh. simpl. apply delete_insert_id. by apply not_elem_of_list_to_map_1.
Qed.

Lemma ga_ret {A} (a : A) Q s : Q a s -> wp (mret a) Q s.
Proof. done. Qed.

Lemma ga_bind {A B} (m : M A) (k : A -> M B) Q s :
  wp m (fun a s' => wp (k a) Q s') s -> wp (m ≫= k) Q s.
Proof. unfold wp, mbind, M_bind. by destruct (m s) as [[a s']|]. Qed.

Lemma ga_mono {A} (m : M A) (P Q : A -> st -> Prop) s :
  wp m P s -> (forall a s', P a s' -> Q a s') -> wp m Q s.
Proof. unfold wp. destruct (m s) as [[a s']|]; auto. Qed.

Lemma wp_lift {A} (o : option A) a Q s : o = Some a -> Q a s -> wp (lift o) Q s.
Proof. by intros ->. Qed.

Lemma wp_load e s l b R Q : owns e s ((l, b) :: R) -> Q b s -> wp (load l) Q s.
Proof. intros H HQ. unfold wp, load. by rewrite (owns_lookup _ _ _ _ _ H). Qed.

Lemma wp_load_info e s l a R Q : owns e s ((l, BInfo a) :: R) -> Q a s -> wp (load_info l) Q s.
Proof. intros H HQ. apply ga_bind. by eapply wp_load. Qed.

Lemma wp_store e s l b b' R (Q : unit -> st -> Prop) :
  owns e s ((l, b) :: R) -> (forall s', owns e s' ((l, b') :: R) -> Q tt s') -> wp (store l b') Q s.
Proof.
  intros H HQ. unfold wp, store. rewrite (owns_lookup _ _ _ _ _ H).
  apply HQ. by eapply owns_store.
Qed.

Lemma wp_modify e s l a f R (Q : unit -> st -> Prop) :
  owns e s ((l, BInfo a) :: R) -> (forall s', owns e s' ((l, BInfo (f a)) :: R) -> Q tt s') ->
  wp (modify_info l f) Q s.
Proof. intros H HQ. apply ga_bind. eapply wp_load_info, wp_store; eauto. Qed.

Lemma wp_free e s l b R (Q : unit -> st -> Prop) :
  owns e s ((l, b) :: R) -> (forall s', owns e s' R -> Q tt s') -> wp (free l) Q s.
Proof.
  intros H HQ. unfold wp, free. rewrite (owns_lookup _ _ _ _ _ H).
  apply HQ. by eapply owns_delete.
Qed.

Lemma wp_alloc ok e s b cs (Q : loc -> st -> Prop) :
  owns e s cs ->
  (forall s', ok (brk s) = false -> owns e s' cs -> Q NULL s') ->
  (forall l s', 0 < l -> owns e s' ((l, b) :: cs) -> Q l s') -> wp (alloc ok b) Q s.
Proof.
  intros H Hfail Hok. unfold wp, alloc. pose proof (owns_fresh _ _ _ (brk s) H ltac:(lia)) as Hni.
  destruct H as (Hn & Hh & Hb & Hs & He).
  assert (Hb' : Forall (fun c : cell => 0 < c.1 < brk s + 1) cs)
    by (eapply Forall_impl; [exact Hb|]; simpl; lia).
  destruct (ok (brk s)) eqn:E.
  - apply Hok; [done|]. unfold owns; simpl. split_and!; simpl.
    + by constructor.
    + by rewrite Hh.
    + constructor; [simpl; lia|done].
    + lia.
    + done.
  - apply Hfail; [done|]. unfold owns; simpl. split_and!; try done. lia.
Qed.
End Rules.

(** ** Linked lists of [addrinfo] structures *)

Record node := Node {
  n_loc : loc; n_flags : Z; n_family : family; n_socktype : Z; n_protocol : Z; n_len : Z;
  n_addr : option (loc * sockaddr); n_name : option (loc * str) }.

Definition ptr {A} (o : option (loc * A)) : loc := match o with Some (l, _) => l | None => NULL end.
Definition first (ns : list node) (q : loc) : loc := match ns with [] => q | n :: _ => n_loc n end.
Definition info (n : node) (next : loc) : addrinfo :=
  AI (n_flags n) (n_family n) (n_socktype n) (n_protocol n) (n_len n) (ptr (n_name n)) (ptr (n_addr n)) next.
Definition addr_cell (n : node) : list cell :=
  match n_addr n with Some (l, sa) => [(l, BSock sa)] | None => [] end.
Definition name_cell (n : node) : list cell :=
  match n_name n with Some (l, s) => [(l, BName s)] | None => [] end.
Definition extra (n : node) : list cell := addr_cell n ++ name_cell n.
Fixpoint cells (ns : list node) (q : loc) : list cell :=
  match ns with
  | [] => []
  | n :: ns' => (n_loc n, BInfo (info n (first ns' q))) :: extra n ++ cells ns' q
  end.

Lemma cells_app ns1 ns2 q : cells (ns1 ++ ns2) q = cells ns1 (first ns2 q) ++ cells ns2 q.
Proof.
  induction ns1 as [|n ns1 IH]; [done|]. simpl. rewrite IH.
  replace (first (ns1 ++ ns2) q) with (first ns1 (first ns2 q)) by (by destruct ns1).
  by rewrite <- app_assoc.
Qed.

(** The cells of a list seen from one of its nodes. *)
Lemma cells_mid d n r F :
  cells (d ++ n :: r) NULL ++ F ≡ₚ
  (n_loc n, BInfo (info n (first r NULL))) :: extra n ++ cells d (n_loc n) ++ cells r NULL ++ F.
Proof. rewrite cells_app. simpl. solve_Permutation. Qed.

Lemma owns_mid e s d n r F :
  owns e s (cells (d ++ n :: r) NULL ++ F) ->
  owns e s ((n_loc n, BInfo (info n (first r NULL))) :: extra n ++ cells d (n_loc n) ++ cells r NULL ++ F).
Proof. apply owns_perm, cells_mid. Qed.

Lemma owns_unmid e s d n r F :
  owns e s ((n_loc n, BInfo (info n (first r NULL))) :: extra n ++ cells d (n_loc n) ++ cells r NULL ++ F) ->
  owns e s (cells (d ++ n :: r) NULL ++ F).
Proof. apply owns_perm. symmetry. apply cells_mid. Qed.

(** What a caller sees of a structure: everything but the pointers. *)
Record view := View {
  v_flags : Z; v_family : family; v_socktype : Z; v_protocol : Z; v_len : Z;
  v_addr : option sockaddr; v_name : option str }.
Definition view_of (n : node) : view :=
  View (n_flags n) (n_family n) (n_socktype n) (n_protocol n) (n_len n) (snd <$> n_addr n) (snd <$> n_name n).

(** ** Freeing a list *)

Lemma free_part e s (o : option (loc * sockaddr)) R (Q : unit -> st -> Prop) :
  owns e s (match o with Some (l, sa) => [(l, BSock sa)] | None => [] end ++ R) ->
  (forall s', owns e s' R -> Q tt s') ->
  wp (if ptr o =? NULL then mret tt else free (ptr o)) Q s.
Proof.
  intros H HQ. destruct o as [[l sa]|]; simpl in *; [|by apply HQ].
  pose proof (owns_pos _ _ _ _ _ H). unfold NULL. rewrite (proj2 (Z.eqb_neq l 0)) by lia.
  eapply wp_free; eauto.
Qed.

Lemma free_name e s (o : option (loc * str)) R (Q : unit -> st -> Prop) :
  owns e s (match o with Some (l, v) => [(l, BName v)] | None => [] end ++ R) ->
  (forall s', owns e s' R -> Q tt s') ->
  wp (if ptr o =? NULL then mret tt else free (ptr o)) Q s.
Proof.
  intros H HQ. destruct o as [[l sa]|]; simpl in *; [|by apply HQ].
  pose proof (owns_pos _ _ _ _ _ H). unfold NULL. rewrite (proj2 (Z.eqb_neq l 0)) by lia.
  eapply wp_free; eauto.
Qed.

Lemma free_list_ok e F ns fuel s (Q : unit -> st -> Prop) :
  owns e s (cells ns NULL ++ F) -> (length ns <= fuel)%nat ->
  (forall s', owns e s' F -> Q tt s') -> wp (free_list fuel (first ns NULL)) Q s.
Proof.
  revert fuel s. induction ns as [|n ns IH]; intros fuel s H Hf HQ.
  - destruct fuel; by apply HQ.
  - destruct fuel as [|fuel]; [simpl in Hf; lia|]. cbn [free_list first].
    change (n :: ns) with ([] ++ n :: ns) in H. apply owns_mid in H. simpl in H.
    pose proof (owns_pos _ _ _ _ _ H). unfold NULL at 1.
    rewrite (proj2 (Z.eqb_neq (n_loc n) 0)) by lia.
    apply ga_bind. eapply wp_load_info; [exact H|]. simpl.
    apply ga_bind. eapply free_part with (R := name_cell n ++ (n_loc n, BInfo (info n (first ns NULL))) :: cells ns NULL ++ F).
    { eapply owns_perm; [|exact H]. unfold extra, addr_cell. solve_Permutation. }
    intros s1 H1. apply ga_bind.
    eapply free_name with (R := (n_loc n, BInfo (info n (first ns NULL))) :: cells ns NULL ++ F); [exact H1|].
    intros s2 H2. apply ga_bind. eapply wp_free; [exact H2|].
    intros s3 H3. apply IH; [done|simpl in Hf; lia|done].
Qed.

Lemma ga_length_cells ns q : (length ns <= length (cells ns q))%nat.
Proof. induction ns; simpl; [lia|]. rewrite length_app. lia. Qed.

Lemma owns_size e s cs : owns e s cs -> size (heap s) = length cs.
Proof.
  intros (Hn & -> & _). induction cs as [|[l b] cs IH]; [done|].
  apply NoDup_cons in Hn as [Hni Hn]. simpl. rewrite map_size_insert_None, IH; try done.
  by apply not_elem_of_list_to_map_1.
Qed.

Lemma cells_fuel e s d ns F :
  owns e s (cells (d ++ ns) NULL ++ F) -> (length ns <= size (heap s))%nat.
Proof.
  intros H. rewrite (owns_size _ _ _ H), length_app.
  pose proof (ga_length_cells (d ++ ns) NULL). rewrite length_app in *. lia.
Qed.

Lemma freeaddrinfo_ok e F ns s (Q : unit -> st -> Prop) :
  owns e s (cells ns NULL ++ F) -> (forall s', owns e s' F -> Q tt s') ->
  wp (freeaddrinfo (first ns NULL)) Q s.
Proof. intros H. apply free_list_ok; [done|]. by apply (cells_fuel _ _ [] _ _ H). Qed.

(** ** Ports *)

Definition with_port (port : Z) (sa : sockaddr) : sockaddr :=
  match sa with
  | SockIn f _ a => SockIn f port a
  | SockIn6 f _ a => SockIn6 f port a
  | SockUn f p => SockUn f p
  end.

Definition v_fill (port t : Z) (v : view) : view :=
  View (v_flags v) (v_family v) t (v_protocol v) (v_len v) (with_port port <$> v_addr v) (v_name v).
Definition v_clone (v : view) : view :=
  View 0 (v_family v) (v_socktype v) (v_protocol v) (v_len v) (v_addr v) None.

(** What [getaddrinfo_port] makes of one structure, and whether it counts it. *)
Definition v_port (port t : Z) (v : view) : list view :=
  if negb (Z.land (v_flags v) AI_CLONE =? 0) then
    if negb (v_socktype v =? 0) then [v; v_fill port t (v_clone v)] else [v_fill port t v]
  else if negb (v_socktype v =? t) then [v] else [v_fill port t v].
Definition v_counts (t : Z) (v : view) : bool :=
  negb (Z.land (v_flags v) AI_CLONE =? 0) || (v_socktype v =? t).

Section Correctness.
Context (IPV6 : bool) (uninit : Z) (ok : loc -> bool).
Context (res_init : resolver -> resolver)
        (gethostbyname : bool -> str -> Z + hostent)
        (getservbyname : str -> str -> option Z).

(** Some allocation failed. *)
Definition starved : Prop := exists i, ok i = false.

Definition addr_fits (f : family) (sa : sockaddr) : Prop :=
  match f, sa with
  | AF_INET, SockIn _ _ _ => True
  | AF_INET6, SockIn6 _ _ _ => IPV6 = true
  | _, _ => False
  end.
Definition v_ok (v : view) : Prop :=
  exists sa, v_addr v = Some sa /\ v_len v = sa_size sa /\ addr_fits (v_family v) sa.

Lemma v_ok_fill port t v : v_ok v -> v_ok (v_fill port t v).
Proof.
  intros (sa & Ha & Hl & Hf). exists (with_port port sa). simpl. rewrite Ha.
  destruct sa, (v_family v); naive_solver.
Qed.

Lemma v_ok_port port t v : v_ok v -> Forall v_ok (v_port port t v).
Proof.
  intros H. assert (v_ok (v_clone v)) by done. unfold v_port.
  repeat case_match; repeat constructor; auto using v_ok_fill.
Qed.

Lemma v_ok_node n : v_ok (view_of n) ->
  exists l sa, n_addr n = Some (l, sa) /\ n_len n = sa_size sa /\ addr_fits (n_family n) sa.
Proof.
  intros (sa & Ha & Hl & Hf). simpl in *. destruct (n_addr n) as [[l x]|]; simplify_eq/=. by exists l, sa.
Qed.

(** [getaddrinfo_clone]: on success a copy with its own socket address follows the
    structure; on failure the list is still well formed. *)
Lemma clone_ok e s ai a p sa R (Q : loc -> st -> Prop) :
  owns e s ((ai, BInfo a) :: (p, BSock sa) :: R) ->
  ai_addr a = p -> ai_addrlen a = sa_size sa ->
  (forall s', starved -> owns e s' ((ai, BInfo a) :: (p, BSock sa) :: R) -> Q NULL s') ->
  (forall s' n, starved -> 0 < n ->
    owns e s' ((n, BInfo (AI 0 (ai_family a) (ai_socktype a) (ai_protocol a) (ai_addrlen a) NULL NULL (ai_next a)))
      :: (ai, BInfo (set_next n a)) :: (p, BSock sa) :: R) -> Q NULL s') ->
  (forall s' n q, 0 < n ->
    owns e s' ((n, BInfo (AI 0 (ai_family a) (ai_socktype a) (ai_protocol a) (ai_addrlen a) NULL q (ai_next a)))
      :: (q, BSock sa) :: (ai, BInfo (set_next n a)) :: (p, BSock sa) :: R) -> Q n s') ->
  wp (getaddrinfo_clone ok ai) Q s.
Proof.
  intros H Hp Hlen Q1 Q2 Q3. unfold getaddrinfo_clone.
  apply ga_bind. eapply wp_alloc; [exact H| |].
  { intros s1 Hf H1. apply Q1; [by exists (brk s)|done]. }
  intros n s1 Hn H1. unfold NULL at 1. rewrite (proj2 (Z.eqb_neq n 0)) by lia.
  apply ga_bind. eapply wp_load_info; [by apply owns_swap|].
  apply ga_bind. eapply wp_modify; [exact H1|]. clear s1 H1. intros s1 H1.
  apply ga_bind. eapply wp_modify; [by apply owns_swap|]. clear s1 H1. intros s1 H1.
  apply ga_bind. eapply wp_modify; [by apply owns_swap|]. clear s1 H1. intros s1 H1.
  apply ga_bind. eapply wp_load_info; [by apply owns_swap|].
  do 5 (apply ga_bind; eapply wp_modify; [exact H1|]; clear s1 H1; intros s1 H1).
  cbn in H1.
  apply ga_bind. eapply wp_alloc; [exact H1| |].
  { intros s2 Hf H2. apply ga_bind. eapply wp_modify; [exact H2|]. intros s3 H3.
    apply (Q2 s3 n); [by exists (brk s1)|done|done]. }
  clear s1 H1. intros q s1 Hq H1.
  apply ga_bind. eapply wp_modify; [by apply owns_swap|]. clear s1 H1. intros s1 H1.
  unfold NULL at 1. rewrite (proj2 (Z.eqb_neq q 0)) by lia.
  apply ga_bind. simpl. rewrite Hp, Hlen in *. unfold memcpy_addr.
  apply ga_bind. eapply wp_load.
  { by apply owns_fourth. }
  apply ga_bind. eapply wp_load; [by apply owns_swap|].
  cbn [set_next ai_addrlen]. rewrite Hlen, Z.eqb_refl. cbn [andb].
  eapply wp_store; [by apply owns_swap|].
  intros s2 H2. apply ga_ret. apply (Q3 s2 n q); [done|]. apply owns_swap. exact H2.
Qed.

(** Filling in one structure of a list. *)
Definition fill_node (port t : Z) (n : node) : node :=
  Node (n_loc n) (n_flags n) (n_family n) t (n_protocol n) (n_len n)
       ((fun '(l, sa) => (l, with_port port sa)) <$> n_addr n) (n_name n).

Lemma view_fill_node port t n : view_of (fill_node port t n) = v_fill port t (view_of n).
Proof. unfold view_of, v_fill. simpl. by destruct (n_addr n) as [[??]|]. Qed.

Lemma set_port_ok e s a l sa port R (Q : Z -> st -> Prop) :
  owns e s ((l, BSock sa) :: R) -> ai_addr a = l -> addr_fits (ai_family a) sa ->
  (forall s', owns e s' ((l, BSock (with_port port sa)) :: R) -> Q 1 s') ->
  wp (set_port IPV6 a port) Q s.
Proof.
  intros H Hl Hf HQ. unfold set_port. rewrite Hl. unfold addr_fits in Hf.
  destruct (ai_family a); try done; destruct sa; try done; rewrite ?Hf.
  all: apply ga_bind; eapply wp_load; [exact H|].
  all: apply ga_bind; eapply wp_store; [exact H|]; intros s' H'.
  all: by apply ga_ret, HQ.
Qed.

Lemma fill_ok e F d n r port t (k : loc -> Z -> M Z) s (Q : Z -> st -> Prop) :
  owns e s (cells (d ++ n :: r) NULL ++ F) -> v_ok (view_of n) ->
  (forall s', owns e s' (cells (d ++ fill_node port t n :: r) NULL ++ F) ->
     wp (k (first r NULL) 1) Q s') ->
  wp (_ ← modify_info (n_loc n) (set_socktype t);
      a ← load_info (n_loc n);
      j ← set_port IPV6 a port;
      k (ai_next a) j) Q s.
Proof.
  intros H Hok HQ. destruct (v_ok_node n Hok) as (l & sa & Ha & Hl & Hf).
  apply owns_mid in H.
  apply ga_bind. eapply wp_modify; [exact H|]. clear H s. intros s H.
  apply ga_bind. eapply wp_load_info; [exact H|].
  unfold extra, addr_cell in H. rewrite Ha in H.
  apply ga_bind. eapply set_port_ok; [apply owns_swap; exact H|cbn; by rewrite Ha|exact Hf|].
  clear H s. intros s H. apply HQ. apply owns_swap in H. apply owns_unmid.
  unfold extra, addr_cell, name_cell, info in *. cbn in *. by rewrite Ha in *.
Qed.

(** [getaddrinfo_clone] on a node of a list. *)
Lemma clone_node e F d n r s (Q : loc -> st -> Prop) :
  owns e s (cells (d ++ n :: r) NULL ++ F) -> v_ok (view_of n) ->
  (forall s' ns, starved -> owns e s' (cells ns NULL ++ F) -> first ns NULL = first (d ++ n :: r) NULL -> Q NULL s') ->
  (forall s' c, view_of c = v_clone (view_of n) -> 0 < n_loc c ->
     owns e s' (cells ((d ++ [n]) ++ c :: r) NULL ++ F) -> Q (n_loc c) s') ->
  wp (getaddrinfo_clone ok (n_loc n)) Q s.
Proof.
  intros H Hok Q1 Q2. destruct (v_ok_node n Hok) as (l & sa & Ha & Hl & Hf).
  pose proof H as H0. apply owns_mid in H. unfold extra, addr_cell in H. rewrite Ha in H.
  eapply clone_ok; [exact H|cbn; by rewrite Ha|exact Hl|..].
  - intros s' Hs H'. apply (Q1 s' (d ++ n :: r)); [done| |done].
    apply owns_unmid. unfold extra, addr_cell. by rewrite Ha.
  - intros s' c Hs Hc H'.
    apply (Q1 s' (d ++ n :: Node c 0 (n_family n) (n_socktype n) (n_protocol n) (n_len n) None None :: r));
      [done| |by destruct d].
    apply owns_unmid. eapply owns_perm; [|exact H'].
    unfold extra, addr_cell, name_cell, info. rewrite Ha. cbn. solve_Permutation.
  - intros s' c q Hc H'.
    apply (Q2 s' (Node c 0 (n_family n) (n_socktype n) (n_protocol n) (n_len n) (Some (q, sa)) None));
      [by unfold view_of, v_clone; cbn; rewrite Ha|done|].
    rewrite <- app_assoc. apply owns_unmid. eapply owns_perm; [|exact H'].
    unfold extra, addr_cell, name_cell, info. rewrite Ha. cbn. solve_Permutation.
Qed.

(** How many structures [getaddrinfo_port] fills in. *)
Definition v_hits (t : Z) (vs : list view) : Z := cnt (v_counts t) vs.

Lemma owns_first_pos e s d n r F : owns e s (cells (d ++ n :: r) NULL ++ F) -> (n_loc n =? NULL) = false.
Proof.
  intros H. apply owns_mid, owns_pos in H. unfold NULL. apply Z.eqb_neq. lia.
Qed.

Lemma first_app d n r q q' : first (d ++ n :: r) q = first (d ++ [n]) q'.
Proof. by destruct d. Qed.

Lemma port_loop_ok e F port t fuel s nf d r (Q : Z -> st -> Prop) :
  owns e s (cells (d ++ r) NULL ++ F) -> Forall v_ok (map view_of r) -> (length r <= fuel)%nat ->
  (forall s' ns, starved -> owns e s' (cells ns NULL ++ F) -> first ns NULL = first (d ++ r) NULL -> Q (-1) s') ->
  (forall s' r', owns e s' (cells (d ++ r') NULL ++ F) -> first (d ++ r') NULL = first (d ++ r) NULL ->
     map view_of r' = concat (map (v_port port t) (map view_of r)) ->
     Q (nf + v_hits t (map view_of r)) s') ->
  wp (port_loop IPV6 ok fuel (first r NULL) port t nf) Q s.
Proof.
  revert fuel s nf d. induction r as [|n r IH]; intros fuel s nf d H Hok Hfuel Q1 Q2.
  { destruct fuel; cbn; rewrite <- (Z.add_0_r nf); by apply (Q2 s []). }
  destruct fuel as [|fuel]; [cbn in Hfuel; lia|]. cbn [port_loop first].
  rewrite (owns_first_pos _ _ _ _ _ _ H). cbn [map] in Hok. apply Forall_cons in Hok as [Hn Hok].
  assert (Hnext : forall s' m ms,
            n_loc m = n_loc n -> map view_of (m :: ms) = v_port port t (view_of n) ->
            owns e s' (cells (d ++ (m :: ms) ++ r) NULL ++ F) ->
            wp (port_loop IPV6 ok fuel (first r NULL) port t (nf + b2z (v_counts t (view_of n)))) Q s').
  { intros s' m ms Hl Hv H'.
    assert (Hfi : first (d ++ (m :: ms) ++ r) NULL = first (d ++ n :: r) NULL) by (by destruct d).
    apply (IH fuel s' _ (d ++ m :: ms)); rewrite <- ?app_assoc; [done|done|cbn in Hfuel; lia|..].
    - intros s2 ns Hs H2 Hf2. apply (Q1 s2 ns Hs H2). by rewrite Hf2.
    - intros s2 r' H2 _ Hr. replace (nf + _ + _) with (nf + v_hits t (map view_of (n :: r)))
        by (unfold v_hits; cbn [map]; rewrite cnt_cons; lia).
      rewrite <- app_assoc in *. apply (Q2 s2 ((m :: ms) ++ r')); [done|by destruct d|].
      rewrite map_app, Hv, Hr. done. }
  apply ga_bind. eapply wp_load_info; [apply owns_mid; exact H|]. cbn [info ai_flags ai_socktype].
  unfold v_counts, v_port in Hnext. cbn [view_of v_flags v_socktype] in Hnext.
  pose (k := fun (ai : loc) j => port_loop IPV6 ok fuel ai port t (nf + j)).
  destruct (negb (Z.land (n_flags n) AI_CLONE =? 0)) eqn:Eclone; destruct (negb (n_socktype n =? _)) eqn:Est.
  - apply ga_bind. apply (clone_node e F d n r); [done|done| |].
    + intros s' ns Hs H' Hfi. apply ga_ret. apply (Q1 s' ns Hs H' Hfi).
    + intros s' c Hc Hpos H'. unfold NULL at 1. rewrite (proj2 (Z.eqb_neq (n_loc c) 0)) by lia.
      apply (fill_ok e F (d ++ [n]) c r port t k); [done|by rewrite Hc|].
      clear H' s'. intros s' H'. apply (Hnext s' n [fill_node port t c]); [done| |].
      * cbn [map]. by rewrite view_fill_node, Hc.
      * by rewrite <- app_assoc in H'.
  - apply (fill_ok e F d n r port t k); [done|done|].
    intros s' H'. apply (Hnext s' (fill_node port t n) []); [done| |done].
    cbn [map]. by rewrite view_fill_node.
  - specialize (Hnext s n [] eq_refl eq_refl H). apply negb_true_iff in Est. rewrite Est in Hnext.
    cbn [orb b2z] in Hnext. by rewrite Z.add_0_r in Hnext.
  - apply negb_false_iff in Est. rewrite Est in Hnext. apply (fill_ok e F d n r port t k); [done|done|].
    intros s' H'. apply (Hnext s' (fill_node port t n) []); [done| |done].
    cbn [map]. by rewrite view_fill_node.
Qed.

(** [getaddrinfo_port]: on success every structure is treated as [v_port] says. *)
Lemma port_ok e F port t ns s (Q : Z -> st -> Prop) :
  owns e s (cells ns NULL ++ F) -> Forall v_ok (map view_of ns) ->
  (forall s' ns', starved -> owns e s' (cells ns' NULL ++ F) -> first ns' NULL = first ns NULL -> Q (-1) s') ->
  (forall s' ns', owns e s' (cells ns' NULL ++ F) -> first ns' NULL = first ns NULL ->
     map view_of ns' = concat (map (v_port port t) (map view_of ns)) ->
     Q (v_hits t (map view_of ns)) s') ->
  wp (getaddrinfo_port IPV6 ok (first ns NULL) port t) Q s.
Proof.
  intros H Hok Q1 Q2. apply (port_loop_ok e F port t (size (heap s)) s 0 [] ns); try done.
  by apply (cells_fuel _ _ [] _ _ H).
Qed.

(** ** The service *)

(** The port that the services database has for one of the two protocols, if it
    is looked up. *)
Definition service_port (t0 : Z) (serv proto : str) (t : Z) : option Z :=
  if (t0 =? 0) || (t0 =? t) then getservbyname serv proto else None.

(** The socket types and ports (in network byte order) that [serv] stands for
    when the caller's hints have socket type [t0]. *)
Definition services (t0 : Z) (serv : str) : list (Z * Z) :=
  if isdigit (char0 serv) && negb (t0 =? 0) then [(t0, htons (atoi serv))]
  else (match service_port t0 serv (cstr "tcp") SOCK_STREAM with Some p => [(SOCK_STREAM, p)] | None => [] end)
    ++ (match service_port t0 serv (cstr "udp") SOCK_DGRAM with Some p => [(SOCK_DGRAM, p)] | None => [] end).

(** The structures that one address gives: one per service, the first of which
    is the structure made for the address. *)
Definition fill_services (svcs : list (Z * Z)) (v : view) : list view :=
  match svcs with
  | [] => [v]
  | (t, p) :: r => v_fill p t v :: map (fun '(t, p) => v_fill p t (v_clone v)) r
  end.

Definition base_view (t0 : Z) (v : view) : Prop :=
  v_flags v = (if t0 =? 0 then AI_CLONE else 0) /\ v_socktype v = t0 /\ v_ok v.

Definition port_step (o : option Z) (t : Z) (vs : list view) : list view :=
  match o with Some p => concat (map (v_port p t) vs) | None => vs end.
Definition hit_step (o : option Z) (t : Z) (vs : list view) : Z :=
  match o with Some _ => v_hits t vs | None => 0 end.

Lemma v_ok_port_step o t vs : Forall v_ok vs -> Forall v_ok (port_step o t vs).
Proof.
  intros H. destruct o as [p|]; [|done]. simpl. induction H as [|v vs Hv _ IH]; simpl; [done|].
  apply Forall_app. split; [by apply v_ok_port|done].
Qed.

Lemma v_port_base p t t0 v :
  base_view t0 v -> t0 = 0 \/ t0 = t -> v_port p t v = [v_fill p t v] /\ v_counts t v = true.
Proof.
  intros (Hf & Ht & _) Hc. unfold v_port, v_counts. rewrite Hf, Ht.
  destruct (Z.eqb_spec t0 0) as [->|Hn]; [done|]. destruct Hc as [->| ->]; [done|].
  rewrite !Z.eqb_refl. done.
Qed.

Lemma v_port_twice p p' t t' v :
  base_view 0 v -> t <> 0 ->
  v_port p' t' (v_fill p t v) = [v_fill p t v; v_fill p' t' (v_clone v)] /\ v_counts t' (v_fill p t v) = true.
Proof.
  intros (Hf & Ht & _) Hc. unfold v_port, v_counts. cbn [v_fill v_flags v_socktype]. rewrite Hf. simpl.
  rewrite (proj2 (Z.eqb_neq t 0)) by done. split; [|done].
  cut (v_fill p' t' (v_clone (v_fill p t v)) = v_fill p' t' (v_clone v)); [by intros ->|].
  unfold v_fill, v_clone. simpl. f_equal. destruct (v_addr v) as [[]|]; done.
Qed.

Lemma concat_map_ext {A B} (f g : A -> list B) (P : A -> Prop) l :
  Forall P l -> (forall a, P a -> f a = g a) -> concat (map f l) = concat (map g l).
Proof. intros H E. induction H as [|a l Ha _ IH]; simpl; [done|]. by rewrite E, IH. Qed.

Lemma v_hits_all t (P : view -> Prop) vs :
  Forall P vs -> (forall v, P v -> v_counts t v = true) -> v_hits t vs = Z.of_nat (length vs).
Proof.
  unfold v_hits. intros H E. induction H as [|v vs Hv _ IH]; [done|].
  rewrite cnt_cons, E, IH by done. simpl length. simpl b2z. lia.
Qed.

Lemma service_port_types t0 serv proto t p :
  service_port t0 serv proto t = Some p -> t0 = 0 \/ t0 = t.
Proof. unfold service_port. destruct (Z.eqb_spec t0 0), (Z.eqb_spec t0 t); simpl; intros; simplify_eq; auto. Qed.

Lemma concat_map_single {A B} (f : A -> B) l : concat (map (fun a => [f a]) l) = map f l.
Proof. induction l; simpl; congruence. Qed.

(** The two passes over the list do what [fill_services] says. *)
Lemma two_passes t0 serv vs :
  Forall (base_view t0) vs ->
  let o1 := service_port t0 serv (cstr "tcp") SOCK_STREAM in
  let o2 := service_port t0 serv (cstr "udp") SOCK_DGRAM in
  let svcs := (match o1 with Some p => [(SOCK_STREAM, p)] | None => [] end)
    ++ (match o2 with Some p => [(SOCK_DGRAM, p)] | None => [] end) in
  port_step o2 SOCK_DGRAM (port_step o1 SOCK_STREAM vs) = concat (map (fill_services svcs) vs) /\
  (vs <> [] -> (hit_step o1 SOCK_STREAM vs + hit_step o2 SOCK_DGRAM (port_step o1 SOCK_STREAM vs) =? 0)
     = bool_decide (svcs = [])).
Proof.
  intros H o1 o2. pose proof (service_port_types t0 serv (cstr "tcp") SOCK_STREAM) as T1.
  pose proof (service_port_types t0 serv (cstr "udp") SOCK_DGRAM) as T2. fold o1 in T1. fold o2 in T2.
  clearbody o1 o2.
  assert (Hpos : vs <> [] -> 0 < Z.of_nat (length vs)) by (destruct vs; simpl; [done|lia]).
  assert (H1 : forall p t, t0 = 0 \/ t0 = t -> port_step (Some p) t vs = map (v_fill p t) vs /\
                hit_step (Some p) t vs = Z.of_nat (length vs)).
  { intros p t Ht. simpl. split.
    - rewrite <- (concat_map_single (v_fill p t)). apply (concat_map_ext _ _ _ _ H). intros v Hv.
      by apply (v_port_base _ _ _ _ Hv).
    - apply (v_hits_all _ _ _ H). intros v Hv. by apply (v_port_base p _ _ _ Hv). }
  destruct o1 as [p1|], o2 as [p2|]; simpl app.
  - assert (t0 = 0) as -> by (destruct (T1 p1 eq_refl), (T2 p2 eq_refl); unfold SOCK_STREAM, SOCK_DGRAM in *; lia).
    destruct (H1 p1 SOCK_STREAM ltac:(auto)) as [-> ->]. split.
    + simpl. rewrite map_map. apply (concat_map_ext _ _ _ _ H). intros v Hv. simpl.
      by apply (v_port_twice _ _ _ _ _ Hv).
    + intros Hne. rewrite bool_decide_eq_false_2 by done. apply Z.eqb_neq.
      specialize (Hpos Hne). simpl. unfold v_hits.
      pose proof (cnt_nonneg (v_counts SOCK_DGRAM) (map (v_fill p1 SOCK_STREAM) vs)). lia.
  - destruct (H1 p1 SOCK_STREAM (T1 _ eq_refl)) as [-> ->]. split.
    + symmetry. apply (concat_map_single (v_fill p1 SOCK_STREAM)).
    + intros Hne. specialize (Hpos Hne). rewrite bool_decide_eq_false_2 by done.
      apply Z.eqb_neq. simpl. lia.
  - simpl (port_step None _ _). destruct (H1 p2 SOCK_DGRAM (T2 _ eq_refl)) as [-> ->]. split.
    + symmetry. apply (concat_map_single (v_fill p2 SOCK_DGRAM)).
    + intros Hne. specialize (Hpos Hne). rewrite bool_decide_eq_false_2 by done.
      apply Z.eqb_neq. simpl. lia.
  - split; [|done]. symmetry. rewrite <- (map_id vs) at 2. apply (concat_map_single (fun v => v)).
Qed.

Lemma try_service_ok e F ns s hints serv proto t nf (Q : Z + Z -> st -> Prop) :
  owns e s (cells ns NULL ++ F) -> Forall v_ok (map view_of ns) ->
  let o := service_port (ai_socktype hints) serv proto t in
  (forall s' ns', starved -> owns e s' (cells ns' NULL ++ F) -> first ns' NULL = first ns NULL ->
     Q (inl EAI_MEMORY) s') ->
  (forall s' ns', owns e s' (cells ns' NULL ++ F) -> first ns' NULL = first ns NULL ->
     map view_of ns' = port_step o t (map view_of ns) ->
     Q (inr (nf + hit_step o t (map view_of ns))) s') ->
  wp (try_service IPV6 ok getservbyname (first ns NULL) hints serv proto t nf) Q s.
Proof.
  intros H Hok o Q1 Q2. unfold try_service. subst o. unfold service_port in *.
  assert (Hskip : forall (o : option Z), o = None ->
    (forall s' ns', owns e s' (cells ns' NULL ++ F) -> first ns' NULL = first ns NULL ->
     map view_of ns' = port_step o t (map view_of ns) -> Q (inr (nf + hit_step o t (map view_of ns))) s') ->
    wp (mret (inr nf)) Q s).
  { intros o -> HQ. apply ga_ret. rewrite <- (Z.add_0_r nf). by apply (HQ s ns). }
  revert Q2. destruct ((ai_socktype hints =? 0) || (ai_socktype hints =? t)); [|by apply Hskip].
  destruct (getservbyname serv proto) as [p|] eqn:E; [|by apply Hskip]. intros Q2.
  apply ga_bind. apply (port_ok e F); [done|done| |].
  - intros s' ns' Hs H' Hf. by apply (Q1 s' ns').
  - intros s' ns' H' Hf Hv. pose proof (cnt_nonneg (v_counts t) (map view_of ns)).
    rewrite (proj2 (Z.ltb_ge _ 0)) by done. apply ga_ret. by apply (Q2 s' ns').
Qed.

Lemma getaddrinfo_serv_ok e F ns s hints serv (Q : Z -> st -> Prop) :
  owns e s (cells ns NULL ++ F) -> Forall (base_view (ai_socktype hints)) (map view_of ns) -> ns <> [] ->
  let svcs := services (ai_socktype hints) serv in
  (forall s' ns', starved -> owns e s' (cells ns' NULL ++ F) -> first ns' NULL = first ns NULL ->
     Q EAI_MEMORY s') ->
  (forall s' ns', owns e s' (cells ns' NULL ++ F) -> first ns' NULL = first ns NULL ->
     map view_of ns' = concat (map (fill_services svcs) (map view_of ns)) ->
     Q (if bool_decide (svcs = []) then if ai_socktype hints =? 0 then EAI_NONAME else EAI_SERVICE else 0) s') ->
  wp (getaddrinfo_serv IPV6 ok getservbyname (first ns NULL) hints serv) Q s.
Proof.
  intros H Hb Hne svcs Q1 Q2. unfold getaddrinfo_serv. subst svcs. unfold services in *.
  assert (Hok : Forall v_ok (map view_of ns)) by (eapply Forall_impl; [exact Hb|]; by intros v (_ & _ & ?)).
  destruct (isdigit (char0 serv) && negb (ai_socktype hints =? 0)).
  - apply ga_bind. apply (port_ok e F); [done|done| |].
    + intros s' ns' Hs H' Hf. apply ga_ret. by apply (Q1 s' ns').
    + intros s' ns' H' Hf Hv.
      assert (E : v_hits (ai_socktype hints) (map view_of ns) = Z.of_nat (length ns)).
      { rewrite (v_hits_all _ _ _ Hb), length_map; [done|]. intros v Hv'.
        by apply (v_port_base 0 _ _ _ Hv'); right. }
      rewrite E. destruct ns as [|n ns]; [done|]. cbn [length].
      rewrite (proj2 (Z.eqb_neq _ 0)), (proj2 (Z.ltb_ge _ 0)) by lia.
      apply ga_ret. apply (Q2 s' ns'); [done|done|]. rewrite Hv.
      apply (concat_map_ext _ _ _ _ Hb). intros v Hv'. apply (v_port_base _ _ _ _ Hv'). by right.
  - apply ga_bind. apply (try_service_ok e F); [done|done| |].
    + intros s' ns' Hs H' Hf. by apply (Q1 s' ns').
    + intros s1 ns1 H1 Hf1 Hv1. rewrite <- Hf1. apply ga_bind. apply (try_service_ok e F); [done| | |].
      * rewrite Hv1. by apply v_ok_port_step.
      * intros s' ns' Hs H' Hf. apply ga_ret. apply (Q1 s' ns'); [done|done|congruence].
      * intros s2 ns2 H2 Hf2 Hv2. rewrite Hv1 in Hv2 |- *.
        destruct (two_passes _ serv _ Hb) as [Hp Hh].
        assert (Hm : map view_of ns <> []) by (by destruct ns). specialize (Hh Hm).
        specialize (Q2 s2 ns2 H2 ltac:(congruence) ltac:(by rewrite Hv2, Hp)).
        rewrite <- Hh in Q2. destruct (_ + _ =? 0); exact Q2.
Qed.

(** ** The list of addresses *)

(** The structure made for one address of the [hostent]. *)
Definition addr_sock (f : family) (ap : list Z) : sockaddr :=
  match f with AF_INET6 => SockIn6 AF_INET6 0 (take 16 ap) | _ => SockIn AF_INET 0 (take 4 ap) end.
Definition addr_view (hints : addrinfo) (f : family) (ap : list Z) : view :=
  View (if ai_socktype hints =? 0 then AI_CLONE else 0) f (ai_socktype hints) (ai_protocol hints)
       (sa_size (addr_sock f ap)) (Some (addr_sock f ap)) None.

(** What is relied on of a [hostent]: a family that the build supports and
    addresses of its length. *)
Definition addr_long (f : family) (ap : list Z) : Prop :=
  match f with
  | AF_INET => (4 <= length ap)%nat
  | AF_INET6 => IPV6 = true /\ (16 <= length ap)%nat
  | _ => False
  end.
Definition hent_ok (hptr : hostent) : Prop :=
  h_addr_list hptr <> [] /\ Forall (addr_long (h_addrtype hptr)) (h_addr_list hptr).

Lemma addr_view_base hints f ap : addr_long f ap -> base_view (ai_socktype hints) (addr_view hints f ap).
Proof.
  intros H. split_and!; [done|done|]. exists (addr_sock f ap). split_and!; [done|done|].
  unfold addr_long in H. simpl. by destruct f; try done; destruct H.
Qed.

(** Changing the fields of a node that own nothing. *)
Lemma modify_node e F d n n' r f s (Q : unit -> st -> Prop) :
  owns e s (cells (d ++ n :: r) NULL ++ F) ->
  n_loc n' = n_loc n -> n_addr n' = n_addr n -> n_name n' = n_name n ->
  (forall x, f (info n x) = info n' x) ->
  (forall s', owns e s' (cells (d ++ n' :: r) NULL ++ F) -> Q tt s') ->
  wp (modify_info (n_loc n) f) Q s.
Proof.
  intros H Hl Ha Hn Hf HQ. apply owns_mid in H. eapply wp_modify; [exact H|].
  intros s' H'. apply HQ, owns_unmid. rewrite Hf in H'.
  unfold extra, addr_cell, name_cell in *. by rewrite Hl, Ha, Hn.
Qed.

(** Giving a node an owned part. *)
Lemma attach_node e F d n n' r f c s (Q : unit -> st -> Prop) :
  owns e s (c :: cells (d ++ n :: r) NULL ++ F) ->
  n_loc n' = n_loc n -> extra n' ≡ₚ c :: extra n ->
  (forall x, f (info n x) = info n' x) ->
  (forall s', owns e s' (cells (d ++ n' :: r) NULL ++ F) -> Q tt s') ->
  wp (modify_info (n_loc n) f) Q s.
Proof.
  intros H Hl He Hf HQ. eapply owns_perm in H; [|by rewrite cells_mid].
  apply owns_swap in H. eapply wp_modify; [exact H|].
  intros s' H'. apply HQ, owns_unmid. rewrite Hf in H'. eapply owns_perm; [|exact H'].
  rewrite Hl, He. done.
Qed.

Definition zero_node (l : loc) : node := Node l 0 AF_UNSPEC 0 0 0 None None.

(** [aipnext] points to the place where the next structure is linked. *)
Definition tail_of (d : list node) (aihead : loc) (aipnext : option loc) : Prop :=
  aihead = first d NULL /\
  match aipnext with None => d = [] | Some p => exists d' m, d = d' ++ [m] /\ p = n_loc m end.

Lemma link_ok e F d aihead aipnext ai s (Q : unit -> st -> Prop) :
  tail_of d aihead aipnext ->
  owns e s ((ai, BInfo zero_info) :: cells d NULL ++ F) ->
  (forall s', owns e s' (cells (d ++ [zero_node ai]) NULL ++ F) -> Q tt s') ->
  wp (match aipnext with None => mret tt | Some p => modify_info p (set_next ai) end) Q s.
Proof.
  intros [_ Ht] H HQ. destruct aipnext as [p|]; [|subst d; by apply ga_ret, HQ].
  destruct Ht as (d' & m & -> & ->).
  eapply owns_perm in H; [|by rewrite cells_mid].
  apply owns_swap in H. eapply wp_modify; [exact H|].
  intros s' H'. apply HQ. rewrite <- app_assoc. apply owns_unmid.
  eapply owns_perm; [|exact H']. cbn. solve_Permutation.
Qed.

Definition set_node_addr (p : loc) (sa : sockaddr) (n : node) : node :=
  Node (n_loc n) (n_flags n) (n_family n) (n_socktype n) (n_protocol n) (sa_size sa) (Some (p, sa)) (n_name n).

Lemma fill_addr_ok e F d n f ap s (Q : Z -> st -> Prop) :
  owns e s (cells (d ++ [n]) NULL ++ F) -> n_addr n = None -> addr_long f ap ->
  (forall s', starved -> owns e s' (cells (d ++ [n]) NULL ++ F) -> Q EAI_MEMORY s') ->
  (forall s' p, owns e s' (cells (d ++ [set_node_addr p (addr_sock f ap) n]) NULL ++ F) -> Q 0 s') ->
  wp (fill_addr IPV6 ok (n_loc n) f ap) Q s.
Proof.
  intros H Hn Hl Q1 Q2.
  assert (Hstore : forall p b s1, owns e s1 ((p, b) :: cells (d ++ [n]) NULL ++ F) ->
    wp (_ ← store p (BSock (addr_sock f ap));
        _ ← modify_info (n_loc n) (set_addr p);
        _ ← modify_info (n_loc n) (set_addrlen (sa_size (addr_sock f ap)));
        mret 0) Q s1).
  { intros p b s1 H1. apply ga_bind. eapply wp_store; [exact H1|]. clear s1 H1. intros s1 H1.
    pose (n1 := Node (n_loc n) (n_flags n) (n_family n) (n_socktype n) (n_protocol n) (n_len n)
                  (Some (p, addr_sock f ap)) (n_name n)).
    apply ga_bind. apply (attach_node e F d n n1 [] _ _ _ _ H1); [done| |done|].
    { unfold extra, addr_cell. by rewrite Hn. }
    clear s1 H1. intros s1 H1. apply ga_bind.
    apply (modify_node e F d n1 (set_node_addr p (addr_sock f ap) n) [] _ _ _ H1); try done.
    clear s1 H1. intros s1 H1. apply ga_ret. by apply (Q2 s1 p). }
  unfold fill_addr. unfold addr_long in Hl. destruct f; try done.
  - apply ga_bind. eapply wp_alloc; [exact H|intros s1 Hf H1; apply Q1; [by exists (brk s)|done]|].
    intros p s1 Hp H1. unfold NULL at 1. rewrite (proj2 (Z.eqb_neq p 0)) by lia.
    apply ga_bind. eapply wp_lift; [|by eapply Hstore].
    unfold read_at. by rewrite decide_True, drop_0 by done.
  - destruct Hl as [-> Hl].
    apply ga_bind. eapply wp_alloc; [exact H|intros s1 Hf H1; apply Q1; [by exists (brk s)|done]|].
    intros p s1 Hp H1. unfold NULL at 1. rewrite (proj2 (Z.eqb_neq p 0)) by lia.
    apply ga_bind. eapply wp_lift; [|by eapply Hstore].
    unfold read_at. by rewrite decide_True, drop_0 by done.
Qed.

Lemma addr_loop_ok e F hints f aps d aihead aipnext s (Q : Z * loc -> st -> Prop) :
  tail_of d aihead aipnext ->
  owns e s (cells d NULL ++ F) -> Forall (addr_long f) aps ->
  (forall s' ns, starved -> owns e s' (cells ns NULL ++ F) -> Q (EAI_MEMORY, first ns NULL) s') ->
  (forall s' ns, owns e s' (cells ns NULL ++ F) ->
     map view_of ns = map view_of d ++ map (addr_view hints f) aps -> Q (0, first ns NULL) s') ->
  wp (addr_loop IPV6 ok hints f aps aihead aipnext) Q s.
Proof.
  revert d aihead aipnext s. induction aps as [|ap aps IH]; intros d aihead aipnext s Ht H Hl Q1 Q2.
  { destruct Ht as [-> _]. apply ga_ret. apply (Q2 s d); [done|]. by rewrite app_nil_r. }
  apply Forall_cons in Hl as [Hap Hl]. cbn [addr_loop].
  apply ga_bind. eapply wp_alloc; [exact H| |].
  { intros s1 Hf H1. destruct Ht as [-> _]. apply (Q1 s1 d); [by exists (brk s)|done]. }
  intros ai s1 Hai H1. unfold NULL at 1. rewrite (proj2 (Z.eqb_neq ai 0)) by lia.
  apply ga_bind. eapply link_ok; [exact Ht|exact H1|]. clear s H s1 H1. intros s1 H1.
  assert (Hhead : (match aipnext with None => ai | Some _ => aihead end) = first (d ++ [zero_node ai]) NULL).
  { destruct Ht as [-> Ht]. destruct aipnext; [|by subst d].
    destruct Ht as (d' & m & -> & _). rewrite <- app_assoc. symmetry. apply first_app. }
  rewrite Hhead.
  pose (n1 := Node ai 0 AF_UNSPEC (ai_socktype hints) 0 0 None None).
  pose (n2 := Node ai (if ai_socktype hints =? 0 then AI_CLONE else 0) AF_UNSPEC (ai_socktype hints) 0 0 None None).
  pose (n3 := Node ai (if ai_socktype hints =? 0 then AI_CLONE else 0) AF_UNSPEC (ai_socktype hints)
                (ai_protocol hints) 0 None None).
  pose (n4 := Node ai (if ai_socktype hints =? 0 then AI_CLONE else 0) f (ai_socktype hints)
                (ai_protocol hints) 0 None None).
  apply ga_bind. apply (modify_node e F d (zero_node ai) n1 [] _ _ _ H1); try done. clear s1 H1. intros s1 H1.
  apply ga_bind.
  assert (Hflag : forall Q' : unit -> st -> Prop,
    (forall s', owns e s' (cells (d ++ [n2]) NULL ++ F) -> Q' tt s') ->
    wp (if ai_socktype hints =? 0
        then a ← load_info ai; modify_info ai (set_flags (Z.lor (ai_flags a) AI_CLONE))
        else mret tt) Q' s1).
  { intros Q' HQ'. subst n2. destruct (ai_socktype hints =? 0) eqn:E; [|by apply ga_ret, HQ'].
    apply ga_bind. eapply wp_load_info; [apply (owns_mid _ _ d n1 []); exact H1|].
    apply (modify_node e F d n1 (Node ai AI_CLONE AF_UNSPEC (ai_socktype hints) 0 0 None None) [] _ _ _ H1); done. }
  apply Hflag. clear Hflag s1 H1. intros s1 H1. apply ga_bind.
  apply (modify_node e F d n2 n3 [] _ _ _ H1); try done. clear s1 H1. intros s1 H1. apply ga_bind.
  apply (modify_node e F d n3 n4 [] _ _ _ H1); try done. clear s1 H1. intros s1 H1. apply ga_bind.
  assert (Hfirst : forall n, n_loc n = ai -> first (d ++ [zero_node ai]) NULL = first (d ++ [n]) NULL).
  { intros n <-. by destruct d. }
  apply (fill_addr_ok e F d n4 f ap _ _ H1); [done|done| |].
  - intros s2 Hs H2. cbn. rewrite (Hfirst n4) by done. by apply (Q1 s2 (d ++ [n4])).
  - intros s2 p H2. cbn. rewrite (Hfirst (set_node_addr p (addr_sock f ap) n4)) by done.
    eapply IH; [|exact H2|done|done|].
    + split; [done|]. by exists d, (set_node_addr p (addr_sock f ap) n4).
    + intros s3 ns H3 Hv. apply (Q2 s3 ns H3). rewrite Hv, map_app, <- app_assoc. done.
Qed.

(** ** The whole function *)

Definition v_named (name : str) (v : view) : view :=
  View (v_flags v) (v_family v) (v_socktype v) (v_protocol v) (v_len v) (v_addr v) (Some name).
(** The canonical name goes to the first structure only. *)
Definition name_first (hints : addrinfo) (name : str) (vs : list view) : list view :=
  if negb (Z.land (ai_flags hints) AI_CANONNAME =? 0)
  then match vs with [] => [] | v :: vs' => v_named name v :: vs' end
  else vs.

Definition wanted (serv : option str) : option str :=
  match serv with Some s => if char0 s =? 0 then None else Some s | None => None end.

(** The list that a call returns for a [hostent]. *)
Definition expected (host : str) (serv : option str) (hints : addrinfo) (hptr : hostent) : list view :=
  let vs := name_first hints (default host (h_name hptr))
              (map (addr_view hints (h_addrtype hptr)) (h_addr_list hptr)) in
  match wanted serv with
  | None => vs
  | Some s => concat (map (fill_services (services (ai_socktype hints) s)) vs)
  end.
Definition no_service (serv : option str) (hints : addrinfo) : Prop :=
  exists s, wanted serv = Some s /\ services (ai_socktype hints) s = [].

Lemma canon_name_ok e F hints host hptr n r s (Q : Z -> st -> Prop) :
  owns e s (cells (n :: r) NULL ++ F) -> n_name n = None ->
  (forall s', starved -> owns e s' (cells (n :: r) NULL ++ F) -> Q EAI_MEMORY s') ->
  (forall s' n', owns e s' (cells (n' :: r) NULL ++ F) -> n_loc n' = n_loc n ->
     map view_of (n' :: r) = name_first hints (default host (h_name hptr)) (map view_of (n :: r)) -> Q 0 s') ->
  wp (canon_name ok hints host hptr (n_loc n)) Q s.
Proof.
  intros H Hn Q1. unfold canon_name, name_first.
  destruct (negb (Z.land (ai_flags hints) AI_CANONNAME =? 0)); intros Q2; [|by apply ga_ret, (Q2 s n H)].
  apply ga_bind. eapply wp_alloc; [exact H| |].
  - intros s1 Hf H1. apply ga_bind. apply (modify_node e F [] n n r _ _ _ H1); try done.
    { intros x. unfold info, set_canonname. simpl. by rewrite Hn. }
    intros s2 H2. apply ga_ret. apply Q1; [by exists (brk s)|done].
  - intros p s1 Hp H1. apply ga_bind.
    pose (n' := Node (n_loc n) (n_flags n) (n_family n) (n_socktype n) (n_protocol n) (n_len n)
                  (n_addr n) (Some (p, default host (h_name hptr)))).
    apply (attach_node e F [] n n' r _ _ _ _ H1); [done| |done|].
    { unfold extra, addr_cell, name_cell. rewrite Hn. cbn. solve_Permutation. }
    intros s2 H2. unfold NULL. rewrite (proj2 (Z.eqb_neq p 0)) by lia.
    apply ga_ret. by apply (Q2 s2 n').
Qed.

Lemma base_view_named hints name vs t0 :
  Forall (base_view t0) vs -> Forall (base_view t0) (name_first hints name vs).
Proof.
  intros H. unfold name_first. case_match; [|done]. destruct H as [|v vs Hv H]; [constructor|].
  constructor; [|done]. exact Hv.
Qed.

(** The body of [getaddrinfo] from line 350. *)
Lemma build_ok e F host serv hints hptr s (Q : Z * loc -> st -> Prop) :
  owns e s F -> hent_ok hptr ->
  (forall s' ns rc, owns e s' (cells ns NULL ++ F) ->
     (rc = EAI_MEMORY /\ starved) \/
     (rc = 0 /\ map view_of ns = expected host serv hints hptr /\ ~ no_service serv hints) \/
     (rc = (if ai_socktype hints =? 0 then EAI_NONAME else EAI_SERVICE) /\ no_service serv hints) ->
     Q (rc, first ns NULL) s') ->
  wp (build IPV6 ok getservbyname host serv hints hptr) Q s.
Proof.
  intros H [Hne Hl] HQ. unfold build. apply ga_bind.
  apply (addr_loop_ok e F hints _ _ []); [done|done|done| |].
  { intros s1 ns Hs H1. cbn. apply (HQ s1 ns EAI_MEMORY); auto. }
  intros s1 ns H1 Hv. cbn [map app] in Hv. cbn.
  destruct ns as [|n r]; [by destruct (h_addr_list hptr)|].
  assert (Hb : Forall (base_view (ai_socktype hints)) (map view_of (n :: r))).
  { rewrite Hv. clear - Hl. induction Hl; constructor; auto using addr_view_base. }
  apply ga_bind. apply (canon_name_ok e F hints host hptr n r); [done| | |].
  { destruct (h_addr_list hptr) as [|ap aps]; [done|]. 
    apply (f_equal (fun l => v_name <$> head l)) in Hv. cbn in Hv. by destruct (n_name n). }
  { intros s2 Hs H2. cbn. apply (HQ s2 (n :: r) EAI_MEMORY); auto. }
  intros s2 n' H2 Hl' Hv'. cbn [negb Z.eqb]. rewrite Hv in Hv'.
  change (n_loc n) with (first (n :: r) NULL). cbn [first]. rewrite <- Hl'.
  assert (Hdone : wanted serv = None ->
    wp (mret (0, n_loc n')) Q s2).
  { intros Hw. apply ga_ret, (HQ s2 (n' :: r) 0); [done|]. right; left. split; [done|].
    unfold expected, no_service. rewrite Hw. split; [done|]. by intros (? & ? & _). }
  unfold wanted in Hdone. destruct serv as [sv|]; [|by apply Hdone].
  destruct (char0 sv =? 0) eqn:Ec; [by apply Hdone|]. apply ga_bind.
  apply (getaddrinfo_serv_ok e F (n' :: r)); [done| |done| |].
  - rewrite Hv'. apply base_view_named. by rewrite <- Hv.
  - intros s3 ns3 Hs H3 Hf. apply ga_ret. change (n_loc n') with (first (n' :: r) NULL). rewrite <- Hf.
    apply (HQ s3 ns3); auto.
  - intros s3 ns3 H3 Hf Hv3. apply ga_ret. change (n_loc n') with (first (n' :: r) NULL). rewrite <- Hf.
    apply (HQ s3 ns3); [done|]. unfold expected, no_service, wanted. rewrite Ec.
    rewrite Hv' in Hv3. case_bool_decide as Hs.
    + right; right. split; [done|]. by exists sv.
    + right; left. split; [done|]. split; [done|]. by intros (? & [= <-] & ?).
Qed.

(** A list in memory, as its reader finds it. *)
Fixpoint linked (h : gmap loc block) (p : loc) (vs : list view) : Prop :=
  match vs with
  | [] => p = NULL
  | v :: vs' => exists a, p <> NULL /\ h !! p = Some (BInfo a) /\
      ai_flags a = v_flags v /\ ai_family a = v_family v /\ ai_socktype a = v_socktype v /\
      ai_protocol a = v_protocol v /\ ai_addrlen a = v_len v /\
      match v_addr v with
      | None => ai_addr a = NULL
      | Some sa => ai_addr a <> NULL /\ h !! ai_addr a = Some (BSock sa)
      end /\
      match v_name v with
      | None => ai_canonname a = NULL
      | Some name => ai_canonname a <> NULL /\ h !! ai_canonname a = Some (BName name)
      end /\
      linked h (ai_next a) vs'
  end.

Lemma owns_elem e s cs l b : owns e s cs -> (l, b) ∈ cs -> heap s !! l = Some b /\ l <> NULL.
Proof.
  intros (Hn & Hh & Hb & _) Hin. split.
  - rewrite Hh. by apply elem_of_list_to_map_1.
  - rewrite Forall_forall in Hb. specialize (Hb _ Hin). simpl in Hb. unfold NULL. lia.
Qed.

Lemma owns_linked e s ns F : owns e s (cells ns NULL ++ F) -> linked (heap s) (first ns NULL) (map view_of ns).
Proof.
  intros H. assert (Hin : forall l b, (l, b) ∈ cells ns NULL -> heap s !! l = Some b /\ l <> NULL).
  { intros l b Hb. eapply owns_elem; [exact H|]. apply elem_of_app. by left. }
  clear H. induction ns as [|n ns IH]; [done|]. cbn [map linked first].
  exists (info n (first ns NULL)).
  destruct (Hin (n_loc n) (BInfo (info n (first ns NULL))) ltac:(cbn; left)) as [Hn0 Hn1].
  cbn [view_of v_flags v_family v_socktype v_protocol v_len v_addr v_name info
       ai_flags ai_family ai_socktype ai_protocol ai_addrlen ai_canonname ai_addr ai_next].
  split_and!; try done.
  - destruct (n_addr n) as [[l sa]|] eqn:Ea; cbn; [|done].
    destruct (Hin l (BSock sa)); [|done]. cbn. unfold extra, addr_cell. rewrite Ea. cbn. clear. set_solver.
  - destruct (n_name n) as [[l sa]|] eqn:Ea; cbn; [|done].
    destruct (Hin l (BName sa)); [|done]. cbn. unfold extra, name_cell. rewrite Ea. clear. set_solver.
  - apply IH. intros l b Hb. apply Hin. cbn. clear - Hb. set_solver.
Qed.

(** The part before the address loop does not touch the heap. *)
Definition keeps {A} (m : M A) : Prop :=
  forall s a s', m s = Some (a, s') -> heap s' = heap s /\ brk s' = brk s /\ unlinked s' = unlinked s.

Lemma keeps_ret {A} (a : A) : keeps (mret a).
Proof. by intros s b s' [= -> ->]. Qed.
Lemma keeps_ub {A} : keeps (@ub A).
Proof. done. Qed.
Lemma keeps_lift {A} (o : option A) : keeps (lift o).
Proof. intros s b s'. unfold lift. destruct o; simpl; [|done]. by intros [= -> ->]. Qed.
Lemma keeps_bind {A B} (m : M A) (k : A -> M B) : keeps m -> (forall a, keeps (k a)) -> keeps (m ≫= k).
Proof.
  intros Hm Hk s b s' E. unfold mbind, M_bind in E. destruct (m s) as [[a s1]|] eqn:E1; [|done].
  destruct (Hm _ _ _ E1) as (H1 & H2 & H3), (Hk _ _ _ _ E) as (H4 & H5 & H6). by rewrite H4, H5, H6.
Qed.

Lemma keeps_numeric f host : keeps (try_numeric uninit f host).
Proof.
  apply keeps_bind; [apply keeps_lift|]. intros [o bs].
  repeat case_match; try apply keeps_ret.
  apply keeps_bind; [apply keeps_lift|]. intros; apply keeps_ret.
Qed.

Lemma keeps_dns host f : keeps (try_dns IPV6 res_init gethostbyname host f).
Proof.
  apply keeps_bind; [by intros s a s' [= _ <-]|]. intros r.
  apply keeps_bind; [by intros s a s' [= _ <-]|]. intros _.
  case_match; apply keeps_ret.
Qed.

Lemma keeps_front host serv hintsptr :
  keeps (getaddrinfo_front IPV6 uninit res_init gethostbyname host serv hintsptr).
Proof.
  unfold getaddrinfo_front. destruct (check_hints _ _); [apply keeps_ret|].
  apply keeps_bind; [apply keeps_lift|]. intros [e|[h' hints]]; [apply keeps_ret|].
  destruct (starts_slash h'); [apply keeps_ret|]. destruct (starts_slash serv); [apply keeps_ret|].
  destruct h'; [|apply keeps_ub]. apply keeps_bind; [|intros; repeat case_match; apply keeps_ret].
  apply keeps_bind; [case_match; [apply keeps_numeric|apply keeps_ret]|].
  intros [?|]; [apply keeps_ret|].
  apply keeps_bind; [case_match; [apply keeps_numeric|apply keeps_ret]|].
  intros [?|]; [apply keeps_ret|apply keeps_dns].
Qed.

(** The addresses in use lie below the allocator's next address. *)
Definition heap_ok (s : st) : Prop := 0 < brk s /\ forall l, is_Some (heap s !! l) -> 0 < l < brk s.

Lemma heap_ok_owns s : heap_ok s -> owns (res s, unlinked s) s (map_to_list (heap s)).
Proof.
  intros [Hb Hl]. split_and!; [apply NoDup_fst_map_to_list|by rewrite list_to_map_to_list| |done|done].
  apply Forall_forall. intros [l b] Hin. apply elem_of_map_to_list in Hin. apply Hl. by exists b.
Qed.

Lemma owns_heap e s h : owns e s (map_to_list h) -> heap s = h.
Proof. intros (_ & -> & _). apply list_to_map_to_list. Qed.

Abbreviation call := (getaddrinfo IPV6 uninit ok res_init gethostbyname getservbyname).
Abbreviation prepare := (getaddrinfo_front IPV6 uninit res_init gethostbyname).

(** C28: once the host is resolved, and whatever allocations fail, [getaddrinfo]
    returns.  Either it returns 0 and [*result] is a linked list that holds one
    structure per address and service of the host, in the order of the addresses
    (the stream service before the datagram service), the canonical name in the
    first one; the rest of the heap is untouched and [freeaddrinfo] gives the
    heap back as it was.  Or it returns the code for a missing service, or
    EAI_MEMORY when an allocation did fail, and has freed everything it had
    allocated. *)
Theorem getaddrinfo_spec host serv hintsptr s h hints hptr s1 :
  heap_ok s -> prepare host serv hintsptr s = Some (FHost h hints hptr, s1) -> hent_ok hptr ->
  exists rc result s', call host serv hintsptr s = Some ((rc, result), s') /\
    unlinked s' = unlinked s /\
    ((rc = 0 /\ ~ no_service serv hints /\ heap s ⊆ heap s' /\
      exists p, result = Some p /\ linked (heap s') p (expected h serv hints hptr) /\
        exists s'', freeaddrinfo p s' = Some (tt, s'') /\ heap s'' = heap s) \/
     (result = None /\ heap s' = heap s /\
      ((rc = EAI_MEMORY /\ starved) \/
       (rc = (if ai_socktype hints =? 0 then EAI_NONAME else EAI_SERVICE) /\ no_service serv hints)))).
Proof.
  intros Hs Hfront Hh. destruct (keeps_front _ _ _ _ _ _ Hfront) as (Eh & Eb & Eu).
  assert (H1 : owns (res s1, unlinked s) s1 (map_to_list (heap s))).
  { rewrite <- Eh, <- Eu. apply heap_ok_owns. unfold heap_ok. by rewrite Eh, Eb. }
  enough (W : wp (call host serv hintsptr) (fun r s' =>
    unlinked s' = unlinked s /\
    ((r.1 = 0 /\ ~ no_service serv hints /\ heap s ⊆ heap s' /\
      exists p, r.2 = Some p /\ linked (heap s') p (expected h serv hints hptr) /\
        exists s'', freeaddrinfo p s' = Some (tt, s'') /\ heap s'' = heap s) \/
     (r.2 = None /\ heap s' = heap s /\
      ((r.1 = EAI_MEMORY /\ starved) \/
       (r.1 = (if ai_socktype hints =? 0 then EAI_NONAME else EAI_SERVICE) /\ no_service serv hints))))) s).
  { unfold wp in W. destruct (call host serv hintsptr s) as [[[rc result] s']|]; [|done].
    by exists rc, result, s'. }
  unfold getaddrinfo. apply ga_bind. unfold wp at 1. rewrite Hfront.
  apply ga_bind. apply (build_ok _ _ _ _ _ _ _ _ H1 Hh). intros s2 ns rc H2 Hrc. cbn.
  destruct (Z.eqb_spec rc 0) as [->|Hn]; cbn [negb].
  - apply ga_ret. cbn. destruct Hrc as [[? _]|[(_ & Hv & Hn)|[E _]]]; [done| |by case_match].
    pose proof H2 as (_ & _ & _ & _ & [= _ Hu]). split; [done|]. left.
    split_and!; [done|done| |].
    + apply map_subseteq_spec. intros l b Hl. eapply owns_elem; [exact H2|].
      apply elem_of_app. right. by apply elem_of_map_to_list.
    + exists (first ns NULL). split; [done|]. split; [rewrite <- Hv; by eapply owns_linked|].
      assert (W : wp (freeaddrinfo (first ns NULL)) (fun _ s'' => heap s'' = heap s) s2).
      { eapply freeaddrinfo_ok; [exact H2|]. intros s3 H3. by eapply owns_heap. }
      unfold wp in W. destruct (freeaddrinfo _ s2) as [[[] s3]|]; [|done]. by exists s3.
  - apply ga_bind. eapply freeaddrinfo_ok; [exact H2|]. intros s3 H3. apply ga_ret. cbn.
    pose proof H3 as (_ & _ & _ & _ & [= _ Hu]). split; [done|]. right.
    split_and!; [done|by eapply owns_heap|].
    destruct Hrc as [Hr|[(? & _)|Hr]]; [by left|done|by right].
Qed.

(** The structure for a pathname. *)
Definition local_view (path : str) (hints : addrinfo) : view :=
  View 0 AF_UNIX (ai_socktype hints) 0 110
       (Some (SockUn AF_UNIX (take SUN_PATH (path ++ replicate SUN_PATH 0)))) None.

Lemma local_ok e F path hints s (Q : Z * option loc -> st -> Prop) :
  owns e s F -> ai_socktype hints <> 0 ->
  (forall s', ok (brk s) = false -> owns e s' F -> Q (0, None) s') ->
  (forall s' n, n_addr n = None -> n_name n = None -> starved -> owns e s' (cells [n] NULL ++ F) ->
     Q (EAI_MEMORY, None) s') ->
  (forall s' n, view_of n = local_view path hints ->
     owns (e.1, if negb (Z.land (ai_flags hints) AI_PASSIVE =? 0) then path :: e.2 else e.2) s' (cells [n] NULL ++ F) ->
     Q (0, Some (n_loc n)) s') ->
  wp (addrinfo_local ok path hints) Q s.
Proof.
  intros H Ht Q1 Q2 Q3. unfold addrinfo_local. rewrite (proj2 (Z.eqb_neq _ 0)) by done.
  apply ga_bind. eapply wp_alloc; [exact H|intros s1 Hf H1; by apply Q1|].
  intros ai s1 Hai H1. unfold NULL at 1. rewrite (proj2 (Z.eqb_neq ai 0)) by lia.
  pose (n := Node ai 0 AF_UNIX (ai_socktype hints) 0 110 None None).
  do 5 (apply ga_bind; eapply wp_modify; [exact H1|]; clear s1 H1; intros s1 H1).
  assert (H1' : owns e s1 (cells ([] ++ [n]) NULL ++ F)) by exact H1. clear H1.
  apply ga_bind. eapply wp_alloc; [exact H1'| |].
  { intros s2 Hf H2. apply ga_bind. apply (modify_node e F [] n n [] _ _ _ H2); try done.
    intros s3 H3. apply ga_ret. apply (Q2 s3 n); try done. by exists (brk s1). }
  intros p s2 Hp H2. pose (sa := SockUn AF_UNIX (take SUN_PATH (path ++ replicate SUN_PATH 0))).
  apply ga_bind. cbn [cells app] in H2. apply owns_swap in H2. eapply wp_modify; [exact H2|].
  clear s2 H2. intros s2 H2. unfold NULL at 1. rewrite (proj2 (Z.eqb_neq p 0)) by lia.
  apply ga_bind. eapply wp_store; [by apply owns_swap|]. clear s2 H2. intros s2 H2. apply owns_swap in H2.
  do 2 (apply ga_bind; eapply wp_modify; [exact H2|]; clear s2 H2; intros s2 H2).
  assert (H3 : owns e s2 (cells [set_node_addr p sa n] NULL ++ F)) by exact H2.
  apply ga_bind. specialize (Q3 (if negb (Z.land (ai_flags hints) AI_PASSIVE =? 0)
    then St (heap s2) (brk s2) (res s2) (path :: unlinked s2) else s2) (set_node_addr p sa n) eq_refl).
  destruct (negb (Z.land (ai_flags hints) AI_PASSIVE =? 0)); apply Q3.
  - destruct H3 as (Ha & Hb & Hc & Hd & He). subst e. done.
  - destruct e. exact H3.
Qed.

(** The failures outside that contract.  Every error found before the address
    loop frees the list head that is not set yet: undefined behaviour.  For a
    pathname, running out of memory at the first allocation is reported as
    success without a result, and at the second the structure is lost.  And the
    resolver option set for an AF_INET6 lookup stays: when it makes
    [gethostbyname] return IPv6 addresses, a lookup for AF_INET of a name then
    ends in the first failure. *)
Theorem getaddrinfo_flaws host serv hintsptr s s1 :
  (forall e, prepare host serv hintsptr s = Some (FErr e, s1) -> call host serv hintsptr s = None) /\
  (forall path hints, heap_ok s -> prepare host serv hintsptr s = Some (FLocal path hints, s1) ->
     ai_socktype hints <> 0 ->
     exists r s', call host serv hintsptr s = Some (r, s') /\
       ((r = (0, None) /\ ok (brk s) = false /\ heap s' = heap s) \/
        (r = (EAI_MEMORY, None) /\ starved /\ exists p b, heap s !! p = None /\ heap s' = <[p := b]> (heap s)) \/
        (exists p, r = (0, Some p) /\ heap s ⊆ heap s' /\ linked (heap s') p [local_view path hints]))) /\
  (forall name hp, IPV6 = true -> res_use_inet6 (res s) = true -> res_inited (res s) = true ->
     hintsptr = Some (set_family AF_INET zero_info) -> host = Some name ->
     isxdigit (char0 name) = false -> char0 name ∉ [0; COLON; SLASH] -> starts_slash serv = None ->
     gethostbyname true name = inr hp -> h_addrtype hp = AF_INET6 ->
     call host serv hintsptr s = None).
Proof.
  assert (Herr : forall e s2, prepare host serv hintsptr s = Some (FErr e, s2) -> call host serv hintsptr s = None).
  { intros e s2 E. unfold getaddrinfo. unfold mbind, M_bind. by rewrite E. }
  split_and!; [intros e; apply Herr| |].
  - intros path hints Hs Hfront Ht. destruct (keeps_front _ _ _ _ _ _ Hfront) as (Eh & Eb & Eu).
    assert (H1 : owns (res s1, unlinked s) s1 (map_to_list (heap s))).
    { rewrite <- Eh, <- Eu. apply heap_ok_owns. unfold heap_ok. by rewrite Eh, Eb. }
    enough (W : wp (call host serv hintsptr) (fun r s' =>
       (r = (0, None) /\ ok (brk s) = false /\ heap s' = heap s) \/
        (r = (EAI_MEMORY, None) /\ starved /\ exists p b, heap s !! p = None /\ heap s' = <[p := b]> (heap s)) \/
        (exists p, r = (0, Some p) /\ heap s ⊆ heap s' /\ linked (heap s') p [local_view path hints])) s).
    { unfold wp in W. destruct (call host serv hintsptr s) as [[r s']|]; [|done]. by exists r, s'. }
    unfold getaddrinfo. apply ga_bind. unfold wp at 1. rewrite Hfront.
    apply (local_ok _ _ _ _ _ _ H1 Ht).
    + intros s' Hf H'. left. split_and!; [done|by rewrite <- Eb|by eapply owns_heap].
    + intros s' n Ha Hn Hf H'. right; left. split_and!; [done|done|].
      exists (n_loc n), (BInfo (info n NULL)). cbn in H'. unfold extra, addr_cell, name_cell in H'.
      rewrite Ha, Hn in H'. cbn in H'. destruct H' as (Hnd & Hh & _). split.
      * apply NoDup_cons in Hnd as [Hni _]. rewrite <- (list_to_map_to_list (heap s)).
        by apply not_elem_of_list_to_map_1.
      * rewrite Hh. simpl. by rewrite list_to_map_to_list.
    + intros s' n Hv H'. right; right. exists (n_loc n). split_and!; [done| |].
      * apply map_subseteq_spec. intros l b Hl. eapply owns_elem; [exact H'|].
        apply elem_of_app. right. by apply elem_of_map_to_list.
      * rewrite <- Hv. change [view_of n] with (map view_of [n]). by eapply (owns_linked _ _ [n]).
  - intros name hp H6 Hr Hi -> -> Hx Hc Hserv Hg Hf.
    assert (Hd : isdigit (char0 name) = false) by (unfold isxdigit in Hx; by bprop).
    assert (char0 name <> 0 /\ char0 name <> COLON /\ char0 name <> SLASH) as (H0 & HC & HS) by set_solver.
    pose (h := set_family AF_INET zero_info).
    assert (Ec : choose_host IPV6 uninit h (Some name) serv = Some (inr (Some name, h))).
    { unfold choose_host, absent. by rewrite (proj2 (Z.eqb_neq (char0 name) 0)) by done. }
    assert (Eg : exists s2, getaddrinfo_host IPV6 uninit res_init gethostbyname name AF_INET s = Some (inr hp, s2)).
    { unfold getaddrinfo_host, try_dns, mbind, M_bind.
      rewrite Hd, Hx, H6, (proj2 (Z.eqb_neq (char0 name) COLON)) by done. cbn.
      rewrite Hi, bool_decide_eq_false_2 by done. cbn. rewrite Hr, Hg. by eexists. }
    destruct Eg as [s2 Eg]. apply (Herr EAI_ADDRFAMILY s2).
    unfold getaddrinfo_front. fold h. change (check_hints IPV6 h) with (@None Z). rewrite Ec.
    unfold mbind at 1, M_bind at 1. cbn [lift fmap option_fmap option_map].
    unfold starts_slash at 1. rewrite (proj2 (Z.eqb_neq (char0 name) SLASH)), Hserv by done.
    unfold mbind, M_bind. change (ai_family h) with AF_INET. by rewrite Eg, Hf.
Qed.

End Correctness.

(** ** Concrete lookups *)

Definition ex_hosts (_ : bool) (name : str) : Z + hostent :=
  if decide (name = cstr "multi")
  then inr (Hostent (Some (cstr "multi.net")) AF_INET [[10; 0; 0; 1]; [10; 0; 0; 2]])
  else inl HOST_NOT_FOUND.
Definition ex_services (name _ : str) : option Z :=
  if decide (name = cstr "daytime") then Some (htons 13) else None.
Definition ex_st : st := St ∅ 1 (Resolver true false) [].
Definition ex_call (ok : loc -> bool) (host serv : option str) (hints : option addrinfo) :=
  getaddrinfo false 7 ok id ex_hosts ex_services host serv hints ex_st.
Definition ex_view (flags t port : Z) (a : list Z) (name : option str) : view :=
  View flags AF_INET t 0 16 (Some (SockIn AF_INET (htons port) a)) name.

Lemma ex_heap_ok : heap_ok ex_st.
Proof. split; [done|]. intros l [b Hb]. simpl in Hb. by rewrite lookup_empty in Hb. Qed.

(** Without a socket type, two addresses and two services give four structures,
    as the comment before [getaddrinfo_port] says. *)
Lemma getaddrinfo_spec_witness :
  exists p s', ex_call (fun _ => true) (Some (cstr "multi")) (Some (cstr "daytime")) None = Some ((0, Some p), s') /\
    linked (heap s') p
      [ex_view AI_CLONE SOCK_STREAM 13 [10; 0; 0; 1] None; ex_view 0 SOCK_DGRAM 13 [10; 0; 0; 1] None;
       ex_view AI_CLONE SOCK_STREAM 13 [10; 0; 0; 2] None; ex_view 0 SOCK_DGRAM 13 [10; 0; 0; 2] None].
Proof.
  destruct (getaddrinfo_spec false 7 (fun _ => true) id ex_hosts ex_services
    (Some (cstr "multi")) (Some (cstr "daytime")) None ex_st (cstr "multi") zero_info
    (Hostent (Some (cstr "multi.net")) AF_INET [[10; 0; 0; 1]; [10; 0; 0; 2]]) ex_st)
    as (rc & result & s' & E & _ & [(-> & _ & _ & p & -> & Hl & _)|(_ & _ & [[_ [? [=]]]|[_ (s & [= <-] & H)]])]).
  - apply ex_heap_ok.
  - vm_compute. reflexivity.
  - split; [done|]. repeat constructor; cbn; lia.
  - exists p, s'. split; [exact E|exact Hl].
  - vm_compute in H. discriminate H.
Defined.

Lemma getaddrinfo_flaws_witness :
  ex_call (fun _ => true) (Some (cstr "nowhere")) (Some (cstr "80")) None = None.
Proof.
  apply (getaddrinfo_flaws false 7 (fun _ => true) id ex_hosts ex_services
    (Some (cstr "nowhere")) (Some (cstr "80")) None ex_st ex_st) with (e := EAI_NONAME).
  vm_compute. reflexivity.
Defined.

(** The pathname that finds no memory: success, and nothing in [*result]. *)
Example local_no_memory :
  fst <$> ex_call (fun _ => false) (Some (cstr "/tmp/s")) None (Some (set_socktype 1 zero_info)) = Some (0, None).
Proof. reflexivity. Qed.
(** A port above 65535 is cut to 16 bits without an error. *)
Example port_wraps : htons (atoi (cstr "65616")) = htons 80.
Proof. reflexivity. Qed.
