(* ===== verification/SelectServer.v ===== *)
(** * Echo servers on select and poll

    Model of the author's select() servers, notes/echoServer/version_2 and
    version_5 (the same loop on TCP and on Unix domain sockets), and of the
    book's, unpv13e/tcpcliserv/tcpservselect01.c and tcpservpoll01.c.  One round of
    the loop is a function of the server's variables and of what the kernel
    answers: the descriptors found ready, the result of accept(), what there is to
    read from each ready client, and the results of write() to it: the author
    calls write() once, the book Writen().  A descriptor set is a [gset Z]; setting a bit outside
    0 .. FD_SETSIZE - 1 is a store outside the set ([Abort]).  A read() that has
    nothing to return blocks the whole server ([Blocked]). *)

From S2P Require Import Prelude RobustIO.
Import RobustIO(read_result(..), answer(..), sink(..), accepted, k_write, Writen).

Definition FD_SETSIZE : Z := 1024.
Definition ECONNRESET : errno := Eother 104.

Definition FD_SET (fd : Z) (s : gset Z) : option (gset Z) :=
  if (0 <=? fd) && (fd <? FD_SETSIZE) then Some ({[fd]} ∪ s) else None.

(** What the kernel answers in a round. *)
Record answers := Answers {
  a_select : gset Z + errno;        (* the ready descriptors; their number is its size *)
  a_accept : Z + errno;
  a_read : Z -> read_result;        (* all the bytes that are there, or how read() ends *)
  a_write : Z -> list answer }.     (* the results of the calls of write() *)

(** What the server does. *)
Inductive event :=
| Accepted (fd : Z)
| Refused (fd : Z)                  (* accepted, but the table is full: left open *)
| Echoed (fd : Z) (l : list Z)
| ReadFailed (fd : Z)
| Closed (fd : Z).

(** What becomes of a ready client: the end of file, the bytes written back, a read()
    that fails, the end of the process in Writen(), a call that waits. *)
Inductive handled := HEof | HEcho (l : list Z) | HFailed (e : errno) | HQuits | HWaits.

(** read() into a buffer of [n] bytes, and [reply] to what it returns. *)
Definition handle (n : nat) (reply : list Z -> handled) (r : read_result) : handled :=
  match r with
  | Got l => match take n l with [] => HEof | l' => reply l' end
  | RError e => HFailed e
  | RWait => HWaits
  end.

(** str_serv() of the author: a buffer of MAXLEN bytes, and one write(), whose result
    is ignored. *)
Definition MAXLEN : nat := 100.
Definition write_once (w : list answer) (l : list Z) : handled :=
  match k_write (Sink [] w) l with (None, _) => HWaits | (Some _, w') => HEcho (accepted w') end.
Definition str_serv (a : answers) (c : Z) : handled := handle MAXLEN (write_once (a_write a c)) (a_read a c).

(** The book's: MAXLINE bytes, and Writen(). *)
Definition writen_all (w : list answer) (l : list Z) : handled :=
  match Writen (Sink [] w) l with
  | (Ret _, w') => HEcho (accepted w') | (Blocked, _) => HWaits | _ => HQuits
  end.
Definition unp_echo (a : answers) (c : Z) : handled := handle RobustIO.MAXLINE (writen_all (a_write a c)) (a_read a c).

Fixpoint index_of (p : Z -> bool) (l : list Z) : option nat :=
  match l with
  | [] => None
  | c :: l' => if p c then Some 0%nat else S <$> index_of p l'
  end.

(** ** The author's server *)

Record server := Server { client : list Z; allSet : gset Z; maxfd : Z }.

Section Author.
Context (MAXCLIENT : nat) (sockfd : Z).

Definition init : server := Server (replicate MAXCLIENT (-1)) {[sockfd]} sockfd.

(** The loop over the clients, lines 105 to 119, with [str_serv]. *)
Fixpoint serve (readSet : gset Z) (sv : Z -> handled) (cl : list Z) (all : gset Z)
  : outcome (list Z * gset Z * list event) :=
  match cl with
  | [] => Ret ([], all, [])
  | c :: cl' =>
      let go (c' : Z) (all' : gset Z) (ev : list event) :=
        match serve readSet sv cl' all' with
        | Ret (cl2, all2, ev2) => Ret (c' :: cl2, all2, ev ++ ev2)
        | o => o
        end in
      if c =? -1 then go c all []
      else if bool_decide (c ∈ readSet) then
        match sv c with
        | HEof => go (-1) (all ∖ {[c]}) [Closed c]
        | HEcho l => go c all [Echoed c l]
        | HFailed _ => go c all [ReadFailed c]
        | HQuits => Exit 1
        | HWaits => Blocked
        end
      else go c all []
  end.

Definition serve_round (readSet : gset Z) (sv : Z -> handled) (s : server) (ev : list event)
  : outcome (server * list event) :=
  match serve readSet sv (client s) (allSet s) with
  | Ret (cl, all, ev') => Ret (Server cl all (maxfd s), ev ++ ev')
  | Fail e => Fail e | Exit c => Exit c | Abort => Abort | Blocked => Blocked
  end.

(** From line 77 on, with the set that select() left. *)
Definition dispatch (readSet : gset Z) (a : answers) (s : server) : outcome (server * list event) :=
  if bool_decide (sockfd ∈ readSet) then
    if bool_decide (a_accept a = inr EINTR) then Ret (s, []) else
    let connectfd := match a_accept a with inl fd => fd | inr _ => -1 end in
    match index_of (Z.eqb (-1)) (client s) with
    | Some i =>
        match FD_SET connectfd (allSet s) with
        | None => Abort
        | Some all =>
            serve_round readSet (str_serv a)
              (Server (<[i := connectfd]> (client s)) all (if connectfd >? maxfd s then connectfd else maxfd s))
              [Accepted connectfd]
        end
    | None => Ret (s, [Refused connectfd])
    end
  else serve_round readSet (str_serv a) s [].

Definition round (s : server) (a : answers) : outcome (server * list event) :=
  match a_select a with
  | inr e => if bool_decide (e = EINTR) then Ret (s, []) else dispatch (allSet s) a s
  | inl readSet => dispatch readSet a s
  end.

End Author.

(** ** tcpservselect01: the highest index in use and the number of ready descriptors *)

Record unp_server := UnpServer { base : server; maxi : Z }.

Section Unp.
Context (SETSIZE : nat) (listenfd : Z).

Definition unp_init : unp_server := UnpServer (init SETSIZE listenfd) (-1).

(** The loop of lines 66 to 81: [k] indices are left. *)
Fixpoint unp_serve (k : nat) (nready : Z) (rset : gset Z) (sv : Z -> handled) (cl : list Z) (all : gset Z)
  : outcome (list Z * gset Z * list event) :=
  match k, cl with
  | O, _ => Ret (cl, all, [])
  | S _, [] => Abort
  | S k', c :: cl' =>
      let go (nready' : Z) (c' : Z) (all' : gset Z) (ev : list event) :=
        match unp_serve k' nready' rset sv cl' all' with
        | Ret (cl2, all2, ev2) => Ret (c' :: cl2, all2, ev ++ ev2)
        | o => o
        end in
      let served (c' : Z) (all' : gset Z) (ev : list event) :=
        if nready - 1 <=? 0 then Ret (c' :: cl', all', ev) else go (nready - 1) c' all' ev in
      if c <? 0 then go nready c all []
      else if bool_decide (c ∈ rset) then
        match sv c with
        | HEof => served (-1) (all ∖ {[c]}) [Closed c]
        | HEcho l => served c all [Echoed c l]
        | HFailed _ | HQuits => Exit 1
        | HWaits => Blocked
        end
      else go nready c all []
  end.

Definition unp_serve_round (nready : Z) (rset : gset Z) (sv : Z -> handled) (u : unp_server) (ev : list event)
  : outcome (unp_server * list event) :=
  match unp_serve (Z.to_nat (maxi u + 1)) nready rset sv (client (base u)) (allSet (base u)) with
  | Ret (cl, all, ev') => Ret (UnpServer (Server cl all (maxfd (base u))) (maxi u), ev ++ ev')
  | Fail e => Fail e | Exit c => Exit c | Abort => Abort | Blocked => Blocked
  end.

Definition unp_round (u : unp_server) (a : answers) : outcome (unp_server * list event) :=
  match a_select a with
  | inr _ => Exit 1
  | inl rset =>
      let nready := Z.of_nat (size rset) in
      if bool_decide (listenfd ∈ rset) then
        match a_accept a with
        | inr _ => Exit 1
        | inl connfd =>
            match index_of (fun c => c <? 0) (client (base u)) with
            | None => Exit 1
            | Some i =>
                match FD_SET connfd (allSet (base u)) with
                | None => Abort
                | Some all =>
                    let u' := UnpServer
                      (Server (<[i := connfd]> (client (base u))) all
                         (if connfd >? maxfd (base u) then connfd else maxfd (base u)))
                      (if Z.of_nat i >? maxi u then Z.of_nat i else maxi u) in
                    if nready - 1 <=? 0 then Ret (u', [Accepted connfd])
                    else unp_serve_round (nready - 1) rset (unp_echo a) u' [Accepted connfd]
                end
            end
        end
      else unp_serve_round nready rset (unp_echo a) u []
  end.
End Unp.

(** ** tcpservpoll01: an array of descriptors with their results *)

(** [(fd, revents)] for the clients, [client[1]] on; [revents] tells whether
    POLLRDNORM or POLLERR is set. *)
Record poll_server := PollServer { slots : list (Z * bool); p_maxi : Z }.

Section Poll.
Context (listenfd : Z).

(** Before the first poll() the [revents] fields hold what was on the stack. *)
Definition poll_init (junk : list bool) : poll_server := PollServer (map (fun b => (-1, b)) junk) 0.

(** poll() on the first [k] clients; an entry with a negative descriptor gets 0. *)
Fixpoint poll (k : nat) (ready : gset Z) (l : list (Z * bool)) : list (Z * bool) :=
  match k, l with
  | S k', (fd, _) :: l' => (fd, (0 <=? fd) && bool_decide (fd ∈ ready)) :: poll k' ready l'
  | _, _ => l
  end.

Fixpoint poll_serve (k : nat) (nready : Z) (sv : Z -> handled) (l : list (Z * bool))
  : outcome (list (Z * bool) * list event) :=
  match k, l with
  | O, _ => Ret (l, [])
  | S _, [] => Abort
  | S k', (c, rev) :: l' =>
      let go (nready' : Z) (c' : Z) (ev : list event) :=
        match poll_serve k' nready' sv l' with
        | Ret (l2, ev2) => Ret ((c', rev) :: l2, ev ++ ev2)
        | o => o
        end in
      let served (c' : Z) (ev : list event) :=
        if nready - 1 <=? 0 then Ret ((c', rev) :: l', ev) else go (nready - 1) c' ev in
      if c <? 0 then go nready c []
      else if rev then
        match sv c with
        | HEof => served (-1) [Closed c]
        | HEcho l => served c [Echoed c l]
        | HFailed e => if bool_decide (e = ECONNRESET) then served (-1) [Closed c] else Exit 1
        | HQuits => Exit 1
        | HWaits => Blocked
        end
      else go nready c []
  end.

Definition poll_serve_round (nready : Z) (sv : Z -> handled) (p : poll_server) (ev : list event)
  : outcome (poll_server * list event) :=
  match poll_serve (Z.to_nat (p_maxi p)) nready sv (slots p) with
  | Ret (l, ev') => Ret (PollServer l (p_maxi p), ev ++ ev')
  | Fail e => Fail e | Exit c => Exit c | Abort => Abort | Blocked => Blocked
  end.

Definition poll_round (p0 : poll_server) (a : answers) : outcome (poll_server * list event) :=
  match a_select a with
  | inr _ => Exit 1
  | inl ready =>
      let nready := Z.of_nat (size ready) in
      let p := PollServer (poll (Z.to_nat (p_maxi p0)) ready (slots p0)) (p_maxi p0) in
      if bool_decide (listenfd ∈ ready) then
        match a_accept a with
        | inr _ => Exit 1
        | inl connfd =>
            match index_of (fun c => c <? 0) (map fst (slots p)) with
            | None => Exit 1
            | Some i =>
                let rev := match slots p !! i with Some (_, r) => r | None => false end in
                let p' := PollServer (<[i := (connfd, rev)]> (slots p))
                  (if Z.of_nat i + 1 >? p_maxi p then Z.of_nat i + 1 else p_maxi p) in
                if nready - 1 <=? 0 then Ret (p', [Accepted connfd])
                else poll_serve_round (nready - 1) (unp_echo a) p' [Accepted connfd]
            end
        end
      else poll_serve_round nready (unp_echo a) p []
  end.
End Poll.

(** A sequence of rounds. *)
Fixpoint run {S} (step : S -> answers -> outcome (S * list event)) (s : S) (l : list answers)
  : outcome (S * list event) :=
  match l with
  | [] => Ret (s, [])
  | a :: l' =>
      match step s a with
      | Ret (s1, ev1) =>
          match run step s1 l' with
          | Ret (s2, ev2) => Ret (s2, ev1 ++ ev2)
          | o => o
          end
      | o => o
      end
  end.

(** ** What one pass over the clients does *)

Definition ready_client (readSet : gset Z) (c : Z) : bool := negb (c =? -1) && bool_decide (c ∈ readSet).
Definition at_eof (r : handled) : bool := match r with HEof => true | _ => false end.
Definition after (readSet : gset Z) (sv : Z -> handled) (c : Z) : Z :=
  if ready_client readSet c && at_eof (sv c) then -1 else c.
Definition events_of (readSet : gset Z) (sv : Z -> handled) (c : Z) : list event :=
  if ready_client readSet c then
    match sv c with
    | HEof => [Closed c] | HEcho l => [Echoed c l] | HFailed _ => [ReadFailed c] | HQuits | HWaits => []
    end
  else [].
Definition closed_set (readSet : gset Z) (sv : Z -> handled) (cl : list Z) : gset Z :=
  list_to_set (filter (fun c => ready_client readSet c && at_eof (sv c) = true) cl).

(** No call on a ready client blocks, or ends the process. *)
Definition no_wait (readSet : gset Z) (sv : Z -> handled) (cl : list Z) : Prop :=
  Forall (fun c => ready_client readSet c = true -> sv c <> HWaits /\ sv c <> HQuits) cl.

Lemma serve_spec readSet sv cl all :
  no_wait readSet sv cl ->
  serve readSet sv cl all =
    Ret (map (after readSet sv) cl, all ∖ closed_set readSet sv cl, concat (map (events_of readSet sv) cl)).
Proof.
  intros H. revert all. induction H as [|c cl Hc H IH]; intros all.
  { unfold closed_set. simpl. by rewrite difference_empty_L. }
  cbn [serve map concat]. unfold closed_set, after, events_of, ready_client in *. rewrite filter_cons.
  destruct (c =? -1); cbn [negb andb] in *; [rewrite IH, decide_False by done; done|].
  case_bool_decide; cbn [andb] in *; [|rewrite IH, decide_False by done; done].
  destruct (sv c) as [|l|e| |] eqn:E; cbn [at_eof]; [..|by destruct (Hc eq_refl)|by destruct (Hc eq_refl)].
  - rewrite IH, decide_True by done. by rewrite list_to_set_cons, difference_difference_l_L.
  - rewrite IH, decide_False by done. done.
  - rewrite IH, decide_False by done. done.
Qed.

(** A pass over clients none of which is ready. *)
Lemma serve_idle readSet sv cl all :
  cnt (ready_client readSet) cl = 0 -> serve readSet sv cl all = Ret (cl, all, []).
Proof.
  intros H. assert (Hf : Forall (fun c => ready_client readSet c = false) cl).
  { apply Forall_lookup. intros i c Hi. by eapply cnt_zero. }
  rewrite serve_spec by (eapply Forall_impl; [exact Hf|]; simpl; congruence).
  clear H. revert all. induction Hf as [|c cl Hc Hf IH]; intros all; [unfold closed_set; simpl; by rewrite difference_empty_L|].
  specialize (IH all). injection IH as E1 E2 E3. cbn [map concat]. unfold closed_set, after, events_of in *.
  rewrite filter_cons, Hc. cbn [andb]. rewrite decide_False by done.
  by rewrite E1, E2, E3.
Qed.

Definition valid_fd (c : Z) : Prop := c = -1 \/ 0 <= c.

Lemma neg_valid c : valid_fd c -> (c <? 0) = (c =? -1).
Proof. intros [->|H]; [done|]. rewrite (proj2 (Z.ltb_ge _ _)), (proj2 (Z.eqb_neq _ _)) by lia. done. Qed.

(** No read() on a ready client fails. *)
Definition no_error (readSet : gset Z) (sv : Z -> handled) (cl : list Z) : Prop :=
  Forall (fun c => ready_client readSet c = true -> forall e, sv c <> HFailed e) cl.

Lemma free_idle readSet cl : Forall (fun c => c = -1) cl -> cnt (ready_client readSet) cl = 0.
Proof. induction 1 as [|c cl -> _ IH]; [done|]. by rewrite cnt_cons, IH. Qed.

(** Two ways to handle a client that do the same for every ready one. *)
Definition same (readSet : gset Z) (sv sv' : Z -> handled) (cl : list Z) : Prop :=
  Forall (fun c => ready_client readSet c = true -> sv' c = sv c) cl.

(** Stopping at the highest index in use and counting the ready descriptors down
    changes nothing. *)
Lemma unp_serve_eq readSet sv sv' k nready cl all :
  same readSet sv sv' cl ->
  Forall valid_fd cl -> (k <= length cl)%nat -> Forall (fun c => c = -1) (drop k cl) ->
  no_wait readSet sv cl -> no_error readSet sv cl -> nready = cnt (ready_client readSet) cl ->
  unp_serve k nready readSet sv' cl all = serve readSet sv cl all.
Proof.
  revert nready cl all. induction k as [|k IH]; intros nready cl all Hsv Hv Hk Hd Hw He Hn.
  { cbn. symmetry. by apply serve_idle, free_idle. }
  destruct cl as [|c cl]; [simpl in Hk; lia|]. cbn in Hk, Hd.
  apply Forall_cons in Hsv as [Hsc Hsv], Hv as [Hc Hv], Hw as [Hwc Hw], He as [Hec He]. rewrite cnt_cons in Hn.
  cbn [unp_serve serve]. rewrite neg_valid by done. unfold ready_client at 1 in Hn.
  unfold ready_client in Hwc, Hec, Hsc.
  assert (Hgo : forall m all', m = cnt (ready_client readSet) cl ->
    unp_serve k m readSet sv' cl all' = serve readSet sv cl all') by (intros; apply IH; done || lia).
  destruct (c =? -1); cbn [negb andb b2z] in *; [by rewrite Hgo by lia|].
  case_bool_decide; cbn [b2z] in *; [|by rewrite Hgo by lia].
  assert (Hserved : forall c' all' ev,
    (if nready - 1 <=? 0 then Ret (c' :: cl, all', ev)
     else match unp_serve k (nready - 1) readSet sv' cl all' with
          | Ret (cl2, all2, ev2) => Ret (c' :: cl2, all2, ev ++ ev2) | o => o end) =
    match serve readSet sv cl all' with
    | Ret (cl2, all2, ev2) => Ret (c' :: cl2, all2, ev ++ ev2) | o => o end).
  { intros c' all' ev. pose proof (cnt_nonneg (ready_client readSet) cl).
    destruct (Z.leb_spec (nready - 1) 0); [|by rewrite Hgo by lia].
    rewrite serve_idle by lia. by rewrite app_nil_r. }
  rewrite Hsc by done. destruct (sv c) as [|l|e| |] eqn:E; try apply Hserved; [by destruct (Hec eq_refl e)|done..].
Qed.

(** The same for poll(): [revents] tells whether a client is ready, for every entry
    from which on some client is ready. *)
Definition polled (readSet : gset Z) (x : Z * bool) : Prop :=
  0 <= x.1 -> x.2 = bool_decide (x.1 ∈ readSet).
Definition polled_until (readSet : gset Z) (l : list (Z * bool)) : Prop :=
  forall j x, l !! j = Some x -> 0 < cnt (ready_client readSet) (map fst (drop j l)) -> polled readSet x.

Lemma zip_fst_snd {A B} (l : list (A * B)) : zip (map fst l) (map snd l) = l.
Proof. induction l as [|[??] l IH]; simpl; [done|]. by rewrite IH. Qed.

Lemma poll_serve_eq readSet sv sv' k nready l all cl2 all2 ev :
  same readSet sv sv' (map fst l) ->
  Forall valid_fd (map fst l) -> (k <= length l)%nat -> Forall (fun c => c = -1) (map fst (drop k l)) ->
  polled_until readSet l ->
  no_wait readSet sv (map fst l) -> no_error readSet sv (map fst l) ->
  nready = cnt (ready_client readSet) (map fst l) -> 0 < nready ->
  serve readSet sv (map fst l) all = Ret (cl2, all2, ev) ->
  poll_serve k nready sv' l = Ret (zip cl2 (map snd l), ev).
Proof.
  revert nready l all cl2 all2 ev.
  induction k as [|k IH]; intros nready l all cl2 all2 ev Hsv Hv Hk Hd Hp Hw He Hn Hpos Hs.
  { rewrite drop_0 in Hd. apply (free_idle readSet) in Hd. congruence || (rewrite Hn in Hpos; rewrite Hd in Hpos; lia). }
  destruct l as [|[c rev] l]; [simpl in Hk; lia|]. cbn in Hk, Hd.
  pose proof (Hp 0%nat (c, rev) eq_refl ltac:(rewrite drop_0, <- Hn; exact Hpos)) as Hpc.
  assert (Hpt : polled_until readSet l) by (intros j x Hj Hcnt; by apply (Hp (S j) x)). clear Hp.
  cbn [map fst snd] in *.
  apply Forall_cons in Hsv as [Hsc Hsv], Hv as [Hc Hv], Hw as [Hwc Hw], He as [Hec He]. rewrite cnt_cons in Hn.
  cbn [poll_serve serve] in *. rewrite neg_valid by done. unfold ready_client at 1 in Hn.
  unfold ready_client in Hwc, Hec, Hsc. unfold polled in Hpc. cbn [fst snd] in Hpc.
  assert (Hgo : forall m c' ev0 all', m = cnt (ready_client readSet) (map fst l) -> 0 < m ->
    match serve readSet sv (map fst l) all' with
    | Ret (cl2, all2, ev2) => Ret (c' :: cl2, all2, ev0 ++ ev2) | o => o end = Ret (cl2, all2, ev) ->
    match poll_serve k m sv' l with
    | Ret (l2, ev2) => Ret ((c', rev) :: l2, ev0 ++ ev2) | o => o end = Ret (zip cl2 (rev :: map snd l), ev)).
  { intros m c' ev0 all' Hm Hm0 E.
    destruct (serve readSet sv (map fst l) all') as [[[cl3 all3] ev3]|?|?| |] eqn:E3; try done.
    injection E as <- <- <-. rewrite (IH m l all' cl3 all3 ev3) by (done || lia). done. }
  destruct (Z.eqb_spec c (-1)) as [->|Hne]; cbn [negb andb b2z] in *; [apply (Hgo nready (-1) [] all); [lia|lia|done]|].
  rewrite (Hpc ltac:(destruct Hc; lia)) in *. clear Hpc rev.
  case_bool_decide; cbn [b2z] in *; [|apply (Hgo nready c [] all); [lia|lia|done]].
  assert (Hserved : forall c' all' ev0,
    match serve readSet sv (map fst l) all' with
    | Ret (cl2, all2, ev2) => Ret (c' :: cl2, all2, ev0 ++ ev2) | o => o end = Ret (cl2, all2, ev) ->
    (if nready - 1 <=? 0 then Ret ((c', true) :: l, ev0)
     else match poll_serve k (nready - 1) sv' l with
          | Ret (l2, ev2) => Ret ((c', true) :: l2, ev0 ++ ev2) | o => o end) = Ret (zip cl2 (true :: map snd l), ev)).
  { intros c' all' ev0 E. pose proof (cnt_nonneg (ready_client readSet) (map fst l)).
    destruct (Z.leb_spec (nready - 1) 0); [|apply (Hgo _ _ _ all'); [lia|lia|done]].
    rewrite serve_idle in E by lia. rewrite app_nil_r in E. simplify_eq/=. by rewrite zip_fst_snd. }
  rewrite Hsc by done. destruct (sv c) as [|bs|e| |] eqn:E; try (by eapply Hserved); [by destruct (Hec eq_refl e)|done..].
Qed.

(** ** The invariant of the table *)

Definition live (cl : list Z) : list Z := filter (fun c => c <> -1) cl.

Record inv (N : nat) (lfd : Z) (s : server) : Prop := {
  inv_len : length (client s) = N;
  inv_valid : Forall valid_fd (client s);
  inv_nodup : NoDup (live (client s));
  inv_set : allSet s = {[lfd]} ∪ list_to_set (live (client s));
  inv_lfd : 0 <= lfd /\ lfd ∉ live (client s);
  inv_max : forall fd, fd ∈ allSet s -> fd <= maxfd s /\ fd < FD_SETSIZE }.

Lemma live_app l1 l2 : live (l1 ++ l2) = live l1 ++ live l2.
Proof. apply filter_app. Qed.

Lemma live_free l : Forall (fun c => c = -1) l -> live l = [].
Proof. induction 1 as [|c l -> _ IH]; [done|]. unfold live in *. by rewrite filter_cons, decide_False by auto. Qed.

Lemma inv_init N lfd : 0 <= lfd < FD_SETSIZE -> inv N lfd (init N lfd).
Proof.
  intros H. assert (E : live (replicate N (-1)) = []) by (apply live_free, Forall_replicate; done).
  split; simpl; rewrite ?E; simpl.
  - apply length_replicate.
  - apply Forall_replicate. by left.
  - constructor.
  - set_solver.
  - split; [lia|set_solver].
  - intros fd ->%elem_of_singleton. lia.
Qed.

Lemma index_of_Some p l i : index_of p l = Some i ->
  exists l1 c l2, l = l1 ++ c :: l2 /\ length l1 = i /\ p c = true.
Proof.
  revert i. induction l as [|c l IH]; intros i H; simplify_eq/=.
  destruct (p c) eqn:E; simplify_eq; [by exists [], c, l|].
  apply fmap_Some in H as (j & Hj & ->). destruct (IH j Hj) as (l1 & c' & l2 & -> & <- & Hp).
  by exists (c :: l1), c', l2.
Qed.

Lemma index_of_ext p q l : Forall (fun c => p c = q c) l -> index_of p l = index_of q l.
Proof. induction 1 as [|c l Hc _ IH]; [done|]. simpl. by rewrite Hc, IH. Qed.

Lemma index_of_elem p l c : c ∈ l -> p c = true -> exists i, index_of p l = Some i.
Proof.
  induction l as [|x l IH]; intros H Hp; [by apply not_elem_of_nil in H|]. simpl.
  destruct (p x) eqn:E; [by eexists|].
  apply elem_of_cons in H as [->|H]; [congruence|]. destruct (IH H Hp) as [i ->]. by eexists.
Qed.

Lemma index_of_free l : Forall valid_fd l -> index_of (fun c => c <? 0) l = index_of (Z.eqb (-1)) l.
Proof.
  intros H. apply index_of_ext. eapply Forall_impl; [exact H|]. intros c Hc. simpl.
  by rewrite neg_valid, Z.eqb_sym.
Qed.

(** A new client in a free place. *)
Definition placed (fd : Z) (i : nat) (s : server) : server :=
  Server (<[i := fd]> (client s)) ({[fd]} ∪ allSet s) (if fd >? maxfd s then fd else maxfd s).

Lemma live_insert l1 l2 fd : fd <> -1 -> live (l1 ++ fd :: l2) ≡ₚ fd :: live (l1 ++ -1 :: l2).
Proof.
  intros H. rewrite !live_app. unfold live. rewrite !filter_cons.
  rewrite decide_True, decide_False by (done || auto). symmetry. apply Permutation_middle.
Qed.

Lemma inv_place N lfd s i fd :
  inv N lfd s -> index_of (Z.eqb (-1)) (client s) = Some i ->
  0 <= fd < FD_SETSIZE -> fd ∉ allSet s -> inv N lfd (placed fd i s).
Proof.
  intros [Hl Hv Hn Hs Hf Hm] Hi Hr Hni.
  destruct (index_of_Some _ _ _ Hi) as (l1 & c & l2 & E & <- & Hc). bprop. subst c.
  assert (Ei : <[length l1 := fd]> (client s) = l1 ++ fd :: l2) by (rewrite E; apply insert_app_mid).
  assert (Hp : live (l1 ++ fd :: l2) ≡ₚ fd :: live (client s)) by (rewrite E; apply live_insert; lia).
  assert (Hset : ({[fd]} ∪ allSet s : gset Z) = {[lfd]} ∪ list_to_set (live (l1 ++ fd :: l2))).
  { rewrite (list_to_set_perm_L _ _ Hp), Hs. simpl. set_solver. }
  split; unfold placed; simpl; rewrite ?Ei.
  - rewrite <- Hl, E, !length_app. done.
  - rewrite E in Hv. apply Forall_app in Hv as [Hv1 Hv2]. apply Forall_cons in Hv2 as [_ Hv2].
    apply Forall_app. split; [done|]. constructor; [right; lia|done].
  - rewrite Hp. constructor; [|done]. rewrite Hs in Hni. set_solver.
  - done.
  - split; [apply Hf|]. rewrite Hp. rewrite Hs in Hni. set_solver.
  - intros x Hx. apply elem_of_union in Hx as [->%elem_of_singleton|Hx].
    + case_match; bprop; lia.
    + specialize (Hm x Hx). case_match; bprop; lia.
Qed.

(** A pass over the clients. *)
Definition passed (readSet : gset Z) (sv : Z -> handled) (s : server) : server :=
  Server (map (after readSet sv) (client s)) (allSet s ∖ closed_set readSet sv (client s)) (maxfd s).
Definition pass_events (readSet : gset Z) (sv : Z -> handled) (s : server) : list event :=
  concat (map (events_of readSet sv) (client s)).

Definition closing (readSet : gset Z) (sv : Z -> handled) (c : Z) : bool :=
  ready_client readSet c && at_eof (sv c).

Lemma live_after readSet sv cl :
  live (map (after readSet sv) cl) = filter (fun c => closing readSet sv c = false) (live cl).
Proof.
  unfold live. induction cl as [|c cl IH]; [done|]. cbn [map]. unfold after at 1.
  fold (closing readSet sv c). rewrite !filter_cons.
  destruct (decide (c <> -1)) as [Hc|Hc].
  - rewrite filter_cons. destruct (closing readSet sv c) eqn:E.
    + by rewrite !decide_False by auto.
    + by rewrite !decide_True, IH by auto.
  - assert (c = -1) as -> by (by apply dec_stable in Hc).
    destruct (closing readSet sv (-1)); rewrite decide_False by auto; done.
Qed.

Lemma inv_pass N lfd s readSet sv : inv N lfd s -> inv N lfd (passed readSet sv s).
Proof.
  intros [Hl Hv Hn Hs Hf Hm].
  split; unfold passed; simpl; rewrite ?live_after.
  - by rewrite length_map.
  - apply Forall_map. eapply Forall_impl; [exact Hv|]. intros c Hc. unfold after. simpl.
    case_match; [by left|done].
  - by apply NoDup_filter.
  - rewrite Hs. unfold closed_set. fold (closing readSet sv).
    apply set_eq. intros x. rewrite elem_of_difference, !elem_of_union, !elem_of_list_to_set,
      elem_of_singleton, !list_elem_of_filter. unfold live. rewrite list_elem_of_filter.
    split.
    + intros [[->|[Hx1 Hx2]] Hni]; [by left|]. right. split_and!; [|done|done].
      destruct (closing readSet sv x) eqn:E; [|done]. destruct Hni. split; [exact E|done].
    + intros [->|(E & Hx1 & Hx2)].
      * split; [by left|]. intros [Hc Hx]. destruct Hf as [Hf0 Hf]. apply Hf. unfold live.
        apply list_elem_of_filter. split; [lia|done].
      * split; [by right|]. intros [Hc _]. unfold closing in E. congruence.
  - split; [apply Hf|]. rewrite list_elem_of_filter. intros [_ H]. by apply Hf.
  - intros x Hx. apply Hm. set_solver.
Qed.

(** The number of ready clients, from the number that select() returns. *)
Lemma cnt_filter (p : Z -> bool) l : cnt p l = Z.of_nat (length (filter (fun c => p c = true) l)).
Proof.
  induction l as [|c l IH]; [done|]. rewrite cnt_cons, IH, filter_cons.
  destruct (p c); [rewrite decide_True by done|rewrite decide_False by done]; simpl length; simpl b2z; lia.
Qed.

Lemma ready_count N lfd s (rset : gset Z) :
  inv N lfd s -> rset ⊆ allSet s ->
  Z.of_nat (size rset) = b2z (bool_decide (lfd ∈ rset)) + cnt (ready_client rset) (client s).
Proof.
  intros [Hl Hv Hn Hs Hf Hm] Hr.
  assert (E : filter (fun c => ready_client rset c = true) (client s) = filter (.∈ rset) (live (client s))).
  { unfold live. clear. induction (client s) as [|c cl IH]; [done|]. rewrite !filter_cons.
    change (ready_client rset c) with (negb (c =? -1) && bool_decide (c ∈ rset)).
    destruct (Z.eqb_spec c (-1)) as [->|Hc].
    - by rewrite !decide_False by auto.
    - cbn [negb andb]. rewrite (decide_True (P := c <> -1)) by done. rewrite filter_cons.
      case_bool_decide as Hin; cbn [andb].
      + rewrite (decide_True (P := true = true)) by done. rewrite (decide_True (P := c ∈ rset)) by done.
        by rewrite IH.
      + rewrite (decide_False (P := false = true)) by done. rewrite (decide_False (P := c ∈ rset)) by done.
        exact IH. }
  rewrite cnt_filter, E.
  assert (Hsz : size (rset ∖ {[lfd]}) = length (filter (.∈ rset) (live (client s)))).
  { rewrite <- (size_list_to_set (C := gset Z)) by (by apply NoDup_filter). f_equal.
    apply set_eq. intros x. rewrite elem_of_list_to_set, list_elem_of_filter, elem_of_difference, elem_of_singleton.
    rewrite Hs in Hr. split; [|intros [? ?]; split; [done|intros ->; by apply Hf]].
    intros [Hx Hne]. split; [done|]. specialize (Hr x Hx). set_solver. }
  rewrite <- Hsz. case_bool_decide as Hin; simpl b2z.
  - rewrite size_difference by set_solver. rewrite size_singleton.
    assert (size rset <> 0%nat); [|lia]. intros Hz%size_empty_inv. set_solver.
  - assert (rset ∖ {[lfd]} = rset) as Hd.
    { apply set_eq. intros x. rewrite elem_of_difference, elem_of_singleton. naive_solver. }
    by rewrite Hd.
Qed.

(** ** One round of the author's server *)

Lemma serve_no_wait readSet sv cl all r : serve readSet sv cl all = Ret r -> no_wait readSet sv cl.
Proof.
  revert all r. induction cl as [|c cl IH]; intros all r H; [constructor|]. cbn [serve] in H.
  assert (Hgo : forall c' all' ev,
    match serve readSet sv cl all' with
    | Ret (cl2, all2, ev2) => Ret (c' :: cl2, all2, ev ++ ev2) | o => o end = Ret r -> no_wait readSet sv cl).
  { intros c' all' ev E. destruct (serve readSet sv cl all') as [[[??]?]|?|?| |] eqn:E1; try done.
    by eapply IH. }
  enough (no_wait readSet sv cl /\ (ready_client readSet c = true -> sv c <> HWaits /\ sv c <> HQuits)) by (constructor; tauto).
  unfold ready_client. destruct (c =? -1); [split; [by eapply Hgo|done]|].
  case_bool_decide; [|split; [by eapply Hgo|done]].
  destruct (sv c); try done; (split; [by eapply Hgo|done]).
Qed.

Section Round.
Context (N : nat) (lfd : Z).
Implicit Types (s : server) (a : answers) (readSet : gset Z).

Lemma serve_round_spec readSet sv s ev :
  no_wait readSet sv (client s) ->
  serve_round readSet sv s ev = Ret (passed readSet sv s, ev ++ pass_events readSet sv s).
Proof. intros H. unfold serve_round. by rewrite serve_spec. Qed.

(** A descriptor that is not in the set is not served in this round. *)
Lemma not_ready readSet fd : fd ∉ readSet -> ready_client readSet fd = false.
Proof. intros H. unfold ready_client. rewrite bool_decide_eq_false_2 by done. by rewrite andb_false_r. Qed.

Lemma placed_split s i fd : index_of (Z.eqb (-1)) (client s) = Some i ->
  exists l1 l2, client s = l1 ++ -1 :: l2 /\ client (placed fd i s) = l1 ++ fd :: l2 /\ length l1 = i.
Proof.
  intros Hi. destruct (index_of_Some _ _ _ Hi) as (l1 & c & l2 & E & <- & Hc). bprop. subst c.
  exists l1, l2. unfold placed. simpl. rewrite E. by rewrite insert_app_mid.
Qed.

Lemma forall_placed (P : Z -> Prop) s i fd :
  index_of (Z.eqb (-1)) (client s) = Some i -> P fd -> Forall P (client s) -> Forall P (client (placed fd i s)).
Proof.
  intros Hi Hf H. destruct (placed_split s i fd Hi) as (l1 & l2 & E & -> & _). rewrite E in H.
  apply Forall_app in H as [H1 H2]. apply Forall_cons in H2 as [_ H2]. apply Forall_app. by split; [|constructor].
Qed.

Lemma no_wait_placed readSet sv s i fd :
  index_of (Z.eqb (-1)) (client s) = Some i -> fd ∉ readSet ->
  no_wait readSet sv (client s) -> no_wait readSet sv (client (placed fd i s)).
Proof. intros Hi Hf. apply forall_placed; [done|]. by rewrite not_ready. Qed.

Lemma no_error_placed readSet sv s i fd :
  index_of (Z.eqb (-1)) (client s) = Some i -> fd ∉ readSet ->
  no_error readSet sv (client s) -> no_error readSet sv (client (placed fd i s)).
Proof. intros Hi Hf. apply forall_placed; [done|]. by rewrite not_ready. Qed.

Lemma pass_events_placed readSet sv s i fd :
  index_of (Z.eqb (-1)) (client s) = Some i -> fd ∉ readSet ->
  pass_events readSet sv (placed fd i s) = pass_events readSet sv s.
Proof.
  intros Hi Hf. unfold pass_events.
  destruct (placed_split s i fd Hi) as (l1 & l2 & E & -> & _). rewrite E, !map_app, !concat_app. cbn [map concat].
  unfold events_of at 2 5. by rewrite not_ready.
Qed.

Lemma FD_SET_ok fd X : 0 <= fd < FD_SETSIZE -> FD_SET fd X = Some ({[fd]} ∪ X).
Proof.
  intros H. unfold FD_SET. by rewrite (proj2 (Z.leb_le _ _)), (proj2 (Z.ltb_lt _ _)) by lia.
Qed.

(** What the kernel promises. *)
Definition kernel_ok s a : Prop :=
  (forall readSet, a_select a = inl readSet -> readSet ⊆ allSet s) /\
  (forall fd, a_accept a = inl fd -> 0 <= fd < FD_SETSIZE /\ fd ∉ allSet s).

Lemma free_place s : -1 ∈ client s -> exists i, index_of (Z.eqb (-1)) (client s) = Some i.
Proof. intros H. by eapply index_of_elem. Qed.

Lemma no_place s : -1 ∉ client s -> index_of (Z.eqb (-1)) (client s) = None.
Proof.
  intros H. destruct (index_of _ _) as [i|] eqn:E; [|done].
  destruct (placed_split s i 0 E) as (l1 & l2 & El & _). destruct H. rewrite El. set_solver.
Qed.

Lemma dispatch_data a s readSet :
  lfd ∉ readSet -> no_wait readSet (str_serv a) (client s) ->
  dispatch lfd readSet a s = Ret (passed readSet (str_serv a) s, pass_events readSet (str_serv a) s).
Proof. intros Hl Hw. unfold dispatch. rewrite bool_decide_eq_false_2 by done. by apply serve_round_spec. Qed.

Lemma dispatch_accept a s readSet fd i :
  lfd ∈ readSet -> fd ∉ readSet -> a_accept a = inl fd -> 0 <= fd < FD_SETSIZE ->
  index_of (Z.eqb (-1)) (client s) = Some i -> no_wait readSet (str_serv a) (client s) ->
  dispatch lfd readSet a s =
    Ret (passed readSet (str_serv a) (placed fd i s), Accepted fd :: pass_events readSet (str_serv a) s).
Proof.
  intros Hl Hf Ha Hr Hi Hw. unfold dispatch. rewrite bool_decide_eq_true_2 by done. rewrite Ha, Hi.
  rewrite bool_decide_eq_false_2, FD_SET_ok by done.
  fold (placed fd i s). rewrite serve_round_spec by (by apply no_wait_placed).
  by rewrite pass_events_placed.
Qed.

Definition step s s' : Prop := exists a ev, kernel_ok s a /\ round lfd s a = Ret (s', ev).

Lemma dispatch_inv s a readSet s' ev :
  inv N lfd s -> kernel_ok s a -> readSet ⊆ allSet s -> dispatch lfd readSet a s = Ret (s', ev) -> inv N lfd s'.
Proof.
  intros Hi [_ Hk] Hsub E. unfold dispatch in E.
  assert (Hpass : forall s0 ev0, inv N lfd s0 -> serve_round readSet (str_serv a) s0 ev0 = Ret (s', ev) -> inv N lfd s').
  { intros s0 ev0 H0 E0. destruct (serve readSet (str_serv a) (client s0) (allSet s0)) as [[[??]?]|?|?| |] eqn:Es;
      unfold serve_round in E0; rewrite Es in E0; try done.
    apply serve_no_wait in Es as Hw. rewrite serve_spec in Es by done. simplify_eq. by apply inv_pass. }
  case_bool_decide; [|by eapply Hpass]. case_bool_decide as He; [by simplify_eq|].
  destruct (index_of _ _) as [i|] eqn:Ei; [|by simplify_eq].
  destruct (a_accept a) as [fd|e] eqn:Ea; [|by destruct s].
  destruct (Hk fd eq_refl) as [Hr Hni]. rewrite FD_SET_ok in E by done. fold (placed fd i s) in E.
  eapply Hpass; [|exact E]. by apply inv_place.
Qed.

Lemma reachable_inv_server s : 0 <= lfd < FD_SETSIZE -> reachable (fun s0 => s0 = init N lfd) step s -> inv N lfd s.
Proof.
  intros Hl. apply reachable_inv; [intros ? ->; by apply inv_init|].
  intros s1 s2 Hi (a & ev & Hk & E). unfold round in E.
  destruct (a_select a) as [readSet|e] eqn:Es.
  - eapply dispatch_inv; [done|done| |done]. by apply Hk.
  - case_bool_decide; [by simplify_eq|]. by eapply dispatch_inv.
Qed.
End Round.

(** C21: the author's select() server keeps its table, its descriptor set and its
    maximum consistent in every reachable state: the clients are distinct, the set
    holds exactly them and the listening socket, and no descriptor exceeds the
    maximum.  In a round every ready client is served exactly once, in the order of
    the table, and is sent what its one write() takes of what its read() returned; it
    leaves the table exactly at the end of file; a new client gets the first free place.  With a full table the new
    connection stays open without a place and the ready clients wait.  An accept()
    that fails for another reason than a signal stores descriptor -1 in the set:
    undefined behaviour. *)
Theorem select_server_table MAXCLIENT sockfd s a readSet :
  0 <= sockfd < FD_SETSIZE -> reachable (fun s0 => s0 = init MAXCLIENT sockfd) (step sockfd) s ->
  kernel_ok s a -> a_select a = inl readSet -> no_wait readSet (str_serv a) (client s) ->
  inv MAXCLIENT sockfd s /\
  (sockfd ∉ readSet ->
     round sockfd s a = Ret (passed readSet (str_serv a) s, pass_events readSet (str_serv a) s)) /\
  (sockfd ∈ readSet -> forall fd, a_accept a = inl fd ->
     (-1 ∉ client s -> round sockfd s a = Ret (s, [Refused fd])) /\
     (-1 ∈ client s -> exists i, index_of (Z.eqb (-1)) (client s) = Some i /\
        round sockfd s a =
          Ret (passed readSet (str_serv a) (placed fd i s), Accepted fd :: pass_events readSet (str_serv a) s))) /\
  (sockfd ∈ readSet -> forall e, a_accept a = inr e -> e <> EINTR -> -1 ∈ client s -> round sockfd s a = Abort).
Proof.
  intros Hl Hr Hk Hs Hw. unfold round. rewrite Hs. pose proof (reachable_inv_server _ _ _ Hl Hr) as Hi.
  destruct Hk as [Hk1 Hk2]. specialize (Hk1 readSet Hs). split_and!; [done|..].
  - intros Hn. by apply dispatch_data.
  - intros Hin fd Ha. destruct (Hk2 fd Ha) as [Hf Hni]. split.
    + intros Hno. unfold dispatch. rewrite bool_decide_eq_true_2, Ha, no_place by done.
      by rewrite bool_decide_eq_false_2.
    + intros (i & Ei)%free_place. exists i. split; [done|]. apply dispatch_accept; try done. set_solver.
  - intros Hin e Ha Hne (i & Ei)%free_place. unfold dispatch.
    rewrite bool_decide_eq_true_2, Ha, Ei by done. by rewrite bool_decide_eq_false_2 by congruence.
Qed.

(** ** The three servers agree *)

Section Agree.
Context (N : nat) (lfd : Z).
Implicit Types (s : server) (u : unp_server) (p : poll_server) (a : answers).

(** What there is to read fits in the smaller buffer, and the first write() takes it all. *)
Definition whole a (c : Z) : Prop := forall l, a_read a c = Got l ->
  (length l <= MAXLEN)%nat /\ (l <> [] -> exists n r, a_write a c = Took n :: r /\ (length l <= n)%nat).

Lemma whole_same a c : whole a c -> unp_echo a c = str_serv a c.
Proof.
  unfold whole, unp_echo, str_serv, handle. destruct (a_read a c) as [l|e|]; try done. intros H.
  destruct (H l eq_refl) as [Hl Hw]. unfold MAXLEN, RobustIO.MAXLINE in *. rewrite !take_ge by lia.
  destruct l as [|b l]; [done|]. destruct Hw as (n & r & -> & Hn); [done|]. cbn [length] in Hn.
  unfold writen_all, write_once, Writen, RobustIO.writen, k_write. cbn [RobustIO.answers length RobustIO.writen_loop]. unfold k_write.
  cbn [RobustIO.answers accepted]. rewrite Nat.min_r by (cbn; lia). cbn [length].
  replace (drop (S (length l)) (b :: l)) with (@nil Z) by (symmetry; by apply drop_ge).
  rewrite Nat.min_r by lia. done.
Qed.

Lemma all_same rset a cl : Forall (fun c => ready_client rset c = true -> whole a c) cl -> same rset (str_serv a) (unp_echo a) cl.
Proof. intros H. eapply Forall_impl; [exact H|]. intros c Hc Hr. by apply whole_same, Hc. Qed.

(** What a write() that takes [n] bytes makes of the two. *)
Lemma echo_partial a c bytes n r : a_read a c = Got bytes -> (0 < length bytes <= MAXLEN)%nat -> a_write a c = Took n :: r ->
  str_serv a c = HEcho (take n bytes) /\
  (unp_echo a c = HEcho bytes \/ unp_echo a c = HWaits \/ unp_echo a c = HQuits).
Proof.
  intros Hr Hl Hw. unfold str_serv, unp_echo, handle. rewrite Hr, Hw. unfold MAXLEN, RobustIO.MAXLINE in *. rewrite (take_ge bytes 100), (take_ge bytes 4096) by lia.
  destruct bytes as [|b l]; [cbn in Hl; lia|]. split.
  - unfold write_once, k_write. cbn [RobustIO.answers accepted]. rewrite app_nil_l. f_equal.
    destruct (decide (n <= length (b :: l))%nat); [by rewrite Nat.min_l|]. rewrite Nat.min_r by lia. by rewrite !take_ge by lia.
  - unfold writen_all, Writen, RobustIO.writen. match goal with |- context [RobustIO.writen_loop ?f ?w ?x] => destruct (RobustIO.writen_loop f w x) as [o w'] eqn:E end.
    apply RobustIO.writen_loop_spec in E as (k & Ha & Hk & Ho); [|lia]. cbn [accepted] in Ha. rewrite app_nil_l in Ha.
    destruct o; auto; try done. subst k. left. by rewrite Ha, take_ge by lia.
Qed.

(** The kernel's answers in a round without a failure, a partial write() or a full table. *)
Definition good s a : Prop := exists rset, a_select a = inl rset /\ rset ⊆ allSet s /\ rset <> ∅ /\
  no_wait rset (str_serv a) (client s) /\ no_error rset (str_serv a) (client s) /\
  Forall (fun c => ready_client rset c = true -> whole a c) (client s) /\
  (lfd ∈ rset -> exists fd, a_accept a = inl fd /\ 0 <= fd < FD_SETSIZE /\ fd ∉ allSet s /\ -1 ∈ client s).

Fixpoint good_run s (l : list answers) : Prop :=
  match l with
  | [] => True
  | a :: l' => good s a /\ forall s' ev, round lfd s a = Ret (s', ev) -> good_run s' l'
  end.

Definition unp_sim s u : Prop :=
  base u = s /\ -1 <= maxi u < Z.of_nat N /\
  Forall (fun c => c = -1) (drop (Z.to_nat (maxi u + 1)) (client s)).

Definition poll_sim s p : Prop :=
  map fst (slots p) = client s /\ 0 <= p_maxi p <= Z.of_nat N /\
  Forall (fun x => x.1 = -1) (drop (Z.to_nat (p_maxi p)) (slots p)).

Lemma index_of_bound q l i : index_of q l = Some i -> (i < length l)%nat.
Proof. intros H. destruct (index_of_Some _ _ _ H) as (l1 & c & l2 & -> & <- & _). rewrite length_app. simpl. lia. Qed.

Lemma Forall_drop_mono {A} (P : A -> Prop) (k j : nat) (l : list A) :
  (k <= j)%nat -> Forall P (drop k l) -> Forall P (drop j l).
Proof. intros H HP. replace j with (k + (j - k))%nat by lia. rewrite <- drop_drop. by apply Forall_drop. Qed.

(** What lies beyond the highest index stays free when a place is taken. *)
Lemma drop_insert_ge {A} (l : list A) i x k : (i < k)%nat -> drop k (<[i := x]> l) = drop k l.
Proof. intros H. by rewrite drop_insert_lt. Qed.

Lemma passed_free rset sv s k :
  Forall (fun c => c = -1) (drop k (client s)) -> Forall (fun c => c = -1) (drop k (client (passed rset sv s))).
Proof.
  intros H. simpl. rewrite skipn_map. apply Forall_map. eapply Forall_impl; [exact H|].
  by intros c ->.
Qed.

Lemma unp_pass s u rset sv sv' ev :
  inv N lfd s -> unp_sim s u -> same rset sv sv' (client s) -> no_wait rset sv (client s) -> no_error rset sv (client s) ->
  exists u', unp_serve_round (cnt (ready_client rset) (client s)) rset sv' u ev =
    Ret (u', ev ++ pass_events rset sv s) /\ unp_sim (passed rset sv s) u'.
Proof.
  intros Hi (Hb & Hm & Hd) Hsv Hw He. unfold unp_serve_round. rewrite Hb.
  rewrite (unp_serve_eq rset sv sv'), serve_spec; try done.
  - eexists. split; [done|]. split_and!; [done|simpl; lia..|]. by apply passed_free.
  - apply Hi.
  - rewrite (inv_len _ _ _ Hi). lia.
Qed.

Lemma unp_idle s u rset sv :
  unp_sim s u -> cnt (ready_client rset) (client s) = 0 -> no_wait rset sv (client s) ->
  passed rset sv s = s /\ pass_events rset sv s = [].
Proof.
  intros _ H Hw. pose proof (serve_idle rset sv (client s) (allSet s) H) as E.
  rewrite serve_spec in E by done. injection E as E1 E2 E3. unfold passed, pass_events.
  rewrite E1, E2, E3. by destruct s.
Qed.

Lemma unp_agree s u a s' ev :
  inv N lfd s -> unp_sim s u -> good s a -> round lfd s a = Ret (s', ev) ->
  exists u', unp_round lfd u a = Ret (u', ev) /\ unp_sim s' u'.
Proof.
  intros Hi Hu (rset & Es & Hsub & Hne & Hw & He & Hwh & Hacc) E. unfold round in E. unfold unp_round. rewrite Es in *.
  rewrite (ready_count _ _ _ _ Hi Hsub).
  case_bool_decide as Hin; cbn [b2z].
  - destruct (Hacc Hin) as (fd & Ha & Hr & Hni & Hfree).
    destruct (free_place s Hfree) as [i Ei].
    rewrite (dispatch_accept lfd a s rset fd i) in E by (done || set_solver). simplify_eq.
    rewrite Ha. destruct Hu as (Hb & Hm & Hd). rewrite Hb, index_of_free, Ei, FD_SET_ok by (done || apply Hi).
    fold (placed fd i s). pose proof (index_of_bound _ _ _ Ei) as Hib. rewrite (inv_len _ _ _ Hi) in Hib.
    set (u' := UnpServer (placed fd i s) _).
    assert (Hu' : unp_sim (placed fd i s) u').
    { subst u'. unfold unp_sim. simpl. split_and!; [done|case_match; bprop; lia..|].
      rewrite drop_insert_ge by (case_match; bprop; lia).
      eapply Forall_drop_mono; [|exact Hd]. case_match; bprop; lia. }
    replace (1 + cnt (ready_client rset) (client s) - 1) with (cnt (ready_client rset) (client s)) by lia.
    assert (Hc : cnt (ready_client rset) (client s) = cnt (ready_client rset) (client (placed fd i s))).
    { simpl. destruct (placed_split s i fd Ei) as (l1 & l2 & E1 & _ & E3).
      rewrite (cnt_insert _ _ _ (-1)) by (rewrite E1, <- E3; apply list_lookup_middle; done).
      rewrite (not_ready rset fd) by set_solver. simpl. lia. }
    destruct (Z.leb_spec (cnt (ready_client rset) (client s)) 0).
    + pose proof (cnt_nonneg (ready_client rset) (client s)).
      destruct (unp_idle (placed fd i s) u' rset (str_serv a)) as [-> E2]; [done|lia| |].
      { apply no_wait_placed; [done|set_solver|done]. }
      rewrite pass_events_placed in E2 by (done || set_solver). rewrite E2. by exists u'.
    + rewrite Hc. destruct (unp_pass (placed fd i s) u' rset (str_serv a) (unp_echo a) [Accepted fd]) as (u2 & E2 & Hu2); try done.
      * by apply inv_place.
      * by apply all_same, forall_placed; [done|rewrite not_ready by set_solver|].
      * apply no_wait_placed; [done|set_solver|done].
      * apply no_error_placed; [done|set_solver|done].
      * exists u2. rewrite E2, pass_events_placed by (done || set_solver). done.
  - rewrite dispatch_data in E by done. simplify_eq. simpl.
    destruct (unp_pass s u rset (str_serv a) (unp_echo a) []) as (u2 & E2 & Hu2); try done; [by apply all_same|]. by exists u2.
Qed.

Lemma fst_poll k ready l : map fst (poll k ready l) = map fst l.
Proof. revert l. induction k as [|k IH]; intros [|[fd r] l]; simpl; [done..|]. by rewrite IH. Qed.

Lemma length_poll k ready l : length (poll k ready l) = length l.
Proof. rewrite <- (length_map fst), fst_poll. apply length_map. Qed.

Lemma drop_poll k ready l : drop k (poll k ready l) = drop k l.
Proof. revert l. induction k as [|k IH]; intros [|[fd r] l]; simpl; [done..|]. apply IH. Qed.

(** After poll(): the clients have their results, polled free places have none. *)
Lemma poll_results k ready l j x :
  Forall (fun x => x.1 = -1) (drop k l) -> poll k ready l !! j = Some x ->
  polled ready x /\ ((j < k)%nat -> x.1 = -1 -> x.2 = false).
Proof.
  revert l j. induction k as [|k IH]; intros l j H Hj.
  - replace (poll 0 ready l) with l in Hj by (by destruct l). rewrite drop_0, Forall_lookup in H.
    specialize (H j x Hj). split; [intros ?; lia|lia].
  - destruct l as [|[fd r] l], j as [|j]; simplify_eq/=.
    + split; simpl; [|by intros _ ->]. intros Hfd. simpl in Hfd. by rewrite (proj2 (Z.leb_le _ _)) by done.
    + destruct (IH l j H Hj) as [H1 H2]. split; [done|]. intros ?. apply H2. lia.
Qed.

Lemma poll_pass s p rset sv sv' ev :
  inv N lfd s -> poll_sim s p -> same rset sv sv' (client s) -> polled_until rset (slots p) ->
  0 < cnt (ready_client rset) (client s) -> no_wait rset sv (client s) -> no_error rset sv (client s) ->
  exists p', poll_serve_round (cnt (ready_client rset) (client s)) sv' p ev =
    Ret (p', ev ++ pass_events rset sv s) /\ poll_sim (passed rset sv s) p'.
Proof.
  intros Hi (Hf & Hm & Hd) Hsv Hp Hpos Hw He. unfold poll_serve_round.
  assert (Hlen : length (slots p) = N) by (rewrite <- (length_map fst), Hf; apply Hi).
  assert (Hfree : Forall (fun c => c = -1) (map fst (drop (Z.to_nat (p_maxi p)) (slots p)))).
  { by apply Forall_map. }
  erewrite (poll_serve_eq rset sv sv' _ _ (slots p) (allSet s));
    [|by rewrite Hf|rewrite Hf; apply Hi|rewrite Hlen; lia|done|done|by rewrite Hf|by rewrite Hf|by rewrite Hf|done
     |rewrite Hf; by apply serve_spec].
  eexists. split; [done|]. unfold poll_sim. simpl.
  assert (Hz : length (map (after rset sv) (client s)) = length (map snd (slots p))).
  { rewrite !length_map, Hlen. apply Hi. }
  split_and!; [by apply fst_zip; rewrite Hz|lia..|].
  apply Forall_lookup. intros j [c b] Hj. rewrite lookup_drop in Hj.
  apply lookup_zip_Some in Hj as [Hc Hb].
  rewrite list_lookup_fmap in Hb. apply fmap_Some in Hb as ([fd r] & Hx & ->).
  rewrite Forall_lookup in Hd. specialize (Hd j (fd, r)). rewrite lookup_drop in Hd. specialize (Hd Hx).
  simplify_eq/=. rewrite list_lookup_fmap, <- Hf, list_lookup_fmap, Hx in Hc. by simplify_eq/=.
Qed.

Lemma poll_agree s p a s' ev :
  inv N lfd s -> poll_sim s p -> good s a -> round lfd s a = Ret (s', ev) ->
  exists p', poll_round lfd p a = Ret (p', ev) /\ poll_sim s' p'.
Proof.
  intros Hi (Hf & Hm & Hd) (rset & Es & Hsub & Hne & Hw & He & Hwh & Hacc) E. unfold round in E. unfold poll_round. rewrite Es in *.
  rewrite (ready_count _ _ _ _ Hi Hsub). cbn [slots p_maxi].
  pose proof (fun j x => poll_results _ rset _ j x Hd) as Hres.
  set (l1 := poll (Z.to_nat (p_maxi p)) rset (slots p)) in *.
  assert (Hf1 : map fst l1 = client s) by (subst l1; by rewrite fst_poll).
  assert (Hd1 : Forall (fun x => x.1 = -1) (drop (Z.to_nat (p_maxi p)) l1)) by (subst l1; by rewrite drop_poll).
  case_bool_decide as Hin; cbn [b2z].
  - destruct (Hacc Hin) as (fd & Ha & Hr & Hni & Hfree). destruct (free_place s Hfree) as [i Ei].
    rewrite (dispatch_accept lfd a s rset fd i) in E by (done || set_solver). simplify_eq.
    rewrite Ha, Hf1, index_of_free, Ei by apply Hi.
    pose proof (index_of_bound _ _ _ Ei) as Hib. rewrite (inv_len _ _ _ Hi) in Hib.
    destruct (placed_split s i fd Ei) as (c1 & c2 & E1 & E2 & E3).
    assert (Hl1 : exists r, l1 !! i = Some (-1, r)).
    { assert (Hlk : client s !! i = Some (-1)) by (rewrite E1, <- E3; by apply list_lookup_middle).
      rewrite <- Hf1, list_lookup_fmap in Hlk. apply fmap_Some in Hlk as ([x r] & Hx & ->). by exists r. }
    destruct Hl1 as [r Hl1]. rewrite Hl1.
    set (p' := PollServer (<[i := (fd, r)]> l1) _).
    assert (Hp' : poll_sim (placed fd i s) p').
    { subst p'. unfold poll_sim. cbn [slots p_maxi placed client]. split_and!.
      - rewrite <- Hf1. apply (list_fmap_insert fst).
      - case_match; bprop; lia.
      - case_match; bprop; lia.
      - rewrite drop_insert_ge by (case_match; bprop; lia).
        eapply Forall_drop_mono; [|exact Hd1]. case_match; bprop; lia. }
    assert (Hpp : polled_until rset (slots p')).
    { subst p'. cbn [slots]. intros j x Hj Hcnt.
      destruct (decide (j = i)) as [->|Hij]; [|rewrite list_lookup_insert_ne in Hj by congruence; by apply (Hres j)].
      rewrite list_lookup_insert_eq in Hj by (by eapply lookup_lt_Some). injection Hj as <-.
      destruct (decide (i < Z.to_nat (p_maxi p))%nat) as [Hlt|Hge].
      - intros _. simpl. rewrite bool_decide_eq_false_2 by set_solver. by apply (Hres i (-1, r)).
      - rewrite (drop_S _ (fd, r)) in Hcnt by (apply list_lookup_insert_eq; by eapply lookup_lt_Some).
        cbn [map fst] in Hcnt. rewrite cnt_cons, (not_ready rset fd) in Hcnt by set_solver.
        rewrite drop_insert_ge in Hcnt by lia. rewrite free_idle in Hcnt; [simpl in Hcnt; lia|].
        apply Forall_map. eapply Forall_drop_mono; [|exact Hd1]. lia. }
    assert (Hc : cnt (ready_client rset) (client s) = cnt (ready_client rset) (client (placed fd i s))).
    { simpl. rewrite (cnt_insert _ _ _ (-1)) by (rewrite E1, <- E3; apply list_lookup_middle; done).
      rewrite (not_ready rset fd) by set_solver. simpl. lia. }
    replace (1 + cnt (ready_client rset) (client s) - 1) with (cnt (ready_client rset) (client s)) by lia.
    destruct (Z.leb_spec (cnt (ready_client rset) (client s)) 0).
    + pose proof (cnt_nonneg (ready_client rset) (client s)).
      pose proof (serve_idle rset (str_serv a) (client (placed fd i s)) (allSet (placed fd i s)) ltac:(lia)) as Eidle.
      rewrite serve_spec in Eidle by (apply no_wait_placed; [done|set_solver|done]).
      injection Eidle as F1 F2 F3.
      exists p'. split.
      * rewrite <- (pass_events_placed rset (str_serv a) s i fd) by (done || set_solver).
        unfold pass_events. cbn [placed client]. by rewrite F3.
      * unfold passed. cbn [placed client allSet maxfd] in *. rewrite F1, F2. exact Hp'.
    + rewrite Hc. destruct (poll_pass (placed fd i s) p' rset (str_serv a) (unp_echo a) [Accepted fd]) as (p2 & G2 & Hp2); try done.
      * by apply inv_place.
      * by apply all_same, forall_placed; [done|rewrite not_ready by set_solver|].
      * lia.
      * apply no_wait_placed; [done|set_solver|done].
      * apply no_error_placed; [done|set_solver|done].
      * exists p2. rewrite G2, pass_events_placed by (done || set_solver). done.
  - rewrite dispatch_data in E by done. simplify_eq. simpl.
    destruct (poll_pass s (PollServer l1 (p_maxi p)) rset (str_serv a) (unp_echo a) []) as (p2 & E2 & Hp2); try done.
    + by apply all_same.
    + intros j x Hj _. by apply (Hres j).
    + pose proof (ready_count _ _ _ _ Hi Hsub) as Hsz. rewrite bool_decide_eq_false_2 in Hsz by done.
      cbn [b2z] in Hsz. assert (size rset <> 0%nat) as Hz; [|lia].
      intros Ez%size_empty_iff. by destruct Hne; apply leibniz_equiv.
    + by exists p2.
Qed.

Lemma good_round s a : inv N lfd s -> good s a ->
  exists s' ev, round lfd s a = Ret (s', ev) /\ inv N lfd s'.
Proof.
  intros Hi (rset & Es & Hsub & Hne & Hw & He & Hwh & Hacc). unfold round. rewrite Es.
  destruct (decide (lfd ∈ rset)) as [Hin|Hn].
  - destruct (Hacc Hin) as (fd & Ha & Hr & Hni & Hfree). destruct (free_place s Hfree) as [i Ei].
    rewrite (dispatch_accept lfd a s rset fd i) by (done || set_solver).
    do 2 eexists. split; [done|]. by apply inv_pass, inv_place.
  - rewrite dispatch_data by done. do 2 eexists. split; [done|]. by apply inv_pass.
Qed.

Lemma runs_agree l : forall s u p, inv N lfd s -> unp_sim s u -> poll_sim s p -> good_run s l ->
  exists s' u' p' ev, run (round lfd) s l = Ret (s', ev) /\ run (unp_round lfd) u l = Ret (u', ev) /\
    run (poll_round lfd) p l = Ret (p', ev) /\ unp_sim s' u' /\ poll_sim s' p'.
Proof.
  induction l as [|a l IH]; intros s u p Hi Hu Hp Hg.
  { exists s, u, p, []. done. }
  destruct Hg as [Ha Hg]. destruct (good_round s a Hi Ha) as (s1 & ev1 & E1 & Hi1).
  destruct (unp_agree s u a s1 ev1 Hi Hu Ha E1) as (u1 & Eu & Hu1).
  destruct (poll_agree s p a s1 ev1 Hi Hp Ha E1) as (p1 & Ep & Hp1).
  destruct (IH s1 u1 p1 Hi1 Hu1 Hp1 (Hg _ _ E1)) as (s2 & u2 & p2 & ev2 & F1 & F2 & F3 & Hu2 & Hp2).
  exists s2, u2, p2, (ev1 ++ ev2). simpl. by rewrite E1, Eu, Ep, F1, F2, F3.
Qed.
End Agree.

(** C23: the author's full scan, the book's select() server (which stops at the highest
    index in use and counts the ready descriptors down) and its poll() server, with
    tables of the same size.  In a run in which no call fails or is interrupted, the
    table is not full, at most MAXLEN bytes are there to be read and the first write()
    takes all it is given, the three do the same in every round and end with the same
    clients; for poll() whatever the [revents] fields of the array hold before the
    first call.  When a write() takes less, the author's server has lost the rest, and
    the book's has sent all, waits, or ends. *)
Theorem servers_agree size_ listenfd junk l :
  length junk = size_ -> 0 <= listenfd < FD_SETSIZE -> good_run listenfd (init size_ listenfd) l ->
  (exists s u p ev,
    run (round listenfd) (init size_ listenfd) l = Ret (s, ev) /\
    run (unp_round listenfd) (unp_init size_ listenfd) l = Ret (u, ev) /\ base u = s /\
    run (poll_round listenfd) (poll_init junk) l = Ret (p, ev) /\
    map fst (slots p) = client s) /\
  (forall a c bytes n r, a_read a c = Got bytes -> (0 < length bytes <= MAXLEN)%nat -> a_write a c = Took n :: r ->
     str_serv a c = HEcho (take n bytes) /\
     (unp_echo a c = HEcho bytes \/ unp_echo a c = HWaits \/ unp_echo a c = HQuits)).
Proof.
  intros Hj Hl Hg. split; [|by apply echo_partial].
  destruct (runs_agree size_ listenfd l (init size_ listenfd) (unp_init size_ listenfd)
    (poll_init junk)) as (s & u & p & ev & E1 & E2 & E3 & Hu & Hp).
  - by apply inv_init.
  - split_and!; simpl; [done|lia..|]. rewrite drop_0. by apply Forall_replicate.
  - unfold poll_sim. simpl. split_and!; [|lia..|].
    + rewrite map_map. subst size_. clear. induction junk; simpl; [done|]. by f_equal.
    + rewrite drop_0. apply Forall_map, Forall_true. done.
  - done.
  - exists s, u, p, ev. destruct Hu as (<- & _), Hp as (Hp & _). done.
Qed.

(** ** Concrete rounds *)

Definition ex_read (r5 r6 : read_result) (fd : Z) : read_result :=
  if fd =? 5 then r5 else if fd =? 6 then r6 else RWait.
(** A connection; then another one together with data of the first; then data of
    both, the first at its end. *)
Definition ex_write (fd : Z) : list answer := [Took 100].
Definition ex_rounds : list answers :=
  [Answers (inl {[4]}) (inl 5) (ex_read RWait RWait) ex_write;
   Answers (inl {[4; 5]}) (inl 6) (ex_read (Got [104; 105]) RWait) ex_write;
   Answers (inl {[5; 6]}) (inr EAGAIN) (ex_read (Got []) (Got [33])) ex_write].

Lemma select_server_table_witness :
  round 4 (init 2 4) (Answers (inl {[4]}) (inl 5) (ex_read RWait RWait) ex_write) =
    Ret (Server [5; -1] {[4; 5]} 5, [Accepted 5]) /\
  round 4 (init 2 4) (Answers (inl {[4]}) (inr (Eother 24)) (ex_read RWait RWait) ex_write) = Abort.
Proof.
  assert (Hi : reachable (fun s0 => s0 = init 2 4) (step 4) (init 2 4)) by (by apply reach_init).
  assert (Hw : forall sv, no_wait {[4]} sv (client (init 2 4))) by (intros sv; repeat constructor; done).
  assert (Hk : forall r, r = inl 5 \/ r = inr (Eother 24) ->
    kernel_ok (init 2 4) (Answers (inl {[4]}) r (ex_read RWait RWait) ex_write)).
  { intros r Hr. split; [by intros ? [= <-]|]. intros fd Ha. simpl in Ha.
    destruct Hr as [->| ->]; [|done]. injection Ha as <-. split; [done|set_solver]. }
  assert (Hl : 0 <= 4 < FD_SETSIZE) by done.
  pose proof (fun r Hr => select_server_table 2 4 (init 2 4) _ {[4]} Hl Hi (Hk r Hr) eq_refl (Hw _)) as H.
  split.
  - destruct (H (inl 5) (or_introl eq_refl)) as (_ & _ & H' & _).
    destruct (H' ltac:(set_solver) 5 eq_refl) as [_ H2].
    destruct (H2 ltac:(simpl; set_solver)) as (i & Hi' & E). injection Hi' as <-. rewrite E.
    vm_compute. reflexivity.
  - destruct (H (inr (Eother 24)) (or_intror eq_refl)) as (_ & _ & _ & H').
    apply (H' ltac:(set_solver) (Eother 24)); [done|done|simpl; set_solver].
Defined.

Lemma ex_whole x y r5 r6 c : Forall (fun r => match r with Got l => (length l <= 100)%nat | _ => True end) [r5; r6] ->
  whole (Answers x y (ex_read r5 r6) ex_write) c.
Proof.
  intros H l Hl. apply Forall_cons in H as [H5 H]. apply Forall_cons in H as [H6 _]. cbn in Hl. unfold ex_read in Hl.
  assert (length l <= 100)%nat by (destruct (c =? 5); [by rewrite Hl in H5|]; destruct (c =? 6); [by rewrite Hl in H6|done]).
  split; [done|]. intros _. exists 100%nat, []. done.
Qed.

Lemma ex_good : good_run 4 (init 3 4) ex_rounds.
Proof.
  split; [|intros s1 ev1 E1; vm_compute in E1; injection E1 as <- <-].
  { exists {[4]}. split_and!; [done|done|done|by repeat constructor|by repeat constructor|apply Forall_true; intros; apply ex_whole; repeat constructor; cbn; lia|].
    intros _. exists 5. split_and!; [done|done|done|set_solver|simpl; set_solver]. }
  split; [|intros s2 ev2 E2; vm_compute in E2; injection E2 as <- <-].
  { exists {[4; 5]}. split_and!; [done|by apply (bool_decide_unpack _)|done|by repeat constructor|by repeat constructor|apply Forall_true; intros; apply ex_whole; repeat constructor; cbn; lia|].
    intros _. exists 6. split_and!; [done|done|done|by vm_compute|simpl; set_solver]. }
  split; [|done].
  exists {[5; 6]}. split_and!; [done|by apply (bool_decide_unpack _)|done|by repeat constructor|by repeat constructor|apply Forall_true; intros; apply ex_whole; repeat constructor; cbn; lia|].
  intros H. exfalso. by vm_compute in H.
Qed.

Lemma servers_agree_witness :
  exists s u p, 
    run (round 4) (init 3 4) ex_rounds =
      Ret (s, [Accepted 5; Accepted 6; Echoed 5 [104; 105]; Closed 5; Echoed 6 [33]]) /\
    run (unp_round 4) (unp_init 3 4) ex_rounds =
      Ret (u, [Accepted 5; Accepted 6; Echoed 5 [104; 105]; Closed 5; Echoed 6 [33]]) /\
    run (poll_round 4) (poll_init [true; true; true]) ex_rounds =
      Ret (p, [Accepted 5; Accepted 6; Echoed 5 [104; 105]; Closed 5; Echoed 6 [33]]) /\
    client s = [-1; 6; -1].
Proof.
  destruct (servers_agree 3 4 [true; true; true] ex_rounds eq_refl ltac:(done) ex_good)
    as [(s & u & p & ev & E1 & E2 & _ & E3 & _) _].
  exists s, u, p. assert (E := E1). vm_compute in E. injection E as Es Ev. subst ev.
  split_and!; [exact E1|exact E2|exact E3|by subst s].
Defined.
