(* ===== verification/ClientLoops.v ===== *)
(** * Echo clients that watch two descriptors

    Model of three str_cli functions: unpv13e/nonblock/strclinonb.c (nonblocking
    descriptors and two buffers), unpv13e/select/strcliselect02.c, and the author's
    notes/echoServer/version_2/echoCli.c (the same loop as version_5).  One round of
    each loop is a function of the variables and of the kernel's answers; the state
    also records what has been read from and handed to each descriptor.  A read()
    returns at most the count asked for, a write() accepts at most what it is
    given: the definitions cut the answers down to that. *)

From S2P Require Import Prelude.

(** What a call that does not wait answers; no bytes is the end of file. *)
Inductive io_read := Data (l : list Z) | ReadErr (e : errno).
Inductive io_write := Took (n : nat) | WriteErr (e : errno).

(** How a round ends: the next one, a normal return, the end of the process, or a
    store outside a buffer. *)
Inductive result (S : Type) := Next (s : S) | Done (s : S) | Quit (s : S) | Undefined.
Arguments Next {S} s.
Arguments Done {S} s.
Arguments Quit {S} s.
Arguments Undefined {S}.

(** Continuing a round that has not ended. *)
Definition andthen {S A} (m : result S + A) (k : A -> result S + A) : result S + A :=
  match m with inl r => inl r | inr a => k a end.

(** The readiness that select() reports, and what the calls then answer. *)
Record answers := Answers {
  ready_in : bool; ready_sock : bool; ready_wsock : bool; ready_out : bool;
  read_in : io_read; read_sock : io_read; write_sock : io_write; write_out : io_write }.

(** ** strclinonb *)

Module NonBlock.
Section WithSize.
Context (MAXLINE : nat).

Record st := St {
  to : list Z; toi : nat; too : nat;           (* toiptr, tooptr *)
  fr : list Z; fri : nat; fro : nat;           (* friptr, froptr *)
  stdineof : bool;
  from_in : list Z; sent : list Z;             (* read from stdin, written to the socket *)
  from_sock : list Z; shown : list Z;          (* read from the socket, written to stdout *)
  fins : nat }.                                (* calls of shutdown() *)

Definition init (junk : list Z) : st := St junk 0 0 junk 0 0 false [] [] [] [] 0.

Definition set_to (s : st) (b : list Z) (i o : nat) : st :=
  St b i o (fr s) (fri s) (fro s) (stdineof s) (from_in s) (sent s) (from_sock s) (shown s) (fins s).
Definition set_fr (s : st) (b : list Z) (i o : nat) : st :=
  St (to s) (toi s) (too s) b i o (stdineof s) (from_in s) (sent s) (from_sock s) (shown s) (fins s).
Definition set_eof (s : st) : st :=
  St (to s) (toi s) (too s) (fr s) (fri s) (fro s) true (from_in s) (sent s) (from_sock s) (shown s) (fins s).
Definition shutdown (s : st) : st :=
  St (to s) (toi s) (too s) (fr s) (fri s) (fro s) (stdineof s) (from_in s) (sent s) (from_sock s) (shown s) (S (fins s)).
Definition log_in (s : st) (l : list Z) : st :=
  St (to s) (toi s) (too s) (fr s) (fri s) (fro s) (stdineof s) (from_in s ++ l) (sent s) (from_sock s) (shown s) (fins s).
Definition log_sent (s : st) (l : list Z) : st :=
  St (to s) (toi s) (too s) (fr s) (fri s) (fro s) (stdineof s) (from_in s) (sent s ++ l) (from_sock s) (shown s) (fins s).
Definition log_sock (s : st) (l : list Z) : st :=
  St (to s) (toi s) (too s) (fr s) (fri s) (fro s) (stdineof s) (from_in s) (sent s) (from_sock s ++ l) (shown s) (fins s).
Definition log_shown (s : st) (l : list Z) : st :=
  St (to s) (toi s) (too s) (fr s) (fri s) (fro s) (stdineof s) (from_in s) (sent s) (from_sock s) (shown s ++ l) (fins s).

(** Lines 30 to 37: what select() is asked about. *)
Definition ask_in (s : st) : bool := negb (stdineof s) && (toi s <? MAXLINE)%nat.
Definition ask_sock (s : st) : bool := (fri s <? MAXLINE)%nat.
Definition ask_wsock (s : st) : bool := negb (too s =? toi s)%nat.
Definition ask_out (s : st) : bool := negb (fro s =? fri s)%nat.

(** The state, and whether the socket and stdout are in [wset]. *)
Definition mid : Type := st * (bool * bool).

Definition from_stdin (r : io_read) (m : mid) : result st + mid :=
  let '(s, (ws, wo)) := m in
  match r with
  | ReadErr e => if bool_decide (e = EAGAIN) then inr (s, (ws, wo)) else inl (Quit s)
  | Data l =>
      let l := take (MAXLINE - toi s) l in
      match l with
      | [] =>
          let s1 := set_eof s in
          inr (if (too s =? toi s)%nat then shutdown s1 else s1, (ws, wo))
      | _ =>
          match write_at (to s) (toi s) l with
          | None => inl Undefined
          | Some b => inr (log_in (set_to s b (toi s + length l) (too s)) l, (true, wo))
          end
      end
  end.

Definition from_socket (r : io_read) (m : mid) : result st + mid :=
  let '(s, (ws, wo)) := m in
  match r with
  | ReadErr e => if bool_decide (e = EAGAIN) then inr (s, (ws, wo)) else inl (Quit s)
  | Data l =>
      let l := take (MAXLINE - fri s) l in
      match l with
      | [] => inl (if stdineof s then Done s else Quit s)
      | _ =>
          match write_at (fr s) (fri s) l with
          | None => inl Undefined
          | Some b => inr (log_sock (set_fr s b (fri s + length l) (fro s)) l, (ws, true))
          end
      end
  end.

Definition to_stdout (w : io_write) (m : mid) : result st + mid :=
  let '(s, (ws, wo)) := m in
  if wo && (fro s <? fri s)%nat then
    match w with
    | WriteErr e => if bool_decide (e = EAGAIN) then inr (s, (ws, wo)) else inl (Quit s)
    | Took n =>
        let n := Nat.min n (fri s - fro s) in
        match read_at (fr s) (fro s) n with
        | None => inl Undefined
        | Some l =>
            let s1 := log_shown (set_fr s (fr s) (fri s) (fro s + n)) l in
            inr (if (fro s1 =? fri s1)%nat then set_fr s1 (fr s1) 0 0 else s1, (ws, wo))
        end
    end
  else inr (s, (ws, wo)).

Definition to_socket (w : io_write) (m : mid) : result st + mid :=
  let '(s, (ws, wo)) := m in
  if ws && (too s <? toi s)%nat then
    match w with
    | WriteErr e => if bool_decide (e = EAGAIN) then inr (s, (ws, wo)) else inl (Quit s)
    | Took n =>
        let n := Nat.min n (toi s - too s) in
        match read_at (to s) (too s) n with
        | None => inl Undefined
        | Some l =>
            let s1 := log_sent (set_to s (to s) (toi s) (too s + n)) l in
            inr (if (too s1 =? toi s1)%nat
                 then let s2 := set_to s1 (to s1) 0 0 in if stdineof s2 then shutdown s2 else s2
                 else s1, (ws, wo))
        end
    end
  else inr (s, (ws, wo)).

(** One round of the loop, lines 28 to 122. *)
Definition round (s : st) (a : answers) : result st :=
  let m0 : mid := (s, (ask_wsock s && ready_wsock a, ask_out s && ready_out a)) in
  let rin := ask_in s && ready_in a in
  let rsock := ask_sock s && ready_sock a in
  let m1 := if rin then from_stdin (read_in a) m0 else inr m0 in
  let m2 := if rsock then andthen m1 (from_socket (read_sock a)) else m1 in
  let m3 := andthen m2 (to_stdout (write_out a)) in
  match andthen m3 (to_socket (write_sock a)) with
  | inl r => r
  | inr (s', _) => Next s'
  end.

(** ** Correctness *)

(** The bytes of a buffer between two pointers. *)
Definition slice (b : list Z) (o i : nat) : list Z := drop o (take i b).

Record ok (s : st) : Prop := {
  ok_to : length (to s) = MAXLINE; ok_fr : length (fr s) = MAXLINE;
  ok_toi : (too s <= toi s <= MAXLINE)%nat; ok_fri : (fro s <= fri s <= MAXLINE)%nat;
  ok_up : from_in s = sent s ++ slice (to s) (too s) (toi s);
  ok_down : from_sock s = shown s ++ slice (fr s) (fro s) (fri s);
  ok_low_to : too s = toi s -> toi s = 0%nat;
  ok_low_fr : fro s = fri s -> fri s = 0%nat;
  ok_fin : fins s = if stdineof s && (too s =? toi s)%nat then 1%nat else 0%nat }.

Lemma slice_empty b o i : (i <= o)%nat -> slice b o i = [].
Proof. intros H. unfold slice. apply drop_ge. rewrite length_take. lia. Qed.

Lemma write_slice b o i l b' :
  (o <= i)%nat -> write_at b i l = Some b' ->
  slice b' o (i + length l) = slice b o i ++ l /\ (i + length l <= length b)%nat /\ length b' = length b.
Proof.
  intros Ho E. pose proof (length_write_at _ _ _ _ E). unfold write_at in E.
  case_decide as Hd; [|done]. injection E as <-. split; [|done]. unfold slice.
  rewrite app_assoc, take_app_le by (rewrite length_app, length_take; lia).
  rewrite take_ge by (rewrite length_app, length_take; lia).
  by rewrite drop_app_le by (rewrite length_take; lia).
Qed.

Lemma read_slice b o i n l :
  (o + n <= i)%nat -> (i <= length b)%nat -> read_at b o n = Some l -> slice b o i = l ++ slice b (o + n) i.
Proof.
  intros H Hi E. unfold read_at in E. case_decide; [|done]. injection E as <-. unfold slice.
  rewrite take_drop_commute, <- drop_drop.
  replace (take (o + n) b) with (take (o + n) (take i b)) by (rewrite take_take; f_equal; lia).
  by rewrite <- take_drop_commute, take_drop.
Qed.


(** What a part of a round may do. *)
Definition fine (r : result st + mid) : Prop :=
  match r with
  | inr (s, _) => ok s
  | inl (Next s) => ok s
  | inl (Done s) => ok s /\ stdineof s = true
  | inl (Quit s) => ok s
  | inl Undefined => False
  end.

Lemma fine_andthen m (k : mid -> result st + mid) :
  fine m -> (forall m', ok m'.1 -> fine (k m')) -> fine (andthen m k).
Proof. intros H Hk. destruct m as [r|[s w]]; [exact H|]. by apply Hk. Qed.

Lemma fine_stdin r m : ok m.1 -> ask_in m.1 = true -> fine (from_stdin r m).
Proof.
  destruct m as [s [ws wo]]. intros H Ha. unfold ask_in in Ha. simpl in *.
  apply andb_prop in Ha as [He Hlt]. apply negb_true_iff in He. apply Nat.ltb_lt in Hlt.
  destruct H. unfold from_stdin. destruct r as [l|e]; [|by case_bool_decide].
  pose proof (length_take l (MAXLINE - toi s)) as Hl. destruct (take (MAXLINE - toi s) l) as [|b l'] eqn:El.
  - simpl. destruct (Nat.eqb_spec (too s) (toi s)) as [E|E]; split; simpl; try done.
    + rewrite ok_fin0, He, E, Nat.eqb_refl. done.
    + rewrite ok_fin0, He. by rewrite (proj2 (Nat.eqb_neq _ _)) by done.
  - destruct (write_at_some (to s) (toi s) (b :: l')) as [b' Hb]; [lia|]. rewrite Hb.
    destruct (write_slice (to s) (too s) (toi s) (b :: l') b' ltac:(lia) Hb) as (Hs & Hle & Hlen).
    split; simpl in *; try done; try lia.
    + by rewrite ok_up0, Hs, app_assoc.
    + by rewrite ok_fin0, He.
Qed.

Lemma fine_socket r m : ok m.1 -> ask_sock m.1 = true -> fine (from_socket r m).
Proof.
  destruct m as [s [ws wo]]. intros H Ha. unfold ask_sock in Ha. simpl in *. apply Nat.ltb_lt in Ha.
  unfold from_socket. destruct r as [l|e]; [|by case_bool_decide].
  pose proof (length_take l (MAXLINE - fri s)) as Hl. destruct (take (MAXLINE - fri s) l) as [|b l'] eqn:El.
  - by destruct (stdineof s) eqn:E.
  - destruct H. destruct (write_at_some (fr s) (fri s) (b :: l')) as [b' Hb]; [lia|]. rewrite Hb.
    destruct (write_slice (fr s) (fro s) (fri s) (b :: l') b' ltac:(lia) Hb) as (Hs & Hle & Hlen).
    split; simpl in *; try done; try lia. by rewrite ok_down0, Hs, app_assoc.
Qed.

Lemma fine_stdout w m : ok m.1 -> fine (to_stdout w m).
Proof.
  destruct m as [s [ws wo]]. intros H. simpl in *. unfold to_stdout.
  destruct wo; [|done]. destruct (Nat.ltb_spec (fro s) (fri s)); [|done]. cbn [andb].
  destruct w as [n|e]; [|by case_bool_decide]. destruct H.
  set (k := Nat.min n (fri s - fro s)).
  destruct (read_at_some (fr s) (fro s) k) as (l & Hl & _); [lia|]. rewrite Hl.
  pose proof (read_slice (fr s) (fro s) (fri s) k l ltac:(lia) ltac:(lia) Hl) as Hs. simpl.
  destruct (Nat.eqb_spec (fro s + k) (fri s)) as [E|E]; split; simpl; try done; try lia.
  - rewrite ok_down0, Hs, E, !slice_empty by lia. by rewrite !app_nil_r.
  - by rewrite ok_down0, Hs, app_assoc.
Qed.

Lemma fine_tosocket w m : ok m.1 -> fine (to_socket w m).
Proof.
  destruct m as [s [ws wo]]. intros H. simpl in *. unfold to_socket.
  destruct ws; [|done]. destruct (Nat.ltb_spec (too s) (toi s)); [|done]. cbn [andb].
  destruct w as [n|e]; [|by case_bool_decide]. destruct H.
  set (k := Nat.min n (toi s - too s)).
  destruct (read_at_some (to s) (too s) k) as (l & Hl & _); [lia|]. rewrite Hl.
  pose proof (read_slice (to s) (too s) (toi s) k l ltac:(lia) ltac:(lia) Hl) as Hs. simpl.
  rewrite (proj2 (Nat.eqb_neq (too s) (toi s))), andb_false_r in ok_fin0 by lia.
  destruct (Nat.eqb_spec (too s + k) (toi s)) as [E|E].
  - assert (Hup : from_in s = sent s ++ l).
    { rewrite ok_up0, Hs, E, slice_empty by lia. by rewrite app_nil_r. }
    destruct (stdineof s) eqn:He; split; simpl; rewrite ?slice_empty, ?app_nil_r, ?He by lia; try done; try lia; by rewrite ok_fin0.
  - split; simpl; try done; try lia.
    + by rewrite ok_up0, Hs, app_assoc.
    + by rewrite (proj2 (Nat.eqb_neq _ _)), andb_false_r.
Qed.

Lemma fine_round s a : ok s ->
  match round s a with
  | Next s' => ok s' | Done s' => ok s' /\ stdineof s' = true | Quit s' => ok s' | Undefined => False
  end.
Proof.
  intros H. unfold round. set (m0 := (s, _) : mid).
  set (m1 := if ask_in s && ready_in a then from_stdin (read_in a) m0 else inr m0).
  assert (H1 : fine m1).
  { subst m1. destruct (ask_in s) eqn:E; [|done]. destruct (ready_in a); [|done]. by apply fine_stdin. }
  set (m2 := if ask_sock s && ready_sock a then andthen m1 (from_socket (read_sock a)) else m1).
  assert (H2 : fine m2).
  { subst m2. destruct (ask_sock s) eqn:E; [|done]. destruct (ready_sock a); [|done]. cbn [andb].
    (* reading stdin leaves the other buffer alone *)
    assert (Hfri : match m1 with inr (s1, _) => fri s1 = fri s | inl _ => True end).
    { subst m1. destruct (ask_in s && ready_in a); [|done]. unfold from_stdin. subst m0.
      repeat case_match; simplify_eq; done. }
    destruct m1 as [r|[s1 w]]; [exact H1|]. apply fine_socket; [done|].
    unfold ask_sock in *. simpl. by rewrite Hfri. }
  assert (H4 : fine (andthen (andthen m2 (to_stdout (write_out a))) (to_socket (write_sock a)))).
  { apply fine_andthen; [apply fine_andthen; [done|]|]; intros m' Hm; [by apply fine_stdout|by apply fine_tosocket]. }
  destruct (andthen _ (to_socket _)) as [[]|[s' w]]; exact H4.
Qed.

Definition step (s s' : st) : Prop := exists a, round s a = Next s'.

(** C29: str_cli of strclinonb.c, for every sequence of rounds and whatever was in
    the buffers at first.  The pointers stay inside the buffers and in order and no
    access leaves them; what was read from standard input is what was written to
    the socket followed by the bytes between the pointers, and the same for the
    socket and standard output; the socket is shut down for writing exactly once,
    when standard input has ended and everything read from it has been written;
    select() is always asked about some descriptor.  The function returns only
    after the end of standard input; then the output is the beginning of what came
    from the socket, without the bytes still between the pointers. *)
Theorem nonblock_copy junk s a :
  length junk = MAXLINE -> (0 < MAXLINE)%nat -> reachable (fun s0 => s0 = init junk) step s ->
  ok s /\ (ask_in s || ask_sock s || ask_wsock s || ask_out s) = true /\
  match round s a with
  | Undefined => False
  | Done s' => stdineof s' = true /\ from_in s' = sent s' ++ slice (to s') (too s') (toi s') /\
      from_sock s' = shown s' ++ slice (fr s') (fro s') (fri s')
  | Next s' | Quit s' => from_in s' = sent s' ++ slice (to s') (too s') (toi s') /\
      from_sock s' = shown s' ++ slice (fr s') (fro s') (fri s')
  end.
Proof.
  intros Hj Hn Hr. assert (H : ok s).
  { revert Hr. apply reachable_inv.
    - intros s0 ->. split; simpl; try done; try lia.
    - intros s1 s2 H (a' & E). pose proof (fine_round s1 a' H) as Hf. by rewrite E in Hf. }
  split; [done|]. split.
  - unfold ask_sock, ask_out. destruct H.
    destruct (Nat.ltb_spec (fri s) MAXLINE); [by rewrite orb_true_r|].
    destruct (Nat.eqb_spec (fro s) (fri s)); [specialize (ok_low_fr0 e); lia|by rewrite orb_true_r].
  - pose proof (fine_round s a H) as Hf. destruct (round s a) as [s'|s'|s'|]; [..|done];
      [|destruct Hf as [Hf ?]; split; [done|]|]; by destruct Hf.
Qed.
End WithSize.

(** Output that never appears: standard output is not ready when the socket ends,
    and the bytes waiting in the buffer are dropped by the return. *)
Definition ans (ri rs rw ro : bool) (di ds : list Z) (wo : io_write) : answers :=
  Answers ri rs rw ro (Data di) (Data ds) (Took 10) wo.
Definition lossy : list answers :=
  [ans true false false false [] [] (Took 0);            (* end of standard input: shutdown *)
   ans false true false true [] [104; 105] (WriteErr EAGAIN);
   ans false true false false [] [] (Took 0)].

Fixpoint run (s : st) (l : list answers) : result st :=
  match l with
  | [] => Next s
  | a :: l' => match round 8 s a with Next s' => run s' l' | r => r end
  end.

Lemma nonblock_copy_witness :
  ok 8 (init (replicate 8 0)) /\
  exists s', run (init (replicate 8 0)) lossy = Done s' /\ from_sock s' = [104; 105] /\ shown s' = [].
Proof.
  split.
  - apply (nonblock_copy 8 (replicate 8 0) (init (replicate 8 0)) (ans true true true true [] [] (Took 0)));
      [done|lia|by apply reach_init].
  - eexists. split; [vm_compute; reflexivity|done].
Defined.
End NonBlock.

(** ** The select() clients *)

Module SelectCli.
Section WithSize.
Context (MAXLEN : nat).

Record st := St {
  endOfTerminal : bool; from_in : list Z; sent : list Z; from_sock : list Z; shown : list Z; fins : nat }.
Definition init : st := St false [] [] [] [] 0.

Definition got_sock (s : st) (l w : list Z) : st :=
  St (endOfTerminal s) (from_in s) (sent s) (from_sock s ++ l) (shown s ++ w) (fins s).
Definition got_in (s : st) (l w : list Z) : st :=
  St (endOfTerminal s) (from_in s ++ l) (sent s ++ w) (from_sock s) (shown s) (fins s).
Definition end_in (s : st) : st :=
  St true (from_in s) (sent s) (from_sock s) (shown s) (S (fins s)).

(** A single write() of [l], as the author's client makes it: [None] when the
    result is not positive, else the bytes accepted. *)
Definition write_once (w : io_write) (l : list Z) : option (list Z) :=
  match w with
  | WriteErr _ => None
  | Took n => match take n l with [] => None | l' => Some l' end
  end.

(** The author's loop, lines 71 to 128; [sel] is the error of select() if it fails:
    then the set still holds what was asked for. *)
Definition round (s : st) (sel : option errno) (a : answers) : result st :=
  let failed := match sel with Some _ => true | None => false end in
  if bool_decide (sel = Some EINTR) then Next s else
  let rin := negb (endOfTerminal s) && (failed || ready_in a) in
  let rsock := failed || ready_sock a in
  let m : result st + st :=
    if rsock then
      match read_sock a with
      | ReadErr _ => inl (Quit s)
      | Data l =>
          match take MAXLEN l with
          | [] => inl (if endOfTerminal s then Done s else Quit s)   (* write() of 0 bytes *)
          | l' =>
              match write_once (write_out a) l' with
              | None => inl (Quit s)
              | Some w => inr (got_sock s l' w)
              end
          end
      end
    else inr s in
  match m with
  | inl r => r
  | inr s =>
      if rin then
        match read_in a with
        | ReadErr _ => Quit s
        | Data l =>
            match take MAXLEN l with
            | [] => Next (end_in s)
            | l' =>
                match write_once (write_sock a) l' with
                | None => Quit s
                | Some w => Next (got_in s l' w)
                end
            end
        end
      else Next s
  end.

(** The book's loop: [Write] ends the process on a short count, [Writen] goes on
    until everything is written. *)
Definition unp_round (s : st) (sel : option errno) (a : answers) : result st :=
  match sel with
  | Some _ => Quit s
  | None =>
    let rin := negb (endOfTerminal s) && ready_in a in
    let m : result st + st :=
      if ready_sock a then
        match read_sock a with
        | ReadErr _ => inl (Quit s)
        | Data l =>
            match take MAXLEN l with
            | [] => inl (if endOfTerminal s then Done s else Quit s)
            | l' =>
                match write_out a with
                | WriteErr _ => inl (Quit s)
                | Took n => if (n <? length l')%nat then inl (Quit s) else inr (got_sock s l' l')
                end
            end
        end
      else inr s in
    match m with
    | inl r => r
    | inr s =>
        if rin then
          match read_in a with
          | ReadErr _ => Quit s
          | Data l =>
              match take MAXLEN l with
              | [] => Next (end_in s)
              | l' => match write_sock a with WriteErr _ => Quit s | Took _ => Next (got_in s l' l') end
              end
          end
        else Next s
    end
  end.

(** Every write() takes what it is given. *)
Definition whole (a : answers) : Prop :=
  forall n, write_sock a = Took n \/ write_out a = Took n -> (MAXLEN <= n)%nat.

Definition matched (s : st) : Prop :=
  sent s = from_in s /\ shown s = from_sock s /\ fins s = (if endOfTerminal s then 1 else 0)%nat.

Lemma write_whole w n l : w = Took n -> (length l <= n)%nat -> l <> [] -> write_once w l = Some l.
Proof. intros -> Hl Hne. unfold write_once. rewrite take_ge by done. by destruct l. Qed.

Lemma round_eq s a : whole a -> round s None a = unp_round s None a.
Proof.
  intros Hw. unfold round, unp_round. rewrite bool_decide_eq_false_2 by done. cbn [orb].
  assert (Hone : forall w n l, w = Took n -> (w = write_sock a \/ w = write_out a) -> l <> [] ->
            (length l <= MAXLEN)%nat -> write_once w l = Some l).
  { intros w n l Hn Hor Hne Hl. eapply write_whole; [exact Hn| |done].
    transitivity MAXLEN; [done|]. apply Hw. destruct Hor as [<-|<-]; auto. }
  assert (Hin : forall s0, match read_in a with
      | Data l => match take MAXLEN l with
                  | [] => Next (end_in s0)
                  | z :: l0 => match write_once (write_sock a) (z :: l0) with
                               | Some w => Next (got_in s0 (z :: l0) w) | None => Quit s0 end end
      | ReadErr _ => Quit s0 end =
      match read_in a with
      | Data l => match take MAXLEN l with
                  | [] => Next (end_in s0)
                  | z :: l0 => match write_sock a with WriteErr _ => Quit s0 | Took _ => Next (got_in s0 (z :: l0) (z :: l0)) end end
      | ReadErr _ => Quit s0 end).
  { intros s0. destruct (read_in a) as [l|e]; [|done].
    pose proof (length_take l MAXLEN) as Hl. destruct (take MAXLEN l) as [|z l0]; [done|].
    destruct (write_sock a) as [n|e] eqn:E; [|done].
    rewrite (Hone (Took n) n (z :: l0)) by (auto || done || lia). done. }
  destruct (ready_sock a); [|destruct (_ && _); [apply Hin|done]].
  destruct (read_sock a) as [l|e]; [|done].
  pose proof (length_take l MAXLEN) as Hl. destruct (take MAXLEN l) as [|z l0]; [done|].
  destruct (write_out a) as [n|e] eqn:E; [|done].
  rewrite (Hone (Took n) n (z :: l0)) by (auto || done || lia).
  assert (MAXLEN <= n)%nat by (apply Hw; auto).
  rewrite (proj2 (Nat.ltb_ge _ _)) by lia.
  destruct (_ && _); [apply Hin|done].
Qed.

Lemma unp_round_matched s a : matched s ->
  match unp_round s None a with
  | Next s' => matched s' | Done s' => matched s' /\ endOfTerminal s' = true | Quit s' => matched s' | Undefined => False
  end.
Proof.
  intros (H1 & H2 & H3). unfold unp_round.
  assert (Hin : forall s0, matched s0 ->
    match (if negb (endOfTerminal s0) && ready_in a then
      match read_in a with
      | ReadErr _ => Quit s0
      | Data l => match take MAXLEN l with
                  | [] => Next (end_in s0)
                  | z :: l0 => match write_sock a with WriteErr _ => Quit s0 | Took _ => Next (got_in s0 (z :: l0) (z :: l0)) end end
      end else Next s0) with
    | Next s' => matched s' | Done s' => matched s' /\ endOfTerminal s' = true | Quit s' => matched s' | Undefined => False end).
  { intros s0 M. pose proof M as (M1 & M2 & M3).
    destruct (endOfTerminal s0) eqn:E; [exact M|]. destruct (ready_in a); [|exact M]. cbn [negb andb].
    destruct (read_in a) as [l|e]; [|exact M].
    destruct (take MAXLEN l) as [|z l0]; [split_and!; simpl; [done|done|by rewrite M3]|].
    destruct (write_sock a) as [n|e]; [|exact M]. split_and!; simpl; [by rewrite M1|done|by rewrite E]. }
  destruct (ready_sock a); [|by apply (Hin s)].
  destruct (read_sock a) as [l|e]; [|done]. destruct (take MAXLEN l) as [|z l0].
  { destruct (endOfTerminal s) eqn:E; [split; [|done]|]; split_and!; try done; by rewrite E. }
  destruct (write_out a) as [n|e]; [|done]. destruct (n <? _)%nat; [done|].
  apply (Hin (got_sock s (z :: l0) (z :: l0))). split_and!; simpl; [done|by rewrite H2|done].
Qed.

(** Rounds whose writes are complete and whose select() succeeds. *)
Definition step (s s' : st) : Prop := exists a, whole a /\ round s None a = Next s'.

(** As long as every write() takes all it is given, the author's select()
    client does in every round what the book's does: what it sends is what it read
    from the terminal, what it shows is what it read from the socket, the socket is
    shut down for writing once at the end of the terminal's input, and it returns
    only after that.  A signal during select() changes nothing. *)
Theorem select_clients_agree s a :
  reachable (fun s0 => s0 = init) step s -> whole a ->
  matched s /\ round s None a = unp_round s None a /\ round s (Some EINTR) a = Next s /\
  match round s None a with
  | Next s' => matched s' | Done s' => matched s' /\ endOfTerminal s' = true
  | Quit s' => matched s' | Undefined => False
  end.
Proof.
  intros Hr Hw. assert (H : matched s).
  { revert Hr. apply reachable_inv; [by intros ? ->|]. intros s1 s2 H (a' & Hw' & E).
    rewrite round_eq in E by done. pose proof (unp_round_matched s1 a' H) as Hm. by rewrite E in Hm. }
  split_and!; [done|by apply round_eq|done|].
  rewrite round_eq by done. by apply unp_round_matched.
Qed.
End WithSize.

Definition ex : answers :=
  Answers true true true true (Data [104; 105; 10]) (Data [33]) (Took 100) (Took 100).

Lemma select_clients_agree_witness : round 100 init None ex = Next (St false [104; 105; 10] [104; 105; 10] [33] [33] 0).
Proof.
  destruct (select_clients_agree 100 init ex) as (_ & E & _).
  - by apply reach_init.
  - intros n [[= <-]|[= <-]]; lia.
  - rewrite E. reflexivity.
Defined.

(** A short write() loses the rest of the line in the author's client. *)
Example short_write :
  round 100 init None (Answers true false true true (Data [104; 105; 10]) (Data []) (Took 1) (Took 1)) =
    Next (St false [104; 105; 10] [104] [] [] 0).
Proof. reflexivity. Qed.
End SelectCli.
