(* ===== verification/WebClient.v ===== *)
(** * Fetching several files at once

    Model of unpv13e/threads/web03.c: the main thread keeps at most [maxnconn]
    threads reading files and joins those that have finished, which they tell
    through a counter, a mutex and a condition variable.  A thread advances by one
    call on the mutex or the condition variable, or by the accesses between two of
    them; reading a file is one step. *)

From S2P Require Import Prelude.

Module WebThreads.

(** [f_flags] and the position of a file's thread: not started (0), connecting or
    reading, then with F_DONE set: before the mutex, after it, after [ndone++],
    after the signal, returned; and joined (F_JOINED). *)
Inductive tst := TNone | TRun | TFlag | TLock | TIncd | TSig | TExit | TJoined.

Inductive mpc :=
| MTop | MConn | MLock | MTest | MWait | MWake | MScan (i : nat) | MJoin (i : nat) | MUnlock | MExit | MQuit.

Record state := St {
  file : list tst; ndone_mutex : bool; ndone : Z;
  nconn : Z; nlefttoconn : Z; nlefttoread : Z; mp : mpc }.

Definition f_done (t : tst) : bool :=
  match t with TFlag | TLock | TIncd | TSig | TExit => true | _ => false end.

Section Program.
Context (maxnconn : Z).

Definition set_mp (s : state) (p : mpc) : state :=
  St (file s) (ndone_mutex s) (ndone s) (nconn s) (nlefttoconn s) (nlefttoread s) p.
Definition set_mutex (s : state) (b : bool) (p : mpc) : state :=
  St (file s) b (ndone s) (nconn s) (nlefttoconn s) (nlefttoread s) p.
Definition set_file (s : state) (i : nat) (t : tst) : state :=
  St (<[i := t]> (file s)) (ndone_mutex s) (ndone s) (nconn s) (nlefttoconn s) (nlefttoread s) (mp s).

(** The first file that has not been started. *)
Fixpoint find_file (l : list tst) : option nat :=
  match l with
  | [] => None
  | TNone :: _ => Some 0%nat
  | _ :: l' => S <$> find_file l'
  end.

(** do_get_read *)
Definition do_get_read (s : state) (i : nat) : option state :=
  t ← file s !! i;
  match t with
  | TRun => Some (set_file s i TFlag)
  | TFlag => if ndone_mutex s then None else Some (set_file (set_mutex s true (mp s)) i TLock)
  | TLock => Some (set_file (St (file s) (ndone_mutex s) (ndone s + 1) (nconn s) (nlefttoconn s) (nlefttoread s) (mp s)) i TIncd)
  | TIncd => Some (set_file (match mp s with MWait => set_mp s MWake | _ => s end) i TSig)
  | TSig => Some (set_file (set_mutex s false (mp s)) i TExit)
  | TNone | TExit | TJoined => None
  end.

(** The main thread from line 55. *)
Definition main_step (s : state) : option state :=
  match mp s with
  | MTop => Some (set_mp s (if nlefttoread s >? 0 then MConn else MExit))
  | MConn =>
      if (nconn s <? maxnconn) && (nlefttoconn s >? 0) then
        match find_file (file s) with
        | None => Some (set_mp s MQuit)
        | Some i => Some (St (<[i := TRun]> (file s)) (ndone_mutex s) (ndone s)
                            (nconn s + 1) (nlefttoconn s - 1) (nlefttoread s) MConn)
        end
      else Some (set_mp s MLock)
  | MLock | MWake => if ndone_mutex s then None else Some (set_mutex s true MTest)
  | MTest => if ndone s =? 0 then Some (set_mutex s false MWait) else Some (set_mp s (MScan 0))
  | MScan i =>
      match file s !! i with
      | None => Some (set_mp s MUnlock)
      | Some t => Some (set_mp s (if f_done t then MJoin i else MScan (S i)))
      end
  | MJoin i =>
      match file s !! i with
      | Some TExit => Some (St (<[i := TJoined]> (file s)) (ndone_mutex s) (ndone s - 1)
                              (nconn s - 1) (nlefttoconn s) (nlefttoread s - 1) (MScan (S i)))
      | _ => None                                  (* pthread_join waits *)
      end
  | MUnlock => Some (set_mutex s false MTop)
  | MWait | MExit | MQuit => None
  end.

Inductive event := EThread (i : nat) | EMain | ESpurious.

Definition exec (s : state) (e : event) : option state :=
  match e with
  | EThread i => do_get_read s i
  | EMain => main_step s
  | ESpurious => match mp s with MWait => Some (set_mp s MWake) | _ => None end
  end.

Fixpoint run (s : state) (es : list event) : option state :=
  match es with
  | [] => Some s
  | e :: es' => s' ← exec s e; run s' es'
  end.

Definition main (nfiles : nat) : state :=
  St (replicate nfiles TNone) false 0 0 (Z.of_nat nfiles) (Z.of_nat nfiles) MTop.

(** ** The accounts *)

Definition holds (t : tst) : Z := match t with TLock | TIncd | TSig => 1 | _ => 0 end.
Definition counted (t : tst) : Z := match t with TIncd | TSig | TExit => 1 | _ => 0 end.
Definition created (t : tst) : Z := match t with TNone | TJoined => 0 | _ => 1 end.
Definition idle (t : tst) : Z := match t with TNone => 1 | _ => 0 end.
Definition unread (t : tst) : Z := match t with TJoined => 0 | _ => 1 end.
Definition to_signal (t : tst) : Z := match t with TIncd => 1 | _ => 0 end.
Definition m_holds (p : mpc) : Z :=
  match p with MTest | MScan _ | MJoin _ | MUnlock => 1 | _ => 0 end.

Definition scanning (p : mpc) : bool := match p with MScan _ | MJoin _ => true | _ => false end.

Definition m_fits (s : state) : Prop :=
  match mp s with
  | MConn => 0 < nlefttoread s
  | MLock | MTest | MWait | MWake => 0 < nconn s
  | MScan i => forall j t, (j < i)%nat -> file s !! j = Some t -> counted t = 0
  | MJoin i => (forall j t, (j < i)%nat -> file s !! j = Some t -> counted t = 0) /\
      exists t, file s !! i = Some t /\ f_done t = true
  | MUnlock => ndone s = 0
  | MExit => nlefttoread s = 0
  | MTop => True
  | MQuit => False
  end.

Record inv (s : state) : Prop := Inv {
  one : b2z (ndone_mutex s) = sumz holds (file s) + m_holds (mp s);
  done_count : ndone s = sumz counted (file s);
  conn_count : nconn s = sumz created (file s) /\ nconn s <= maxnconn;
  toconn_count : nlefttoconn s = sumz idle (file s);
  toread_count : nlefttoread s = sumz unread (file s);
  no_lost : mp s = MWait -> 0 < ndone s -> 0 < sumz to_signal (file s);
  placed : m_fits s;
  alone : maxnconn = 1 -> scanning (mp s) = true -> ndone s = nconn s }.

Lemma web_weights t : 0 <= holds t <= 1 /\ 0 <= counted t <= created t /\ 0 <= idle t <= 1 /\
  0 <= to_signal t <= holds t /\ unread t = created t + idle t.
Proof. destruct t; cbn; lia. Qed.

Lemma web_sums l : 0 <= sumz holds l /\ 0 <= sumz counted l <= sumz created l /\ 0 <= sumz idle l /\
  0 <= sumz to_signal l <= sumz holds l /\ sumz unread l = sumz created l + sumz idle l.
Proof. induction l as [|t l IH]; [done|]. rewrite !sumz_cons. pose proof (web_weights t). lia. Qed.

Lemma find_file_Some l i : find_file l = Some i -> l !! i = Some TNone.
Proof.
  revert i. induction l as [|t l IH]; intros i H; [done|]. simpl in H.
  destruct t; try (apply fmap_Some in H as (j & Hj & ->); by apply IH). by injection H as <-.
Qed.

Lemma find_file_None l : find_file l = None -> sumz idle l = 0.
Proof.
  induction l as [|t l IH]; intros H; [done|]. rewrite sumz_cons. simpl in H.
  destruct t; try done; apply fmap_None in H; rewrite (IH H); done.
Qed.

(** While the main thread holds the mutex, no other does. *)
Lemma main_owns s i t : inv s -> m_holds (mp s) = 1 -> file s !! i = Some t -> holds t = 0.
Proof.
  intros I Hm Ht. pose proof (one _ I) as H1. pose proof (b2z_range (ndone_mutex s)).
  pose proof (sumz_lookup holds _ _ _ ltac:(intros x; apply (web_weights x)) Ht). pose proof (web_weights t). lia.
Qed.

Lemma web_inv_thread s i s' : inv s -> do_get_read s i = Some s' -> inv s'.
Proof.
  intros I Hx. unfold do_get_read in Hx. destruct (file s !! i) as [t|] eqn:Ht; [|done]. cbn in Hx.
  pose proof (main_owns s i t I) as Hown.
  pose proof (sumz_lookup holds _ _ _ ltac:(intros x; apply (web_weights x)) Ht).
  destruct I as [H1 H2 [H3 H3'] H4 H5 Hn Hp Ha]. pose proof (b2z_range (ndone_mutex s)).
  destruct s as [l m nd nc nl nr p]. cbn in *.
  assert (Hkeep : forall t', counted t' = counted t -> created t' = created t -> idle t' = idle t ->
      (f_done t = true -> f_done t' = true) ->
      m_fits (St (<[i := t']> l) m nd nc nl nr p)).
  { intros t' E1 E2 E3 E4. unfold m_fits in *. cbn in *. destruct p; try done.
    - intros j x Hj Hx'. destruct (decide (i = j)) as [->|Hij].
      + rewrite list_lookup_insert_eq in Hx' by (by eapply lookup_lt_Some). injection Hx' as <-. rewrite E1. by eapply Hp.
      + rewrite list_lookup_insert_ne in Hx' by done. by eapply Hp.
    - destruct Hp as [Hp (x & Hx1 & Hx2)]. split.
      + intros j y Hj Hy. destruct (decide (i = j)) as [->|Hij].
        * rewrite list_lookup_insert_eq in Hy by (by eapply lookup_lt_Some). injection Hy as <-. rewrite E1. by eapply Hp.
        * rewrite list_lookup_insert_ne in Hy by done. by eapply Hp.
      + destruct (decide (i = i0)) as [<-|Hij].
        * exists t'. rewrite list_lookup_insert_eq by (by eapply lookup_lt_Some). split; [done|]. apply E4. congruence.
        * exists x. by rewrite list_lookup_insert_ne. }
  destruct t; try done.
  - injection Hx as <-. specialize (Hkeep TFlag eq_refl eq_refl eq_refl ltac:(done)).
    constructor; cbn; rewrite ?(sumz_insert _ _ _ _ _ Ht); cbn; try done; try lia.
    intros E1 E2. specialize (Hn E1 E2). lia.
  - destruct m; [done|]. injection Hx as <-. cbn in H1. pose proof (web_sums l).
    assert (Hmh : m_holds p = 0) by (destruct p; cbn in *; lia).
    specialize (Hkeep TLock eq_refl eq_refl eq_refl ltac:(done)).
    constructor; cbn; rewrite ?(sumz_insert _ _ _ _ _ Ht); cbn; try done; try lia.
    intros E1 E2. specialize (Hn E1 E2). lia.
  - injection Hx as <-. assert (Em : m_holds p = 0) by (destruct p; try done; specialize (Hown eq_refl Ht); cbn in Hown; lia).
    constructor; cbn; rewrite ?(sumz_insert _ _ _ _ _ Ht); cbn; try done; try lia.
    + intros E1 E2. pose proof (web_sums l). pose proof (sumz_lookup to_signal _ _ _ ltac:(intros x; apply (web_weights x)) Ht). lia.
    + unfold m_fits in *. cbn in *. by destruct p.
    + by destruct p.
  - injection Hx as <-. specialize (Hkeep TSig eq_refl eq_refl eq_refl ltac:(done)).
    destruct p; constructor; cbn; rewrite ?(sumz_insert _ _ _ _ _ Ht); cbn in H1 |- *; try done; try lia; exact Hkeep.
  - injection Hx as <-. assert (Em : m_holds p = 0) by (destruct p; try done; specialize (Hown eq_refl Ht); cbn in Hown; lia).
    destruct m; [|cbn in *; pose proof (web_sums l); lia].
    constructor; cbn; rewrite ?(sumz_insert _ _ _ _ _ Ht); cbn in *; try done; try lia.
    + intros E1 E2. specialize (Hn E1 E2). lia.
    + unfold m_fits in *. cbn in *. by destruct p.
Qed.

Lemma web_inv_main_step s s' : 0 < maxnconn -> inv s -> main_step s = Some s' -> inv s'.
Proof.
  intros Hmax I Hx. pose proof (web_sums (file s)) as Hs.
  pose proof (fun i t => main_owns s i t I) as Hown.
  destruct I as [H1 H2 [H3 H3'] H4 H5 Hn Hp Ha]. pose proof (b2z_range (ndone_mutex s)).
  destruct s as [l m nd nc nl nr p]. unfold main_step, m_fits in *. cbn in *. destruct p; try done.
  - injection Hx as <-. destruct (nr >? 0) eqn:E; bprop; constructor; unfold m_fits; cbn in *; try done; lia.
  - destruct ((nc <? maxnconn) && (nl >? 0)) eqn:E; bprop.
    + destruct (find_file l) as [i|] eqn:F; [|apply find_file_None in F; lia].
      apply find_file_Some in F. injection Hx as <-.
      constructor; unfold m_fits; cbn; rewrite ?(sumz_insert _ _ _ _ _ F); cbn in *; try done; lia.
    + injection Hx as <-. constructor; unfold m_fits; cbn in *; try done; lia.
  - destruct m; [done|]. injection Hx as <-. constructor; unfold m_fits; cbn in *; try done; lia.
  - destruct (nd =? 0) eqn:E; injection Hx as <-; bprop; constructor; unfold m_fits; cbn in *; try done; try lia.
  - destruct m; [done|]. injection Hx as <-. constructor; unfold m_fits; cbn in *; try done; lia.
  - destruct (l !! i) as [t|] eqn:Ht; [destruct (f_done t) eqn:Hd|]; injection Hx as <-;
      constructor; unfold m_fits; cbn in *; try done; try lia.
    + by eauto.
    + intros j x Hj Hx. destruct (decide (j = i)) as [->|Hne]; [|apply (Hp j); [lia|done]].
      rewrite Ht in Hx. injection Hx as <-. by destruct t.
    + rewrite H2. apply sumz_zero. intros j x Hx. apply (Hp j); [|done].
      apply lookup_lt_Some in Hx. apply lookup_ge_None in Ht. lia.
  - destruct (l !! i) as [t|] eqn:Ht; [|done]. destruct t; try done. injection Hx as <-.
    destruct Hp as [Hp _].
    constructor; unfold m_fits; cbn in *; rewrite ?(sumz_insert _ _ _ _ _ Ht); cbn; try done; try lia.
    intros j x Hj Hx. destruct (decide (i = j)) as [->|Hne].
    + rewrite list_lookup_insert_eq in Hx by (by eapply lookup_lt_Some). by injection Hx as <-.
    + rewrite list_lookup_insert_ne in Hx by done. apply (Hp j); [lia|done].
  - injection Hx as <-. constructor; unfold m_fits; cbn in *; try done; try lia.
Qed.

Lemma web_inv_exec s e s' : 0 < maxnconn -> inv s -> exec s e = Some s' -> inv s'.
Proof.
  intros Hmax I Hx. destruct e as [i| |]; cbn in Hx.
  - by apply (web_inv_thread s i).
  - by apply (web_inv_main_step s).
  - destruct I as [H1 H2 H3 H4 H5 Hn Hp Ha]. destruct s as [l m nd nc nl nr p]. unfold m_fits in *. cbn in *.
    destruct p; try done. injection Hx as <-. constructor; unfold m_fits; cbn in *; try done; lia.
Qed.

Lemma web_inv_main n : 0 <= maxnconn -> inv (main n).
Proof.
  intros H. constructor; unfold m_fits; cbn; rewrite ?sumz_replicate; cbn; try done; lia.
Qed.

(** ** Waiting *)

(** The main thread holds the mutex and waits for a thread that has set F_DONE and
    waits for the mutex. *)
Definition deadlocked (s : state) : Prop := exists i, mp s = MJoin i /\ file s !! i = Some TFlag.

Lemma thread_waits s i t : file s !! i = Some t -> do_get_read s i = None ->
  t = TNone \/ t = TExit \/ t = TJoined \/ (t = TFlag /\ ndone_mutex s = true).
Proof. unfold do_get_read. intros -> H. cbn in H. repeat case_match; simplify_eq; tauto. Qed.

Lemma main_waits s : main_step s = None ->
  mp s = MWait \/ mp s = MExit \/ mp s = MQuit \/
  ((mp s = MLock \/ mp s = MWake) /\ ndone_mutex s = true) \/
  exists i, mp s = MJoin i /\ file s !! i <> Some TExit.
Proof.
  unfold main_step. intros H. repeat case_match; simplify_eq; try tauto;
    do 4 right; eexists; (split; [done|congruence]).
Qed.

(** When nothing can go on the main thread has left its loop, or it is deadlocked. *)
Lemma web_stuck s : inv s -> (forall i, do_get_read s i = None) -> main_step s = None ->
  mp s = MExit \/ deadlocked s.
Proof.
  intros I Ht Hm. pose proof (main_owns s) as Hown. destruct I as [H1 H2 [H3 _] H4 H5 Hn Hp Ha].
  assert (Hw : forall i t, file s !! i = Some t ->
    t = TNone \/ t = TExit \/ t = TJoined \/ (t = TFlag /\ ndone_mutex s = true)).
  { intros i t Hi. by eapply thread_waits. }
  assert (Hh : sumz holds (file s) = 0).
  { apply sumz_zero. intros i t Hi. destruct (Hw i t Hi) as [->|[->|[->|[-> _]]]]; done. }
  assert (Hs : sumz to_signal (file s) = 0) by (pose proof (web_sums (file s)); lia).
  unfold m_fits in Hp. rewrite Hh in H1.
  assert (Hfree : ndone_mutex s = false -> sumz counted (file s) = sumz created (file s)).
  { intros E. enough (sumz (fun t => counted t - created t) (file s) = 0) by (rewrite sumz_sub in *; lia).
    apply sumz_zero. intros i t Hi. destruct (Hw i t Hi) as [->|[->|[->|[-> ?]]]]; done || congruence. }
  apply main_waits in Hm as [E|[E|[E|[[E Em]|(i & E & Hi)]]]].
  - exfalso. rewrite E in *. cbn in H1. assert (ndone_mutex s = false) by (by destruct (ndone_mutex s)).
    specialize (Hfree ltac:(done)). specialize (Hn eq_refl). lia.
  - by left.
  - by rewrite E in Hp.
  - exfalso. rewrite Em in H1. destruct E as [E|E]; rewrite E in H1; cbn in H1; lia.
  - right. exists i. split; [done|]. rewrite E in Hp. destruct Hp as [_ (t & Hit & Hd)].
    destruct (Hw i t Hit) as [->|[->|[->|[-> _]]]]; done.
Qed.

Lemma deadlocked_not_alone s : inv s -> maxnconn = 1 -> ~ deadlocked s.
Proof.
  intros I E (i & Hm & Hi). destruct I as [H1 H2 [H3 _] H4 H5 Hn Hp Ha].
  rewrite Hm in Ha. specialize (Ha E eq_refl).
  pose proof (sumz_lookup (fun t => created t - counted t) _ _ _
    ltac:(intros x; pose proof (web_weights x); lia) Hi) as Hl. cbn in Hl. rewrite sumz_sub in Hl. lia.
Qed.

Lemma deadlocked_exec s e s' : inv s -> deadlocked s -> exec s e = Some s' -> deadlocked s'.
Proof.
  intros I (i & Hm & Hi) Hx. pose proof (one _ I) as H1. rewrite Hm in H1. cbn in H1.
  pose proof (web_sums (file s)). assert (Em : ndone_mutex s = true) by (destruct (ndone_mutex s); [done|cbn in H1; lia]).
  destruct e as [j| |]; cbn in Hx.
  - unfold do_get_read in Hx. destruct (file s !! j) as [t|] eqn:Hj; [|done]. cbn in Hx.
    pose proof (main_owns s j t I ltac:(by rewrite Hm) Hj). rewrite Em, Hm in Hx.
    destruct t; try done. injection Hx as <-. exists i. cbn. split; [done|].
    rewrite list_lookup_insert_ne; [done|]. congruence.
  - unfold main_step in Hx. by rewrite Hm, Hi in Hx.
  - by rewrite Hm in Hx.
Qed.

(** ** The number of steps *)

Definition rank (r : Z) (t : tst) : Z :=
  match t with
  | TNone => r + 14 | TRun => r + 13 | TFlag => r + 12 | TLock => r + 11 | TIncd => r + 10
  | TSig => r + 6 | TExit => r + 5 | TJoined => 0
  end.
Definition m_rank (r : Z) (n : nat) (nd : Z) (p : mpc) : Z :=
  match p with
  | MTop => r + 4 | MConn => r + 3 | MLock => r + 2 | MTest => r + 1 | MWait => r | MWake => r + 2
  | MScan i => 2 * Z.of_nat (n - i) + 2 + (if nd >? 0 then 0 else r + 4)
  | MJoin i => 2 * Z.of_nat (n - i) + 1 + (if nd >? 0 then 0 else r + 4)
  | MUnlock => r + 5 | MExit | MQuit => 0
  end.
Definition size (s : state) : nat := length (file s).
Definition r0 (n : nat) : Z := 2 * Z.of_nat n + 3.
Definition work (s : state) : Z :=
  sumz (rank (r0 (size s))) (file s) + m_rank (r0 (size s)) (size s) (ndone s) (mp s).
Definition is_spurious (e : event) : bool := match e with ESpurious => true | _ => false end.

Lemma exec_size s e s' : exec s e = Some s' -> size s' = size s.
Proof.
  unfold exec, do_get_read, main_step, size. intros H. destruct s as [l m nd nc nl nr p]. cbn in H.
  destruct e as [i| |]; [destruct (l !! i) as [t|]; [|done]; cbn in H|..];
    repeat case_match; simplify_eq; cbn; by rewrite ?length_insert.
Qed.

Lemma work_thread s i s' : inv s -> do_get_read s i = Some s' -> size s' = size s -> work s' <= work s - 1.
Proof.
  intros I Hx Hsz. unfold work. rewrite Hsz. pose proof (done_count _ I) as H2. pose proof (web_sums (file s)).
  unfold do_get_read in Hx. destruct (file s !! i) as [t|] eqn:Ht; [|done]. cbn in Hx.
  unfold r0. generalize (size s). intros n. destruct s as [l m nd nc nl nr p]. cbn in *.
  destruct t; try done; [|destruct m; [done|]|..]; injection Hx as <-; cbn.
  4: destruct p; cbn.
  all: rewrite (sumz_insert _ _ _ _ _ Ht); cbn; try lia.
  destruct p; cbn; try lia; destruct (nd >? 0) eqn:E, (nd + 1 >? 0) eqn:E'; bprop; lia.
Qed.

Lemma work_main s s' : inv s -> 0 < maxnconn -> main_step s = Some s' -> size s' = size s -> work s' <= work s - 1.
Proof.
  intros I Hmax Hx Hsz. unfold work. rewrite Hsz. pose proof (placed _ I) as Hp.
  pose proof (placed _ (web_inv_main_step _ _ Hmax I Hx)) as Hp'. pose proof (done_count _ I) as H2.
  pose proof (web_sums (file s)). unfold r0.
  unfold main_step in Hx. destruct s as [l m nd nc nl nr p]. unfold m_fits, size in *. cbn in *. destruct p; try done.
  - injection Hx as <-. destruct (nr >? 0); cbn; lia.
  - destruct ((nc <? maxnconn) && (nl >? 0)) eqn:E; [|injection Hx as <-; cbn; lia].
    destruct (find_file l) as [i|] eqn:F; [|by injection Hx as <-]. apply find_file_Some in F.
    injection Hx as <-. cbn. rewrite (sumz_insert _ _ _ _ _ F). cbn. lia.
  - destruct m; [done|]. injection Hx as <-. cbn. lia.
  - destruct (nd =? 0) eqn:E; injection Hx as <-; cbn; bprop; [lia|].
    destruct (nd >? 0) eqn:E'; bprop; lia.
  - destruct m; [done|]. injection Hx as <-. cbn. lia.
  - destruct (l !! i) as [t|] eqn:Ht.
    + apply lookup_lt_Some in Ht. destruct (f_done t); injection Hx as <-; cbn; lia.
    + injection Hx as <-. cbn in *. subst nd. destruct (_ >? 0) eqn:E; bprop; lia.
  - destruct (l !! i) as [t|] eqn:Ht; [|done]. destruct t; try done. injection Hx as <-. cbn.
    pose proof (sumz_lookup counted _ _ _ ltac:(intros x; pose proof (web_weights x); lia) Ht) as Hc.
    rewrite (sumz_insert _ _ _ _ _ Ht). apply lookup_lt_Some in Ht. cbn in *.
    destruct (nd >? 0) eqn:E, (nd - 1 >? 0) eqn:E'; bprop; lia.
  - injection Hx as <-. cbn. lia.
Qed.

Lemma work_web s e s' : inv s -> 0 < maxnconn -> exec s e = Some s' ->
  work s' <= work s - 1 + 3 * b2z (is_spurious e).
Proof.
  intros I Hmax Hx. pose proof (exec_size _ _ _ Hx) as Hsz. destruct e as [i| |]; cbn in *.
  - pose proof (work_thread _ _ _ I Hx Hsz). lia.
  - pose proof (work_main _ _ I Hmax Hx Hsz). lia.
  - unfold work. rewrite Hsz. destruct (mp s); try done. injection Hx as <-. cbn. lia.
Qed.

Lemma work_web_nonneg s : 0 <= work s.
Proof.
  unfold work. assert (Hr : 0 <= r0 (size s)) by (unfold r0; lia). revert Hr. generalize (r0 (size s)). intros r Hr.
  assert (0 <= sumz (rank r) (file s)).
  { induction (file s) as [|t l IH]; [done|]. rewrite sumz_cons. destruct t; cbn in *; lia. }
  assert (0 <= m_rank r (size s) (ndone s) (mp s)); [|lia].
  destruct (mp s); cbn; try lia; destruct (_ >? 0); lia.
Qed.

Lemma web_run es : forall s s', 0 < maxnconn -> inv s -> run s es = Some s' ->
  inv s' /\ size s' = size s /\ work s' <= work s - Z.of_nat (length es) + 3 * cnt is_spurious es /\
  (deadlocked s -> deadlocked s').
Proof.
  induction es as [|e es IH]; intros s s' Hmax I Hr; cbn in Hr.
  { injection Hr as <-. rewrite cnt_nil. cbn. split; [done|]. split; [done|]. split; [lia|done]. }
  destruct (exec s e) as [s1|] eqn:Hx; [|done]. cbn in Hr.
  pose proof (work_web _ _ _ I Hmax Hx). pose proof (exec_size _ _ _ Hx) as Hsz.
  destruct (IH s1 s' Hmax (web_inv_exec _ _ _ Hmax I Hx) Hr) as (I' & Hl & Hw & Hd).
  rewrite cnt_cons. cbn [length]. split; [done|]. split; [congruence|]. split; [lia|].
  intros D. apply Hd. by apply (deadlocked_exec s e).
Qed.
End Program.

(** C14: any number of files over at most [maxnconn] > 0 threads, in every
    interleaving, spurious wake-ups included: main always finds a file to start and
    its counters stay exact; apart from three for each spurious wake-up the number of
    steps is bounded in advance; and while no step is possible main has joined every
    thread and left, or main waits in pthread_join, with the mutex, for a thread that
    has set F_DONE and waits for the mutex.  From the latter no execution leads away;
    with one connection at a time it is never reached. *)
Theorem web_threads maxnconn nfiles es s :
  0 < maxnconn -> run maxnconn (main nfiles) es = Some s ->
  mp s <> MQuit /\
  0 <= nconn s <= maxnconn /\ nconn s = sumz created (file s) /\ nlefttoread s = sumz unread (file s) /\
  Z.of_nat (length es) <= Z.of_nat nfiles * (2 * Z.of_nat nfiles + 19) + 7 + 3 * cnt is_spurious es /\
  ((exists e, e <> ESpurious /\ is_Some (exec maxnconn s e)) \/
   (mp s = MExit /\ Forall (fun t => t = TJoined) (file s)) \/ deadlocked s) /\
  (maxnconn = 1 -> ~ deadlocked s) /\
  (deadlocked s -> forall es' s', run maxnconn s es' = Some s' -> deadlocked s').
Proof.
  intros Hmax Hr.
  destruct (web_run maxnconn es _ s Hmax (web_inv_main maxnconn nfiles ltac:(lia)) Hr) as (I & Hsz & Hw & _).
  pose proof (work_web_nonneg s). pose proof (web_sums (file s)). pose proof (placed _ _ I) as Hp.
  destruct (conn_count _ _ I) as [Hc Hc']. pose proof (toread_count _ _ I) as Hl. unfold m_fits in Hp.
  split; [intros E; by rewrite E in Hp|]. split; [lia|]. split; [done|]. split; [done|]. split.
  { unfold work at 2, size, r0 in Hw. cbn in Hw. rewrite sumz_replicate, length_replicate in Hw. cbn in Hw. lia. }
  split; [|split; [by apply deadlocked_not_alone|]].
  2: { intros D es' s' Hr'. by apply (web_run maxnconn es' s s' Hmax I Hr'). }
  destruct (main_step maxnconn s) eqn:Em.
  { left. exists EMain. cbn. by rewrite Em. }
  destruct (decide (Exists (fun i => is_Some (do_get_read s i)) (seq 0 (size s)))) as [E|E].
  { left. apply Exists_exists in E as (i & _ & Hi). by exists (EThread i). }
  right. destruct (web_stuck maxnconn s I) as [Hx|Hx]; [|done| |by right].
  - intros i. destruct (do_get_read s i) eqn:Ei; [|done]. destruct E.
    apply Exists_exists. exists i. split; [|by rewrite Ei]. apply elem_of_seq.
    unfold do_get_read in Ei. destruct (file s !! i) eqn:Ht; [|done]. apply lookup_lt_Some in Ht. unfold size. lia.
  - left. split; [done|]. rewrite Hx in Hp. apply Forall_lookup_2. intros i t Hi.
    pose proof (sumz_lookup unread _ _ _ ltac:(intros x; pose proof (web_weights x); lia) Hi) as Hu.
    destruct t; cbn in Hu; try done; lia.
Qed.

(** Two files, two connections: both threads set F_DONE, the first counts itself and
    returns; main joins it and then waits for the second for ever. *)
Definition deadlock_schedule : list event :=
  [EMain; EMain; EMain; EMain; EThread 0; EThread 0; EThread 0; EThread 0; EThread 0;
   EThread 1; EMain; EMain; EMain; EMain; EMain].

Lemma web_threads_witness :
  exists s, run 2 (main 2) deadlock_schedule = Some s /\ deadlocked s /\
    (forall es' s', run 2 s es' = Some s' -> deadlocked s').
Proof.
  assert (H : exists s, run 2 (main 2) deadlock_schedule = Some s /\ deadlocked s).
  { eexists. split; [vm_compute; reflexivity|]. exists 1%nat. split; reflexivity. }
  destruct H as (s & Hr & D). exists s. split; [exact Hr|]. split; [exact D|].
  apply (web_threads 2 2 deadlock_schedule s); [lia|exact Hr|exact D].
Defined.

End WebThreads.
