(* ===== verification/Traced.v ===== *)
(** * Functions that leave a trace

    The loops of servers and clients change a state, do visible things (bytes sent,
    connections closed) and may end the process.  Such a function returns an
    [outcome] of its result with the list of what it did; [andthen] composes two
    of them, and [post] is what holds of the result and the trace, or of the way
    the process stops. *)

From S2P Require Import Prelude.

Definition traced (E A : Type) : Type := outcome (A * list E).

(** How a run ends other than by returning. *)
Inductive stop := Failed (e : errno) | Exited (code : Z) | Aborted | Waits.

Section Traced.
Context {E : Type}.

Definition done_with {A} (a : A) : traced E A := Ret (a, []).
Definition emit (ev : list E) : traced E unit := Ret (tt, ev).

Definition andthen {A B} (o : traced E A) (k : A -> traced E B) : traced E B :=
  match o with
  | Ret (a, ev) =>
      match k a with
      | Ret (b, ev') => Ret (b, ev ++ ev')
      | Fail e => Fail e | Exit c => Exit c | Abort => Abort | Blocked => Blocked
      end
  | Fail e => Fail e | Exit c => Exit c | Abort => Abort | Blocked => Blocked
  end.

Definition post {A} (T : stop -> Prop) (o : traced E A) (Q : A -> list E -> Prop) : Prop :=
  match o with
  | Ret (a, ev) => Q a ev
  | Fail e => T (Failed e) | Exit c => T (Exited c) | Abort => T Aborted | Blocked => T Waits
  end.

Lemma post_done {A} T (a : A) (Q : A -> list E -> Prop) : Q a [] -> post T (done_with a) Q.
Proof. done. Qed.

Lemma post_emit T ev (Q : unit -> list E -> Prop) : Q tt ev -> post T (emit ev) Q.
Proof. done. Qed.

Lemma post_mono {A} (T : stop -> Prop) (o : traced E A) (Q Q' : A -> list E -> Prop) :
  post T o Q -> (forall a ev, Q a ev -> Q' a ev) -> post T o Q'.
Proof. intros H HQ. destruct o as [[a ev]|e|c| |]; try exact H. by apply HQ. Qed.

Lemma post_stop {A} (T T' : stop -> Prop) (o : traced E A) (Q : A -> list E -> Prop) :
  post T o Q -> (forall x, T x -> T' x) -> post T' o Q.
Proof. intros H HT. destruct o as [[a ev]|e|c| |]; try exact H; by apply HT. Qed.

Lemma post_andthen {A B} T (o : traced E A) (k : A -> traced E B) (Q : B -> list E -> Prop) :
  post T o (fun a ev => post T (k a) (fun b ev' => Q b (ev ++ ev'))) -> post T (andthen o k) Q.
Proof.
  intros H. destruct o as [[a ev]|e|c| |]; try exact H. simpl in *.
  destruct (k a) as [[b ev']|e|c| |]; exact H.
Qed.

Lemma post_ret {A} T (o : traced E A) (Q : A -> list E -> Prop) a ev :
  post T o Q -> o = Ret (a, ev) -> Q a ev.
Proof. by intros H ->. Qed.

Lemma post_eq {A} T (o : traced E A) (Q : A -> list E -> Prop) :
  post T o Q -> post T o (fun a ev => o = Ret (a, ev) /\ Q a ev).
Proof. by destruct o as [[a ev]|e|c| |]. Qed.

Lemma andthen_done_l {A B} (a : A) (k : A -> traced E B) : andthen (done_with a) k = k a.
Proof. simpl. by destruct (k a) as [[b ev]|e|c| |]. Qed.

Lemma andthen_assoc {A B C} (o : traced E A) (k : A -> traced E B) (h : B -> traced E C) :
  andthen (andthen o k) h = andthen o (fun a => andthen (k a) h).
Proof.
  destruct o as [[a ev]|e|c| |]; try done. simpl.
  destruct (k a) as [[b ev']|e|c| |]; try done. simpl.
  destruct (h b) as [[d ev2]|e|c| |]; try done. by rewrite app_assoc.
Qed.
End Traced.

Declare Scope traced_scope.
Delimit Scope traced_scope with traced.
Notation "x ⇐ o ; k" := (andthen o (fun x => k))
  (at level 20, o at level 100, k at level 200, right associativity) : traced_scope.
Notation "o ;; k" := (andthen o (fun _ => k))
  (at level 100, k at level 200, right associativity) : traced_scope.

#[global] Arguments andthen : simpl never.
#[global] Arguments post : simpl never.


Create HintDb traced.
#[export] Hint Resolve post_done post_emit : traced.
