(* ===== verification/WebSelect.v ===== *)
(** * Fetching several files with nonblocking connects

    Model of unpv13e/nonblock: web.c, start_connect.c, write_get_cmd.c and web.h.  A
    round is one pass of main's loop: as many connects as the limit allows, a
    select(), and a look at every file.  The descriptor sets are [gset Z]; what the
    kernel answers in a round is [answers]; the trace holds the requests sent, the
    data read and the connections found at the end of file. *)

From S2P Require Import Prelude RobustIO SelectServer Traced.
Import RobustIO(read_result(..)).

Module WebSelect.
Local Open Scope traced_scope.

Definition MAXFILES : nat := 20.
Definition MAXLINE : Z := 4096.
Definition EINPROGRESS : errno := Eother 115.

Inductive flag := FNone | F_CONNECTING | F_READING | F_DONE.
Record entry := File { f_name : list Z; f_fd : Z; f_flags : flag }.
Record state := St {
  file : list entry; rset : gset Z; wset : gset Z; maxfd : Z;
  nconn : Z; nlefttoconn : Z; nlefttoread : Z }.

Inductive event :=
| Sent (i : nat) (l : list Z)
| ConnectFailed (i : nat)
| Data (i : nat) (l : list Z)
| Eof (i : nat).

Record answers := Answers {
  a_socket : nat -> bool;             (* Host_serv, Socket and Fcntl succeed *)
  a_connect : nat -> option errno;    (* [None]: connected at once *)
  a_write : nat -> bool;              (* Writen succeeds *)
  a_select : option (gset Z * gset Z);
  a_sockerr : nat -> bool;            (* getsockopt() tells that the connect failed *)
  a_read : nat -> read_result }.

(** GET_CMD: "GET ", the name, " HTTP/1.0" and two line ends. *)
Definition get_cmd (name : list Z) : list Z :=
  [71; 69; 84; 32] ++ name ++ [32; 72; 84; 84; 80; 47; 49; 46; 48; 13; 10; 13; 10].
#[global] Arguments get_cmd : simpl never.

Definition is_open (f : entry) : bool := match f_flags f with F_CONNECTING | F_READING => true | _ => false end.
Definition is_connecting (f : entry) : bool := match f_flags f with F_CONNECTING => true | _ => false end.

(** The descriptors of the files a predicate selects. *)
Definition fds (p : entry -> bool) (l : list entry) : gset Z := list_to_set (f_fd <$> List.filter p l).
#[global] Arguments fds : simpl never.

Definition FD_CLR (fd : Z) (s : gset Z) : gset Z := s ∖ {[fd]}.

Fixpoint find_file (l : list entry) : option nat :=
  match l with
  | [] => None
  | f :: l' => match f_flags f with FNone => Some 0%nat | _ => S <$> find_file l' end
  end.

Section Program.
(** The descriptor the kernel gives to a process that has these open. *)
Context (newfd : gset Z -> Z) (maxnconn : Z).

Definition set_file (s : state) (i : nat) (f : entry) : state :=
  St (<[i := f]> (file s)) (rset s) (wset s) (maxfd s) (nconn s) (nlefttoconn s) (nlefttoread s).
Definition set_sets (s : state) (r w : gset Z) (m : Z) : state :=
  St (file s) r w m (nconn s) (nlefttoconn s) (nlefttoread s).

Definition raise (m fd : Z) : Z := if fd >? m then fd else m.

(** snprintf() into [line] and Writen() of the number of bytes it returned: more than
    MAXLINE bytes are not there. *)
Definition write_get_cmd (a : answers) (s : state) (i : nat) : traced event state :=
  match file s !! i with
  | None => Abort
  | Some f =>
      let cmd := get_cmd (f_name f) in
      let n := Z.of_nat (length cmd) in
      let line := take (Z.to_nat (MAXLINE - 1)) cmd ++ [0] in
      if n >? MAXLINE then Abort
      else if negb (a_write a i) then Exit 1
      else match FD_SET (f_fd f) (rset s) with
      | None => Abort
      | Some r =>
          Ret (set_sets (set_file s i (File (f_name f) (f_fd f) F_READING)) r (wset s) (raise (maxfd s) (f_fd f)),
               [Sent i (take (Z.to_nat n) line)])
      end
  end.

Definition start_connect (a : answers) (s : state) (i : nat) : traced event state :=
  match file s !! i with
  | None => Abort
  | Some f =>
      if negb (a_socket a i) then Exit 1 else
      let fd := newfd (fds is_open (file s)) in
      match a_connect a i with
      | Some e =>
          if negb (bool_decide (e = EINPROGRESS)) then Exit 1
          else match FD_SET fd (rset s), FD_SET fd (wset s) with
          | Some r, Some w =>
              done_with (set_sets (set_file s i (File (f_name f) fd F_CONNECTING)) r w (raise (maxfd s) fd))
          | _, _ => Abort
          end
      | None => write_get_cmd a (set_file s i (File (f_name f) fd (f_flags f))) i
      end
  end.

(** Lines 33 to 43, with [fuel] files left to connect to. *)
Fixpoint start_all (a : answers) (fuel : nat) (s : state) : traced event state :=
  match fuel with
  | O => done_with s
  | S k =>
      if (nconn s <? maxnconn) && (nlefttoconn s >? 0) then
        match find_file (file s) with
        | None => Exit 1
        | Some i =>
            s1 ⇐ start_connect a s i;
            start_all a k (St (file s1) (rset s1) (wset s1) (maxfd s1)
                             (nconn s1 + 1) (nlefttoconn s1 - 1) (nlefttoread s1))
        end
      else done_with s
  end.

(** The body of the loop of lines 49 to 79. *)
Definition serve_file (a : answers) (rs ws : gset Z) (s : state) (i : nat) : traced event state :=
  match file s !! i with
  | None => Abort
  | Some f =>
      let fd := f_fd f in
      match f_flags f with
      | FNone | F_DONE => done_with s
      | F_CONNECTING =>
          if bool_decide (fd ∈ rs) || bool_decide (fd ∈ ws) then
            emit (if a_sockerr a i then [ConnectFailed i] else []);;
            write_get_cmd a (set_sets s (rset s) (FD_CLR fd (wset s)) (maxfd s)) i
          else done_with s
      | F_READING =>
          if bool_decide (fd ∈ rs) then
            match a_read a i with
            | Got [] =>
                let l := <[i := File (f_name f) fd F_DONE]> (file s) in
                Ret (St l (FD_CLR fd (rset s)) (wset s) (maxfd s)
                       (nconn s - 1) (nlefttoconn s) (nlefttoread s - 1), [Eof i])
            | Got l => Ret (s, [Data i l])
            | RError _ | RWait => Exit 1          (* the socket does not block *)
            end
          else done_with s
      end
  end.

Fixpoint serve_from (a : answers) (rs ws : gset Z) (k i : nat) (s : state) : traced event state :=
  match k with
  | O => done_with s
  | S k' => s1 ⇐ serve_file a rs ws s i; serve_from a rs ws k' (S i) s1
  end.

Definition round (a : answers) (s : state) : traced event state :=
  s1 ⇐ start_all a (Z.to_nat (nlefttoconn s)) s;
  match a_select a with
  | None => Exit 1
  | Some (r, w) => serve_from a (rset s1 ∩ r) (wset s1 ∩ w) (length (file s1)) 0 s1
  end.

Fixpoint run (l : list answers) (s : state) : traced event state :=
  match l with
  | [] => done_with s
  | a :: l' => if nlefttoread s >? 0 then s1 ⇐ round a s; run l' s1 else done_with s
  end.

Definition main (names : list (list Z)) : state :=
  let nfiles := Z.of_nat (length names) in
  St (map (fun n => File n 0 FNone) names) ∅ ∅ (-1) 0 nfiles nfiles.

(** ** The table of connections *)

Lemma elem_of_fds p l fd : fd ∈ fds p l <-> exists i f, l !! i = Some f /\ p f = true /\ f_fd f = fd.
Proof.
  unfold fds. rewrite elem_of_list_to_set, list_elem_of_fmap. split.
  - intros (f & -> & Hf). apply list_elem_of_In, filter_In in Hf as [Hf Hp].
    apply list_elem_of_In, list_elem_of_lookup in Hf as [i Hi]. eauto.
  - intros (i & f & Hi & Hp & <-). exists f. split; [done|].
    apply list_elem_of_In, filter_In. split; [|done]. by eapply list_elem_of_In, list_elem_of_lookup_2.
Qed.

Lemma size_fds p l : (size (fds p l) <= length l)%nat.
Proof.
  induction l as [|f l IH]; [done|]. unfold fds in *. cbn [List.filter length].
  destruct (p f); cbn [fmap list_fmap]; [|lia]. rewrite list_to_set_cons.
  rewrite size_union_alt, size_singleton.
  assert (H := subseteq_size (list_to_set (f_fd <$> List.filter p l) ∖ {[f_fd f]} : gset Z) _ ltac:(apply subseteq_difference_l; reflexivity)). lia.
Qed.

(** No two open connections have the same descriptor. *)
Definition distinct (l : list entry) : Prop := forall i j f g,
  l !! i = Some f -> l !! j = Some g -> is_open f = true -> is_open g = true -> f_fd f = f_fd g -> i = j.

Lemma fds_insert p l i f f' :
  (forall g, p g = true -> is_open g = true) -> distinct l -> l !! i = Some f ->
  fds p (<[i := f']> l) =
    (if p f' then {[f_fd f']} else ∅) ∪ (fds p l ∖ (if p f then {[f_fd f]} else ∅)).
Proof.
  intros Hp Hd Hi. assert (Hlt : (i < length l)%nat) by (by eapply lookup_lt_Some).
  apply set_eq. intros fd. rewrite elem_of_union, elem_of_difference, !elem_of_fds. split.
  - intros (j & g & Hj & Hg & <-). destruct (decide (i = j)) as [<-|Hij].
    + rewrite list_lookup_insert_eq in Hj by done. injection Hj as <-. left. rewrite Hg. set_solver.
    + rewrite list_lookup_insert_ne in Hj by done. right. split; [by eauto|].
      destruct (p f) eqn:Ef; [|set_solver]. rewrite elem_of_singleton. intros E. destruct Hij.
      eapply Hd; eauto.
  - intros [H|[(j & g & Hj & Hg & <-) Hn]].
    + destruct (p f') eqn:Ef; [|set_solver]. apply elem_of_singleton in H as ->.
      exists i, f'. by rewrite list_lookup_insert_eq.
    + exists j, g. split; [|done]. rewrite list_lookup_insert_ne; [done|]. intros <-.
      rewrite Hi in Hj. injection Hj as <-. rewrite Hg in Hn. set_solver.
Qed.

Definition is_new (f : entry) : bool := match f_flags f with FNone => true | _ => false end.
Definition is_done (f : entry) : bool := match f_flags f with F_DONE => true | _ => false end.
Definition unread (f : entry) : bool := negb (is_done f).

(** What a trace says about one file. *)
Definition sent_to (i : nat) (ev : list event) : list (list Z) :=
  omap (fun e => match e with Sent j l => if decide (j = i) then Some l else None | _ => None end) ev.
Definition eofs (i : nat) (ev : list event) : Z :=
  cnt (fun e => match e with Eof j => bool_decide (j = i) | _ => false end) ev.

#[global] Arguments sent_to : simpl never.
#[global] Arguments eofs : simpl never.

Definition request (f : entry) : list (list Z) :=
  match f_flags f with F_READING | F_DONE => [get_cmd (f_name f)] | _ => [] end.

Record inv (names : list (list Z)) (s : state) (ev : list event) : Prop := Inv {
  i_r : rset s = fds is_open (file s);
  i_w : wset s = fds is_connecting (file s);
  i_distinct : distinct (file s);
  i_max : forall fd, fd ∈ rset s -> 0 <= fd < FD_SETSIZE /\ fd <= maxfd s;
  i_conn : nconn s = cnt is_open (file s) /\ nconn s <= Z.max 0 maxnconn;
  i_toconn : nlefttoconn s = cnt is_new (file s);
  i_toread : nlefttoread s = cnt unread (file s);
  i_names : f_name <$> file s = names;
  i_sent : forall i f, file s !! i = Some f -> sent_to i ev = request f;
  i_eofs : forall i f, file s !! i = Some f -> eofs i ev = b2z (is_done f) }.

Lemma open_connecting g : is_connecting g = true -> is_open g = true.
Proof. unfold is_connecting, is_open. by destruct (f_flags g). Qed.

(** One file changes its state, and the sets and counters follow. *)
Lemma web_update names s ev i f f' r w m nc nl nr ev' :
  inv names s ev -> file s !! i = Some f -> f_name f' = f_name f ->
  (is_open f' = true -> 0 <= f_fd f' < FD_SETSIZE /\ f_fd f' <= m /\
     (f_fd f' ∉ rset s \/ (is_open f = true /\ f_fd f' = f_fd f))) ->
  r = (if is_open f' then {[f_fd f']} else ∅) ∪ (rset s ∖ (if is_open f then {[f_fd f]} else ∅)) ->
  w = (if is_connecting f' then {[f_fd f']} else ∅) ∪ (wset s ∖ (if is_connecting f then {[f_fd f]} else ∅)) ->
  maxfd s <= m ->
  nc = nconn s - b2z (is_open f) + b2z (is_open f') -> nc <= Z.max 0 maxnconn ->
  nl = nlefttoconn s - b2z (is_new f) + b2z (is_new f') ->
  nr = nlefttoread s - b2z (unread f) + b2z (unread f') ->
  (forall j, sent_to j ev' = if decide (j = i) then drop (length (request f)) (request f') else []) ->
  request f = take (length (request f)) (request f') ->
  (forall j, eofs j ev' = if decide (j = i) then b2z (is_done f') - b2z (is_done f) else 0) ->
  inv names (St (<[i := f']> (file s)) r w m nc nl nr) (ev ++ ev').
Proof.
  intros [Hr Hw Hd Hm [Hc Hcm] Hl Hn Hnm Hs He] Hi Hname Hfd Er Ew Hmx Ec Hc' El En Hs' Hrq He'.
  assert (Hlt : (i < length (file s))%nat) by (by eapply lookup_lt_Some).
  assert (Hlk : forall j g, <[i := f']> (file s) !! j = Some g ->
      (j = i /\ g = f') \/ (j <> i /\ file s !! j = Some g)).
  { intros j g Hj. destruct (decide (j = i)) as [->|Hne].
    - rewrite list_lookup_insert_eq in Hj by done. injection Hj as <-. by left.
    - rewrite list_lookup_insert_ne in Hj by done. by right. }
  constructor; cbn.
  - rewrite (fds_insert is_open _ _ f) by done. by rewrite Er, Hr.
  - rewrite (fds_insert is_connecting _ _ f) by (done || apply open_connecting). by rewrite Ew, Hw.
  - assert (Hne : forall j g, j <> i -> file s !! j = Some g -> is_open g = true -> is_open f' = true -> f_fd g <> f_fd f').
    { intros j g Hji Hj Hg Hf' E. destruct (Hfd Hf') as (_ & _ & [H|[H1 H2]]).
      - destruct H. rewrite Hr. apply elem_of_fds. eauto.
      - destruct Hji. eapply Hd; eauto. congruence. }
    intros j k g h Hj Hk Hg Hh E.
    destruct (Hlk _ _ Hj) as [[-> ->]|[Hj1 Hj2]], (Hlk _ _ Hk) as [[-> ->]|[Hk1 Hk2]]; [done|..].
    + exfalso. by apply (Hne k h).
    + exfalso. by apply (Hne j g).
    + by eapply (Hd j k).
  - intros fd. rewrite Er, elem_of_union, elem_of_difference. intros [H|[H _]].
    + destruct (is_open f') eqn:E; [|set_solver]. apply elem_of_singleton in H as ->. by destruct (Hfd eq_refl) as (? & ? & _).
    + specialize (Hm fd H). lia.
  - rewrite (cnt_insert _ _ _ f f') by done. rewrite Ec, Hc in *. lia.
  - rewrite (cnt_insert _ _ _ f f') by done. by rewrite El, Hl.
  - rewrite (cnt_insert _ _ _ f f') by done. by rewrite En, Hn.
  - rewrite list_fmap_insert, Hnm. apply list_insert_id. by rewrite <- Hnm, list_lookup_fmap, Hi, Hname.
  - intros j g Hj. unfold sent_to in *. rewrite omap_app, Hs'.
    destruct (Hlk _ _ Hj) as [[-> ->]|[Hj1 Hj2]].
    + rewrite decide_True, (Hs _ _ Hi), Hrq at 1 by done. apply take_drop.
    + rewrite decide_False, app_nil_r by done. by apply Hs.
  - intros j g Hj. unfold eofs in *. rewrite cnt_app, He'.
    destruct (Hlk _ _ Hj) as [[-> ->]|[Hj1 Hj2]].
    + rewrite decide_True, (He _ _ Hi) by done. lia.
    + rewrite decide_False, (He _ _ Hj2) by done. lia.
Qed.

Lemma inv_main names : inv names (main names) [].
Proof.
  unfold main. constructor; cbn.
  - apply set_eq. intros fd. rewrite elem_of_fds. split; [set_solver|]. intros (i & f & Hi & Hf & _).
    apply list_lookup_fmap_Some in Hi as (n & -> & _). done.
  - apply set_eq. intros fd. rewrite elem_of_fds. split; [set_solver|]. intros (i & f & Hi & Hf & _).
    apply list_lookup_fmap_Some in Hi as (n & -> & _). done.
  - intros i j f g Hi _ Hf. apply list_lookup_fmap_Some in Hi as (n & -> & _). done.
  - set_solver.
  - split; [|lia]. induction names as [|n l IH]; [done|]. cbn. by rewrite cnt_cons, <- IH.
  - induction names as [|n l IH]; [done|]. cbn [map length]. rewrite cnt_cons, <- IH. cbn. lia.
  - induction names as [|n l IH]; [done|]. cbn [map length]. rewrite cnt_cons, <- IH. cbn. lia.
  - induction names as [|n l IH]; [done|]. cbn. by f_equal.
  - intros i f Hi. apply list_lookup_fmap_Some in Hi as (n & -> & _). done.
  - intros i f Hi. apply list_lookup_fmap_Some in Hi as (n & -> & _). done.
Qed.

Lemma fds_nonempty p l : 0 < cnt p l -> fds p l <> ∅.
Proof.
  intros (i & f & Hi & Hp)%cnt_pos E. assert (H : f_fd f ∈ fds p l) by (apply elem_of_fds; eauto).
  rewrite E in H. set_solver.
Qed.

Lemma unread_split l : cnt unread l = cnt is_open l + cnt is_new l.
Proof.
  induction l as [|f l IH]; [done|]. rewrite !cnt_cons, IH. unfold unread, is_done, is_open, is_new.
  destruct (f_flags f); cbn; lia.
Qed.
(** ** What one round does *)

(** No call fails that ends the program. *)
Definition fine (a : answers) : Prop :=
  (forall i, a_socket a i = true /\ (a_connect a i = None \/ a_connect a i = Some EINPROGRESS) /\
     a_write a i = true /\ exists l, a_read a i = Got l) /\ a_select a <> None.

Definition gives_up (a : answers) (x : stop) : Prop := x = Exited 1 /\ ~ fine a.

Definition fits_line (name : list Z) : Prop := Z.of_nat (length (get_cmd name)) < MAXLINE.

Context (newfd_fresh : forall X, newfd X ∉ X)
  (newfd_range : forall X, (size X <= MAXFILES)%nat -> 0 <= newfd X < FD_SETSIZE).

Definition reading (s : state) (i : nat) (f : entry) : state :=
  set_sets (set_file s i (File (f_name f) (f_fd f) F_READING)) ({[f_fd f]} ∪ rset s) (wset s) (raise (maxfd s) (f_fd f)).

Lemma write_get_cmd_post a s i f :
  file s !! i = Some f -> fits_line (f_name f) -> 0 <= f_fd f < FD_SETSIZE ->
  post (gives_up a) (write_get_cmd a s i) (fun s' ev => s' = reading s i f /\ ev = [Sent i (get_cmd (f_name f))]).
Proof.
  intros Hi Hfit Hfd. unfold write_get_cmd. rewrite Hi. cbn zeta. unfold fits_line in Hfit.
  destruct (_ >? MAXLINE) eqn:E; [bprop; lia|].
  destruct (a_write a i) eqn:Ew; cbn [negb].
  - rewrite FD_SET_ok by done. cbn. split; [done|]. do 2 f_equal.
    rewrite Nat2Z.id, (take_ge _ (Z.to_nat (MAXLINE - 1))) by (unfold MAXLINE in *; lia). apply take_app_length.
  - cbn. split; [done|]. intros [Hf _]. destruct (Hf i) as (_ & _ & H & _). congruence.
Qed.

Lemma eofs_sent j i k l : eofs j [Sent k l] = if decide (j = i) then 0 - 0 else 0.
Proof. by destruct (decide (j = i)). Qed.

Lemma sent_to_nil j i : sent_to j (@nil event) = if decide (j = i) then [] else [].
Proof. by destruct (decide (j = i)). Qed.

Lemma sent_to_one j i l : sent_to j [Sent i l] = if decide (j = i) then [l] else [].
Proof. unfold sent_to. cbn. destruct (decide (i = j)) as [->|]; [by rewrite decide_True|by rewrite decide_False by congruence]. Qed.

Lemma eofs_one j i : eofs j [Eof i] = if decide (j = i) then 1 else 0.
Proof.
  unfold eofs. rewrite cnt_cons, cnt_nil. destruct (decide (j = i)) as [->|]; cbn.
  - by rewrite bool_decide_eq_true_2.
  - by rewrite bool_decide_eq_false_2 by congruence.
Qed.

Lemma if_same {A} (b : bool) (x : A) : (if b then x else x) = x.
Proof. by destruct b. Qed.

Definition counted (s : state) : state :=
  St (file s) (rset s) (wset s) (maxfd s) (nconn s + 1) (nlefttoconn s - 1) (nlefttoread s).

Lemma raise_le m fd : m <= raise m fd /\ fd <= raise m fd.
Proof. unfold raise. destruct (fd >? m) eqn:E; bprop; lia. Qed.

Lemma start_connect_post a names s ev i f :
  inv names s ev -> file s !! i = Some f -> f_flags f = FNone -> fits_line (f_name f) ->
  nconn s < maxnconn -> (length (file s) <= MAXFILES)%nat ->
  post (gives_up a) (start_connect a s i) (fun s' ev' => inv names (counted s') (ev ++ ev') /\
    nlefttoconn s' = nlefttoconn s /\ nlefttoread s' = nlefttoread s).
Proof.
  intros I Hi Hn Hfit Hc Hlen. unfold start_connect. rewrite Hi.
  destruct (a_socket a i) eqn:Es; cbn [negb].
  2: { cbn. split; [done|]. intros [Hf _]. destruct (Hf i) as (H & _). congruence. }
  cbn zeta. set (fd := newfd (fds is_open (file s))).
  assert (Hr : 0 <= fd < FD_SETSIZE) by (apply newfd_range; pose proof (size_fds is_open (file s)); lia).
  assert (Hfr : fd ∉ rset s) by (rewrite (i_r _ _ _ I); apply newfd_fresh).
  assert (Hlt : (i < length (file s))%nat) by (by eapply lookup_lt_Some).
  pose proof (raise_le (maxfd s) fd).
  assert (Hu : forall fl r w ev', (fl = F_CONNECTING /\ w = {[fd]} ∪ wset s /\ ev' = []) \/
      (fl = F_READING /\ w = wset s /\ ev' = [Sent i (get_cmd (f_name f))]) -> r = {[fd]} ∪ rset s ->
    inv names (St (<[i := File (f_name f) fd fl]> (file s)) r w (raise (maxfd s) fd)
      (nconn s + 1) (nlefttoconn s - 1) (nlefttoread s)) (ev ++ ev')).
  { intros fl r w ev' Hcase ->. eapply (web_update names s ev i f); try done.
    all: unfold is_open, is_connecting, is_new, unread, is_done, request; cbn [f_fd f_flags f_name]; rewrite ?Hn;
      destruct Hcase as [(-> & -> & ->)|(-> & -> & ->)]; cbn; try done; try lia.
    all: try (by rewrite ?difference_empty_L, ?union_empty_l_L).
    all: try (intros _; split; [done|split; [lia|by left]]).
    all: intros j; rewrite ?(sent_to_nil _ i), ?sent_to_one; try (by destruct (decide (j = i))). }
  destruct (a_connect a i) as [e|] eqn:Ec.
  - destruct (bool_decide (e = EINPROGRESS)) eqn:Ee; cbn [negb].
    + rewrite !FD_SET_ok by done. unfold counted. cbn. split; [|done]. apply Hu; [by left|done].
    + cbn. split; [done|]. bprop. intros [Hf _]. destruct (Hf i) as (_ & [H1|H1] & _); congruence.
  - eapply post_mono.
    + apply (write_get_cmd_post a _ i (File (f_name f) fd (f_flags f))); cbn; [|done|done].
      by rewrite list_lookup_insert_eq.
    + intros s' ev' [-> ->]. unfold counted, reading. cbn. rewrite list_insert_insert_eq.
      split; [|done]. apply Hu; [by right|done].
Qed.

Lemma find_file_spec l : match find_file l with
  | Some i => exists f, l !! i = Some f /\ f_flags f = FNone | None => cnt is_new l = 0 end.
Proof.
  induction l as [|f l IH]; [done|]. cbn [find_file].
  destruct (f_flags f) eqn:E; [by exists f|..]; destruct (find_file l) as [i|]; cbn; try done;
    rewrite cnt_cons, IH; unfold is_new; by rewrite E.
Qed.

Lemma inv_length names s ev : inv names s ev -> length (file s) = length names.
Proof. intros I. rewrite <- (i_names _ _ _ I). by rewrite length_fmap. Qed.

Lemma inv_fits names s ev i f : inv names s ev -> Forall fits_line names -> file s !! i = Some f -> fits_line (f_name f).
Proof.
  intros I Hf Hi. eapply (Forall_lookup_1 _ _ i); [exact Hf|]. rewrite <- (i_names _ _ _ I).
  by rewrite list_lookup_fmap, Hi.
Qed.

Lemma start_all_post a names k : forall s ev, inv names s ev -> Forall fits_line names -> (length names <= MAXFILES)%nat ->
  nlefttoconn s <= Z.of_nat k ->
  post (gives_up a) (start_all a k s) (fun s' ev' => inv names s' (ev ++ ev') /\
    nlefttoread s' = nlefttoread s /\ (nconn s' < maxnconn -> nlefttoconn s' <= 0)).
Proof.
  induction k as [|k IH]; intros s ev I Hf Hlen Hk.
  { apply post_done. rewrite app_nil_r. split; [done|]. split; [done|]. lia. }
  cbn [start_all]. destruct ((nconn s <? maxnconn) && (nlefttoconn s >? 0)) eqn:E.
  2: { apply post_done. rewrite app_nil_r. split; [done|]. split; [done|]. apply andb_false_iff in E as [E|E]; bprop; lia. }
  bprop. pose proof (find_file_spec (file s)) as Hs. destruct (find_file (file s)) as [i|].
  2: { pose proof (i_toconn _ _ _ I). lia. }
  destruct Hs as (f & Hi & Hn). pose proof (inv_length _ _ _ I) as HL. apply post_andthen.
  eapply post_mono.
  { apply (start_connect_post a names s ev i f); try done; [by eapply inv_fits|lia]. }
  intros s1 ev1 (I1 & E1 & E2). change (St _ _ _ _ _ _ _) with (counted s1).
  eapply post_mono; [apply (IH (counted s1) (ev ++ ev1)); try done; cbn; lia|].
  intros s2 ev2 (I2 & E3 & E4). rewrite app_assoc. split; [done|]. split; [|done]. rewrite E3. cbn. done.
Qed.

Lemma serve_file_post a names rs ws s ev i f : inv names s ev -> Forall fits_line names -> file s !! i = Some f ->
  post (gives_up a) (serve_file a rs ws s i) (fun s' ev' => inv names s' (ev ++ ev')).
Proof.
  intros I Hfit Hi. unfold serve_file. rewrite Hi. cbn zeta.
  assert (Hlt : (i < length (file s))%nat) by (by eapply lookup_lt_Some).
  destruct (f_flags f) eqn:Hfl; try (apply post_done; by rewrite app_nil_r).
  - destruct (bool_decide (f_fd f ∈ rs) || bool_decide (f_fd f ∈ ws)); [|apply post_done; by rewrite app_nil_r].
    assert (Hop : f_fd f ∈ rset s).
    { rewrite (i_r _ _ _ I). apply elem_of_fds. exists i, f. unfold is_open. by rewrite Hfl. }
    destruct (i_max _ _ _ I _ Hop) as [Hr Hm]. pose proof (raise_le (maxfd s) (f_fd f)).
    apply post_andthen, post_emit. eapply post_mono.
    { apply (write_get_cmd_post a _ i f); [done|by eapply inv_fits|done]. }
    intros s' ev' [-> ->]. unfold reading. cbn. pose proof (i_conn _ _ _ I).
    eapply (web_update names s ev i f); try done.
    all: unfold is_open, is_connecting, is_new, unread, is_done, request, FD_CLR; cbn [f_fd f_flags f_name]; rewrite ?Hfl;
      cbn; try done; try lia; try (by rewrite ?union_empty_l_L).
    + apply set_eq. intros x. destruct (decide (x = f_fd f)) as [->|]; set_solver.
    + intros j. destruct (a_sockerr a i); apply sent_to_one.
    + intros j. destruct (a_sockerr a i); by destruct (decide (j = i)).
  - destruct (bool_decide (f_fd f ∈ rs)); [|apply post_done; by rewrite app_nil_r].
    destruct (a_read a i) as [[|b l]|e|] eqn:Er.
    + pose proof (i_conn _ _ _ I). eapply (web_update names s ev i f); try done.
      all: unfold is_open, is_connecting, is_new, unread, is_done, request, FD_CLR; cbn [f_fd f_flags f_name]; rewrite ?Hfl;
        cbn; try done; try lia; try (by rewrite ?difference_empty_L, ?union_empty_l_L).
      * intros j. by destruct (decide (j = i)).
      * intros j. apply eofs_one.
    + unfold post. destruct I. constructor; try done.
      * intros j g Hj. unfold sent_to in *. rewrite omap_app. cbn. rewrite app_nil_r. by apply i_sent0.
      * intros j g Hj. unfold eofs in *. rewrite cnt_app, cnt_cons, cnt_nil. cbn. rewrite Z.add_0_r. by apply i_eofs0.
    + split; [done|]. intros [Hf _]. destruct (Hf i) as (_ & _ & _ & l & H). congruence.
    + split; [done|]. intros [Hf _]. destruct (Hf i) as (_ & _ & _ & l & H). congruence.
Qed.

Lemma serve_from_post a names rs ws k : forall i s ev, inv names s ev -> Forall fits_line names ->
  (i + k = length (file s))%nat ->
  post (gives_up a) (serve_from a rs ws k i s) (fun s' ev' => inv names s' (ev ++ ev')).
Proof.
  induction k as [|k IH]; intros i s ev I Hf Hk; cbn [serve_from].
  { apply post_done. by rewrite app_nil_r. }
  destruct (lookup_lt_is_Some_2 (file s) i ltac:(lia)) as [f Hi].
  apply post_andthen. eapply post_mono; [by eapply (serve_file_post a names)|].
  intros s1 ev1 I1. eapply post_mono; [apply (IH (S i) s1 (ev ++ ev1)); try done|].
  - rewrite (inv_length _ _ _ I1), <- (inv_length _ _ _ I). lia.
  - intros s2 ev2 I2. by rewrite app_assoc.
Qed.

Lemma round_post a names s ev : inv names s ev -> Forall fits_line names -> (length names <= MAXFILES)%nat ->
  post (gives_up a) (round a s) (fun s' ev' => inv names s' (ev ++ ev')).
Proof.
  intros I Hf Hlen. unfold round. apply post_andthen.
  eapply post_mono; [by apply (start_all_post a names _ s ev); try done; lia|].
  intros s1 ev1 (I1 & _ & _). destruct (a_select a) as [[r w]|] eqn:E.
  - eapply post_mono; [by apply (serve_from_post a names _ _ _ 0 s1 (ev ++ ev1))|].
    intros s2 ev2 I2. by rewrite app_assoc.
  - split; [done|]. by intros [_ ?].
Qed.

Lemma web_run_post names l : forall s ev, inv names s ev -> Forall fits_line names -> (length names <= MAXFILES)%nat ->
  post (fun x => x = Exited 1 /\ ~ Forall fine l) (run l s) (fun s' ev' => inv names s' (ev ++ ev')).
Proof.
  induction l as [|a l IH]; intros s ev I Hf Hlen; cbn [run].
  { apply post_done. by rewrite app_nil_r. }
  destruct (nlefttoread s >? 0); [|apply post_done; by rewrite app_nil_r].
  apply post_andthen. eapply post_mono.
  - eapply post_stop; [by apply (round_post a names s ev)|]. intros x [-> Hn]. split; [done|].
    by intros [Hn' _]%Forall_cons_1.
  - intros s1 ev1 I1. eapply post_mono.
    + eapply post_stop; [by apply (IH s1 (ev ++ ev1))|]. intros x [-> Hn]. split; [done|].
      by intros [_ Hn']%Forall_cons_1.
    + intros s2 ev2 I2. by rewrite app_assoc.
Qed.

End Program.

(** With fresh descriptors below FD_SETSIZE, at most MAXFILES names that fit the
    line: no access leaves the line or a descriptor set, and the program gives up only
    after a call that failed.  The sets hold the open and the connecting descriptors,
    the counters are exact and within the limit; each file is sent its request once,
    when its connect has completed or failed, and is closed once, at the end of file;
    when the loop ends every file is done.  With a positive limit select() always has
    a descriptor to wait for; with another it has none, and waits for ever. *)
Theorem web_select newfd maxnconn names l :
  (forall X, newfd X ∉ X) -> (forall X, (size X <= MAXFILES)%nat -> 0 <= newfd X < FD_SETSIZE) ->
  Forall fits_line names -> (length names <= MAXFILES)%nat ->
  post (fun x => x = Exited 1 /\ ~ Forall fine l) (run newfd maxnconn l (main names)) (fun s ev =>
    (rset s = fds is_open (file s) /\ wset s = fds is_connecting (file s) /\ distinct (file s)) /\
    (nconn s = cnt is_open (file s) /\ nconn s <= Z.max 0 maxnconn /\ nlefttoread s = cnt unread (file s)) /\
    (forall i f, file s !! i = Some f ->
       names !! i = Some (f_name f) /\ sent_to i ev = request f /\ eofs i ev = b2z (is_done f)) /\
    (nlefttoread s = 0 -> Forall (fun f => is_done f = true) (file s)) /\
    (maxnconn <= 0 -> rset s = ∅ /\ wset s = ∅) /\
    (0 < maxnconn -> 0 < nlefttoread s -> forall a,
       post (gives_up a) (start_all newfd maxnconn a (Z.to_nat (nlefttoconn s)) s) (fun s1 _ => rset s1 <> ∅))).
Proof.
  intros Hfresh Hrange Hfit Hlen. eapply post_mono.
  { apply (web_run_post newfd maxnconn Hfresh Hrange names l _ [] (inv_main maxnconn names) Hfit Hlen). }
  intros s ev I. pose proof I as [Hr Hw Hd Hm [Hc Hcm] Hl Hn Hnm Hs He].
  split; [done|]. split; [done|]. split.
  { intros i f Hi. split; [|by split; [apply Hs|apply He]]. by rewrite <- Hnm, list_lookup_fmap, Hi. }
  split.
  { intros E. apply Forall_lookup_2. intros i f Hi. rewrite E in Hn.
    pose proof (cnt_zero unread (file s) i f ltac:(lia) Hi) as H. by apply negb_false_iff in H. }
  pose proof (cnt_nonneg is_open (file s)). split.
  { intros E. assert (Hz : forall i f, file s !! i = Some f -> is_open f = false).
    { intros i f. apply cnt_zero. lia. }
    rewrite Hr, Hw. split; apply set_eq; intros fd; rewrite elem_of_fds; (split; [|set_solver]);
      intros (i & f & Hi & Hf & _); [|apply open_connecting in Hf]; by rewrite (Hz _ _ Hi) in Hf. }
  intros Hmax Hpos a. eapply post_mono.
  { apply (start_all_post newfd maxnconn Hfresh Hrange a names _ s ev I Hfit Hlen). lia. }
  intros s1 ev1 (I1 & E1 & E2). rewrite (i_r _ _ _ _ I1). apply fds_nonempty.
  pose proof (unread_split (file s1)). pose proof (i_toread _ _ _ _ I1). pose proof (i_toconn _ _ _ _ I1).
  destruct (i_conn _ _ _ _ I1). pose proof (cnt_nonneg is_open (file s1)).
  destruct (decide (nconn s1 < maxnconn)); lia.
Qed.

(** The lowest descriptor above the standard ones that is not in use. *)
Definition lowest_fd (X : gset Z) : Z :=
  match List.find (fun fd => bool_decide (fd ∉ X)) (seqZ 3 100) with Some fd => fd | None => fresh X end.

Lemma lowest_fd_ok X : lowest_fd X ∉ X /\ ((size X <= MAXFILES)%nat -> 0 <= lowest_fd X < FD_SETSIZE).
Proof.
  unfold lowest_fd. destruct (List.find _ _) as [fd|] eqn:E.
  - apply List.find_some in E as [Hin Hb]. apply bool_decide_eq_true in Hb. split; [done|]. intros _.
    apply list_elem_of_In, elem_of_seqZ in Hin. unfold FD_SETSIZE. lia.
  - split; [apply is_fresh|]. intros Hsz. exfalso.
    assert (H : list_to_set (seqZ 3 100) ⊆ X).
    { intros fd Hfd. apply elem_of_list_to_set in Hfd. apply dec_stable. intros Hn.
      apply list_elem_of_In in Hfd. apply (List.find_none _ _ E) in Hfd. by apply bool_decide_eq_false in Hfd. }
    apply subseteq_size in H. rewrite size_list_to_set, length_seqZ in H by apply NoDup_seqZ.
    unfold MAXFILES in Hsz. lia.
Qed.

(** A connect that fails: the request is sent all the same, and the write() that
    fails ends the program. *)
Definition failing (w : bool) : answers :=
  Answers (fun _ => true) (fun _ => Some EINPROGRESS) (fun _ => w) (Some ({[3]}, {[3]})) (fun _ => true) (fun _ => Got []).

Lemma web_select_witness :
  post (fun x => x = Exited 1 /\ ~ Forall fine [failing true; failing true])
    (run lowest_fd 1 [failing true; failing true] (main [[47]])) (fun s _ => nlefttoread s = cnt unread (file s)) /\
  (exists s, run lowest_fd 1 [failing true; failing true] (main [[47]]) =
    Ret (s, [ConnectFailed 0; Sent 0 (get_cmd [47]); Eof 0])) /\
  run lowest_fd 1 [failing false] (main [[47]]) = Exit 1.
Proof.
  split.
  - eapply post_mono; [apply (web_select lowest_fd 1 [[47]] [failing true; failing true])|].
    + intros X. apply lowest_fd_ok.
    + intros X. apply lowest_fd_ok.
    + repeat constructor.
    + vm_compute. lia.
    + intros s ev (_ & (_ & _ & H) & _). exact H.
  - split; [eexists|]; vm_compute; reflexivity.
Defined.

End WebSelect.
