(* ===== verification/PreThread.v ===== *)
(** * A server with threads created in advance

    Model of unpv13e/server/serv08.c, pthread08.c and pthread08.h: main accepts
    connections and puts them in a ring of MAXNCLI descriptors under a mutex; the
    threads take them out, waiting on a condition variable while the ring is empty.
    A thread advances by one call on the mutex or the condition variable, or by the
    accesses between two of them; serving a connection is one step. *)

From S2P Require Import Prelude.

Module PreThread.

Definition MAXNCLI : nat := 32.

Inductive tpc := TLock | TTest | TWait | TWake | TUnlock (connfd : Z) | TServe (connfd : Z).
Inductive mpc := MAccept | MLock (connfd : Z) | MPut (connfd : Z) | MSignal | MUnlock | MQuit.

Record thread := Thread { pc : tpc; thread_count : Z }.
Record state := St {
  clifd : list Z; iget : nat; iput : nat; clifd_mutex : bool; mp : mpc; tptr : list thread }.

Inductive trace := Accepted (fd : Z) | Taken (i : nat) (fd : Z) | Served (i : nat) (fd : Z).

(** What happens next; [ESignal j] signals the condition variable, on which [j] waits. *)
Inductive event := EAccept (connfd : Z) | EMain | ESignal (j : nat) | EThread (i : nat) | ESpurious (i : nat).

Section Program.
Context (MAXNCLI : nat).

(** [++i == MAXNCLI] sets [i] to 0. *)
Definition next (i : nat) : nat := if decide (S i = MAXNCLI) then 0%nat else S i.

Definition set_thread (s : state) (i : nat) (t : thread) : state :=
  St (clifd s) (iget s) (iput s) (clifd_mutex s) (mp s) (<[i := t]> (tptr s)).
Definition set_main (s : state) (b : bool) (p : mpc) : state :=
  St (clifd s) (iget s) (iput s) b p (tptr s).
Definition set_mutex (s : state) (b : bool) : state := set_main s b (mp s).

Definition waits (t : thread) : bool := match pc t with TWait => true | _ => false end.

(** thread_main *)
Definition thread_main (s : state) (i : nat) : option (state * list trace) :=
  t ← tptr s !! i;
  let go s' p ev := Some (set_thread s' i (Thread p (thread_count t)), ev) in
  match pc t with
  | TLock | TWake => if clifd_mutex s then None else go (set_mutex s true) TTest []
  | TTest =>
      if decide (iget s = iput s) then go (set_mutex s false) TWait []
      else match clifd s !! iget s with
      | None => None
      | Some connfd =>
          go (St (clifd s) (next (iget s)) (iput s) (clifd_mutex s) (mp s) (tptr s)) (TUnlock connfd) [Taken i connfd]
      end
  | TUnlock connfd =>
      Some (set_thread (set_mutex s false) i (Thread (TServe connfd) (thread_count t + 1)), [])
  | TServe connfd => go s TLock [Served i connfd]
  | TWait => None
  end.

(** main, from the end of accept() on. *)
Definition main_step (s : state) : option (state * list trace) :=
  match mp s with
  | MLock connfd => if clifd_mutex s then None else Some (set_main s true (MPut connfd), [])
  | MPut connfd =>
      let iput' := next (iput s) in
      Some (St (<[iput s := connfd]> (clifd s)) (iget s) iput' (clifd_mutex s)
              (if decide (iput' = iget s) then MQuit else MSignal) (tptr s), [])
  | MSignal => if existsb waits (tptr s) then None else Some (set_main s (clifd_mutex s) MUnlock, [])
  | MUnlock => Some (set_main s false MAccept, [])
  | MAccept | MQuit => None
  end.

Definition exec (s : state) (e : event) : option (state * list trace) :=
  match mp s, e with
  | MQuit, _ => None                              (* the process has ended *)
  | MAccept, EAccept connfd => Some (set_main s (clifd_mutex s) (MLock connfd), [Accepted connfd])
  | MSignal, ESignal j =>
      t ← tptr s !! j;
      if waits t then Some (set_thread (set_main s (clifd_mutex s) MUnlock) j (Thread TWake (thread_count t)), [])
      else None
  | _, EMain => main_step s
  | _, EThread i => thread_main s i
  | _, ESpurious i =>
      t ← tptr s !! i;
      if waits t then Some (set_thread s i (Thread TWake (thread_count t)), []) else None
  | _, _ => None
  end.

Fixpoint run (s : state) (es : list event) : option (state * list trace) :=
  match es with
  | [] => Some (s, [])
  | e :: es' =>
      '(s1, ev1) ← exec s e;
      '(s2, ev2) ← run s1 es';
      Some (s2, ev1 ++ ev2)
  end.

Definition main (nthreads : nat) : state :=
  St (replicate MAXNCLI 0) 0 0 false MAccept (replicate nthreads (Thread TLock 0)).

(** The connections in the ring. *)
Definition at_ (i k : nat) : nat := if decide (i + k < MAXNCLI)%nat then (i + k)%nat else (i + k - MAXNCLI)%nat.
Definition filled (s : state) : nat :=
  if decide (iget s <= iput s)%nat then (iput s - iget s)%nat else (iput s + MAXNCLI - iget s)%nat.
Definition queue (s : state) : list Z := map (fun k => clifd s !!! at_ (iget s) k) (seq 0 (filled s)).

(** What the trace says: connections accepted, and those taken or served, by anyone or
    by one thread. *)
Definition accepted (ev : list trace) : list Z := omap (fun e => match e with Accepted fd => Some fd | _ => None end) ev.
Definition taken (ev : list trace) : list Z := omap (fun e => match e with Taken _ fd => Some fd | _ => None end) ev.
Definition taken_by (i : nat) (ev : list trace) : list Z :=
  omap (fun e => match e with Taken j fd => if decide (j = i) then Some fd else None | _ => None end) ev.
Definition served_by (i : nat) (ev : list trace) : list Z :=
  omap (fun e => match e with Served j fd => if decide (j = i) then Some fd else None | _ => None end) ev.

(** ** The accounts *)

Definition holds (t : thread) : Z := match pc t with TTest | TUnlock _ => 1 | _ => 0 end.
Definition m_holds (p : mpc) : Z := match p with MPut _ | MSignal | MUnlock | MQuit => 1 | _ => 0 end.
(** Threads that will look at the ring before they wait, and main about to signal. *)
Definition will_look (t : thread) : Z := match pc t with TLock | TTest | TWake => 1 | _ => 0 end.
Definition m_signals (p : mpc) : Z := match p with MSignal => 1 | _ => 0 end.
Definition waiting (t : thread) : Z := b2z (waits t).
(** Connections accepted and not yet in the ring. *)
Definition in_hand (p : mpc) : list Z := match p with MLock fd | MPut fd => [fd] | _ => [] end.
Definition serving (t : thread) : list Z := match pc t with TUnlock fd | TServe fd => [fd] | _ => [] end.
Definition to_count (t : thread) : Z := match pc t with TUnlock _ => 1 | _ => 0 end.

Record ring (s : state) : Prop := Ring {
  r_len : length (clifd s) = MAXNCLI; r_get : (iget s < MAXNCLI)%nat; r_put : (iput s < MAXNCLI)%nat }.

Record inv (s : state) (ev : list trace) : Prop := Inv {
  i_ring : ring s;
  i_one : b2z (clifd_mutex s) = sumz holds (tptr s) + m_holds (mp s);
  i_fifo : match mp s with MQuit => length (accepted ev) = (length (taken ev) + MAXNCLI)%nat
           | p => accepted ev = taken ev ++ queue s ++ in_hand p end;
  i_wake : mp s <> MQuit -> 0 < sumz waiting (tptr s) ->
    Z.of_nat (filled s) <= sumz will_look (tptr s) + m_signals (mp s);
  i_signal : mp s = MSignal -> (0 < filled s)%nat;
  i_served : forall i t, tptr s !! i = Some t -> taken_by i ev = served_by i ev ++ serving t /\
    thread_count t + to_count t = Z.of_nat (length (taken_by i ev)) }.

Lemma next_lt i : (i < MAXNCLI)%nat -> (next i < MAXNCLI)%nat.
Proof. unfold next. case_decide; lia. Qed.

Lemma queue_get s t0 p m : ring s -> iget s <> iput s ->
  exists fd, clifd s !! iget s = Some fd /\
    queue s = fd :: queue (St (clifd s) (next (iget s)) (iput s) m p t0) /\
    filled s = S (filled (St (clifd s) (next (iget s)) (iput s) m p t0)).
Proof.
  intros [Hl Hg Hp] Hne. destruct (lookup_lt_is_Some_2 (clifd s) (iget s) ltac:(lia)) as [fd Hfd].
  exists fd. split; [done|].
  assert (Hf : filled s = S (filled (St (clifd s) (next (iget s)) (iput s) m p t0))).
  { unfold filled, next. cbn. repeat case_decide; lia. }
  split; [|done]. unfold queue. rewrite Hf. cbn [seq map]. f_equal.
  - unfold at_. rewrite decide_True, Nat.add_0_r by lia. by apply list_lookup_total_correct.
  - rewrite <- seq_shift, map_map. apply map_ext_in. intros k Hk%in_seq. cbn. f_equal.
    unfold filled in *. unfold at_, next in *. cbn in *. repeat case_decide; lia.
Qed.

(** Putting a connection in: the ring grows by one, or is full. *)
Lemma queue_put s fd t0 p m : ring s ->
  let s' := St (<[iput s := fd]> (clifd s)) (iget s) (next (iput s)) m p t0 in
  ring s' /\ (next (iput s) <> iget s -> queue s' = queue s ++ [fd] /\ filled s' = S (filled s)) /\
  (next (iput s) = iget s -> S (filled s) = MAXNCLI).
Proof.
  intros [Hl Hg Hp] s'. split.
  { split; cbn; [by rewrite length_insert|done|by apply next_lt]. }
  split.
  - intros Hne. assert (Hf : filled s' = S (filled s)).
    { unfold filled, s', next in *. cbn in *. repeat case_decide; lia. }
    split; [|done]. unfold queue. rewrite Hf, seq_S, map_app. cbn [map]. f_equal.
    + apply map_ext_in. intros k Hk%in_seq. cbn. rewrite list_lookup_total_insert_ne; [done|].
      unfold filled in *. unfold at_. repeat case_decide; lia.
    + cbn. f_equal. replace (at_ (iget s) (filled s)) with (iput s).
      * apply list_lookup_total_insert_eq. lia.
      * unfold at_, filled. repeat case_decide; lia.
  - unfold filled, next. intros E. repeat case_decide; lia.
Qed.

Definition books (l : list thread) (ev : list trace) : Prop := forall i t, l !! i = Some t ->
  taken_by i ev = served_by i ev ++ serving t /\
  thread_count t + to_count t = Z.of_nat (length (taken_by i ev)).

Lemma trace_app ev ev' : accepted (ev ++ ev') = accepted ev ++ accepted ev' /\ taken (ev ++ ev') = taken ev ++ taken ev' /\
  (forall i, taken_by i (ev ++ ev') = taken_by i ev ++ taken_by i ev') /\
  (forall i, served_by i (ev ++ ev') = served_by i ev ++ served_by i ev').
Proof. unfold accepted, taken, taken_by, served_by. rewrite !omap_app. repeat split; intros; by rewrite omap_app. Qed.

Lemma books_step l ev i t t' ev' : books l ev -> l !! i = Some t ->
  (forall j, j <> i -> taken_by j ev' = [] /\ served_by j ev' = []) ->
  serving t ++ taken_by i ev' = served_by i ev' ++ serving t' ->
  thread_count t' + to_count t' = thread_count t + to_count t + Z.of_nat (length (taken_by i ev')) ->
  books (<[i := t']> l) (ev ++ ev').
Proof.
  intros Hb Hi Hj Hs Hc j x Hx. destruct (trace_app ev ev') as (_ & _ & Et & Es). rewrite Et, Es.
  destruct (decide (j = i)) as [->|Hne].
  - rewrite list_lookup_insert_eq in Hx by (by eapply lookup_lt_Some). injection Hx as <-.
    destruct (Hb _ _ Hi) as [H1 H2]. rewrite length_app. split; [|lia].
    by rewrite H1, <- !app_assoc, Hs.
  - rewrite list_lookup_insert_ne in Hx by done. destruct (Hj j Hne) as [-> ->]. rewrite !app_nil_r. by apply Hb.
Qed.

Lemma books_quiet l ev i t t' : books l ev -> l !! i = Some t -> serving t' = serving t ->
  thread_count t' = thread_count t -> to_count t' = to_count t -> books (<[i := t']> l) ev.
Proof.
  intros Hb Hi Hs Hc Hk. rewrite <- (app_nil_r ev). apply (books_step _ _ _ t); try done.
  - by rewrite Hs, app_nil_r.
  - rewrite Hc, Hk. cbn. lia.
Qed.

Lemma pre_weights t : 0 <= holds t <= 1 /\ 0 <= will_look t <= 1 /\ 0 <= waiting t <= 1.
Proof. unfold holds, will_look, waiting, waits. destruct t as [[] n]; cbn; lia. Qed.

Lemma pre_sums l : 0 <= sumz holds l /\ 0 <= sumz will_look l /\ 0 <= sumz waiting l.
Proof. induction l as [|t l IH]; [done|]. rewrite !sumz_cons. pose proof (pre_weights t). lia. Qed.

Lemma ring_eq s s' : clifd s' = clifd s -> iget s' = iget s -> iput s' = iput s ->
  (ring s -> ring s') /\ queue s' = queue s /\ filled s' = filled s.
Proof. unfold queue, filled. intros E1 E2 E3. rewrite E1, E2, E3. split; [|done]. intros []. constructor; congruence. Qed.

Lemma waiting_lookup l i t : l !! i = Some t -> waits t = true -> 0 < sumz waiting l.
Proof.
  intros Hi Hw. pose proof (sumz_lookup waiting _ _ _ ltac:(intros x; apply (pre_weights x)) Hi) as H.
  unfold waiting at 1 in H. rewrite Hw in H. cbn in H. lia.
Qed.

Lemma pre_inv_thread s ev i s' ev' : inv s ev -> mp s <> MQuit -> thread_main s i = Some (s', ev') -> inv s' (ev ++ ev').
Proof.
  intros [Hr H1 Hf Hw Hsg Hb] Hq Hx. fold (books (tptr s) ev) in Hb.
  unfold thread_main in Hx. destruct (tptr s !! i) as [[p n]|] eqn:Ht; [|done]. cbn in Hx.
  pose proof (sumz_lookup holds _ _ _ ltac:(intros x; apply (pre_weights x)) Ht) as Hh.
  pose proof (pre_sums (tptr s)). pose proof (b2z_range (clifd_mutex s)). specialize (Hw Hq).
  assert (Hmh : 0 <= m_holds (mp s) <= 1) by (destruct (mp s); cbn; lia).
  assert (Hff : accepted ev = taken ev ++ queue s ++ in_hand (mp s)).
  { clear -Hf Hq. by destruct (mp s). }
  assert (Hgoal : forall s2 ev2, mp s2 = mp s -> ring s2 -> accepted ev2 = [] ->
    queue s = taken ev2 ++ queue s2 -> b2z (clifd_mutex s2) = sumz holds (tptr s2) + m_holds (mp s) ->
    (0 < sumz waiting (tptr s2) -> Z.of_nat (filled s2) <= sumz will_look (tptr s2) + m_signals (mp s)) ->
    (mp s = MSignal -> (0 < filled s2)%nat) -> books (tptr s2) (ev ++ ev2) -> inv s2 (ev ++ ev2)).
  { intros s2 ev2 Em Hr2 Ha Hq2 Ho2 Hw2 Hs2 Hb2. destruct (trace_app ev ev2) as (Eq1 & Eq2 & _).
    constructor; rewrite ?Em; try done.
    assert (E : accepted (ev ++ ev2) = taken (ev ++ ev2) ++ queue s2 ++ in_hand (mp s)).
    { by rewrite Eq1, Eq2, Ha, Hff, Hq2, app_nil_r, <- !app_assoc. }
    by destruct (mp s). }
  assert (Hnm : holds (Thread p n) = 1 -> clifd_mutex s = true /\ m_holds (mp s) = 0).
  { intros E. rewrite E in Hh. destruct (clifd_mutex s); cbn in *; lia. }
  assert (Hidle : forall b p', serving (Thread p' n) = serving (Thread p n) -> to_count (Thread p' n) = to_count (Thread p n) ->
    b2z b = sumz holds (tptr s) - holds (Thread p n) + holds (Thread p' n) + m_holds (mp s) ->
    (waiting (Thread p' n) <= waiting (Thread p n) /\ will_look (Thread p n) <= will_look (Thread p' n) \/ filled s = 0%nat) ->
    inv (set_thread (set_mutex s b) i (Thread p' n)) (ev ++ [])).
  { intros b p' Es Ec Eb Ew. apply Hgoal; cbn; try done; rewrite ?(sumz_insert _ _ _ _ _ Ht); try lia.
    - by apply (ring_eq s).
    - intros Hpos. change (filled _) with (filled s). assert (0 <= m_signals (mp s)) by (destruct (mp s); cbn; lia).
      destruct Ew as [Ew|Ew]; [|pose proof (pre_weights (Thread p' n));
        pose proof (sumz_lookup will_look _ _ _ ltac:(intros x; apply (pre_weights x)) Ht); lia]. lia.
    - rewrite app_nil_r. by eapply books_quiet. }
  destruct p as [| | | |fd|fd]; [| |done| |..].
  - destruct (clifd_mutex s) eqn:Em; [done|]. injection Hx as <- <-. cbn in H1. apply Hidle; cbn; try done; lia.
  - destruct (Hnm eq_refl) as [Em Em']. destruct (decide (iget s = iput s)) as [Eg|Eg].
    + injection Hx as <- <-. rewrite Em in H1. cbn in H1. apply Hidle; cbn; try done; try lia.
      right. unfold filled. rewrite Eg, decide_True by lia. lia.
    + destruct (queue_get s (tptr s) (mp s) (clifd_mutex s) Hr Eg) as (fd & Hfd & Eq & Ef).
      rewrite Hfd in Hx. injection Hx as <- <-. rewrite Em in H1. cbn in H1.
      destruct Hr as [Hr1 Hr2 Hr3].
      apply Hgoal; cbn; rewrite ?(sumz_insert _ _ _ _ _ Ht), ?Em; cbn; try done; try lia.
      * constructor; cbn; try done. by apply next_lt.
      * change (filled _) with (filled (St (clifd s) (next (iget s)) (iput s) (clifd_mutex s) (mp s) (tptr s))). lia.
      * intros E. rewrite E in Em'. done.
      * eapply books_step; try done; cbn.
        -- intros j Hj. by rewrite decide_False by congruence.
        -- by rewrite decide_True.
        -- rewrite decide_True by done. cbn. lia.
  - destruct (clifd_mutex s) eqn:Em; [done|]. injection Hx as <- <-. cbn in H1. apply Hidle; cbn; try done; lia.
  - destruct (Hnm eq_refl) as [Em Em']. injection Hx as <- <-. rewrite Em in H1. cbn in H1.
    apply Hgoal; cbn; rewrite ?(sumz_insert _ _ _ _ _ Ht); cbn; try done; try lia.
    + by apply (ring_eq s).
    + change (filled _) with (filled s). lia.
    + eapply books_step; try done; cbn; lia.
  - injection Hx as <- <-. apply Hgoal; cbn; rewrite ?(sumz_insert _ _ _ _ _ Ht); cbn; try done; try lia.
    + by apply (ring_eq s).
    + change (filled _) with (filled s). lia.
    + eapply books_step; try done; cbn.
      * intros j Hj. by rewrite decide_False by congruence.
      * by rewrite decide_True.
      * lia.
Qed.

Lemma filled_main s b p : filled (set_main s b p) = filled s.
Proof. done. Qed.

Lemma books_nil l ev : books l ev -> books l (ev ++ []).
Proof. by rewrite app_nil_r. Qed.

Lemma books_accepted l ev fd : books l ev -> books l (ev ++ [Accepted fd]).
Proof.
  intros Hb i t Hi. destruct (trace_app ev [Accepted fd]) as (_ & _ & -> & ->). cbn.
  rewrite !app_nil_r. by apply Hb.
Qed.

Lemma pre_inv_main_step s ev s' ev' : inv s ev -> main_step s = Some (s', ev') -> inv s' (ev ++ ev').
Proof.
  intros [Hr H1 Hf Hw Hsg Hb] Hx. fold (books (tptr s) ev) in Hb. unfold main_step in Hx.
  pose proof (b2z_range (clifd_mutex s)). pose proof (pre_sums (tptr s)).
  destruct (mp s) as [|fd|fd| | |] eqn:Em; try done; cbn in *; specialize (Hw ltac:(done)).
  - destruct (clifd_mutex s); [done|]. injection Hx as <- <-. cbn in H1.
    constructor; cbn; rewrite ?app_nil_r, ?filled_main; try done; try lia; by apply (ring_eq s).
  - destruct (queue_put s fd (tptr s) (if decide (next (iput s) = iget s) then MQuit else MSignal) (clifd_mutex s) Hr)
      as (Hr' & Hq & Hfull).
    destruct (trace_app ev []) as (E1 & E2 & _).
    case_decide as E; injection Hx as <- <-.
    + constructor; cbn; rewrite ?E1, ?E2; cbn; try done; try lia.
      * rewrite Hf, !app_nil_r, !length_app. specialize (Hfull E). cbn.
        enough (length (queue s) = filled s) by lia. unfold queue. by rewrite length_map, length_seq.
      * by apply books_nil.
    + destruct (Hq E) as [Eq Ef]. constructor; cbn; rewrite ?E1, ?E2; cbn; try done; try lia.
      * by rewrite Hf, Eq, !app_nil_r.
      * by apply books_nil.
  - destruct (existsb waits (tptr s)) eqn:Ew; [done|]. injection Hx as <- <-.
    constructor; cbn; rewrite ?app_nil_r; try done; try lia; try (by apply (ring_eq s)).
    { by rewrite Hf, !app_nil_r. }
    intros _ Hpos. exfalso. enough (sumz waiting (tptr s) = 0) by lia. apply sumz_zero. intros i t Hi.
    unfold waiting. destruct (waits t) eqn:E; [|done].
    assert (existsb waits (tptr s) = true); [|congruence].
    apply existsb_exists. exists t. split; [|done]. apply list_elem_of_In. by eapply list_elem_of_lookup_2.
  - injection Hx as <- <-. destruct (clifd_mutex s); [|cbn in H1; lia]. cbn in H1.
    constructor; cbn; rewrite ?app_nil_r, ?filled_main; try done; try lia; try (by apply (ring_eq s)); by rewrite Hf, app_nil_r.
Qed.

(** A waiting thread is woken, by main's signal or for no reason. *)
Lemma pre_inv_wake s ev i n p : inv s ev -> mp s <> MQuit -> tptr s !! i = Some (Thread TWait n) ->
  p = mp s \/ (mp s = MSignal /\ p = MUnlock) ->
  inv (set_thread (set_main s (clifd_mutex s) p) i (Thread TWake n)) (ev ++ []).
Proof.
  intros [Hr H1 Hf Hw Hsg Hb] Hq Ht Hp. fold (books (tptr s) ev) in Hb. rewrite app_nil_r.
  specialize (Hw Hq). pose proof (pre_sums (tptr s)).
  pose proof (waiting_lookup _ _ _ Ht eq_refl) as Hpos. specialize (Hw Hpos).
  assert (Hpq : m_holds p = m_holds (mp s) /\ m_signals (mp s) <= m_signals p + 1 /\
    in_hand p = in_hand (mp s) /\ p <> MQuit).
  { destruct Hp as [->|[-> ->]]; [|done]. destruct (mp s); cbn; (split; [done|]); (split; [lia|done]). }
  destruct Hpq as (E1 & E2 & E3 & E4).
  assert (Hf' : accepted ev = taken ev ++ queue s ++ in_hand (mp s)) by (clear -Hf Hq; by destruct (mp s)).
  constructor; cbn; rewrite ?(sumz_insert _ _ _ _ _ Ht); cbn; try done; try lia.
  - by apply (ring_eq s).
  - change (queue _) with (queue s). rewrite <- E3 in Hf'. clear -Hf' E4. by destruct p.
  - intros _ _. change (filled _) with (filled s). lia.
  - intros ->. destruct Hp as [Hp|[_ Hp]]; [|done]. by apply Hsg.
  - by eapply books_quiet.
Qed.

Lemma pre_inv_exec s ev e s' ev' : inv s ev -> exec s e = Some (s', ev') -> inv s' (ev ++ ev').
Proof.
  intros I Hx. unfold exec in Hx.
  assert (Hspur : forall i, (t ← tptr s !! i;
      if waits t then Some (set_thread s i (Thread TWake (thread_count t)), []) else None) = Some (s', ev') ->
      mp s <> MQuit -> inv s' (ev ++ ev')).
  { intros i Hs Hq. destruct (tptr s !! i) as [[p n]|] eqn:Ht; [|done]. cbn in Hs.
    destruct p; try done. injection Hs as <- <-.
    assert (E : set_thread s i (Thread TWake n) = set_thread (set_main s (clifd_mutex s) (mp s)) i (Thread TWake n)) by done.
    rewrite E. apply pre_inv_wake; [done..|by left]. }
  destruct e as [fd| |j|i|i]; destruct (mp s) as [|fd'|fd'| | |] eqn:Em; try done.
  all: try (eapply pre_inv_main_step; [done|exact Hx]).
  all: try (eapply pre_inv_thread; [done|by rewrite Em|exact Hx]).
  all: try (by eapply Hspur).
  - injection Hx as <- <-. destruct I as [Hr H1 Hf Hw Hsg Hb]. rewrite Em in *. cbn in *.
    destruct (trace_app ev [Accepted fd]) as (E1 & E2 & _).
    constructor; cbn; rewrite ?E1, ?E2; cbn; try done.
    + by apply (ring_eq s).
    + by rewrite Hf, !app_nil_r, <- app_assoc.
    + intros _. apply Hw. done.
    + by apply books_accepted.
  - destruct (tptr s !! j) as [[p n]|] eqn:Ht; [|done]. cbn in Hx. destruct p; try done. injection Hx as <- <-.
    apply pre_inv_wake; [done|by rewrite Em|done|by right].
Qed.

Lemma pre_inv_main n : (0 < MAXNCLI)%nat -> inv (main n) [].
Proof.
  intros H. constructor; cbn; rewrite ?sumz_replicate; cbn; try done; try lia.
  - constructor; cbn; [by rewrite length_replicate|done..].
  - intros i t Ht. apply lookup_replicate in Ht as [-> _]. done.
Qed.

Lemma pre_run es : forall s ev s' ev', inv s ev -> run s es = Some (s', ev') -> inv s' (ev ++ ev') /\ length (tptr s') = length (tptr s).
Proof.
  induction es as [|e es IH]; intros s ev s' ev' I Hr; cbn in Hr.
  { injection Hr as <- <-. by rewrite app_nil_r. }
  destruct (exec s e) as [[s1 ev1]|] eqn:Hx; [|done]. cbn in Hr.
  destruct (run s1 es) as [[s2 ev2]|] eqn:Hr2; [|done]. injection Hr as <- <-.
  destruct (IH s1 (ev ++ ev1) s2 ev2 (pre_inv_exec _ _ _ _ _ I Hx) Hr2) as [I' Hl].
  rewrite app_assoc. split; [done|]. rewrite Hl.
  unfold exec, thread_main, main_step, set_thread, set_main in Hx. cbn in Hx. repeat (case_match; simplify_eq/=; try done);
    repeat (match goal with H : mbind _ ?x = Some _ |- _ => destruct x eqn:?; simplify_eq/= end; repeat (case_match; simplify_eq/=)); 
    by rewrite ?length_insert.
Qed.
End Program.

(** C15: in every interleaving, spurious wake-ups included, the ring holds exactly
    the connections accepted and not yet taken, in order; each thread serves the
    connections it took, each once and in order, and counts them; main gives up only
    when MAXNCLI connections wait; and when main waits in accept() and no thread can go
    on, no connection waits and all threads wait for one. *)
Theorem prethread_correct MAXNCLI nthreads es s ev :
  (0 < MAXNCLI)%nat -> run MAXNCLI (main MAXNCLI nthreads) es = Some (s, ev) ->
  (mp s <> MQuit -> accepted ev = taken ev ++ queue MAXNCLI s ++ in_hand (mp s) /\
     (length (queue MAXNCLI s) < MAXNCLI)%nat) /\
  (mp s = MQuit -> length (accepted ev) = (length (taken ev) + MAXNCLI)%nat) /\
  (forall i t, tptr s !! i = Some t ->
     taken_by i ev = served_by i ev ++ serving t /\ thread_count t + to_count t = Z.of_nat (length (taken_by i ev))) /\
  (mp s = MAccept -> (forall i, thread_main MAXNCLI s i = None) ->
     Forall (fun t => waits t = true) (tptr s) /\ ((0 < nthreads)%nat -> accepted ev = taken ev)).
Proof.
  intros HN Hr. destruct (pre_run MAXNCLI es _ [] s ev (pre_inv_main MAXNCLI nthreads HN) Hr) as [[Hg H1 Hf Hw Hsg Hb] Hl].
  cbn [app] in *. assert (Hlen : length (queue MAXNCLI s) = filled MAXNCLI s) by (unfold queue; by rewrite length_map, length_seq).
  split.
  { intros Hq. split; [clear -Hf Hq; by destruct (mp s)|]. rewrite Hlen. destruct Hg. unfold filled. case_decide; lia. }
  split; [intros E; by rewrite E in Hf|]. split; [exact Hb|].
  intros Em Hstuck. rewrite Em in *. cbn in *. specialize (Hw ltac:(done)).
  assert (Hcase : forall i t, tptr s !! i = Some t -> pc t = TWait \/
    ((pc t = TLock \/ pc t = TWake) /\ clifd_mutex s = true)).
  { intros i [p n] Ht. specialize (Hstuck i). unfold thread_main in Hstuck. rewrite Ht in Hstuck. cbn in *.
    destruct p; try done; try (by left); try (by right; destruct (clifd_mutex s); [split; [auto|]|]).
    destruct (decide (iget s = iput s)) as [|Hne]; [done|].
    destruct (lookup_lt_is_Some_2 (clifd s) (iget s) ltac:(destruct Hg; lia)) as [fd Hfd]. by rewrite Hfd in Hstuck. }
  assert (Hz : sumz holds (tptr s) = 0).
  { apply sumz_zero. intros i t Ht. unfold holds. by destruct (Hcase i t Ht) as [->|[[->| ->] _]]. }
  assert (Hfree : clifd_mutex s = false) by (destruct (clifd_mutex s); [cbn in H1; lia|done]).
  assert (Hall : forall i t, tptr s !! i = Some t -> pc t = TWait).
  { intros i t Ht. destruct (Hcase i t Ht) as [|[_ E]]; [done|congruence]. }
  split.
  { apply Forall_lookup_2. intros i t Ht. unfold waits. by rewrite (Hall i t Ht). }
  intros Hn. rewrite length_replicate in Hl.
  assert (Hlook : sumz will_look (tptr s) = 0).
  { apply sumz_zero. intros i t Ht. unfold will_look. by rewrite (Hall i t Ht). }
  destruct (lookup_lt_is_Some_2 (tptr s) 0 ltac:(lia)) as [t Ht].
  specialize (Hw ltac:(eapply waiting_lookup; [exact Ht|]; unfold waits; by rewrite (Hall _ _ Ht))).
  destruct (queue MAXNCLI s); [|cbn in Hlen; lia]. by rewrite Hf, !app_nil_r.
Qed.

(** One thread waits, is signalled and serves; the ring of two is full with the second
    connection that nobody takes. *)
Definition serve_one : list event :=
  [EThread 0; EThread 0; EAccept 7; EMain; EMain; ESignal 0; EMain; EThread 0; EThread 0; EThread 0; EThread 0].
Definition overflow : list event :=
  [EAccept 7; EMain; EMain; EMain; EMain; EAccept 8; EMain; EMain].

Lemma prethread_correct_witness :
  (exists s ev, run 32 (main 32 1) serve_one = Some (s, ev) /\ served_by 0 ev = [7] /\
     accepted ev = taken ev ++ queue 32 s ++ in_hand (mp s)) /\
  (exists s ev, run 2 (main 2 1) overflow = Some (s, ev) /\ mp s = MQuit).
Proof.
  split.
  - eexists _, _. split; [vm_compute; reflexivity|]. split; [reflexivity|].
    refine (proj1 (proj1 (prethread_correct 32 1 serve_one _ _ _ _) _)); [lia|vm_compute; reflexivity|done].
  - eexists _, _. split; [vm_compute; reflexivity|reflexivity].
Defined.

End PreThread.
