(* ===== verification/PreFork.v ===== *)
(** * A server with processes created in advance

    Model of unpv13e/server/serv05.c, child05.c and child.h: the parent accepts
    connections and passes each over a stream pipe to a child that is ready; a child
    that has served a connection tells it with one byte on the pipe.  A child advances
    by one call on its pipe or by serving a connection; the parent by select(), with
    accept() and the passing of the descriptor, or by one look at a child. *)

From S2P Require Import Prelude.

Module PreFork.

(** child_main: in Read_fd, serving, about to tell the parent. *)
Inductive cpc := CRead | CServe (connfd : Z) | CTell.

(** The parent's record of a child, the child, and the two directions of the pipe. *)
Record child := Child {
  child_status : Z; child_count : Z; cpos : cpc; to_child : list Z; to_parent : Z }.

(** The parent is in select(), or looks at child [i] with [nsel] results left among
    [rest], or has called err_quit(). *)
Inductive ppc := PSelect | PScan (i : nat) (nsel : Z) (rest : list bool) | PQuit.

Record state := St { cptr : list child; navail : Z; pp : ppc }.

Inductive trace := Passed (i : nat) (fd : Z) | Served (i : nat) (fd : Z).

Inductive event :=
| EChild (i : nat)
| ESelect (conn : option Z) (ready : list bool)    (* a new connection; the pipes that can be read *)
| EParent.

Definition set_child (s : state) (i : nat) (c : child) : state := St (<[i := c]> (cptr s)) (navail s) (pp s).
Definition set_pp (s : state) (p : ppc) : state := St (cptr s) (navail s) p.

Definition child_main (c : child) (i : nat) : option (child * list trace) :=
  let go p inbox out ev := Some (Child (child_status c) (child_count c) p inbox out, ev) in
  match cpos c with
  | CRead => match to_child c with [] => None | fd :: l => go (CServe fd) l (to_parent c) [] end
  | CServe fd => go CTell (to_child c) (to_parent c) [Served i fd]
  | CTell => go CRead (to_child c) (to_parent c + 1) []
  end.

(** The first child that is not busy. *)
Fixpoint find_child (l : list child) : option nat :=
  match l with
  | [] => None
  | c :: l' => if child_status c =? 0 then Some 0%nat else S <$> find_child l'
  end.

(** The parent after select(), which found [nsel] descriptors. *)
Definition after_select (s : state) (conn : option Z) (ready : list bool) : state * list trace :=
  let nsel := b2z (bool_decide (is_Some conn)) + cnt id ready in
  match conn with
  | None => (set_pp s (PScan 0 nsel ready), [])
  | Some connfd =>
      match find_child (cptr s) with
      | None => (set_pp s PQuit, [])
      | Some i =>
          match cptr s !! i with
          | None => (set_pp s PQuit, [])
          | Some c =>
              (St (<[i := Child 1 (child_count c + 1) (cpos c) (to_child c ++ [connfd]) (to_parent c)]> (cptr s))
                 (navail s - 1) (if nsel - 1 =? 0 then PSelect else PScan 0 (nsel - 1) ready), [Passed i connfd])
          end
      end
  end.

(** One turn of the loop of lines 71 to 80. *)
Definition scan (s : state) (i : nat) (nsel : Z) (rest : list bool) : option state :=
  match rest with
  | [] => Some (set_pp s PSelect)
  | false :: rest' => Some (set_pp s (PScan (S i) nsel rest'))
  | true :: rest' =>
      c ← cptr s !! i;
      Some (St (<[i := Child 0 (child_count c) (cpos c) (to_child c) (to_parent c - 1)]> (cptr s))
              (navail s + 1) (if nsel - 1 =? 0 then PSelect else PScan (S i) (nsel - 1) rest'))
  end.

(** A pipe can be read when the child has written to it. *)
Definition readable (cs : list child) (ready : list bool) : bool :=
  bool_decide (length ready = length cs) &&
  forallb (fun x => implb (snd x) (0 <? to_parent (fst x))) (combine cs ready).

Definition exec (s : state) (e : event) : option (state * list trace) :=
  match e with
  | EChild i => c ← cptr s !! i; '(c', ev) ← child_main c i; Some (set_child s i c', ev)
  | ESelect conn ready =>
      match pp s with
      | PSelect =>
          (* the listening descriptor is left out while no child is ready *)
          if (implb (navail s <=? 0) (bool_decide (conn = None))) && readable (cptr s) ready &&
             (bool_decide (is_Some conn) || (0 <? cnt id ready))
          then Some (after_select s conn ready) else None
      | _ => None
      end
  | EParent => match pp s with PScan i nsel rest => s' ← scan s i nsel rest; Some (s', []) | _ => None end
  end.

Fixpoint run (s : state) (es : list event) : option (state * list trace) :=
  match es with
  | [] => Some (s, [])
  | e :: es' =>
      '(s1, ev1) ← exec s e;
      '(s2, ev2) ← run s1 es';
      Some (s2, ev1 ++ ev2)
  end.

Definition main (nchildren : nat) : state :=
  St (replicate nchildren (Child 0 0 CRead [] 0)) (Z.of_nat nchildren) PSelect.

(** ** The accounts *)

Definition passed_to (i : nat) (ev : list trace) : list Z :=
  omap (fun e => match e with Passed j fd => if decide (j = i) then Some fd else None | _ => None end) ev.
Definition served_by (i : nat) (ev : list trace) : list Z :=
  omap (fun e => match e with Served j fd => if decide (j = i) then Some fd else None | _ => None end) ev.

Definition available (c : child) : bool := child_status c =? 0.
Definition in_child (c : child) : list Z := match cpos c with CServe fd => [fd] | _ => [] end.

(** The connection a child has, from its passing to the byte the parent reads. *)
Definition load (c : child) : Z :=
  Z.of_nat (length (to_child c)) + (match cpos c with CRead => 0 | _ => 1 end) + to_parent c.

Definition fits (c : child) : Prop :=
  0 <= to_parent c /\ (child_status c = 0 /\ load c = 0 \/ child_status c = 1 /\ load c = 1).

Definition p_fits (s : state) : Prop :=
  match pp s with
  | PSelect => True
  | PScan i nsel rest => nsel = cnt id rest /\ length (cptr s) = (i + length rest)%nat /\
      (forall k, rest !! k = Some true -> exists c, cptr s !! (i + k)%nat = Some c /\ 0 < to_parent c)
  | PQuit => False
  end.

Definition books (l : list child) (ev : list trace) : Prop := forall i c, l !! i = Some c ->
  passed_to i ev = served_by i ev ++ in_child c ++ to_child c /\ child_count c = Z.of_nat (length (passed_to i ev)).

Record inv (s : state) (ev : list trace) : Prop := Inv {
  i_fits : Forall fits (cptr s);
  i_avail : navail s = cnt available (cptr s);
  i_parent : p_fits s;
  i_books : books (cptr s) ev }.

Lemma pf_find_child l : match find_child l with
  | Some i => exists c, l !! i = Some c /\ child_status c = 0 | None => cnt available l = 0 end.
Proof.
  induction l as [|c l IH]; [done|]. cbn [find_child]. rewrite cnt_cons. unfold available at 1.
  destruct (child_status c =? 0) eqn:E; [exists c; bprop; done|].
  destruct (find_child l) as [i|]; cbn; [done|lia].
Qed.

Lemma pf_trace_app ev ev' : (forall i, passed_to i (ev ++ ev') = passed_to i ev ++ passed_to i ev') /\
  (forall i, served_by i (ev ++ ev') = served_by i ev ++ served_by i ev').
Proof. unfold passed_to, served_by. split; intros; by rewrite omap_app. Qed.

Lemma pf_books_step l ev i c c' ev' : books l ev -> l !! i = Some c ->
  (forall j, j <> i -> passed_to j ev' = [] /\ served_by j ev' = []) ->
  in_child c ++ to_child c ++ passed_to i ev' = served_by i ev' ++ in_child c' ++ to_child c' ->
  child_count c' = child_count c + Z.of_nat (length (passed_to i ev')) ->
  books (<[i := c']> l) (ev ++ ev').
Proof.
  intros Hb Hi Hj Hs Hc j x Hx. destruct (pf_trace_app ev ev') as (Et & Es). rewrite Et, Es.
  destruct (decide (j = i)) as [->|Hne].
  - rewrite list_lookup_insert_eq in Hx by (by eapply lookup_lt_Some). injection Hx as <-.
    destruct (Hb _ _ Hi) as [H1 H2]. rewrite length_app. split; [|lia].
    by rewrite H1, <- !app_assoc, Hs.
  - rewrite list_lookup_insert_ne in Hx by done. destruct (Hj j Hne) as [-> ->]. rewrite !app_nil_r. by apply Hb.
Qed.

(** ** The steps *)

Lemma pf_inv_child s ev i c c' ev' : inv s ev -> cptr s !! i = Some c -> child_main c i = Some (c', ev') ->
  inv (set_child s i c') (ev ++ ev').
Proof.
  intros [Hf Ha Hp Hb] Hi Hx. pose proof (Forall_lookup_1 _ _ _ _ Hf Hi) as Hc.
  assert (Hgoal : fits c' -> child_status c' = child_status c -> child_count c' = child_count c ->
      to_parent c <= to_parent c' -> (forall j, passed_to j ev' = []) -> (forall j, j <> i -> served_by j ev' = []) ->
      in_child c ++ to_child c = served_by i ev' ++ in_child c' ++ to_child c' -> inv (set_child s i c') (ev ++ ev')).
  { intros Hfit Es Ec Eo E1 E2 E3. constructor; cbn.
    - by apply Forall_insert.
    - rewrite (cnt_insert _ _ _ c) by done. unfold available at 2 3. rewrite Es. lia.
    - unfold p_fits in *. cbn. destruct (pp s) as [|k nsel rest|]; [done| |done].
      destruct Hp as (H1 & H2 & H3). split; [done|]. split; [by rewrite length_insert|].
      intros j Hj. destruct (H3 j Hj) as (x & Hx1 & Hx2). destruct (decide (i = k + j)%nat) as [->|Hne].
      + exists c'. rewrite list_lookup_insert_eq by (by eapply lookup_lt_Some). split; [done|].
        rewrite Hi in Hx1. injection Hx1 as <-. lia.
      + exists x. by rewrite list_lookup_insert_ne.
    - apply (pf_books_step _ _ _ c); try done.
      + by intros j Hj; rewrite E1, E2.
      + by rewrite E1, app_nil_r.
      + rewrite E1, Ec. cbn. lia. }
  unfold child_main in Hx. destruct c as [st n p inb out]. unfold fits, load in *. cbn in *.
  destruct p as [|fd|]; [destruct inb as [|fd l]; [done|]|..]; injection Hx as <- <-; apply Hgoal; cbn in *; try done; try lia.
  - intros j Hj. by rewrite decide_False by congruence.
  - by rewrite decide_True.
Qed.

Lemma readable_spec cs ready : readable cs ready = true -> length ready = length cs /\
  (forall k, ready !! k = Some true -> exists c, cs !! k = Some c /\ 0 < to_parent c).
Proof.
  unfold readable. intros [H1 H2]%andb_prop. apply bool_decide_eq_true in H1. split; [done|].
  revert cs H1 H2. induction ready as [|b ready IH]; intros [|c cs] H1 H2 k Hk; try done.
  cbn in H2. apply andb_prop in H2 as [H2 H3]. destruct k as [|k]; cbn in *.
  - injection Hk as ->. exists c. split; [done|]. cbn in H2. bprop. lia.
  - injection H1 as H1. by apply (IH cs H1 H3).
Qed.

Lemma pf_inv_select s ev conn ready s' ev' : inv s ev -> exec s (ESelect conn ready) = Some (s', ev') -> inv s' (ev ++ ev').
Proof.
  intros [Hf Ha Hp Hb] Hx. unfold exec in Hx. destruct (pp s) eqn:Epp; try done.
  destruct (_ && _ && _) eqn:E; [|done]. injection Hx as Hx. bprop.
  match goal with H : readable _ _ = true |- _ => apply readable_spec in H as [Hl Hrd] end.
  unfold after_select in Hx. destruct conn as [fd|].
  - assert (Hav : 0 < navail s) by (destruct (navail s <=? 0) eqn:Ea; [done|bprop; lia]).
    pose proof (pf_find_child (cptr s)) as Hfc. destruct (find_child (cptr s)) as [i|]; [|lia].
    destruct Hfc as (c & Hi & Hst). rewrite Hi in Hx. injection Hx as <- <-.
    pose proof (Forall_lookup_1 _ _ _ _ Hf Hi) as Hc.
    constructor; cbn.
    + apply Forall_insert; [done|]. unfold fits, load in *. cbn. rewrite length_app. cbn. lia.
    + rewrite (cnt_insert _ _ _ c) by done. unfold available at 2 3. rewrite Hst. cbn. lia.
    + unfold p_fits. cbn. destruct (_ =? 0) eqn:En; [done|]. split; [lia|]. split; [rewrite length_insert; lia|].
      intros k Hk. destruct (Hrd k Hk) as (x & Hx1 & Hx2). destruct (decide (i = k)) as [<-|Hne].
      * rewrite Hi in Hx1. injection Hx1 as <-. eexists. rewrite list_lookup_insert_eq by (by eapply lookup_lt_Some).
        split; [done|]. done.
      * exists x. by rewrite list_lookup_insert_ne.
    + apply (pf_books_step _ _ _ c); try done; cbn.
      * intros j Hj. by rewrite decide_False by congruence.
      * by rewrite decide_True.
      * rewrite decide_True by done. cbn. lia.
  - injection Hx as <- <-. rewrite app_nil_r. constructor; cbn; try done.
Qed.

Lemma pf_inv_parent s ev s' ev' : inv s ev -> exec s EParent = Some (s', ev') -> inv s' (ev ++ ev').
Proof.
  intros [Hf Ha Hp Hb] Hx. unfold exec in Hx. destruct (pp s) as [|i nsel rest|] eqn:Epp; try done.
  unfold p_fits in Hp. rewrite Epp in Hp. destruct Hp as (H1 & H2 & H3).
  destruct (scan s i nsel rest) as [s1|] eqn:Hs; [|done]. injection Hx as <- <-. rewrite app_nil_r.
  unfold scan in Hs. destruct rest as [|[] rest].
  - injection Hs as <-. by constructor.
  - destruct (H3 0%nat eq_refl) as (c & Hi & Hc). rewrite Nat.add_0_r in Hi. rewrite Hi in Hs. injection Hs as <-.
    pose proof (Forall_lookup_1 _ _ _ _ Hf Hi) as Hfit. rewrite cnt_cons in H1. cbn in H1, H2.
    assert (Hst : child_status c = 1 /\ to_parent c = 1 /\ to_child c = [] /\ cpos c = CRead).
    { unfold fits, load in Hfit. destruct (to_child c), (cpos c); cbn in *; lia || (repeat split; lia || done). }
    destruct Hst as (Es & Eo & Ei & Epc).
    constructor; cbn.
    + apply Forall_insert; [done|]. unfold fits, load. cbn. rewrite Eo, Ei, Epc. cbn. lia.
    + rewrite (cnt_insert _ _ _ c) by done. unfold available at 2 3. rewrite Es. cbn. lia.
    + unfold p_fits. cbn. destruct (nsel - 1 =? 0); [done|]. split; [lia|]. split; [rewrite length_insert; lia|].
      intros k Hk. destruct (H3 (S k) Hk) as (x & Hx1 & Hx2). exists x.
      split; [|done]. rewrite list_lookup_insert_ne by lia. by replace (S i + k)%nat with (i + S k)%nat by lia.
    + rewrite <- (app_nil_r ev). apply (pf_books_step _ _ _ c); try done; cbn; [by rewrite app_nil_r|lia].
  - injection Hs as <-. rewrite cnt_cons in H1. cbn in H1, H2. constructor; cbn; try done.
    unfold p_fits. cbn. split; [done|]. split; [lia|]. intros k Hk. destruct (H3 (S k) Hk) as (x & Hx1 & Hx2).
    exists x. by replace (S (i + k)) with (i + S k)%nat by lia.
Qed.

Lemma pf_inv_exec s ev e s' ev' : inv s ev -> exec s e = Some (s', ev') -> inv s' (ev ++ ev').
Proof.
  intros I Hx. destruct e as [i|conn ready|].
  - unfold exec in Hx. destruct (cptr s !! i) as [c|] eqn:Hi; [|done]. cbn in Hx.
    destruct (child_main c i) as [[c' ev1]|] eqn:Hc; [|done]. injection Hx as <- <-. by eapply pf_inv_child.
  - by eapply pf_inv_select.
  - by apply (pf_inv_parent s).
Qed.

Lemma pf_inv_main n : inv (main n) [].
Proof.
  constructor; cbn; try done.
  - apply Forall_replicate. unfold fits, load. cbn. lia.
  - induction n as [|n IH]; [done|]. cbn [replicate]. rewrite cnt_cons, <- IH. cbn. lia.
  - intros i c Hi. apply lookup_replicate in Hi as [-> _]. done.
Qed.

Lemma pf_run es : forall s ev s' ev', inv s ev -> run s es = Some (s', ev') -> inv s' (ev ++ ev').
Proof.
  induction es as [|e es IH]; intros s ev s' ev' I Hr; cbn in Hr.
  { injection Hr as <- <-. by rewrite app_nil_r. }
  destruct (exec s e) as [[s1 ev1]|] eqn:Hx; [|done]. cbn in Hr.
  destruct (run s1 es) as [[s2 ev2]|] eqn:Hr2; [|done]. injection Hr as <- <-.
  rewrite app_assoc. apply (IH s1); [by eapply pf_inv_exec|done].
Qed.

(** C16: in every interleaving of the parent and its children, [navail] counts the
    children marked ready, and these are exactly those without a connection; so a
    connection always finds a ready child (the parent never calls err_quit()), no child
    is given a second connection before it has served the first, and each serves what
    it was given.  A result of select() is never lost: the parent goes on until it has
    seen them all, and while it waits in select() with no pipe to read every connection
    it accepted is with a child that can go on. *)
Theorem prefork_correct nchildren es s ev :
  run (main nchildren) es = Some (s, ev) ->
  pp s <> PQuit /\ navail s = cnt available (cptr s) /\
  (forall i c, cptr s !! i = Some c ->
     passed_to i ev = served_by i ev ++ in_child c ++ to_child c /\
     child_count c = Z.of_nat (length (passed_to i ev)) /\
     (length (in_child c ++ to_child c) <= 1)%nat /\
     (child_status c = 0 <-> load c = 0) /\
     (in_child c ++ to_child c <> [] \/ cpos c = CTell -> is_Some (child_main c i))) /\
  (forall i nsel rest, pp s = PScan i nsel rest -> nsel = cnt id rest /\ is_Some (exec s EParent)) /\
  (pp s = PSelect -> Forall (fun c => to_parent c = 0) (cptr s) -> (forall i, exec s (EChild i) = None) ->
     navail s = Z.of_nat (length (cptr s)) /\ forall i c, cptr s !! i = Some c -> passed_to i ev = served_by i ev).
Proof.
  intros Hr. destruct (pf_run es _ [] s ev (pf_inv_main nchildren) Hr) as [Hf Ha Hp Hb]. cbn [app] in *.
  split; [unfold p_fits in Hp; intros E; by rewrite E in Hp|]. split; [done|]. split; [|split].
  - intros i c Hi. destruct (Hb i c Hi) as [H1 H2]. pose proof (Forall_lookup_1 _ _ _ _ Hf Hi) as Hc.
    split; [done|]. split; [done|]. unfold fits, load, in_child, child_main in *.
    destruct c as [st n p inb out]. cbn in *. destruct p as [|fd|], inb as [|x l]; cbn in *;
      (split; [lia|]); (split; [lia|]); intros H; try (by eexists); by destruct H.
  - intros i nsel rest E. unfold p_fits in Hp. rewrite E in Hp. destruct Hp as (H1 & H2 & H3). split; [done|].
    unfold exec. rewrite E. unfold scan. destruct rest as [|[] rest]; try (by eexists).
    destruct (H3 0%nat eq_refl) as (c & Hi & _). rewrite Nat.add_0_r in Hi. rewrite Hi. by eexists.
  - intros E Hout Hst. assert (Hidle : forall i c, cptr s !! i = Some c -> to_child c = [] /\ cpos c = CRead).
    { intros i c Hi. specialize (Hst i). unfold exec in Hst. rewrite Hi in Hst. cbn in Hst. unfold child_main in Hst.
      destruct (cpos c); try done. by destruct (to_child c). }
    assert (Hall : forall i c, cptr s !! i = Some c -> available c = true).
    { intros i c Hi. destruct (Hidle i c Hi) as [E1 E2]. pose proof (Forall_lookup_1 _ _ _ _ Hf Hi) as Hc.
      pose proof (Forall_lookup_1 _ _ _ _ Hout Hi) as Ho. unfold fits, load in Hc. rewrite E1, E2 in Hc. cbn in *.
      unfold available. apply Z.eqb_eq. lia. }
    split.
    + rewrite Ha. clear -Hall. induction (cptr s) as [|c l IH]; [done|]. rewrite cnt_cons, (Hall 0%nat c eq_refl).
      cbn [length]. rewrite IH; [cbn; lia|]. intros i x Hx. by apply (Hall (S i)).
    + intros i c Hi. destruct (Hb i c Hi) as [-> _]. destruct (Hidle i c Hi) as [E1 E2]. unfold in_child. rewrite E1, E2.
      by rewrite !app_nil_r.
Qed.

Definition two_connections : list event :=
  [ESelect (Some 7) [false; false]; EChild 0; ESelect (Some 8) [false; false]; EChild 0; EChild 0; EChild 1;
   ESelect None [true; false]; EParent].

Lemma prefork_correct_witness :
  exists s ev, run (main 2) two_connections = Some (s, ev) /\ served_by 0 ev = [7] /\ navail s = cnt available (cptr s).
Proof.
  eexists _, _. split; [vm_compute; reflexivity|]. split; [reflexivity|].
  refine (proj1 (proj2 (prefork_correct 2 two_connections _ _ _))). vm_compute. reflexivity.
Defined.

End PreFork.
