(* ===== verification/AddrLoop.v ===== *)
(** * Trying the addresses of a host one after the other

    Model of unpv13e/lib: tcp_connect.c, tcp_listen.c, udp_client.c, udp_connect.c
    and udp_server.c, and of the loops over getaddrinfo()'s list in the author's
    notes/echoServer, versions 3, 4 and 6.  An address is a number; what
    getaddrinfo() returned is an argument (an error or the list, one heap block);
    the other calls are in the monad of [Sys.v].  err_quit() and err_sys() are
    [Exit 1]. *)

From S2P Require Import Prelude Sys.

Definition sys_socket (addr : Z) : M (Z + errno) :=
  a ← sys_call (CSocket addr);
  match a with
  | inl fd => _ ← update (fun r => set_fds r (fd :: fds r)); mret (inl fd)
  | inr e => mret (inr e)
  end.

Definition succeeds (c : call) : M bool :=
  a ← sys_call c; mret (match a with inl _ => true | inr _ => false end).

(** ** The book's library *)

(** The do-while loop of the five functions; [setup] is what it does with a new
    socket.  [None]: [res] is the null pointer. *)
Fixpoint try_loop (setup : Z -> Z -> M bool) (res : list Z) : M (option (Z * Z)) :=
  match res with
  | [] => mret None
  | a :: res' =>
      s ← sys_socket a;
      match s with
      | inr _ => try_loop setup res'
      | inl sockfd =>
          ok ← setup sockfd a;
          if ok : bool then mret (Some (sockfd, a)) else _ ← sys_close sockfd; try_loop setup res'
      end
  end.

(** getaddrinfo() gave an error number or a list. *)
Definition with_addrinfo {A} (gai : Z + list Z) (k : list Z -> M A) : M A :=
  match gai with
  | inl _ => mexit 1
  | inr [] => mabort
  | inr res => _ ← update (fun r => set_heap r (S (heap r))); k res
  end.

Definition connecting (sockfd a : Z) : M bool := succeeds (CConnect sockfd a).
Definition binding (sockfd a : Z) : M bool := succeeds (CBind sockfd a).
Definition reuse_and_bind (listenfd a : Z) : M bool :=
  o ← sys_call (CReuseaddr listenfd);
  match o with inr _ => mexit 1 | inl _ => binding listenfd a end.

Definition tcp_connect (gai : Z + list Z) : M (Z * Z) :=
  with_addrinfo gai (fun res =>
    r ← try_loop connecting res;
    match r with None => mexit 1 | Some x => _ ← sys_free; mret x end).

Definition udp_connect (gai : Z + list Z) : M (Z * Z) :=
  with_addrinfo gai (fun res =>
    r ← try_loop connecting res;
    match r with None => mexit 1 | Some x => _ ← sys_free; mret x end).

Definition tcp_listen (gai : Z + list Z) : M (Z * Z) :=
  with_addrinfo gai (fun res =>
    r ← try_loop reuse_and_bind res;
    match r with
    | None => mexit 1
    | Some (listenfd, a) =>
        o ← sys_call (CListen listenfd);
        match o with inr _ => mexit 1 | inl _ => _ ← sys_free; mret (listenfd, a) end
    end).

Definition udp_server (gai : Z + list Z) : M (Z * Z) :=
  with_addrinfo gai (fun res =>
    r ← try_loop binding res;
    match r with None => mexit 1 | Some x => _ ← sys_free; mret x end).

(** The first address a socket can be made for; its copy is a heap block. *)
Definition udp_client (gai : Z + list Z) : M (Z * Z) :=
  with_addrinfo gai (fun res =>
    r ← try_loop (fun _ _ => mret true) res;
    match r with
    | None => mexit 1
    | Some x => m ← sys_malloc; if m : bool then _ ← sys_free; mret x else mexit 1
    end).

(** ** The author's clients *)

(** Versions 3 and 6: a socket that cannot be made ends the program. *)
Fixpoint cli_loop (tmp : list Z) : M (option (Z * Z)) :=
  match tmp with
  | [] => mret None
  | a :: tmp' =>
      s ← sys_socket a;
      match s with
      | inr _ => mexit (-1)
      | inl sockfd =>
          ok ← succeeds (CConnect sockfd a);
          if ok : bool then mret (Some (sockfd, a)) else _ ← sys_close sockfd; cli_loop tmp'
      end
  end.

Definition echo_client {A} (loop : list Z -> M (option (Z * Z))) (gai : Z + list Z) (k : Z * Z -> M A) : M A :=
  match gai with
  | inl _ => mexit (-1)
  | inr res =>
      _ ← update (fun r => set_heap r (S (heap r)));
      r ← loop res;
      match r with None => mexit (-1) | Some x => _ ← sys_free; k x end
  end.

(** What a signal does: end the process, or call a handler. *)
Inductive disposition := SIG_DFL | Handler.
Definition SIGHUP : Z := 1.
Definition SIGALRM : Z := 14.
Definition signal (sig : Z) (d : disposition) (t : Z -> disposition) : Z -> disposition :=
  fun n => if n =? sig then d else t n.

(** Version 4: connect() under an alarm of [nsec] seconds.  A connect() that is
    interrupted was interrupted by the alarm, the only signal sent. *)
Fixpoint cli_loop4 (t : Z -> disposition) (nsec : Z) (tmp : list Z) : M (option (Z * Z)) :=
  match tmp with
  | [] => mret None
  | a :: tmp' =>
      s ← sys_socket a;
      match s with
      | inr _ => mexit (-1)
      | inl sockfd =>
          _ ← tell (CAlarm nsec) id;
          c ← sys_call (CConnect sockfd a);
          match c, t SIGALRM with
          | inr EINTR, SIG_DFL => mexit (128 + SIGALRM)       (* killed *)
          | inr _, _ => _ ← tell (CAlarm 0) id; _ ← sys_close sockfd; cli_loop4 t nsec tmp'
          | inl _, _ => _ ← tell (CAlarm 0) id; mret (Some (sockfd, a))
          end
      end
  end.

Definition no_handlers : Z -> disposition := fun _ => SIG_DFL.
Definition nsec : Z := 20.

(** main of version 4, line 50, installs the handler. *)
Definition echo_client4 {A} (gai : Z + list Z) (k : Z * Z -> M A) : M A :=
  echo_client (cli_loop4 (signal SIGHUP Handler no_handlers) nsec) gai k.

(** ** The author's servers *)

(** Versions 3, 4 and 6: [continue] goes back to the test of a pointer that has not
    moved.  [fuel] turns of the loop. *)
Fixpoint bind_loop (fuel : nat) (tmp : list Z) : M (option (Z * Z)) :=
  match tmp with
  | [] => mret None
  | a :: _ =>
      match fuel with
      | O => mblocked
      | S fuel' =>
          s ← sys_socket a;
          match s with
          | inr _ => bind_loop fuel' tmp
          | inl sockfd =>
              ok ← succeeds (CBind sockfd a);
              if ok : bool then mret (Some (sockfd, a)) else _ ← sys_close sockfd; bind_loop fuel' tmp
          end
      end
  end.

Definition echo_listen (fuel : nat) (gai : Z + list Z) : M (Z * Z) :=
  match gai with
  | inl _ => mexit (-1)
  | inr res =>
      _ ← update (fun r => set_heap r (S (heap r)));
      r ← bind_loop fuel res;
      match r with
      | None => mexit (-1)
      | Some (sockfd, a) =>
          o ← sys_call (CListen sockfd);
          match o with inr _ => mexit (-1) | inl _ => _ ← sys_free; mret (sockfd, a) end
      end
  end.

(** ** Resources, whatever the kernel answers *)

Lemma wp_socket a Q r :
  (forall fd, Q (Ret (inl fd)) (set_fds r (fd :: fds r))) -> (forall e, Q (Ret (inr e)) r) ->
  Q Blocked r -> wp (sys_socket a) Q r.
Proof.
  intros H1 H2 H3. apply wp_bind, wp_call; [intros v|intros e|done]; cbn [wp_then].
  - intros as_ tr. apply H1.
  - by apply wp_ret.
Qed.

Lemma wp_succeeds c Q r : (forall b, Q (Ret b) r) -> Q Blocked r -> wp (succeeds c) Q r.
Proof. intros H1 H2. apply wp_bind, wp_call; [intros v|intros e|done]; cbn [wp_then]; by apply wp_ret. Qed.

Lemma wp_update f Q r : Q (Ret tt) (f r) -> wp (update f) Q r.
Proof. intros H as_ tr. exact H. Qed.

(** Closing the descriptor that was opened last. *)
Lemma wp_close_last fd Q r : Q (Ret tt) r -> wp (sys_close fd) Q (set_fds r (fd :: fds r)).
Proof. intros H. apply wp_tell. cbn. rewrite Z.eqb_refl. by destruct r. Qed.

Lemma wp_free_last Q r : Q (Ret tt) r -> wp sys_free Q (set_heap r (S (heap r))).
Proof. intros H. apply wp_tell. by destruct r. Qed.

Lemma wp_free_list fd Q r : Q (Ret tt) (set_fds r (fd :: fds r)) ->
  wp sys_free Q (set_heap (set_fds r (fd :: fds r)) (S (heap r))).
Proof. apply (wp_free_last Q (set_fds r (fd :: fds r))). Qed.

(** One descriptor more, for one of the addresses; or none. *)
Definition tried (l : list Z) (r : Sys.res) (o : outcome (option (Z * Z))) (r' : Sys.res) : Prop :=
  match o with
  | Ret None => r' = r
  | Ret (Some (fd, a)) => r' = set_fds r (fd :: fds r) /\ a ∈ l
  | Exit _ | Blocked => True
  | Fail _ | Abort => False
  end.

Definition setup_ok (setup : Z -> Z -> M bool) : Prop := forall fd a r,
  wp (setup fd a) (fun o r' => match o with Ret _ => r' = r | Exit _ | Blocked => True | _ => False end) r.

Lemma tried_tail a res r o r' : tried res r o r' -> tried (a :: res) r o r'.
Proof. destruct o as [[[fd b]|]| | | |]; try done. intros [-> H]. split; [done|]. by right. Qed.

Lemma wp_try_loop setup res r : setup_ok setup -> wp (try_loop setup res) (tried res r) r.
Proof.
  intros Hs. induction res as [|a res IH]; cbn [try_loop]; [by apply wp_ret|].
  apply wp_bind, wp_socket; [intros fd|intros e|done]; cbn [wp_then].
  - apply wp_bind. eapply wp_mono; [|apply Hs]. intros [b| | | |] r'; try done. intros ->. cbn [wp_then].
    destruct b; [apply wp_ret; split; [done|by left]|].
    apply wp_bind, wp_close_last. cbn [wp_then]. eapply wp_mono; [|exact IH]. intros o r'. apply tried_tail.
  - eapply wp_mono; [|exact IH]. intros o r'. apply tried_tail.
Qed.

Lemma succeeds_ok c : setup_ok (fun fd a => succeeds (c fd a)).
Proof. intros fd a r. by apply wp_succeeds. Qed.
Lemma connecting_ok : setup_ok connecting.
Proof. apply (succeeds_ok CConnect). Qed.
Lemma binding_ok : setup_ok binding.
Proof. apply (succeeds_ok CBind). Qed.
Lemma reuse_and_bind_ok : setup_ok reuse_and_bind.
Proof.
  intros fd a r. apply wp_bind, wp_call; [intros v|intros e|done]; cbn [wp_then]; [apply binding_ok|by apply wp_exit].
Qed.

(** What the five functions do with resources: the socket, and [extra] heap blocks. *)
Definition settled (extra : nat) (l : list Z) (r : res) (o : outcome (Z * Z)) (r' : res) : Prop :=
  match o with
  | Ret (fd, a) => a ∈ l /\ r' = Res (fd :: fds r) (maps r) (extra + heap r) (faults r)
  | Exit _ | Blocked => True
  | Fail _ | Abort => False
  end.

Lemma wp_with_addrinfo extra gai setup k r : gai <> inr [] -> setup_ok setup ->
  (forall l fd a r1, a ∈ l -> r1 = set_fds r (fd :: fds r) ->
     wp (k (Some (fd, a))) (settled extra l r) (set_heap r1 (S (heap r)))) ->
  k None = mexit 1 ->
  wp (with_addrinfo gai (fun res => try_loop setup res ≫= k))
    (settled extra (match gai with inr l => l | _ => [] end) r) r.
Proof.
  intros Hg Hs Hk Hn. unfold with_addrinfo. destruct gai as [n|[|a l]]; [by apply wp_exit|done|].
  apply wp_bind, wp_update. cbn [wp_then].
  apply wp_bind. eapply wp_mono; [|by apply wp_try_loop].
  intros [[[fd b]|]| | | |] r'; cbn [tried wp_then]; try done.
  - intros [-> Hb]. by apply (Hk (a :: l) fd b (set_fds r (fd :: fds r))).
  - intros ->. rewrite Hn. by apply wp_exit.
Qed.

Lemma addr_resources gai r : gai <> inr [] ->
  let l := match gai with inr l => l | _ => [] end in
  wp (tcp_connect gai) (settled 0 l r) r /\ wp (udp_connect gai) (settled 0 l r) r /\
  wp (tcp_listen gai) (settled 0 l r) r /\ wp (udp_server gai) (settled 0 l r) r /\
  wp (udp_client gai) (settled 1 l r) r.
Proof.
  intros Hg l. split; [|split; [|split; [|split]]].
  - apply (wp_with_addrinfo 0); [done|apply connecting_ok| |done]. intros l' fd a r1 Ha ->.
    apply wp_bind, wp_free_list. by apply wp_ret.
  - apply (wp_with_addrinfo 0); [done|apply connecting_ok| |done]. intros l' fd a r1 Ha ->.
    apply wp_bind, wp_free_list. by apply wp_ret.
  - apply (wp_with_addrinfo 0); [done|apply reuse_and_bind_ok| |done]. intros l' fd a r1 Ha ->.
    apply wp_bind, wp_call; [intros v|intros e; by apply wp_exit|done]; cbn [wp_then].
    apply wp_bind, wp_free_list. by apply wp_ret.
  - apply (wp_with_addrinfo 0); [done|apply binding_ok| |done]. intros l' fd a r1 Ha ->.
    apply wp_bind, wp_free_list. by apply wp_ret.
  - apply (wp_with_addrinfo 1); [done|by intros ???; apply wp_ret| |done]. intros l' fd a r1 Ha ->.
    apply wp_bind, wp_malloc; [|by apply wp_exit|done]. cbn [wp_then].
    apply wp_bind. apply wp_tell. cbn. by apply wp_ret.
Qed.

(** ** Which address is taken *)

(** A kernel that gives the same answers for an address whenever it is asked. *)
Record kernel := Kernel { k_socket : Z -> Z + errno; k_takes : Z -> bool }.

Definition usable (K : kernel) (a : Z) : bool :=
  match k_socket K a with inl _ => k_takes K a | inr _ => false end.
Definition chosen (K : kernel) (l : list Z) : option (Z * Z) :=
  a ← List.find (usable K) l;
  match k_socket K a with inl fd => Some (fd, a) | inr _ => None end.

Definition yes_no (b : bool) : ans := if b then Ok 0 else Err ECONN.
(** What it answers for one address; [pre] are the answers before the last call. *)
Definition replies (K : kernel) (pre : list ans) (a : Z) : list ans :=
  match k_socket K a with inr e => [Err e] | inl fd => Ok fd :: pre ++ [yes_no (k_takes K a)] end.
Fixpoint script (K : kernel) (pre : list ans) (l : list Z) : list ans :=
  match l with
  | [] => []
  | a :: l' => replies K pre a ++ if usable K a then [] else script K pre l'
  end.

(** [m] gives the value [v] when it finds these answers first. *)
Definition answers_with {A} (m : M A) (as_ : list ans) (o : outcome A) : Prop :=
  forall rest tr r, exists tr' r', m (Sys (as_ ++ rest) tr r) = (o, Sys rest tr' r').

Lemma answers_bind {A B} (m : M A) (k : A -> M B) as1 as2 v o :
  answers_with m as1 (Ret v) -> answers_with (k v) as2 o -> answers_with (m ≫= k) (as1 ++ as2) o.
Proof.
  intros Hm Hk rest tr r. rewrite <- app_assoc. destruct (Hm (as2 ++ rest) tr r) as (tr1 & r1 & E1).
  destruct (Hk rest tr1 r1) as (tr2 & r2 & E2). exists tr2, r2. unfold mbind, M_bind. by rewrite E1.
Qed.

Lemma answers_stop {A B} (m : M A) (k : A -> M B) as1 c :
  answers_with m as1 (Exit c) -> answers_with (m ≫= k) as1 (Exit c).
Proof.
  intros Hm rest tr r. destruct (Hm rest tr r) as (tr1 & r1 & E1). exists tr1, r1. unfold mbind, M_bind. by rewrite E1.
Qed.

Lemma answers_block {A B} (m : M A) (k : A -> M B) as1 :
  answers_with m as1 Blocked -> answers_with (m ≫= k) as1 Blocked.
Proof.
  intros Hm rest tr r. destruct (Hm rest tr r) as (tr1 & r1 & E1). exists tr1, r1. unfold mbind, M_bind. by rewrite E1.
Qed.

Lemma answers_ret {A} (a : A) : answers_with (mret a) [] (Ret a).
Proof. intros rest tr r. by exists tr, r. Qed.
Lemma answers_exit {A} c : answers_with (A := A) (mexit c) [] (Exit c).
Proof. intros rest tr r. by exists tr, r. Qed.
Lemma answers_tell c f : answers_with (tell c f) [] (Ret tt).
Proof. intros rest tr r. by eexists _, _. Qed.
Lemma answers_update f : answers_with (update f) [] (Ret tt).
Proof. intros rest tr r. by eexists _, _. Qed.
Lemma answers_call c a : answers_with (sys_call c) [a] (Ret (value_of a)).
Proof. intros rest tr r. by eexists _, _. Qed.

Lemma answers_socket_ok a fd : answers_with (sys_socket a) [Ok fd] (Ret (inl fd)).
Proof. intros rest tr r. by eexists _, _. Qed.
Lemma answers_socket_no a e : answers_with (sys_socket a) [Err e] (Ret (inr e)).
Proof. intros rest tr r. by eexists _, _. Qed.
Lemma answers_succeeds c b : answers_with (succeeds c) [yes_no b] (Ret b).
Proof. intros rest tr r. destruct b; by eexists _, _. Qed.

Lemma answers_try_loop K setup pre l :
  (forall fd a, answers_with (setup fd a) (pre ++ [yes_no (k_takes K a)]) (Ret (k_takes K a))) ->
  answers_with (try_loop setup l) (script K pre l) (Ret (chosen K l)).
Proof.
  intros Hs. unfold chosen. induction l as [|a l IH]; [apply answers_ret|].
  cbn [try_loop script List.find]. unfold replies.
  change (usable K a) with (match k_socket K a with inl _ => k_takes K a | inr _ => false end).
  destruct (k_socket K a) as [fd|e] eqn:Ek.
  - apply (answers_bind _ _ [Ok fd] ((pre ++ [yes_no (k_takes K a)]) ++ _) (inl fd)); [apply answers_socket_ok|].
    eapply answers_bind; [apply Hs|]. destruct (k_takes K a).
    + cbn. rewrite Ek. apply answers_ret.
    + apply (answers_bind _ _ [] _ tt); [apply answers_tell|exact IH].
  - eapply answers_bind; [apply answers_socket_no|exact IH].
Qed.

Lemma answers_with_addrinfo {A} l (k : list Z -> M A) as_ o :
  l <> [] -> answers_with (k l) as_ o -> answers_with (with_addrinfo (inr l) k) as_ o.
Proof. intros Hl Hk. destruct l as [|a l]; [done|]. by apply (answers_bind _ _ [] _ tt); [apply answers_update|]. Qed.

Definition result (x : option (Z * Z)) (code : Z) : outcome (Z * Z) :=
  match x with Some y => Ret y | None => Exit code end.

Lemma answers_then_free K setup pre l post code k :
  (forall fd a, answers_with (setup fd a) (pre ++ [yes_no (k_takes K a)]) (Ret (k_takes K a))) -> l <> [] ->
  k None = mexit code -> (forall x, answers_with (k (Some x)) post (Ret x)) ->
  answers_with (with_addrinfo (inr l) (fun res => try_loop setup res ≫= k))
    (script K pre l ++ match chosen K l with Some _ => post | None => [] end) (result (chosen K l) code).
Proof.
  intros Hs Hl Hn Hk. apply answers_with_addrinfo; [done|]. eapply answers_bind; [by apply answers_try_loop|].
  destruct (chosen K l) as [x|]; cbn; [apply Hk|rewrite Hn; apply answers_exit].
Qed.

Lemma answers_free x : answers_with (_ ← sys_free; mret (A := Z * Z) x) [] (Ret x).
Proof. apply (answers_bind _ _ [] [] tt); [apply answers_tell|apply answers_ret]. Qed.

(** Tcp_connect, udp_connect, tcp_listen, udp_server and udp_client, whatever the
    kernel answers: on return exactly one descriptor more is open, on one of the
    addresses, and the list has been freed; a socket that could not be connected or
    bound has been closed; nothing is closed or freed twice.  When the kernel treats an
    address always alike, the address taken is the first usable one, and without one
    the program ends. *)
Theorem address_loops gai r K :
  gai <> inr [] ->
  let l := match gai with inr l => l | _ => [] end in
  (wp (tcp_connect gai) (settled 0 l r) r /\ wp (udp_connect gai) (settled 0 l r) r /\
   wp (tcp_listen gai) (settled 0 l r) r /\ wp (udp_server gai) (settled 0 l r) r /\
   wp (udp_client gai) (settled 1 l r) r) /\
  (forall l, l <> [] ->
    answers_with (tcp_connect (inr l)) (script K [] l) (result (chosen K l) 1) /\
    answers_with (udp_connect (inr l)) (script K [] l) (result (chosen K l) 1) /\
    answers_with (udp_server (inr l)) (script K [] l) (result (chosen K l) 1) /\
    answers_with (tcp_listen (inr l))
      (script K [Ok 0] l ++ match chosen K l with Some _ => [Ok 0] | None => [] end) (result (chosen K l) 1)).
Proof.
  intros Hg l0. split; [by apply addr_resources|]. intros l Hl.
  assert (Hone : forall (c : Z -> Z -> call), answers_with (with_addrinfo (inr l) (fun res =>
      r ← try_loop (fun fd a => succeeds (c fd a)) res;
      match r with None => mexit 1 | Some x => _ ← sys_free; mret x end)) (script K [] l) (result (chosen K l) 1)).
  { intros c. pose proof (answers_then_free K (fun fd a => succeeds (c fd a)) [] l [] 1
      (fun r => match r with None => mexit 1 | Some x => _ ← sys_free; mret x end)) as H.
    specialize (H ltac:(intros; apply answers_succeeds) Hl eq_refl answers_free).
    destruct (chosen K l); by rewrite app_nil_r in H. }
  split; [apply (Hone CConnect)|]. split; [apply (Hone CConnect)|]. split; [apply (Hone CBind)|].
  apply (answers_then_free K reuse_and_bind [Ok 0] l [Ok 0] 1); [|done|done|].
  - intros fd a. eapply answers_bind; [apply answers_call|apply answers_succeeds].
  - intros [fd a]. apply (answers_bind _ _ [Ok 0] [] (inl 0)); [apply answers_call|apply answers_free].
Qed.

Lemma address_loops_witness :
  let K := Kernel (fun a => if a =? 6 then inr EAFNOSUPPORT else inl (a + 3)) (fun a => a =? 9) in
  answers_with (tcp_connect (inr [6; 8; 9; 9])) [Err EAFNOSUPPORT; Ok 11; Err ECONN; Ok 12; Ok 0] (Ret (12, 9)).
Proof.
  intros K. refine (proj1 (proj2 (address_loops (inr [6]) no_res K _) [6; 8; 9; 9] _)); done.
Defined.

(** ** The author's loops *)

Lemma answers_cli_loop K l : (forall a, a ∈ l -> exists fd, k_socket K a = inl fd) ->
  answers_with (cli_loop l) (script K [] l) (Ret (chosen K l)).
Proof.
  unfold chosen. induction l as [|a l IH]; intros Hs; [apply answers_ret|].
  cbn [cli_loop script List.find]. unfold replies.
  change (usable K a) with (match k_socket K a with inl _ => k_takes K a | inr _ => false end).
  destruct (Hs a ltac:(by left)) as [fd Ek]. rewrite Ek.
  apply (answers_bind _ _ [Ok fd] ([yes_no (k_takes K a)] ++ _) (inl fd)); [apply answers_socket_ok|].
  eapply answers_bind; [apply answers_succeeds|]. destruct (k_takes K a).
  - cbn. rewrite Ek. apply answers_ret.
  - apply (answers_bind _ _ [] _ tt); [apply answers_tell|]. apply IH. intros b Hb. apply Hs. by right.
Qed.

Lemma cli_loop4_alarm t n a l fd as_ o :
  match t SIGALRM with
  | SIG_DFL => answers_with (cli_loop4 t n (a :: l)) [Ok fd; Err EINTR] (Exit 142)
  | Handler => answers_with (cli_loop4 t n l) as_ o ->
      answers_with (cli_loop4 t n (a :: l)) ([Ok fd; Err EINTR] ++ as_) o
  end.
Proof.
  cbn [cli_loop4]. destruct (t SIGALRM) eqn:E.
  - apply (answers_bind _ _ [Ok fd] [Err EINTR] (inl fd)); [apply answers_socket_ok|].
    apply (answers_bind _ _ [] [Err EINTR] tt); [apply answers_tell|].
    apply (answers_bind _ _ [Err EINTR] [] (inr EINTR)); [apply answers_call|]. apply answers_exit.
  - intros H. apply (answers_bind _ _ [Ok fd] ([Err EINTR] ++ as_) (inl fd)); [apply answers_socket_ok|].
    apply (answers_bind _ _ [] ([Err EINTR] ++ as_) tt); [apply answers_tell|].
    apply (answers_bind _ _ [Err EINTR] as_ (inr EINTR)); [apply answers_call|].
    apply (answers_bind _ _ [] as_ tt); [apply answers_tell|].
    by apply (answers_bind _ _ [] as_ tt); [apply answers_tell|].
Qed.

(** Only the first address is ever tried. *)
Lemma wp_bind_loop fuel a l r : wp (bind_loop fuel (a :: l)) (tried [a] r) r.
Proof.
  induction fuel as [|fuel IH]; cbn [bind_loop]; [by apply wp_blocked|].
  apply wp_bind, wp_socket; [intros fd|intros e|done]; cbn [wp_then]; [|exact IH].
  apply wp_bind, wp_succeeds; [|done]. intros [|]; cbn [wp_then].
  - apply wp_ret. split; [done|by left].
  - by apply wp_bind, wp_close_last.
Qed.

Lemma answers_blocked {A} : answers_with (A := A) mblocked [] Blocked.
Proof. intros rest tr r. by exists tr, r. Qed.

(** As long as the first address is refused the loop goes on. *)
Lemma bind_loop_refused K a l n : usable K a = false ->
  answers_with (bind_loop n (a :: l)) (concat (replicate n (replies K [] a))) Blocked.
Proof.
  intros Hu. induction n as [|n IH]; [apply answers_blocked|].
  cbn [bind_loop replicate concat]. revert IH. generalize (concat (replicate n (replies K [] a))). intros rs IH.
  unfold replies, usable in *. destruct (k_socket K a) as [fd|e].
  - rewrite Hu. apply (answers_bind _ _ [Ok fd] ([yes_no false] ++ _) (inl fd)); [apply answers_socket_ok|].
    eapply answers_bind; [apply answers_succeeds|].
    apply (answers_bind _ _ [] _ tt); [apply answers_tell|]. exact IH.
  - apply (answers_bind _ _ [Err e] _ (inr e)); [apply answers_socket_no|]. exact IH.
Qed.

(** The author's loops.  When every socket can be made the clients of versions 3
    and 6 connect to the first address that takes the connection.  In version 4 the
    alarm ends the program at the first address that does not answer, since its handler
    is installed for SIGHUP; with the handler for SIGALRM the next address would be
    tried.  The servers never try another address than the first: they bind it, or, as
    long as it is refused, go round for ever, with the descriptors closed each time. *)
Theorem author_address_loops K l r :
  ((forall a, a ∈ l -> exists fd, k_socket K a = inl fd) -> forall A (k : Z * Z -> M A) as_ o,
     match chosen K l with Some x => answers_with (k x) as_ o | None => as_ = [] /\ o = Exit (-1) end ->
     answers_with (echo_client cli_loop (inr l) k) (script K [] l ++ as_) o) /\
  (forall a fd A (k : Z * Z -> M A), answers_with (echo_client4 (inr (a :: l)) k) [Ok fd; Err EINTR] (Exit 142)) /\
  (forall a fd as_ o, answers_with (cli_loop4 (signal SIGALRM Handler no_handlers) nsec l) as_ o ->
     answers_with (cli_loop4 (signal SIGALRM Handler no_handlers) nsec (a :: l)) ([Ok fd; Err EINTR] ++ as_) o) /\
  (forall a fuel, wp (bind_loop fuel (a :: l)) (tried [a] r) r) /\
  (forall a n, usable K a = false ->
     answers_with (echo_listen n (inr (a :: l))) (concat (replicate n (replies K [] a))) Blocked).
Proof.
  split; [|split; [|split; [|split]]].
  - intros Hs A k as_ o Hk. apply (answers_bind _ _ [] (script K [] l ++ as_) tt); [apply answers_update|].
    eapply answers_bind; [by apply answers_cli_loop|]. destruct (chosen K l) as [x|].
    + by apply (answers_bind _ _ [] as_ tt); [apply answers_tell|].
    + destruct Hk as [-> ->]. apply answers_exit.
  - intros a fd A k. apply (answers_bind _ _ [] [Ok fd; Err EINTR] tt); [apply answers_update|].
    apply answers_stop. apply (cli_loop4_alarm (signal SIGHUP Handler no_handlers) nsec a l fd [] (Exit 142)).
  - intros a fd as_ o H. by apply (cli_loop4_alarm (signal SIGALRM Handler no_handlers) nsec a l fd as_ o).
  - intros a fuel. apply wp_bind_loop.
  - intros a n Hu. apply (answers_bind _ _ [] _ tt); [apply answers_update|].
    by apply answers_block, bind_loop_refused.
Qed.

(** The book's function binds the second address where the author's goes round. *)
Lemma author_address_loops_witness :
  let K := Kernel (fun a => inl (a + 3)) (fun a => a =? 9) in
  answers_with (echo_listen 100 (inr [8; 9])) (concat (replicate 100 (replies K [] 8))) Blocked /\
  answers_with (tcp_listen (inr [8; 9])) [Ok 11; Ok 0; Err ECONN; Ok 12; Ok 0; Ok 0; Ok 0] (Ret (12, 9)).
Proof.
  intros K. split.
  - apply (author_address_loops K [9] no_res). reflexivity.
  - intros rest tr r. by eexists _, _.
Defined.
