(* ===== verification/EchoAuthor.v ===== *)
(** * The author's echo clients and servers

    Model of notes/echoServer: str_cli of the clients of versions 1, 3 and 4, the two
    threads of the client of version 6, str_serv of the servers of versions 1, 3, 4
    and 6, and the collection of ended children (sigChildHandler, and the book's
    tcpcliserv/sigchldwait.c and sigchldwaitpid.c).  Sockets are the scripts of
    [RobustIO]; the select() servers are in [SelectServer.v], the loops over addresses
    in [AddrLoop.v]. *)

From S2P Require Import Prelude RobustIO.
Import RobustIO.

Module EchoAuthor.

Definition MAXLEN : nat := 100.

(** ** fgets(), strlen() and fputs() on an array *)

(** At most [k] bytes, up to and with the first newline; the rest. *)
Fixpoint line_upto (k : nat) (fp : list Z) : list Z * list Z :=
  match k, fp with
  | S k', c :: fp' =>
      if c =? newline then ([c], fp') else let '(l, r) := line_upto k' fp' in (c :: l, r)
  | _, _ => ([], fp)
  end.

(** [buf] with [l] at its start. *)
Definition put (l buf : list Z) : list Z := l ++ drop (length l) buf.

Definition fgets (n : nat) (buf fp : list Z) : option (list Z * list Z) :=
  match fp with
  | [] => None
  | _ => let '(l, r) := line_upto (n - 1) fp in Some (put (l ++ [0]) buf, r)
  end.

(** The distance to the first null byte; [None] runs out of the array. *)
Fixpoint strlen (buf : list Z) : option nat :=
  match buf with
  | [] => None
  | c :: l => if c =? 0 then Some 0%nat else S <$> strlen l
  end.

Definition fputs (buf : list Z) : option (list Z) := n ← strlen buf; Some (take n buf).

(** ** The clients *)

Section Client.
(** Which errors of write() are tried again, and the code of exit() after another. *)
Context (MAXLEN : nat) (retry : errno -> bool) (write_exit : Z).

(** [while (sendNum < curLen)]: what could not be sent. *)
Fixpoint send_all (fuel : nat) (w : sink) (l : list Z) : outcome (list Z) * sink :=
  match l with
  | [] => (Ret [], w)
  | _ =>
    match fuel with
    | O => (Blocked, w)
    | S fuel' =>
      match k_write w l with
      | (None, w') => (Blocked, w')
      | (Some (inr e), w') => if retry e then send_all fuel' w' l else (Exit write_exit, w')
      | (Some (inl O), w') => (Ret l, w')
      | (Some (inl k), w') => send_all fuel' w' (drop k l)
      end
    end
  end.

Definition send_line (w : sink) (l : list Z) : outcome (list Z) * sink := send_all (S (length (answers w))) w l.

(** How select() ends in version 4; the others read at once. *)
Inductive select_result := Ready | TimedOut.

Record st := St { fp : list Z; sock : list arrival; snk : sink; shown : list Z }.

(** The part of the loop after the line has been sent. *)
Definition show_reply (sel : select_result) (s : st) (buf : list Z) : outcome (list Z) * st :=
  let show s buf := match fputs buf with
    | None => (Abort, s)
    | Some t => (Ret buf, St (fp s) (sock s) (snk s) (shown s ++ t))
    end in
  match sel with
  | TimedOut => show s buf
  | Ready =>
      match k_read MAXLEN (sock s) with
      | (RWait, r) => (Blocked, St (fp s) r (snk s) (shown s))
      | (RError _, r) => (Exit (-1), St (fp s) r (snk s) (shown s))
      | (Got [], r) => (Exit (-1), St (fp s) r (snk s) (shown s))
      | (Got l, r) => show (St (fp s) r (snk s) (shown s)) (put l buf)
      end
  end.

(** str_cli: [k] lines have been read. *)
Fixpoint str_cli_loop (fuel k : nat) (sel : nat -> select_result) (s : st) (buf : list Z) : outcome unit * st :=
  match fuel with
  | O => (Ret tt, s)
  | S fuel' =>
      match fgets MAXLEN buf (fp s) with
      | None => (Ret tt, s)
      | Some (buf1, fp') =>
          match strlen buf1 with
          | None => (Abort, s)
          | Some curLen =>
              match send_line (snk s) (take curLen buf1) with
              | (Ret _, w) =>
                  match show_reply (sel k) (St fp' (sock s) w (shown s)) buf1 with
                  | (Ret buf2, s') => str_cli_loop fuel' (S k) sel s' buf2
                  | (Fail e, s') => (Fail e, s') | (Exit c, s') => (Exit c, s')
                  | (Abort, s') => (Abort, s') | (Blocked, s') => (Blocked, s')
                  end
              | (Fail e, w) => (Fail e, St fp' (sock s) w (shown s))
              | (Exit c, w) => (Exit c, St fp' (sock s) w (shown s))
              | (Abort, w) => (Abort, St fp' (sock s) w (shown s))
              | (Blocked, w) => (Blocked, St fp' (sock s) w (shown s))
              end
          end
      end
  end.

Definition str_cli (sel : nat -> select_result) (s : st) (junk : list Z) : outcome unit * st :=
  str_cli_loop (S (length (fp s))) 0 sel s junk.

(** Version 6: the thread that sends, which shuts the socket down at the end. *)
Fixpoint copyto_loop (fuel : nat) (fp : list Z) (w : sink) (buf : list Z) : outcome unit * sink :=
  match fuel with
  | O => (Ret tt, w)
  | S fuel' =>
      match fgets MAXLEN buf fp with
      | None => (Ret tt, w)
      | Some (buf1, fp') =>
          match strlen buf1 with
          | None => (Abort, w)
          | Some curLen =>
              match send_line w (take curLen buf1) with
              | (Ret _, w') => copyto_loop fuel' fp' w' buf1
              | (Fail e, w') => (Fail e, w') | (Exit c, w') => (Exit c, w')
              | (Abort, w') => (Abort, w') | (Blocked, w') => (Blocked, w')
              end
          end
      end
  end.
Definition copyto (fp : list Z) (w : sink) (junk : list Z) : outcome unit * sink :=
  copyto_loop (S (length fp)) fp w junk.

(** and main, which reads; write() to the standard output takes all. *)
Fixpoint read_loop (fuel : nat) (s : list arrival) (out : list Z) : outcome unit * list Z :=
  match fuel with
  | O => (Blocked, out)
  | S fuel' =>
      match k_read MAXLEN s with
      | (RWait, _) => (Blocked, out)
      | (RError _, _) => (Exit (-1), out)
      | (Got [], _) => (Exit 0, out)
      | (Got l, s') => read_loop fuel' s' (out ++ l)
      end
  end.
End Client.

(** The four versions. *)
Definition retry_eintr (e : errno) : bool := bool_decide (e = EINTR).
Definition EWOULDBLOCK : errno := EAGAIN.
Definition retry_v4 (e : errno) : bool := bool_decide (e = EINTR) || bool_decide (e = EWOULDBLOCK).

Definition str_cli_v1 (s : st) (inStr : list Z) : outcome unit * st :=
  str_cli MAXLEN retry_eintr (-1) (fun _ => Ready) s inStr.
Definition str_cli_v3 (s : st) (inStr : list Z) : outcome unit * st :=
  str_cli MAXLEN retry_eintr 0 (fun _ => Ready) s inStr.
Definition str_cli_v4 (sel : nat -> select_result) (s : st) (inStr : list Z) : outcome unit * st :=
  str_cli MAXLEN retry_v4 (-1) sel s inStr.
Definition copyto_v6 (fp : list Z) (w : sink) (buffer : list Z) : outcome unit * sink :=
  copyto MAXLEN retry_eintr 0 fp w buffer.
Definition main_v6 (s : list arrival) : outcome unit * list Z := read_loop MAXLEN (S (size s)) s [].

(** ** The servers *)

(** str_serv: the result of write() is not looked at. *)
Fixpoint str_serv_loop (fuel : nat) (s : list arrival) (w : sink) : outcome unit * sink :=
  match fuel with
  | O => (Blocked, w)
  | S fuel' =>
      match k_read MAXLEN s with
      | (RWait, _) => (Blocked, w)
      | (RError e, s') => if bool_decide (e = EINTR) then str_serv_loop fuel' s' w else (Exit (-1), w)
      | (Got [], _) => (Ret tt, w)
      | (Got l, s') =>
          match k_write w l with
          | (None, w') => (Blocked, w')
          | (Some _, w') => str_serv_loop fuel' s' w'
          end
      end
  end.
Definition str_serv (s : list arrival) (w : sink) : outcome unit * sink := str_serv_loop (S (size s)) s w.

(** ** Lines in an array *)

Definition no_nul (l : list Z) : Prop := Forall (fun c => c <> 0) l.

Lemma line_upto_spec k fp : let '(l, r) := line_upto k fp in
  fp = l ++ r /\ (length l <= k)%nat /\ ((0 < k)%nat -> fp <> [] -> l <> []).
Proof.
  revert fp. induction k as [|k IH]; intros fp; cbn [line_upto].
  { split; [done|]. split; [cbn; lia|]. lia. }
  destruct fp as [|c fp]; [split; [done|]; split; [cbn; lia|done]|].
  destruct (c =? newline).
  - split; [done|]. split; [cbn; lia|done].
  - specialize (IH fp). destruct (line_upto k fp) as [l r]. destruct IH as (-> & Hl & _).
    split; [done|]. split; [cbn; lia|done].
Qed.

Lemma strlen_line l rest : no_nul l -> strlen (l ++ 0 :: rest) = Some (length l).
Proof.
  induction 1 as [|c l Hc Hl IH]; [done|]. cbn [app strlen length].
  destruct (c =? 0) eqn:E; [bprop; done|]. by rewrite IH.
Qed.

Lemma strlen_none buf : no_nul buf -> strlen buf = None.
Proof.
  induction 1 as [|c l Hc Hl IH]; [done|]. cbn [strlen]. destruct (c =? 0) eqn:E; [bprop; done|]. by rewrite IH.
Qed.

Lemma length_put l buf : (length l <= length buf)%nat -> length (put l buf) = length buf.
Proof. intros H. unfold put. rewrite length_app, length_drop. lia. Qed.

(** One line read into the array. *)
Lemma fgets_spec n buf fp : (2 <= n)%nat -> length buf = n -> no_nul fp ->
  match fgets n buf fp with
  | None => fp = []
  | Some (buf1, r) => exists l rest, fp = l ++ r /\ l <> [] /\ (length l < n)%nat /\ line_upto (n - 1) fp = (l, r) /\
      buf1 = l ++ 0 :: rest /\ length buf1 = n /\ no_nul l /\ strlen buf1 = Some (length l) /\ take (length l) buf1 = l
  end.
Proof.
  intros Hn Hb Hz. unfold fgets. destruct fp as [|c fp]; [done|].
  pose proof (line_upto_spec (n - 1) (c :: fp)) as H. destruct (line_upto (n - 1) (c :: fp)) as [l r].
  destruct H as (E & Hl & Hne). exists l, (drop (S (length l)) buf).
  assert (Hb1 : put (l ++ [0]) buf = l ++ 0 :: drop (S (length l)) buf).
  { unfold put. rewrite length_app. cbn [length]. rewrite Nat.add_1_r, <- app_assoc. done. }
  split; [done|]. split; [apply Hne; [lia|done]|]. split; [lia|]. split; [done|]. split; [done|].
  split; [rewrite length_put, Hb; [done|rewrite length_app; cbn; lia]|].
  assert (Hzl : no_nul l) by (rewrite E in Hz; by apply Forall_app in Hz as [? _]).
  split; [done|]. rewrite Hb1. split; [by apply strlen_line|]. by apply take_app_length.
Qed.

Section Sending.
Context (retry : errno -> bool) (write_exit : Z).

Definition no_zero (r : list answer) : Prop := Forall (fun a => a <> Took 0) r.

Lemma send_all_spec fuel : forall w l o w', (length (answers w) < fuel)%nat ->
  send_all retry write_exit fuel w l = (o, w') ->
  exists k, accepted w' = accepted w ++ take k l /\ (k <= length l)%nat /\
    (no_zero (answers w) -> no_zero (answers w')) /\
    match o with
    | Ret rest => rest = drop k l /\ (no_zero (answers w) -> rest = [])
    | Exit c => c = write_exit
    | Blocked => answers w' = []
    | _ => False
    end.
Proof.
  induction fuel as [|fuel IH]; intros w l o w' Hf H; [lia|].
  destruct l as [|c l]; [injection H as <- <-; exists 0%nat; by rewrite app_nil_r|].
  cbn [send_all] in H. unfold k_write in H. destruct w as [acc [|[k| |e] r]]; cbn [answers accepted] in *.
  { injection H as <- <-. exists 0%nat. cbn. rewrite app_nil_r. split; [done|]. split; [lia|done]. }
  { cbn [length] in Hf. destruct (Nat.min k (length (c :: l))) as [|m] eqn:Em.
    + injection H as <- <-. exists 0%nat. cbn. split; [done|]. split; [lia|].
      split; [by intros [_ ?]%Forall_cons_1|]. split; [done|].
      intros [Hz _]%Forall_cons_1. cbn [length] in Em. destruct k; [done|lia].
    + apply IH in H as (k' & Ha & Hk & Hz & Ho); [|cbn; lia]. cbn [accepted answers] in *.
      exists (S m + k')%nat. rewrite length_drop in *. split; [|split; [lia|split]].
      * rewrite Ha, <- app_assoc. f_equal. by rewrite take_take_drop.
      * intros [_ H]%Forall_cons_1. by apply Hz.
      * destruct o; try done. destruct Ho as [-> Ho]. rewrite drop_drop. split; [done|].
        intros [_ H]%Forall_cons_1. rewrite drop_drop in Ho. by apply Ho. }
  all: destruct (retry _); [apply IH in H as (k' & Ha & Hk & Hz & Ho); [|cbn in *; lia]; exists k'; cbn [answers] in *
    |injection H as <- <-; exists 0%nat; cbn; rewrite app_nil_r; split; [done|]; split; [lia|];
     split; [by intros [_ ?]%Forall_cons_1|done]].
  all: split; [done|]; split; [done|]; split; [intros [_ H]%Forall_cons_1; by apply Hz|].
  all: destruct o; try done; destruct Ho as [-> Ho]; split; [done|]; intros [_ H]%Forall_cons_1; by apply Ho.
Qed.

Lemma send_line_spec w l o w' : send_line retry write_exit w l = (o, w') ->
  exists k, accepted w' = accepted w ++ take k l /\ (k <= length l)%nat /\
    (no_zero (answers w) -> no_zero (answers w')) /\
    match o with
    | Ret rest => rest = drop k l /\ (no_zero (answers w) -> rest = [])
    | Exit c => c = write_exit
    | Blocked => answers w' = []
    | _ => False
    end.
Proof. apply send_all_spec. lia. Qed.

(** A write() that takes the whole line. *)
Lemma send_line_whole w l k r : answers w = Took k :: r -> l <> [] -> (length l <= k)%nat ->
  send_line retry write_exit w l = (Ret [], Sink (accepted w ++ l) r).
Proof.
  intros Ew Hl Hk. unfold send_line. rewrite Ew. destruct l as [|c l]; [done|]. cbn [length send_all].
  unfold k_write. rewrite Ew, Nat.min_r by lia. cbn [length] in *.
  rewrite (drop_ge (c :: l)), (take_ge (c :: l)) by (cbn; lia). by destruct (length r).
Qed.

Context (N : nat) (HN : (2 <= N)%nat).

(** The client of version 6 sends standard input in order. *)
Lemma copyto_loop_spec fuel : forall fp w buf o w', (length fp < fuel)%nat -> length buf = N -> no_nul fp ->
  no_zero (answers w) -> copyto_loop N retry write_exit fuel fp w buf = (o, w') ->
  exists k, accepted w' = accepted w ++ take k fp /\ (k <= length fp)%nat /\
    match o with
    | Ret _ => k = length fp
    | Exit c => c = write_exit
    | Blocked => answers w' = []
    | _ => False
    end.
Proof.
  induction fuel as [|fuel IH]; intros fp w buf o w' Hf Hb Hz Ha H; [lia|]. cbn [copyto_loop] in H.
  pose proof (fgets_spec N buf fp HN Hb Hz) as Hg. destruct (fgets N buf fp) as [[buf1 r]|].
  2: { subst fp. injection H as <- <-. exists 0%nat. by rewrite app_nil_r. }
  destruct Hg as (l & rest & Ef & Hne & Hl & _ & _ & Hb1 & Hzl & Hs & Ht). rewrite Hs, Ht in H.
  destruct (send_line retry write_exit w l) as [o1 w1] eqn:E1.
  apply send_line_spec in E1 as (k & E1 & Hk & Hnz & Ho). subst fp. rewrite length_app in Hf.
  assert (0 < length l)%nat by (destruct l; [done|cbn; lia]). apply Forall_app in Hz as [_ Hz].
  destruct o1; try done.
  - destruct Ho as [-> Ho]. specialize (Ho Ha). apply (f_equal length) in Ho. rewrite length_drop in Ho. cbn in Ho.
    rewrite (take_ge l) in E1 by lia. apply IH in H as (k' & E2 & Hk' & Ho'); [|lia|done|done|by apply Hnz].
    exists (length l + k')%nat. rewrite E2, E1, <- app_assoc, take_app_add, length_app.
    split; [done|]. split; [lia|]. destruct o; try done. by rewrite Ho'.
  - injection H as <- <-. exists k. rewrite take_app_le, length_app by done. split; [done|]. split; [lia|done].
  - injection H as <- <-. exists k. rewrite take_app_le, length_app by done. split; [done|]. split; [lia|done].
Qed.

Lemma read_loop_spec fuel : forall s out o out', (size s < fuel)%nat -> read_loop N fuel s out = (o, out') ->
  exists k, out' = out ++ take k (stream s).1 /\
    match o with
    | Exit c => c = 0 /\ (stream s).2 = AtEof /\ k = length (stream s).1 \/ c = -1
    | Blocked => (stream s).2 = AtWait /\ k = length (stream s).1
    | _ => False
    end.
Proof.
  induction fuel as [|fuel IH]; intros s out o out' Hf H; [lia|]. cbn [read_loop] in H.
  pose proof (k_read_spec N s ltac:(lia)) as Hk. destruct (k_read N s) as [[[|c l]|e|] s1].
  - injection H as <- <-. exists 0%nat. rewrite Hk, app_nil_r. split; [done|]. by left.
  - destruct Hk as (_ & Hsz & _ & Hs). rewrite Hs. cbn [fst snd].
    apply IH in H as (k & -> & Ho); [|lia]. exists (length (c :: l) + k)%nat.
    rewrite <- app_assoc, take_app_add, length_app. split; [done|].
    destruct o; try done; [destruct Ho as [(-> & ? & ->)| ->]; [by left|by right]|by destruct Ho as [? ->]].
  - injection H as <- <-. exists 0%nat. rewrite app_nil_r. split; [done|]. by right.
  - destruct Hk as [-> ->]. injection H as <- <-. exists 0%nat. by rewrite app_nil_r.
Qed.

(** What fgets() makes of the input. *)
Fixpoint lines (fuel : nat) (fp : list Z) : list (list Z) :=
  match fuel, fp with
  | S fuel', _ :: _ => let '(l, r) := line_upto (N - 1) fp in l :: lines fuel' r
  | _, _ => []
  end.

(** The reply to a line when select() does not time out, in a block that holds no null
    byte and is not longer than the line, and what is shown. *)
Lemma show_reply_block s l rest p r : no_nul l -> no_nul p -> p <> [] -> (length p <= length l)%nat ->
  (length l < N)%nat -> length (l ++ 0 :: rest) = N ->
  sock s = Block p :: r ->
  show_reply N Ready s (l ++ 0 :: rest) =
    (Ret (p ++ drop (length p) (l ++ 0 :: rest)), St (fp s) r (snk s) (shown s ++ p ++ drop (length p) l)).
Proof.
  intros Hl Hp Hne Hlen HlN HbN Hs. unfold show_reply. rewrite Hs. unfold k_read.
  rewrite (proj2 (Nat.leb_le _ _)) by lia. destruct p as [|c p]; [done|]. unfold put, fputs.
  assert (E : drop (length (c :: p)) (l ++ 0 :: rest) = drop (length (c :: p)) l ++ 0 :: rest).
  { rewrite drop_app_le by done. done. }
  rewrite E, app_assoc, strlen_line.
  - cbn [mbind option_bind]. by rewrite take_app_length.
  - apply Forall_app. split; [done|]. by apply Forall_drop.
Qed.

Lemma show_reply_timeout s l rest : no_nul l ->
  show_reply N TimedOut s (l ++ 0 :: rest) = (Ret (l ++ 0 :: rest), St (fp s) (sock s) (snk s) (shown s ++ l)).
Proof. intros Hl. unfold show_reply, fputs. rewrite strlen_line by done. cbn. by rewrite take_app_length. Qed.

(** A reply that fills the array leaves no null byte. *)
Lemma show_reply_full s p buf r : no_nul p -> length p = N -> length buf = N -> sock s = Block p :: r ->
  show_reply N Ready s buf = (Abort, St (fp s) r (snk s) (shown s)).
Proof.
  intros Hp HpN Hb Hs. unfold show_reply. rewrite Hs. unfold k_read. rewrite (proj2 (Nat.leb_le _ _)) by lia.
  destruct p as [|c p]; [cbn in HpN; lia|]. unfold fputs, put. rewrite drop_ge, app_nil_r by lia.
  by rewrite strlen_none.
Qed.

(** How the server and select() behave towards a line: the line comes back whole, or
    only its beginning does, or nothing in time. *)
Inductive echo : list Z -> select_result -> list arrival -> Prop :=
| EchoWhole l : echo l Ready [Block l]
| EchoPart l p q : l = p ++ q -> p <> [] -> echo l Ready [Block p]
| EchoLate l : echo l TimedOut [].

Inductive echoes : nat -> list (list Z) -> (nat -> select_result) -> list arrival -> Prop :=
| EchoesNil k sel : echoes k [] sel []
| EchoesCons k l ls sel a s : echo l (sel k) a -> echoes (S k) ls sel s -> echoes k (l :: ls) sel (a ++ s).

Lemma show_reply_echo s l rest a r sel : no_nul l -> l <> [] -> (length l < N)%nat -> length (l ++ 0 :: rest) = N ->
  echo l sel a -> sock s = a ++ r ->
  exists buf, show_reply N sel s (l ++ 0 :: rest) = (Ret buf, St (fp s) r (snk s) (shown s ++ l)) /\ length buf = N.
Proof.
  intros Hl Hne HlN HbN He Hs. destruct He as [l|l p q El Hp|l]; cbn [app] in Hs.
  - rewrite (show_reply_block s l rest l r) by done || lia. eexists.
    rewrite drop_all, app_nil_r. split; [done|]. pose proof (length_put l (l ++ 0 :: rest)) as E. unfold put in E. rewrite E; lia.
  - subst l. pose proof (length_app p q). apply Forall_app in Hl as [Hl1 Hl2].
    rewrite (show_reply_block s (p ++ q) rest p r); try done; try lia; [|by apply Forall_app].
    eexists. rewrite drop_app_length. split; [done|].
    pose proof (length_put p ((p ++ q) ++ 0 :: rest)) as E. unfold put in E. rewrite E, HbN; lia.
  - rewrite show_reply_timeout by done. exists (l ++ 0 :: rest). by subst.
Qed.

Lemma str_cli_echo_loop fuel : forall k sel s a tail buf rs, (length (fp s) < fuel)%nat -> length buf = N ->
  no_nul (fp s) -> echoes k (lines (length (fp s)) (fp s)) sel a -> sock s = a ++ tail ->
  answers (snk s) = replicate (length (lines (length (fp s)) (fp s))) (Took N) ++ rs ->
  str_cli_loop N retry write_exit fuel k sel s buf =
    (Ret tt, St [] tail (Sink (accepted (snk s) ++ fp s) rs) (shown s ++ fp s)).
Proof.
  assert (Hfl : forall f1 f2 l, (length l <= f1)%nat -> (length l <= f2)%nat -> lines f1 l = lines f2 l).
  { induction f1 as [|f1 IH]; intros [|f2] [|c l] H1 H2; cbn [length] in *; try done; try lia. cbn [lines].
    pose proof (line_upto_spec (N - 1) (c :: l)) as H. destruct (line_upto (N - 1) (c :: l)) as [l1 r].
    destruct H as (E & _ & Hne). f_equal. specialize (Hne ltac:(lia) ltac:(done)). apply (f_equal length) in E.
    rewrite length_app in E. cbn [length] in E. destruct l1; [done|]. cbn [length] in E. apply IH; lia. }
  induction fuel as [|fuel IH]; intros k sel s a tail buf rs Hf Hb Hz He Hs Ha; [lia|]. cbn [str_cli_loop].
  pose proof (fgets_spec N buf (fp s) HN Hb Hz) as Hg. destruct (fgets N buf (fp s)) as [[buf1 r]|].
  2: { rewrite Hg in *. cbn in He, Ha. inversion He; subst. destruct s as [f so sn sh], sn as [ac an]. cbn in *. subst.
       by rewrite !app_nil_r. }
  destruct Hg as (l & rest & Ef & Hne & Hl & Hlu & -> & Hb1 & Hzl & Hst & Ht). rewrite Hst, Ht.
  assert (Hlen : (0 < length l)%nat) by (destruct l; [done|cbn; lia]).
  assert (Hls : lines (length (fp s)) (fp s) = l :: lines (length r) r).
  { destruct (fp s) as [|c f] eqn:E; [by destruct l|]. cbn [length lines]. rewrite Hlu. f_equal. apply Hfl; [|lia].
    apply (f_equal length) in Ef. rewrite length_app in Ef. cbn [length] in Ef. lia. }
  rewrite Hls in He, Ha. inversion He as [|? ? ? ? a1 a2 He1 He2]; subst. cbn [length replicate app] in Ha.
  rewrite (send_line_whole _ _ _ _ Ha) by done || lia.
  destruct (show_reply_echo (St r (sock s) (Sink (accepted (snk s) ++ l) (replicate (length (lines (length r) r)) (Took N) ++ rs)) (shown s))
    l rest a1 (a2 ++ tail) (sel k)) as (buf2 & -> & Hb2); try done.
  { by rewrite Hs, app_assoc. }
  rewrite (IH (S k) sel _ a2 tail buf2 rs); cbn; try done.
  - by rewrite Ef, <- !app_assoc.
  - rewrite Ef, length_app in Hf. lia.
  - rewrite Ef in Hz. by apply Forall_app in Hz as [_ ?].
Qed.
End Sending.

(** The author's clients, for input without null bytes.  Versions 1, 3 and 4: when
    the server answers each line with the line, with only its beginning, or (version 4)
    not in time, everything typed is sent and the client shows exactly what was typed:
    what it shows says nothing about what came back.  A reply that fills the array
    without a null byte makes fputs() run past it.  Version 6: the sending thread sends
    a prefix of the input in order, all of it when it ends, unless a write() returns 0;
    main shows what arrives, however it is cut, until the end of file or an error. *)
Theorem echo_clients input junk :
  length junk = MAXLEN -> no_nul input ->
  (forall sel replies tail rs w out, echoes 0 (lines MAXLEN (length input) input) sel replies ->
     answers w = replicate (length (lines MAXLEN (length input) input)) (Took MAXLEN) ++ rs ->
     let s := St input (replies ++ tail) w out in
     let all := (Ret tt, St [] tail (Sink (accepted w ++ input) rs) (out ++ input)) in
     str_cli_v4 sel s junk = all /\ (sel = (fun _ => Ready) -> str_cli_v1 s junk = all /\ str_cli_v3 s junk = all)) /\
  (forall s p r, no_nul p -> length p = MAXLEN -> sock s = Block p :: r -> (show_reply MAXLEN Ready s junk).1 = Abort) /\
  (forall w o w', no_zero (answers w) -> copyto_v6 input w junk = (o, w') ->
     exists k, accepted w' = accepted w ++ take k input /\
       match o with
       | Ret _ => k = length input | Exit c => c = 0 | Blocked => answers w' = [] | _ => False
       end) /\
  (forall s o out', main_v6 s = (o, out') ->
     exists k, out' = take k (stream s).1 /\
       match o with
       | Exit c => c = 0 /\ (stream s).2 = AtEof /\ k = length (stream s).1 \/ c = -1
       | Blocked => (stream s).2 = AtWait /\ k = length (stream s).1
       | _ => False
       end).
Proof.
  intros Hj Hz. assert (HN : (2 <= MAXLEN)%nat) by (unfold MAXLEN; lia). split; [|split; [|split]].
  - intros sel replies tail rs w out He Ha s all.
    assert (H : forall retry code, str_cli MAXLEN retry code sel s junk = all).
    { intros retry code. apply (str_cli_echo_loop retry code MAXLEN HN _ 0 sel s replies tail junk rs); first [done|cbn [fp]; lia]. }
    split; [apply H|]. intros ->. split; apply H.
  - intros s p r Hp Hl Hs. by rewrite (show_reply_full MAXLEN HN s p junk r).
  - intros w o w' Ha H. apply (copyto_loop_spec retry_eintr 0 MAXLEN HN) in H as (k & E & _ & Ho); try done; [|lia].
    by exists k.
  - intros s o out' H. apply (read_loop_spec MAXLEN HN) in H; [exact H|lia].
Qed.

(** Two lines; the reply to the second stops after one byte. *)
Lemma echo_clients_witness :
  let input := [104; 105; 10; 111; 107; 10] in
  str_cli_v1 (St input [Block [104; 105; 10]; Block [111]] (Sink [] [Took 100; Took 100]) []) (replicate 100 7) =
    (Ret tt, St [] [] (Sink input []) input).
Proof.
  intros input.
  refine (proj1 (proj2 (proj1 (echo_clients input (replicate 100 7) _ _)
    (fun _ => Ready) [Block [104; 105; 10]; Block [111]] [] [] (Sink [] [Took 100; Took 100]) [] _ _) _)); try done;
    [by repeat constructor|].
  change (echoes 0 [[104; 105; 10]; [111; 107; 10]] (fun _ => Ready) ([Block [104; 105; 10]] ++ [Block [111]] ++ [])).
  repeat constructor. by apply (EchoPart _ [111] [107; 10]).
Defined.

(** ** The servers *)

(** Every write() takes all it is given. *)
Definition complete (r : list answer) : Prop := Forall (fun a => exists k, a = Took k /\ (MAXLEN <= k)%nat) r.

Lemma str_serv_loop_spec fuel : forall s w o w', (size s < fuel)%nat -> complete (answers w) ->
  str_serv_loop fuel s w = (o, w') ->
  exists k, accepted w' = accepted w ++ take k (stream s).1 /\
    match o with
    | Ret _ => (stream s).2 = AtEof /\ k = length (stream s).1
    | Exit c => c = -1 /\ (exists e, (stream s).2 = AtError e) /\ k = length (stream s).1
    | Blocked => (stream s).2 = AtWait /\ k = length (stream s).1 \/ answers w' = []
    | _ => False
    end.
Proof.
  induction fuel as [|fuel IH]; intros s w o w' Hf Hc H; [lia|]. cbn [str_serv_loop] in H.
  pose proof (k_read_spec MAXLEN s ltac:(unfold MAXLEN; lia)) as Hk. destruct (k_read MAXLEN s) as [[l|e|] s1].
  - destruct l as [|c l]; [injection H as <- <-; exists 0%nat; rewrite Hk, app_nil_r; auto|].
    destruct Hk as (Hlen & Hsz & _ & Hs). rewrite Hs. cbn [fst snd]. unfold k_write in H.
    destruct w as [acc [|a r]]; cbn [answers accepted] in *.
    { injection H as <- <-. exists 0%nat. cbn. rewrite app_nil_r. split; [done|]. by right. }
    apply Forall_cons_1 in Hc as [(k & -> & Hk) Hc]. rewrite Nat.min_r in H by lia. rewrite take_ge in H by done.
    apply IH in H as (k' & E & Ho); [|lia|done]. cbn [accepted] in E. exists (length (c :: l) + k')%nat.
    rewrite E, <- app_assoc, take_app_add, length_app. split; [done|].
    destruct o; try done; [destruct Ho as [? ->]|destruct Ho as (-> & ? & ->)|destruct Ho as [[? ->]|?]]; auto.
  - destruct Hk as (Hsz & _ & [[-> Hs]|[He Hs]]).
    + rewrite bool_decide_true in H by done. rewrite Hs. apply IH in H; [exact H|lia|done].
    + rewrite bool_decide_false in H by done. injection H as <- <-. exists 0%nat. rewrite Hs, app_nil_r.
      split; [done|]. split; [done|]. split; [by exists e|done].
  - destruct Hk as [-> ->]. injection H as <- <-. exists 0%nat. cbn. rewrite app_nil_r. auto.
Qed.

(** ** Children that have ended *)

Inductive pstate := Running | Zombie | Collected.

(** waitpid(-1, NULL, WNOHANG): an ended child, or none. *)
Fixpoint waitpid (l : list pstate) : option (nat * list pstate) :=
  match l with
  | [] => None
  | Zombie :: l' => Some (0%nat, Collected :: l')
  | c :: l' => '(pid, l2) ← waitpid l'; Some (S pid, c :: l2)
  end.

(** sigChildHandler and sigchldwaitpid.c, with what they print. *)
Fixpoint handler_loop (fuel : nat) (l : list pstate) : list nat * list pstate :=
  match fuel, waitpid l with
  | S fuel', Some (pid, l') => let '(pids, l2) := handler_loop fuel' l' in (pid :: pids, l2)
  | _, _ => ([], l)
  end.
Definition sigChildHandler (l : list pstate) : option (list nat * list pstate) := Some (handler_loop (S (length l)) l).

(** sigchldwait.c: one wait(), which waits while children run and none has ended. *)
Definition sig_chld_wait (l : list pstate) : option (list nat * list pstate) :=
  match waitpid l with
  | Some (pid, l') => Some ([pid], l')
  | None => if existsb (fun c => match c with Running => true | _ => false end) l then None else Some ([], l)
  end.

(** The server's children, and whether SIGCHLD is pending: it is not queued. *)
Record procs := Procs { children : list pstate; pending : bool }.
Inductive event := EFork | EExit (i : nat) | EDeliver.

Definition exec (handler : list pstate -> option (list nat * list pstate)) (s : procs) (e : event) : option (procs * list nat) :=
  match e with
  | EFork => Some (Procs (children s ++ [Running]) (pending s), [])
  | EExit i =>
      match children s !! i with
      | Some Running => Some (Procs (<[i := Zombie]> (children s)) true, [])
      | _ => None
      end
  | EDeliver =>
      if pending s then '(pids, l) ← handler (children s); Some (Procs l false, pids) else None
  end.

Fixpoint run (handler : list pstate -> option (list nat * list pstate)) (s : procs) (es : list event) : option (procs * list nat) :=
  match es with
  | [] => Some (s, [])
  | e :: es' => '(s1, p1) ← exec handler s e; '(s2, p2) ← run handler s1 es'; Some (s2, p1 ++ p2)
  end.

Definition is_zombie (c : pstate) : bool := match c with Zombie => true | _ => false end.
Definition zombies (l : list pstate) : Z := cnt is_zombie l.
(** The ended children from the [i]-th on, by index. *)
Fixpoint ended (i : nat) (l : list pstate) : list nat :=
  match l with
  | [] => []
  | Zombie :: l' => i :: ended (S i) l'
  | _ :: l' => ended (S i) l'
  end.
Definition collect (c : pstate) : pstate := match c with Zombie => Collected | _ => c end.

Lemma waitpid_spec l : match waitpid l with
  | None => ended 0 l = [] /\ map collect l = l
  | Some (pid, l') => (forall i, ended i l = (i + pid)%nat :: ended i l') /\ map collect l' = map collect l /\
      length l' = length l
  end.
Proof.
  assert (Hs : forall l i, ended (S i) l = map S (ended i l)).
  { clear. induction l as [|[] l IH]; intros i; cbn; rewrite ?IH; done. }
  assert (Hn : forall l i, ended 0 l = [] -> ended i l = []).
  { clear -Hs. intros l i H. induction i as [|i IH]; [done|]. by rewrite Hs, IH. }
  induction l as [|c l IH]; [done|]. cbn [waitpid].
  destruct c; [| |]; try (split; [intros i; cbn; by rewrite Nat.add_0_r|done]).
  - destruct (waitpid l) as [[pid l']|]; cbn.
    + destruct IH as (H1 & H2 & H3). split; [intros i; rewrite H1; f_equal; lia|]. split; congruence.
    + destruct IH as [H1 H2]. split; [by apply Hn|congruence].
  - destruct (waitpid l) as [[pid l']|]; cbn.
    + destruct IH as (H1 & H2 & H3). split; [intros i; rewrite H1; f_equal; lia|]. split; congruence.
    + destruct IH as [H1 H2]. split; [by apply Hn|congruence].
Qed.

Lemma ended_length i l : (length (ended i l) <= length l)%nat.
Proof. revert i. induction l as [|[] l IH]; intros i; cbn; [lia|specialize (IH (S i)); lia..]. Qed.

Lemma handler_loop_spec fuel : forall l, (length (ended 0 l) < fuel)%nat ->
  handler_loop fuel l = (ended 0 l, map collect l).
Proof.
  induction fuel as [|fuel IH]; intros l Hf; [lia|]. cbn [handler_loop].
  pose proof (waitpid_spec l) as H. destruct (waitpid l) as [[pid l']|].
  - destruct H as (H1 & H2 & _). rewrite (H1 0%nat) in *. cbn [length] in Hf. rewrite IH by lia. by rewrite H2.
  - destruct H as [-> ->]. done.
Qed.

Lemma sigChildHandler_spec l : sigChildHandler l = Some (ended 0 l, map collect l).
Proof. unfold sigChildHandler. rewrite handler_loop_spec; [done|]. pose proof (ended_length 0 l). lia. Qed.

Lemma zombies_collect l : zombies (map collect l) = 0.
Proof. unfold zombies. induction l as [|[] l IH]; [done|..]; cbn [map]; by rewrite cnt_cons, IH. Qed.

Lemma reap_run es : forall s s' pids, (0 < zombies (children s) -> pending s = true) ->
  run sigChildHandler s es = Some (s', pids) -> 0 < zombies (children s') -> pending s' = true.
Proof.
  induction es as [|e es IH]; intros s s' pids Hi Hr; cbn [run] in Hr; [injection Hr as <- <-; done|].
  destruct (exec sigChildHandler s e) as [[s1 p1]|] eqn:Hx; [|done]. cbn in Hr.
  destruct (run sigChildHandler s1 es) as [[s2 p2]|] eqn:Hr2; [|done]. injection Hr as <- <-.
  refine (IH s1 s2 p2 _ Hr2). unfold exec in Hx. destruct e as [|i|].
  - injection Hx as <- <-. cbn. unfold zombies in *. rewrite cnt_app, cnt_cons, cnt_nil. cbn. by rewrite Z.add_0_r.
  - destruct (children s !! i) as [[]|]; try done. by injection Hx as <- <-.
  - destruct (pending s); [|done]. rewrite sigChildHandler_spec in Hx. injection Hx as <- <-. cbn.
    rewrite zombies_collect. lia.
Qed.

(** The author's servers.  When every write() takes all it is given, str_serv sends
    back the connection's bytes in order, all of them when it returns, like the book's
    str_echo; it stops with -1 only after a read error.  The SIGCHLD handler with
    waitpid() prints and collects every child that has ended, however many signals were
    merged into one: at any time an ended child that is not collected has its signal
    pending. *)
Theorem echo_servers :
  (forall s w o w', complete (answers w) -> str_serv s w = (o, w') ->
     exists k, accepted w' = accepted w ++ take k (stream s).1 /\
       match o with
       | Ret _ => (stream s).2 = AtEof /\ k = length (stream s).1
       | Exit c => c = -1 /\ (exists e, (stream s).2 = AtError e) /\ k = length (stream s).1
       | Blocked => (stream s).2 = AtWait /\ k = length (stream s).1 \/ answers w' = []
       | _ => False
       end) /\
  (forall l, sigChildHandler l = Some (ended 0 l, map collect l) /\ zombies (map collect l) = 0) /\
  (forall es s pids, run sigChildHandler (Procs [] false) es = Some (s, pids) ->
     0 < zombies (children s) -> pending s = true).
Proof.
  split; [|split].
  - intros s w o w' Hc H. apply str_serv_loop_spec in H; [exact H|lia|done].
  - intros l. split; [apply sigChildHandler_spec|apply zombies_collect].
  - intros es s pids H. by apply (reap_run es (Procs [] false) s pids).
Qed.

(** Two children end before the signal is delivered: with one wait() the second is left
    behind, and no signal is pending for it. *)
Lemma wait_leaves_zombies : exists s pids,
  run sig_chld_wait (Procs [] false) [EFork; EFork; EExit 0; EExit 1; EDeliver] = Some (s, pids) /\
  pids = [0%nat] /\ zombies (children s) = 1 /\ pending s = false.
Proof. eexists _, _. split; [vm_compute; reflexivity|done]. Qed.

(** A write() that takes a part: str_serv loses the rest. *)
Lemma str_serv_loses : str_serv [Block [1; 2; 3]; Block [4]; Block []] (Sink [] [Took 2; Took 9]) = (Ret tt, Sink [1; 2; 4] []).
Proof. reflexivity. Qed.

(** ** The variable shared by the threads of the server of version 6

    main passes the address of its [connectfd]; a thread reads it when it starts. *)
Record server6 := Server6 { connectfd : Z; threads : list (option Z) }.
Inductive event6 := EAccept6 (fd : Z) | EStart (i : nat).
Definition exec6 (s : server6) (e : event6) : option server6 :=
  match e with
  | EAccept6 fd => Some (Server6 fd (threads s ++ [None]))
  | EStart i => match threads s !! i with Some None => Some (Server6 (connectfd s) (<[i := Some (connectfd s)]> (threads s))) | _ => None end
  end.
Definition run6 (s : server6) (es : list event6) : option server6 := foldl (fun o e => o ≫= fun s => exec6 s e) (Some s) es.

(** A second connection before the first thread has started: both threads serve it, and
    nobody serves the first. *)
Lemma threads_share_connectfd :
  run6 (Server6 0 []) [EAccept6 7; EAccept6 8; EStart 0; EStart 1] = Some (Server6 8 [Some 8; Some 8]).
Proof. reflexivity. Qed.

End EchoAuthor.
