(* ===== verification/SockAddr.v ===== *)
(** * Socket address structures

    Model of the protocol-independent helpers of src/UNPLearning/unpv13e/lib:
    sock_get_port.c, sock_set_port.c, sock_set_addr.c, sock_set_wild.c,
    sock_cmp_addr.c, sock_cmp_port.c, sock_bind_wild.c, sock_ntop.c and
    sock_ntop_host.c, with IPv6 and without the structures config.h leaves out
    (sa_len, sockaddr_dl).  A socket address is the block of bytes the pointer
    designates: the family in two bytes of the host's order, the port of both
    Internet families at offset 2 in network order, the IPv4 address at offset 4,
    the IPv6 address at offset 8, the pathname at offset 2.  The text functions
    write into their static buffer of 128 bytes and return a position in it.
    [None] and [Abort] are accesses outside the block or the buffer. *)

From S2P Require Import Prelude CString InetAddr.

Definition sockaddr : Type := list Z.

Definition family_of (n : Z) : family :=
  if n =? 0 then AF_UNSPEC else if n =? 1 then AF_UNIX else if n =? 2 then AF_INET
  else if n =? 10 then AF_INET6 else AF_other n.
Definition family_num (f : family) : Z :=
  match f with AF_UNSPEC => 0 | AF_UNIX => 1 | AF_INET => 2 | AF_INET6 => 10 | AF_other n => n end.

Definition lift_o {A} (o : option A) : outcome A :=
  match o with Some a => Ret a | None => Abort end.

(** The string at the start of a block, [None] when no null byte ends it. *)
Fixpoint c_string (l : list Z) : option (list Z) :=
  match l with
  | [] => None
  | c :: l' => if c =? 0 then Some [] else (c ::.) <$> c_string l'
  end.

(** memcmp() and strcmp(): only the sign of the result means anything. *)
Fixpoint memcmp (l1 l2 : list Z) : Z :=
  match l1, l2 with
  | c1 :: l1', c2 :: l2' => if c1 =? c2 then memcmp l1' l2' else c1 - c2
  | _, _ => 0
  end.
Fixpoint strcmp (l1 l2 : list Z) : option Z :=
  match l1, l2 with
  | c1 :: l1', c2 :: l2' =>
      if c1 =? c2 then if c1 =? 0 then Some 0 else strcmp l1' l2' else Some (c1 - c2)
  | _, _ => None
  end.

Section Host.
(** The byte order of the host. *)
Context (be : bool).

Definition sa_family (sa : sockaddr) : option family :=
  bs ← read_at sa 0 2; Some (family_of (load_bytes be bs)).

(** [sin_port] and [sin6_port], as the program sees them: not converted. *)
Definition sin_port (sa : sockaddr) : option Z := load_bytes be <$> read_at sa 2 2.
Definition sin_addr (sa : sockaddr) : option (list Z) := read_at sa 4 4.
Definition sin6_addr (sa : sockaddr) : option (list Z) := read_at sa 8 16.
Definition sun_path (sa : sockaddr) : list Z := drop 2 sa.

Definition sock_get_port (sa : sockaddr) : option Z :=
  f ← sa_family sa;
  match f with
  | AF_INET | AF_INET6 => sin_port sa
  | _ => Some (-1)
  end.

Definition sock_set_port (sa : sockaddr) (port : Z) : option sockaddr :=
  f ← sa_family sa;
  match f with
  | AF_INET | AF_INET6 => write_at sa 2 (store_bytes be 2 port)
  | _ => Some sa
  end.

Definition sock_set_addr (sa : sockaddr) (addr : list Z) : option sockaddr :=
  f ← sa_family sa;
  match f with
  | AF_INET => bs ← read_at addr 0 4; write_at sa 4 bs
  | AF_INET6 => bs ← read_at addr 0 16; write_at sa 8 bs
  | _ => Some sa
  end.

Definition in4addr_any : list Z := replicate 4 0.
Definition in6addr_any : list Z := replicate 16 0.

Definition sock_set_wild (sa : sockaddr) : option sockaddr :=
  f ← sa_family sa;
  match f with
  | AF_INET => sock_set_addr sa in4addr_any
  | AF_INET6 => sock_set_addr sa in6addr_any
  | _ => Some sa
  end.

Definition sock_cmp_addr (sa1 sa2 : sockaddr) : option Z :=
  f1 ← sa_family sa1; f2 ← sa_family sa2;
  if negb (bool_decide (f1 = f2)) then Some (-1) else
  match f1 with
  | AF_INET => a1 ← sin_addr sa1; a2 ← sin_addr sa2; Some (memcmp a1 a2)
  | AF_INET6 => a1 ← sin6_addr sa1; a2 ← sin6_addr sa2; Some (memcmp a1 a2)
  | AF_UNIX => strcmp (sun_path sa1) (sun_path sa2)
  | _ => Some (-1)
  end.

Definition sock_cmp_port (sa1 sa2 : sockaddr) : option Z :=
  f1 ← sa_family sa1; f2 ← sa_family sa2;
  if negb (bool_decide (f1 = f2)) then Some (-1) else
  match f1 with
  | AF_INET | AF_INET6 => p1 ← sin_port sa1; p2 ← sin_port sa2; Some (b2z (p1 =? p2))
  | _ => Some (-1)
  end.

(** sock_bind_wild(): [bind] is what bind() does with an address, [getsockname]
    the bytes it stores over it. *)
Definition wild_addr (f : family) (n : nat) : sockaddr := store_bytes be 2 (family_num f) ++ replicate n 0.

Definition bind_port (bind : sockaddr -> bool) (getsockname : option sockaddr) (sa : sockaddr) : option Z :=
  if bind sa then
    match getsockname with
    | Some sa' => sin_port sa'
    | None => Some (-1)
    end
  else Some (-1).

Definition sock_bind_wild (bind : sockaddr -> bool) (getsockname : option sockaddr) (f : family) : option Z :=
  match f with
  | AF_INET => bind_port bind getsockname (wild_addr AF_INET 14)
  | AF_INET6 => bind_port bind getsockname (wild_addr AF_INET6 26)
  | _ => Some (-1)
  end.

(** ** Text *)

Definition STRSZ : nat := 128.

(** strcpy(), snprintf() and strcat() into the static buffer. *)
Definition strcpy (str : list Z) (off : nat) (t : list Z) : option (list Z) := write_at str off (t ++ [0]).
Definition snprintf (n : nat) (t : list Z) : list Z := take (n - 1) t.
Definition strcat (str : list Z) (t : list Z) : option (list Z) :=
  s ← c_string str; strcpy str (length s) t.

(** ntohs() of the port: the bytes read in network order. *)
Definition port_number (sa : sockaddr) : option Z := load_bytes true <$> read_at sa 2 2.

Definition no_path : list Z := cstr "(no pathname bound)".
Definition unknown (name : list Z) (f : family) (salen : Z) : list Z :=
  name ++ cstr ": unknown AF_xxx: " ++ sprintf_d (family_num f) ++ cstr ", len " ++ sprintf_d salen.

(** The case of a Unix domain address, the same in both functions. *)
Definition unix_text (str : list Z) (sa : sockaddr) : option (list Z) :=
  c ← aload (sun_path sa) 0;
  if c =? 0 then strcpy str 0 no_path
  else p ← c_string (sun_path sa); strcpy str 0 (snprintf STRSZ p).

(** The new contents of [str] and the returned position; [Fail]: NULL.
    [garbage]: the uninitialised local variables of inet_ntop6(). *)
Definition sock_ntop (garbage : Z) (str : list Z) (sa : sockaddr) (salen : Z) : outcome (list Z * nat) :=
  match sa_family sa with
  | None => Abort
  | Some AF_INET =>
      match sin_addr sa, port_number sa with
      | Some a, Some port =>
          match inet_ntop garbage AF_INET a (Z.of_nat STRSZ) with
          | Ret t =>
              lift_o (str ← strcpy str 0 t;
                      str ← (if negb (port =? 0) then strcat str (snprintf 8 (COLON :: sprintf_d port)) else Some str);
                      Some (str, 0%nat))
          | Fail e => Fail e | Exit c => Exit c | Abort => Abort | Blocked => Blocked
          end
      | _, _ => Abort
      end
  | Some AF_INET6 =>
      match astore str 0 91, sin6_addr sa, port_number sa with
      | Some str, Some a, Some port =>
          match inet_ntop garbage AF_INET6 a (Z.of_nat STRSZ - 1) with
          | Ret t =>
              lift_o (str ← strcpy str 1 t;
                      if negb (port =? 0)
                      then str ← strcat str (snprintf 8 (93 :: COLON :: sprintf_d port)); Some (str, 0%nat)
                      else Some (str, 1%nat))
          | Fail e => Fail e | Exit c => Exit c | Abort => Abort | Blocked => Blocked
          end
      | _, _, _ => Abort
      end
  | Some AF_UNIX => lift_o (str ← unix_text str sa; Some (str, 0%nat))
  | Some f => lift_o (str ← strcpy str 0 (snprintf STRSZ (unknown (cstr "sock_ntop") f salen)); Some (str, 0%nat))
  end.

Definition sock_ntop_host (garbage : Z) (str : list Z) (sa : sockaddr) (salen : Z) : outcome (list Z * nat) :=
  let write (a : option (list Z)) (f : family) :=
    match a with
    | Some a =>
        match inet_ntop garbage f a (Z.of_nat STRSZ) with
        | Ret t => lift_o (str ← strcpy str 0 t; Some (str, 0%nat))
        | Fail e => Fail e | Exit c => Exit c | Abort => Abort | Blocked => Blocked
        end
    | None => Abort
    end in
  match sa_family sa with
  | None => Abort
  | Some AF_INET => write (sin_addr sa) AF_INET
  | Some AF_INET6 => write (sin6_addr sa) AF_INET6
  | Some AF_UNIX => lift_o (str ← unix_text str sa; Some (str, 0%nat))
  | Some f => lift_o (str ← strcpy str 0 (snprintf STRSZ (unknown (cstr "sock_ntop_host") f salen)); Some (str, 0%nat))
  end.

(** Sock_ntop(), Sock_ntop_host(): a null pointer ends the process. *)
Definition or_exit (o : outcome (list Z * nat)) : outcome (list Z * nat) :=
  match o with Fail _ => Exit 1 | _ => o end.
End Host.

(** Two addresses on a little-endian host. *)
Definition ex_in : sockaddr := [2;0; 0x1f;0x90; 192;0;2;33] ++ replicate 8 0.
Definition ex_in6 : sockaddr := [10;0; 0;80; 0;0;0;0] ++ [0x20;1;0xd;0xb8] ++ replicate 11 0 ++ [1] ++ replicate 4 0.
Definition text_at (o : outcome (list Z * nat)) : option (list Z) :=
  match o with Ret (str, i) => c_string (drop i str) | _ => None end.

Example ntop_in : text_at (sock_ntop false 0 (replicate 128 7) ex_in 16) = Some (cstr "192.0.2.33:8080").
Proof. vm_compute. reflexivity. Qed.
Example ntop_in6 : text_at (sock_ntop false 0 (replicate 128 7) ex_in6 28) = Some (cstr "[2001:db8::1]:80").
Proof. vm_compute. reflexivity. Qed.

(** ** Types and fields *)

Definition is_ip (f : family) : bool := match f with AF_INET | AF_INET6 => true | _ => false end.
Definition sa_size (f : family) : nat := match f with AF_INET => 16 | AF_INET6 => 28 | _ => 2 end.
Definition addr_off (f : family) : nat := match f with AF_INET => 4 | _ => 8 end.
Definition addr_size (f : family) : nat := match f with AF_INET => 4 | AF_INET6 => 16 | _ => 0 end.

(** A structure of family [f] that is large enough for it. *)
Record typed (be : bool) (f : family) (sa : sockaddr) : Prop := Typed {
  t_family : sa_family be sa = Some f;
  t_size : (sa_size f <= length sa)%nat;
  t_bytes : Forall is_byte sa }.

Definition address (f : family) (sa : sockaddr) : option (list Z) := read_at sa (addr_off f) (addr_size f).

Lemma address_in sa : address AF_INET sa = sin_addr sa.
Proof. done. Qed.
Lemma address_in6 sa : address AF_INET6 sa = sin6_addr sa.
Proof. done. Qed.

Section Typed.
Context (be : bool) (f : family) (sa : sockaddr) (T : typed be f sa).

Lemma typed_write off bs sa' :
  write_at sa off bs = Some sa' -> (2 <= off)%nat -> Forall is_byte bs -> typed be f sa'.
Proof.
  intros E Ho Hb. destruct T as [Tf Ts Tb]. split.
  - unfold sa_family in *. rewrite (read_write_other _ _ _ _ _ _ E) by lia. done.
  - by rewrite (length_write_at _ _ _ _ E).
  - by eapply write_at_byte.
Qed.

(** Both Internet families have the port and the address inside the structure. *)
Lemma ip_write_port port : is_ip f = true -> exists sa', write_at sa 2 (store_bytes be 2 port) = Some sa'.
Proof.
  intros Hf. apply write_at_some. rewrite length_store_bytes. destruct T as [_ Ts _].
  destruct f; simpl in *; lia || done.
Qed.

Lemma ip_write_addr bs : is_ip f = true -> length bs = addr_size f ->
  exists sa', write_at sa (addr_off f) bs = Some sa'.
Proof.
  intros Hf Hl. apply write_at_some. destruct T as [_ Ts _]. destruct f; simpl in *; lia || done.
Qed.

Lemma ip_address : is_ip f = true -> exists a, address f sa = Some a /\ length a = addr_size f /\ Forall is_byte a.
Proof.
  intros Hf. destruct (read_at_some sa (addr_off f) (addr_size f)) as (a & E & Hl).
  { destruct T as [_ Ts _]. destruct f; simpl in *; lia || done. }
  exists a. split_and!; [done|done|]. by eapply read_at_byte, t_bytes.
Qed.

Lemma ip_port : is_ip f = true -> exists p, sin_port be sa = Some p.
Proof.
  intros Hf. unfold sin_port. destruct (read_at_some sa 2 2) as (a & -> & _); [|by eexists].
  destruct T as [_ Ts _]. destruct f; simpl in *; lia || done.
Qed.

Lemma get_port_eq : sock_get_port be sa = if is_ip f then sin_port be sa else Some (-1).
Proof. unfold sock_get_port. rewrite (t_family _ _ _ T). by destruct f. Qed.

Lemma set_port_eq port : sock_set_port be sa port = if is_ip f then write_at sa 2 (store_bytes be 2 port) else Some sa.
Proof. unfold sock_set_port. rewrite (t_family _ _ _ T). by destruct f. Qed.

Lemma set_addr_eq addr : (addr_size f <= length addr)%nat ->
  sock_set_addr be sa addr = if is_ip f then write_at sa (addr_off f) (take (addr_size f) addr) else Some sa.
Proof.
  intros Hl. unfold sock_set_addr. rewrite (t_family _ _ _ T). unfold read_at.
  destruct f; simpl in *; try done; by rewrite decide_True by lia.
Qed.

Lemma set_wild_eq : sock_set_wild be sa = sock_set_addr be sa (replicate (addr_size f) 0).
Proof. unfold sock_set_wild, sock_set_addr. rewrite (t_family _ _ _ T). by destruct f. Qed.
End Typed.

(** Storing the address keeps everything else. *)
Lemma set_addr_ok be f sa addr : typed be f sa -> is_ip f = true -> (addr_size f <= length addr)%nat -> Forall is_byte addr ->
  exists sa', sock_set_addr be sa addr = Some sa' /\ typed be f sa' /\
    sock_get_port be sa' = sock_get_port be sa /\ address f sa' = Some (take (addr_size f) addr) /\
    forall i, ~ (addr_off f <= i < addr_off f + addr_size f)%nat -> sa' !! i = sa !! i.
Proof.
  intros T Hf Hl Hb. assert (Ht : length (take (addr_size f) addr) = addr_size f) by (rewrite length_take; lia).
  destruct (ip_write_addr be f sa T (take (addr_size f) addr) Hf Ht) as [sa' E].
  assert (Ho : (4 <= addr_off f)%nat) by (destruct f; simpl in *; lia || done).
  assert (T' : typed be f sa') by (eapply (typed_write be f sa); [exact T|exact E|lia|by apply Forall_take]).
  exists sa'. split_and!.
  - rewrite (set_addr_eq be f) by done. by rewrite Hf.
  - done.
  - rewrite !(get_port_eq be f), Hf by done. unfold sin_port. by rewrite (read_write_other _ _ _ _ _ _ E) by lia.
  - unfold address. rewrite <- Ht at 1. by eapply read_write_same.
  - intros i Hi. rewrite (lookup_write_at _ _ _ _ _ E), decide_False by lia. done.
Qed.

(** C38: the helpers keep a socket address well typed (family, size, bytes) and
    never leave the structure.  For both Internet families the port read after
    sock_set_port() is the 16 low bits of the argument and the address and all
    other bytes stay; sock_set_addr() and sock_set_wild() store the address given or
    the wildcard and keep the port and all other bytes.  For every other family
    nothing changes and the port is -1. *)
Theorem sockaddr_types be f sa port addr :
  typed be f sa -> (addr_size f <= length addr)%nat -> Forall is_byte addr ->
  exists s1 s2 s3,
    sock_set_port be sa port = Some s1 /\ sock_set_addr be sa addr = Some s2 /\ sock_set_wild be sa = Some s3 /\
    Forall (typed be f) [s1; s2; s3] /\
    if is_ip f then
      sock_get_port be s1 = Some (u16 port) /\ address f s1 = address f sa /\
      (forall i, i <> 2%nat -> i <> 3%nat -> s1 !! i = sa !! i) /\
      sock_get_port be s2 = sock_get_port be sa /\ address f s2 = Some (take (addr_size f) addr) /\
      sock_get_port be s3 = sock_get_port be sa /\ address f s3 = Some (replicate (addr_size f) 0) /\
      (forall i, ~ (addr_off f <= i < addr_off f + addr_size f)%nat -> s2 !! i = sa !! i /\ s3 !! i = sa !! i)
    else s1 = sa /\ s2 = sa /\ s3 = sa /\ sock_get_port be sa = Some (-1).
Proof.
  intros T Hl Hb. destruct (is_ip f) eqn:Hf; cycle 1.
  { exists sa, sa, sa. rewrite (set_port_eq be f), (set_wild_eq be f), !(set_addr_eq be f), (get_port_eq be f), Hf
      by (done || rewrite length_replicate; lia). split_and!; try done. by rewrite !Forall_cons, Forall_nil. }
  destruct (ip_write_port be f sa T port Hf) as [s1 E1].
  destruct (set_addr_ok be f sa addr T Hf Hl Hb) as (s2 & E2 & T2 & P2 & A2 & O2).
  destruct (set_addr_ok be f sa (replicate (addr_size f) 0) T Hf) as (s3 & E3 & T3 & P3 & A3 & O3).
  { by rewrite length_replicate. }
  { apply Forall_replicate. unfold is_byte. lia. }
  rewrite take_ge in A3 by (rewrite length_replicate; lia).
  assert (T1 : typed be f s1) by (eapply (typed_write be f sa); [exact T|exact E1|lia|apply store_bytes_byte]).
  exists s1, s2, s3. rewrite (set_wild_eq be f) by done. split_and!; try done.
  - by rewrite (set_port_eq be f), Hf.
  - by rewrite !Forall_cons, Forall_nil.
  - rewrite (get_port_eq be f), Hf by done. unfold sin_port.
    pose proof (read_write_same _ _ _ _ E1) as R. rewrite length_store_bytes in R. rewrite R. simpl.
    by rewrite load_store_bytes.
  - unfold address. apply (read_write_other _ _ _ _ _ _ E1). rewrite length_store_bytes.
    destruct f; simpl in *; lia || done.
  - intros i H2 H3. rewrite (lookup_write_at _ _ _ _ _ E1), length_store_bytes, decide_False by lia. done.
  - intros i Hi. auto.
Qed.

Lemma ex_in6_typed : typed false AF_INET6 ex_in6.
Proof. split; [reflexivity|simpl; lia|]. unfold is_byte. repeat constructor; lia. Qed.

Lemma sockaddr_types_witness :
  exists s1, sock_set_port false ex_in6 0x15000 = Some s1 /\ sock_get_port false s1 = Some 0x5000.
Proof.
  destruct (sockaddr_types false AF_INET6 ex_in6 0x15000 (replicate 16 9)) as (s1 & s2 & s3 & E & _ & _ & _ & P & _).
  - exact ex_in6_typed.
  - simpl. lia.
  - apply Forall_replicate. unfold is_byte. lia.
  - exists s1. split; [exact E|exact P].
Defined.

(** ** Comparison *)

Lemma memcmp_zero l1 l2 : length l1 = length l2 -> memcmp l1 l2 = 0 <-> l1 = l2.
Proof.
  revert l2. induction l1 as [|c1 l1 IH]; intros [|c2 l2] Hl; try done. simpl in *.
  destruct (c1 =? c2) eqn:E; bprop; [subst; rewrite IH by lia; naive_solver|].
  split; [lia|congruence].
Qed.

Lemma strcmp_zero l1 l2 s1 s2 : c_string l1 = Some s1 -> c_string l2 = Some s2 ->
  exists c, strcmp l1 l2 = Some c /\ (c = 0 <-> s1 = s2).
Proof.
  revert l2 s1 s2. induction l1 as [|c1 l1 IH]; intros [|c2 l2] s1 s2 H1 H2; try done. simpl in *.
  destruct (c1 =? c2) eqn:E; bprop.
  - subst c2. destruct (c1 =? 0); [simplify_eq; by exists 0|].
    apply fmap_Some in H1 as (u1 & H1 & ->). apply fmap_Some in H2 as (u2 & H2 & ->).
    destruct (IH l2 u1 u2 H1 H2) as (c & -> & Hc). exists c. split; [done|]. rewrite Hc. naive_solver.
  - exists (c1 - c2). split; [done|]. split; [lia|]. intros ->. exfalso.
    destruct (c1 =? 0) eqn:E1, (c2 =? 0) eqn:E2; bprop; simplify_eq/=; try lia;
      repeat match goal with H : _ <$> _ = Some _ |- _ => apply fmap_Some in H as (? & ? & ?) end; simplify_eq; done.
Qed.

(** The pathname of a Unix domain address ends inside the structure. *)
Definition path_ends (f : family) (sa : sockaddr) : Prop := f = AF_UNIX -> is_Some (c_string (sun_path sa)).

Definition same_address (f : family) (sa1 sa2 : sockaddr) : Prop :=
  match f with
  | AF_INET | AF_INET6 => address f sa1 = address f sa2
  | AF_UNIX => c_string (sun_path sa1) = c_string (sun_path sa2)
  | _ => False
  end.

(** sock_cmp_addr() returns 0 exactly for two addresses of the same known family
    with equal Internet addresses or pathnames (never for another family, even for
    the same structure); sock_cmp_port() returns 1 for equal ports and 0 for
    different ones, the other way round, and -1 where there is nothing to compare. *)
Theorem sock_compare be f1 f2 sa1 sa2 :
  typed be f1 sa1 -> typed be f2 sa2 -> path_ends f1 sa1 -> path_ends f2 sa2 ->
  exists c p, sock_cmp_addr be sa1 sa2 = Some c /\ sock_cmp_port be sa1 sa2 = Some p /\
    (c = 0 <-> f1 = f2 /\ same_address f1 sa1 sa2) /\
    (p = 1 <-> f1 = f2 /\ is_ip f1 = true /\ sock_get_port be sa1 = sock_get_port be sa2) /\
    (p = 0 <-> f1 = f2 /\ is_ip f1 = true /\ sock_get_port be sa1 <> sock_get_port be sa2) /\
    (p = -1 <-> f1 <> f2 \/ is_ip f1 = false).
Proof.
  intros T1 T2 U1 U2. unfold sock_cmp_addr, sock_cmp_port.
  rewrite (t_family _ _ _ T1), (t_family _ _ _ T2). simpl.
  destruct (decide (f1 = f2)) as [<-|Hn]; cycle 1.
  { rewrite bool_decide_eq_false_2 by done. exists (-1), (-1). split_and!; try done; split; naive_solver. }
  rewrite bool_decide_eq_true_2 by done. simpl. rewrite !(get_port_eq be f1) by done.
  destruct (is_ip f1) eqn:Hf.
  - destruct (ip_port be f1 sa1 T1 Hf) as [p1 P1], (ip_port be f1 sa2 T2 Hf) as [p2 P2].
    destruct (ip_address be f1 sa1 T1 Hf) as (a1 & A1 & L1 & _), (ip_address be f1 sa2 T2 Hf) as (a2 & A2 & L2 & _).
    exists (memcmp a1 a2), (b2z (p1 =? p2)). rewrite P1, P2.
    assert (Hsame : same_address f1 sa1 sa2 <-> a1 = a2).
    { transitivity (address f1 sa1 = address f1 sa2); [by destruct f1|]. rewrite A1, A2. naive_solver. }
    rewrite memcmp_zero by congruence. rewrite Hsame. split_and!.
    + destruct f1; try done; rewrite ?address_in, ?address_in6 in *; rewrite A1, A2; done.
    + by destruct f1.
    + naive_solver.
    + destruct (p1 =? p2) eqn:E; bprop; simpl; naive_solver.
    + destruct (p1 =? p2) eqn:E; bprop; simpl; naive_solver.
    + destruct (p1 =? p2) eqn:E; bprop; simpl; naive_solver.
  - destruct (decide (f1 = AF_UNIX)) as [->|Hu].
    + destruct (U1 eq_refl) as [s1 S1], (U2 eq_refl) as [s2 S2].
      destruct (strcmp_zero _ _ _ _ S1 S2) as (c & E & Hc). exists c, (-1).
      split_and!; try done; [|naive_solver..]. simpl. rewrite S1, S2, Hc. naive_solver.
    + exists (-1), (-1). split_and!; [by destruct f1..| | | |naive_solver]; [|naive_solver..].
      split; [done|]. intros [_ Hs]. by destruct f1.
Qed.

Lemma sock_compare_witness :
  exists c p, sock_cmp_addr false ex_in6 ex_in6 = Some c /\ sock_cmp_port false ex_in6 ex_in6 = Some p /\
    (c = 0 <-> AF_INET6 = AF_INET6 /\ same_address AF_INET6 ex_in6 ex_in6).
Proof.
  destruct (sock_compare false AF_INET6 AF_INET6 ex_in6 ex_in6) as (c & p & E1 & E2 & E & _);
    [exact ex_in6_typed|exact ex_in6_typed|done|done|]. exists c, p. exact (conj E1 (conj E2 E)).
Defined.

(** ** The text of an address *)

Definition no_null (t : list Z) : Prop := Forall (fun c => c <> 0) t.

Lemma c_string_app t rest : no_null t -> c_string (t ++ 0 :: rest) = Some t.
Proof.
  induction 1 as [|c t Hc Ht IH]; [done|]. simpl. rewrite (proj2 (Z.eqb_neq _ _)) by done. by rewrite IH.
Qed.

Lemma c_string_spec l s : c_string l = Some s -> no_null s /\ exists rest, l = s ++ 0 :: rest.
Proof.
  revert s. induction l as [|c l IH]; intros s; [done|]. simpl. destruct (c =? 0) eqn:E; bprop.
  - intros [= <-]. subst c. split; [constructor|by exists l].
  - intros H. apply fmap_Some in H as (s' & H & ->). destruct (IH s' H) as [Hn [rest ->]].
    split; [by constructor|by exists rest].
Qed.

(** A string stored at the start of the buffer, or one byte into it, is the string
    found there. *)
Lemma strcpy_ok str off t : (off + length t < length str)%nat -> no_null t ->
  exists str', strcpy str off t = Some str' /\ length str' = length str /\ take off str' = take off str /\
    c_string (drop off str') = Some t.
Proof.
  intros Hl Ht. destruct (write_at_some str off (t ++ [0])) as [str' E]; [rewrite length_app; simpl; lia|].
  exists str'. split_and!; [done|by eapply length_write_at|..].
  - unfold write_at in E. case_decide; [|done]. injection E as <-.
    rewrite take_app_le by (rewrite length_take; lia). apply take_ge. rewrite length_take. lia.
  - unfold write_at in E. case_decide; [|done]. injection E as <-.
    rewrite drop_app_ge by (rewrite length_take; lia). rewrite length_take_le by lia.
    rewrite Nat.sub_diag, drop_0, <- app_assoc. by apply c_string_app.
Qed.

(** strcat() after strcpy(). *)
Lemma strcat_ok str off t u str1 :
  strcpy str off t = Some str1 -> no_null (take off str) -> no_null t -> no_null u ->
  (off + length t + length u < length str)%nat ->
  exists str', strcat str1 u = Some str' /\ length str' = length str /\
    c_string str' = Some (take off str ++ t ++ u).
Proof.
  intros E Hh Ht Hu Hl. unfold strcpy, write_at in E. case_decide as Hle; [|done]. injection E as <-.
  rewrite length_app in Hle. simpl in Hle.
  set (rest := drop (off + length (t ++ [0])) str).
  assert (Hc : c_string (take off str ++ (t ++ [0]) ++ rest) = Some (take off str ++ t)).
  { rewrite <- app_assoc, app_assoc. apply c_string_app. by apply Forall_app. }
  unfold strcat. rewrite Hc. cbn [mbind option_bind].
  destruct (write_at_some (take off str ++ (t ++ [0]) ++ rest) (length (take off str ++ t)) (u ++ [0])) as [str' E].
  { unfold rest. rewrite ?length_app, ?length_drop, ?length_take, ?length_app. simpl. lia. }
  exists str'. split_and!; [done| |].
  - rewrite (length_write_at _ _ _ _ E). unfold rest. rewrite ?length_app, ?length_drop, ?length_take, ?length_app. simpl. lia.
  - unfold write_at in E. case_decide; [|done]. injection E as <-.
    rewrite <- (app_assoc t), (app_assoc _ t), take_app_length, <- (app_assoc u).
    rewrite (app_assoc _ u). cbn [app]. rewrite c_string_app; [by rewrite <- !app_assoc|].
    unfold no_null in *. by rewrite !Forall_app.
Qed.

Lemma digits_no_null base fuel v : 0 < base -> base <= 16 -> no_null (map digit_char (digits_of fuel base v)).
Proof.
  intros Hb Hb'. apply Forall_map. eapply Forall_impl; [by apply digits_of_range|].
  intros d Hd. cbn in Hd |- *. unfold digit_char. case_match; bprop; lia.
Qed.

Lemma sprintf_u_no_null v : no_null (sprintf_u v).
Proof. rewrite sprintf_u_digits. apply digits_no_null; lia. Qed.
Lemma sprintf_x_no_null v : no_null (sprintf_x v).
Proof. rewrite sprintf_x_digits. apply digits_no_null; lia. Qed.
Lemma sprintf_d_no_null v : no_null (sprintf_d v).
Proof. unfold sprintf_d. case_match; [constructor; [done|]|]; apply sprintf_u_no_null. Qed.
Lemma no_null_app t u : no_null (t ++ u) <-> no_null t /\ no_null u.
Proof. apply Forall_app. Qed.
Lemma no_null_cons c t : no_null (c :: t) <-> c <> 0 /\ no_null t.
Proof. unfold no_null. by rewrite Forall_cons. Qed.

Create HintDb nonull.
Hint Resolve sprintf_u_no_null sprintf_x_no_null sprintf_d_no_null : nonull.
Hint Extern 1 (no_null []) => constructor : nonull.

Ltac nonull := rewrite ?no_null_app, ?no_null_cons; split_and?; try done; auto with nonull.

Lemma dotted_no_null a : no_null (dotted a).
Proof. unfold dotted. repeat nonull. Qed.
Hint Resolve dotted_no_null : nonull.

Lemma shape_no_null src ws t : shape src ws t -> no_null t.
Proof.
  assert (Hc : forall l, no_null (colon_words l)).
  { induction l as [|w l IH]; [constructor|]. unfold colon_words in *. simpl. by repeat nonull. }
  assert (Hj : forall l, no_null (join l)).
  { intros [|w l]; [constructor|]. simpl. repeat nonull. }
  intros [ws'|W1 l W2 _|l V w6 w7 _ _]; [apply Hj|..]; repeat nonull; destruct W2; repeat nonull.
Qed.

(** inet_ntop() with 46 bytes or more: the text, within 45 bytes and without a null. *)
Lemma inet_ntop_text garbage f a size :
  is_ip f = true -> length a = addr_size f -> Forall is_byte a -> 46 <= size ->
  exists t, inet_ntop garbage f a size = Ret t /\ (length t <= 45)%nat /\ no_null t.
Proof.
  intros Hf Hl Hb Hs. destruct f; try done; simpl in *.
  - exists (dotted a). pose proof (dotted_length a Hl Hb). unfold strlen in *. unfold inet_ntop4.
    rewrite (proj2 (Z.ltb_ge _ _)) by (unfold strlen; lia). split_and!; [done|lia|apply dotted_no_null].
  - destruct (text_shape garbage a Hl Hb) as (t & Ht & Hsh). destruct (words_of_bytes a Hl Hb) as [_ Hw].
    pose proof (shape_length _ _ _ Hsh Hw (words_of_length a Hl) Hl Hb). unfold strlen in *.
    exists t. unfold inet_ntop6. rewrite Ht, (proj2 (Z.ltb_ge _ _)) by (unfold strlen; lia).
    split_and!; [done|lia|by eapply shape_no_null].
Qed.

(** The size given does not matter when it is large enough. *)
Lemma inet_ntop_size garbage f a s1 s2 t :
  inet_ntop garbage f a s1 = Ret t -> inet_ntop garbage f a s2 <> Fail ENOSPC -> inet_ntop garbage f a s2 = Ret t.
Proof.
  unfold inet_ntop, inet_ntop4, inet_ntop6. intros H1 H2. destruct f; try done.
  - by repeat case_match.
  - by repeat case_match.
Qed.

Lemma port_number_ok be f sa : typed be f sa -> is_ip f = true ->
  exists p, port_number sa = Some p /\ no_null (sprintf_d p) /\ (length (sprintf_d p) <= 5)%nat /\ 0 <= p.
Proof.
  intros T Hf. unfold port_number. destruct (read_at_some sa 2 2) as (bs & E & Hl).
  { destruct T as [_ Ts _]. destruct f; simpl in *; lia || done. }
  pose proof (read_at_byte _ _ _ _ E (t_bytes _ _ _ T)) as Hb. rewrite E. cbn [fmap option_fmap option_map].
  destruct bs as [|h [|l [|]]]; try done. rewrite !Forall_cons in Hb. destruct Hb as (Hh & Hl' & _).
  eexists. split; [done|]. unfold is_byte in *. set (p := load_bytes true [h; l]).
  assert (Hp : 0 <= p < 65536) by (unfold p; cbn; lia). split; [auto with nonull|]. split; [|lia].
  unfold sprintf_d. rewrite (proj2 (Z.ltb_ge _ _)), sprintf_u_digits, length_map by lia.
  apply digits_of_short; simpl; lia.
Qed.

(** An Internet address with its port, as sock_ntop() writes it. *)
Definition with_port (f : family) (port : Z) (host : list Z) : list Z :=
  if port =? 0 then host
  else (if bool_decide (f = AF_INET6) then 91 :: host ++ [93] else host) ++ COLON :: sprintf_d port.

(** What the two functions write for an address that is not an Internet address. *)
Definition other_text (name : list Z) (f : family) (sa : sockaddr) (salen : Z) : list Z :=
  match f with
  | AF_UNIX => match c_string (sun_path sa) with Some [] | None => no_path | Some p => take 127 p end
  | _ => take 127 (unknown name f salen)
  end.

(** The buffer [str] after a call, from position [i] on, holds the string [t]. *)
Definition wrote (r : outcome (list Z * nat)) (i : nat) (t : list Z) : Prop :=
  exists str', r = Ret (str', i) /\ length str' = STRSZ /\ c_string (drop i str') = Some t.

Lemma unix_text_ok str sa : length str = STRSZ -> is_Some (c_string (sun_path sa)) ->
  exists str', unix_text str sa = Some str' /\ length str' = STRSZ /\
    c_string str' = Some (other_text [] AF_UNIX sa 0).
Proof.
  intros Hl [p Hp]. destruct (c_string_spec _ _ Hp) as [Hn [rest Hr]]. unfold unix_text, other_text. rewrite Hp.
  destruct p as [|c p].
  - replace (aload (sun_path sa) 0) with (Some 0) by (unfold aload; by rewrite Hr). cbn [mbind option_bind Z.eqb].
    destruct (strcpy_ok str 0 no_path) as (str' & -> & Hl' & _ & Hc); [rewrite Hl; by apply Nat.ltb_lt|by repeat (constructor; [done|]); constructor|].
    exists str'. rewrite Hl'. done.
  - replace (aload (sun_path sa) 0) with (Some c) by (unfold aload; by rewrite Hr). cbn [mbind option_bind].
    inversion Hn; subst. rewrite (proj2 (Z.eqb_neq c 0)) by done.
    destruct (strcpy_ok str 0 (snprintf STRSZ (c :: p))) as (str' & E & Hl' & _ & Hc).
    + rewrite Hl. unfold snprintf. rewrite length_take. unfold STRSZ. lia.
    + by apply Forall_take.
    + rewrite E. exists str'. rewrite Hl'. done.
Qed.

Lemma unknown_ok str name f salen : length str = STRSZ -> no_null name ->
  exists str', strcpy str 0 (snprintf STRSZ (unknown name f salen)) = Some str' /\ length str' = STRSZ /\
    c_string str' = Some (take 127 (unknown name f salen)).
Proof.
  intros Hl Hn. destruct (strcpy_ok str 0 (snprintf STRSZ (unknown name f salen))) as (str' & -> & Hl' & _ & Hc).
  - rewrite Hl. unfold snprintf. rewrite length_take. unfold STRSZ. lia.
  - apply Forall_take. unfold unknown. repeat nonull; by repeat (constructor; [done|]); constructor.
  - exists str'. rewrite Hl'. done.
Qed.

Section NtopIp.
Context (be : bool) (garbage : Z) (f : family) (sa : sockaddr) (T : typed be f sa) (Hf : is_ip f = true).
Context (a : list Z) (port : Z) (Ha : address f sa = Some a) (Hp : port_number sa = Some port).
Context (host : list Z) (Hh : inet_ntop garbage f a 46 = Ret host).

Lemma host_facts : (length host <= 45)%nat /\ no_null host /\
  (length (sprintf_d port) <= 5)%nat /\ no_null (sprintf_d port) /\
  forall size, 46 <= size -> inet_ntop garbage f a size = Ret host.
Proof.
  destruct (ip_address be f sa T Hf) as (a' & Ea & La & Ba). rewrite Ha in Ea. injection Ea as <-.
  destruct (port_number_ok be f sa T Hf) as (p & Ep & Np & Lp & _). rewrite Hp in Ep. injection Ep as <-.
  destruct (inet_ntop_text garbage f a 46 Hf La Ba ltac:(lia)) as (t & Et & Lt & Nt).
  rewrite Hh in Et. injection Et as <-. split_and!; try done. intros size Hs.
  destruct (inet_ntop_text garbage f a size Hf La Ba Hs) as (t & Et & _). 
  eapply inet_ntop_size; [exact Hh|]. by rewrite Et.
Qed.

Lemma sock_ntop_host_ip str salen : length str = STRSZ ->
  wrote (sock_ntop_host be garbage str sa salen) 0 host.
Proof.
  intros Hl. destruct host_facts as (Lh & Nh & _ & _ & Eh). specialize (Eh 128 ltac:(lia)).
  destruct (strcpy_ok str 0 host) as (str' & E & L & _ & C); [rewrite Hl; unfold STRSZ; lia|done|].
  exists str'. unfold sock_ntop_host. rewrite (t_family _ _ _ T). change (Z.of_nat STRSZ) with 128.
  destruct f; try done; rewrite ?address_in, ?address_in6 in Ha; rewrite Ha, Eh, E; simpl; by rewrite L.
Qed.

Lemma sock_ntop_ip str salen : length str = STRSZ ->
  wrote (sock_ntop be garbage str sa salen) (if bool_decide (f = AF_INET6) && (port =? 0)%Z then 1 else 0)%nat
    (with_port f port host).
Proof.
  intros Hl. destruct host_facts as (Lh & Nh & Lp & Np & Eh). unfold with_port, wrote, sock_ntop.
  rewrite (t_family _ _ _ T). unfold STRSZ in *. change (Z.of_nat 128) with 128.
  destruct f; try done; rewrite ?address_in, ?address_in6 in Ha; rewrite Ha, Hp.
  - rewrite (Eh 128) by lia. simpl (bool_decide _). cbn [andb].
    destruct (strcpy_ok str 0 host) as (s1 & E & L & _ & C); [lia|done|]. rewrite E. cbn [mbind option_bind].
    destruct (port =? 0) eqn:E0; cbn [negb mbind option_bind lift_o]; [exists s1; by rewrite L|].
    unfold snprintf. rewrite take_ge by (simpl; lia).
    destruct (strcat_ok str 0 host (COLON :: sprintf_d port) s1) as (s2 & -> & L2 & C2);
      [exact E|by constructor|exact Nh|by nonull|simpl; lia|].
    exists s2. simpl. by rewrite L2.
  - rewrite astore_ok by lia. rewrite (Eh (128 - 1)) by lia. simpl (bool_decide _). cbn [andb].
    assert (Hl' : length (<[0%nat := 91]> str) = 128%nat) by (by rewrite length_insert).
    assert (Hh1 : take 1 (<[0%nat := 91]> str) = [91]) by (by destruct str).
    destruct (strcpy_ok (<[0%nat := 91]> str) 1 host) as (s1 & E & L & _ & C); [lia|done|]. rewrite E. cbn [mbind option_bind].
    destruct (port =? 0) eqn:E0; cbn [negb mbind option_bind lift_o]; [exists s1; by rewrite L|].
    unfold snprintf. rewrite take_ge by (simpl; lia).
    destruct (strcat_ok (<[0%nat := 91]> str) 1 host (93 :: COLON :: sprintf_d port) s1) as (s2 & -> & L2 & C2);
      [exact E|rewrite Hh1; by repeat constructor|exact Nh|by repeat nonull|rewrite Hl'; simpl; lia|].
    exists s2. simpl. rewrite L2, Hl', drop_0, C2, Hh1. by rewrite <- app_assoc.
Qed.
End NtopIp.

(** C39: sock_ntop() and sock_ntop_host() always return a string and stay inside
    their 128 bytes (and sock_ntop() inside [portstr]): an Internet address as
    inet_ntop() prints it, followed by the port unless it is 0, an IPv6 address in
    brackets when the port follows it; a Unix domain address as its pathname, cut
    after 127 bytes, or a note that there is none; any other family as a message
    with its number. *)
Theorem sock_ntop_text be garbage str str' f sa salen :
  typed be f sa -> path_ends f sa -> length str = STRSZ -> length str' = STRSZ ->
  if is_ip f then
    exists a port host, address f sa = Some a /\ port_number sa = Some port /\
      inet_ntop garbage f a 46 = Ret host /\
      wrote (sock_ntop be garbage str sa salen) (if bool_decide (f = AF_INET6) && (port =? 0)%Z then 1 else 0)%nat
        (with_port f port host) /\
      wrote (sock_ntop_host be garbage str' sa salen) 0 host
  else
    wrote (sock_ntop be garbage str sa salen) 0 (other_text (cstr "sock_ntop") f sa salen) /\
    wrote (sock_ntop_host be garbage str' sa salen) 0 (other_text (cstr "sock_ntop_host") f sa salen).
Proof.
  intros T U Hl Hl'. destruct (is_ip f) eqn:Hf.
  - destruct (ip_address be f sa T Hf) as (a & Ha & La & Ba), (port_number_ok be f sa T Hf) as (port & Hp & _).
    destruct (inet_ntop_text garbage f a 46 Hf La Ba ltac:(lia)) as (host & Hh & _).
    exists a, port, host. split_and!; try done; [by apply sock_ntop_ip with (a := a)|].
    by apply sock_ntop_host_ip with (f := f) (a := a) (port := port).
  - unfold wrote, sock_ntop, sock_ntop_host. rewrite (t_family _ _ _ T).
    destruct (decide (f = AF_UNIX)) as [->|Hu].
    + destruct (unix_text_ok str sa Hl (U eq_refl)) as (s1 & -> & L1 & C1).
      destruct (unix_text_ok str' sa Hl' (U eq_refl)) as (s2 & -> & L2 & C2).
      split; [exists s1|exists s2]; simpl; auto.
    + destruct (unknown_ok str (cstr "sock_ntop") f salen Hl) as (s1 & E1 & L1 & C1);
        [by repeat (constructor; [done|]); constructor|].
      destruct (unknown_ok str' (cstr "sock_ntop_host") f salen Hl') as (s2 & E2 & L2 & C2);
        [by repeat (constructor; [done|]); constructor|].
      destruct f; try done; rewrite E1, E2; (split; [exists s1|exists s2]; simpl; auto).
Qed.

Lemma sock_ntop_text_witness :
  exists host, wrote (sock_ntop false 0 (replicate 128 7) ex_in6 28) 0 (with_port AF_INET6 80 host).
Proof.
  destruct (sock_ntop_text false 0 (replicate 128 7) (replicate 128 0) AF_INET6 ex_in6 28) as (a & port & host & _ & P & _ & W & _).
  - exact ex_in6_typed.
  - done.
  - reflexivity.
  - reflexivity.
  - exists host. vm_compute in P. injection P as <-. exact W.
Defined.
