(* ===== verification/Icmp.v ===== *)
(** * ICMP messages in a receive buffer

    What traceroute and icmpd (src/UNPLearning/unpv13e) share: the constants of
    <netinet/ip_icmp.h> and <netinet/icmp6.h>, the offsets of the headers, a receive
    buffer in which recvfrom() overwrites only as many bytes as the datagram has, and
    the comparison of ports in network byte order.  What a program reads beyond the
    datagram is what an earlier call left in the buffer. *)

From S2P Require Import Prelude.

Definition ICMP_UNREACH : Z := 3.
Definition ICMP_SOURCEQUENCH : Z := 4.
Definition ICMP_TIMXCEED : Z := 11.
Definition ICMP_TIMXCEED_INTRANS : Z := 0.
Definition ICMP_UNREACH_PORT : Z := 3.
Definition ICMP_UNREACH_NEEDFRAG : Z := 4.
Definition IPPROTO_UDP : Z := 17.
Definition ICMP6_DST_UNREACH : Z := 1.
Definition ICMP6_PACKET_TOO_BIG : Z := 2.
Definition ICMP6_TIME_EXCEEDED : Z := 3.
Definition ICMP6_TIME_EXCEED_TRANSIT : Z := 0.
Definition ICMP6_DST_UNREACH_NOPORT : Z := 4.

(** sizeof(struct ip) and sizeof(struct ip6_hdr). *)
Definition SIZE_IP : nat := 20.
Definition SIZE_IP6 : nat := 40.

(** ip_hl << 2 from the first byte of the header. *)
Definition ip_hlen (b0 : Z) : nat := Z.to_nat (Z.shiftl (Z.land b0 0xf) 2).

(** recvfrom() of the datagram [d] into [buf]: cut at the size of the buffer. *)
Definition received (buf d : list Z) : list Z := take (length buf) d ++ drop (length d) buf.

Section Ports.
Context (be : bool).
Definition load16 (buf : list Z) (off : nat) : option Z := load_bytes be <$> read_at buf off 2.
Definition htons (v : Z) : Z := load_bytes be (store_bytes true 2 v).
End Ports.

(** The two bytes of a port in a packet. *)
Definition port_bytes (v : Z) : list Z := store_bytes true 2 v.

Lemma ip_hlen_range b0 : (ip_hlen b0 <= 60)%nat.
Proof.
  unfold ip_hlen. change 0xf with (Z.ones 4). rewrite Z.land_ones, Z.shiftl_mul_pow2 by lia.
  pose proof (Z.mod_pos_bound b0 (2 ^ 4) ltac:(lia)). change (2 ^ 4) with 16 in *. change (2 ^ 2) with 4. lia.
Qed.

Lemma received_fits buf d : (length d <= length buf)%nat -> received buf d = d ++ drop (length d) buf.
Proof. intros. unfold received. by rewrite take_ge. Qed.

Lemma length_received buf d : length (received buf d) = length buf.
Proof. unfold received. rewrite length_app, length_take, length_drop. lia. Qed.

(** Inside the datagram the buffer is the datagram. *)
Lemma read_received buf d off n : (length d <= length buf)%nat -> (off + n <= length d)%nat ->
  read_at (received buf d) off n = read_at d off n.
Proof.
  intros Hd Hn. rewrite received_fits by done. unfold read_at. rewrite !decide_True by (rewrite ?length_app; lia).
  f_equal. rewrite drop_app_le by lia. by rewrite take_app_le by (rewrite length_drop; lia).
Qed.

Lemma aload_received buf d i : (length d <= length buf)%nat -> (i < length d)%nat ->
  aload (received buf d) i = d !! i.
Proof. intros Hd Hi. rewrite received_fits by done. by apply lookup_app_l. Qed.

Lemma load_two be x y : is_byte x -> is_byte y ->
  load_bytes be [x; y] = if be then x * 256 + y else y * 256 + x.
Proof. intros Hx Hy. destruct be; cbn; lia. Qed.

Lemma port_bytes_two v : exists h l, port_bytes v = [h; l] /\ is_byte h /\ is_byte l /\ h * 256 + l = u16 v.
Proof.
  unfold port_bytes. cbn. eexists _, _. split; [done|]. unfold is_byte.
  pose proof (Z.mod_pos_bound v 256 ltac:(lia)). pose proof (Z.mod_pos_bound (v / 256) 256 ltac:(lia)).
  split_and?; try lia. unfold wrap. change (2 ^ 16) with (256 * 256). rewrite Z.rem_mul_r by lia. lia.
Qed.

(** A port field equals htons(v) exactly when its bytes are those of [v]. *)
Lemma htons_eq be bs v : length bs = 2%nat -> Forall is_byte bs ->
  load_bytes be bs = htons be v <-> bs = port_bytes v.
Proof.
  intros Hl Hb. destruct bs as [|x [|y [|]]]; try done. rewrite !Forall_cons in Hb. destruct Hb as (Hx & Hy & _).
  unfold htons. destruct (port_bytes_two v) as (h & l & E & Hh & Hl' & _). unfold port_bytes in *. rewrite E.
  rewrite !load_two by done. unfold is_byte in *. split; [|by intros [= -> ->]].
  intros H. destruct be; f_equal; [lia|f_equal; lia|lia|f_equal; lia].
Qed.

Lemma port_bytes_eq v w : port_bytes v = port_bytes w <-> u16 v = u16 w.
Proof.
  destruct (port_bytes_two v) as (h & l & E & Hh & Hl & V), (port_bytes_two w) as (h' & l' & E' & Hh' & Hl' & W).
  rewrite E, E', <- V, <- W. unfold is_byte in *. split; [by intros [= -> ->]|].
  intros H. assert (h = h') by lia. assert (l = l') by lia. congruence.
Qed.

(** An IP header, with its options. *)
Definition ip_hdr (hdr : list Z) : Prop :=
  exists b t, hdr = b :: t /\ ip_hlen b = length hdr /\ (SIZE_IP <= length hdr)%nat.

(** The ICMP message of a router or of the destination about a UDP datagram: [hdr]
    its IP header, [ck] the rest of the ICMP header, [inner] the quoted IP header. *)
Definition icmp_error (hdr : list Z) (ty code : Z) (ck inner : list Z) (sport dport : Z) (rest : list Z) : list Z :=
  hdr ++ [ty; code] ++ ck ++ inner ++ port_bytes sport ++ port_bytes dport ++ rest.
