(* ===== verification/Traceroute.v ===== *)
(** * Traceroute

    Model of src/UNPLearning/unpv13e/traceroute: recv_v4.c, recv_v6.c, icmpcode_v4.c,
    icmpcode_v6.c, sig_alrm.c and traceloop.c.  recvfrom() is a script of arrivals:
    datagrams, interruptions and errors, each of which may find that SIGALRM was
    handled between the test of [gotalarm] and the call.  [None] is an access
    outside the receive buffer.  [ret] of recv_v6.c, which one path leaves
    uninitialised, is a parameter. *)

From S2P Require Import Prelude CString InetAddr SockAddr Icmp Ping Traced.

Definition BUFSIZE : nat := 1500.

Inductive arrival :=
| Data (d : list Z) (from : sockaddr)
| Interrupted (alarm : bool)        (* EINTR, from SIGALRM or another signal *)
| Failed_recv.

(** [early]: sig_alrm() runs after the test of [gotalarm] and before recvfrom(). *)
Record event := Event { early : bool; arr : arrival }.

Section Program.
Context (be : bool) (sport dport : Z).

(** ** recv_v4 *)

(** Lines 48 to 56, and the same lines 65 to 73: the ports of the quoted UDP
    datagram.  [Some None]: too short, look at the next message. *)
Definition quotes_v4 (buf : list Z) (hlen1 : nat) (icmplen : Z) (seq : Z) : option (option bool) :=
  if icmplen <? 8 + Z.of_nat SIZE_IP then Some None else
  b ← aload buf (hlen1 + 8);
  let hlen2 := ip_hlen b in
  if icmplen <? 8 + Z.of_nat hlen2 + 4 then Some None else
  p ← aload buf (hlen1 + 8 + 9);
  sp ← load16 be buf (hlen1 + 8 + hlen2);
  dp ← load16 be buf (hlen1 + 8 + hlen2 + 2);
  Some (Some ((p =? IPPROTO_UDP) && (sp =? htons be sport) && (dp =? htons be (dport + seq)))).

(** One message of [n] bytes in the buffer: [Some None] to call recvfrom() again. *)
Definition examine_v4 (buf : list Z) (n : nat) (seq : Z) : option (option Z) :=
  b0 ← aload buf 0;
  let hlen1 := ip_hlen b0 in
  let icmplen := Z.of_nat n - Z.of_nat hlen1 in
  if icmplen <? 8 then Some None else
  ty ← aload buf hlen1;
  code ← aload buf (hlen1 + 1);
  if (ty =? ICMP_TIMXCEED) && (code =? ICMP_TIMXCEED_INTRANS) then
    q ← quotes_v4 buf hlen1 icmplen seq;
    Some (match q with Some true => Some (-2) | _ => None end)
  else if ty =? ICMP_UNREACH then
    q ← quotes_v4 buf hlen1 icmplen seq;
    Some (match q with Some true => Some (if code =? ICMP_UNREACH_PORT then -1 else code) | _ => None end)
  else Some None.

(** ** recv_v6 *)

Definition quotes_v6 (buf : list Z) (seq : Z) : option bool :=
  nxt ← aload buf (8 + 6);
  sp ← load16 be buf (8 + SIZE_IP6);
  dp ← load16 be buf (8 + SIZE_IP6 + 2);
  Some ((nxt =? IPPROTO_UDP) && (sp =? htons be sport) && (dp =? htons be (dport + seq))).

(** The [break] of line 53 is outside the [if]: [ret] may not be set. *)
Definition examine_v6 (uninit : Z) (buf : list Z) (n : nat) (seq : Z) : option (option Z) :=
  let icmp6len := Z.of_nat n in
  if icmp6len <? 8 then Some None else
  ty ← aload buf 0;
  code ← aload buf 1;
  if (ty =? ICMP6_TIME_EXCEEDED) && (code =? ICMP6_TIME_EXCEED_TRANSIT) then
    if icmp6len <? 8 + Z.of_nat SIZE_IP6 + 4 then Some None else
    q ← quotes_v6 buf seq;
    Some (Some (if q : bool then -2 else uninit))
  else if ty =? ICMP6_DST_UNREACH then
    if icmp6len <? 8 + Z.of_nat SIZE_IP6 + 4 then Some None else
    q ← quotes_v6 buf seq;
    Some (if q : bool then Some (if code =? ICMP6_DST_UNREACH_NOPORT then -1 else code) else None)
  else Some None.

(** ** The loop around recvfrom(), the same in both *)

Record rstate := RState { recvbuf : list Z; sarecv : sockaddr }.

Section Recv.
Context (examine : list Z -> nat -> option (option Z)).

Fixpoint recv_loop (gotalarm : bool) (evs : list event) (r : rstate) : outcome (Z * rstate * list event) :=
  if gotalarm then Ret (-3, r, evs) else
  match evs with
  | [] => Blocked
  | Event e a :: evs' =>
      match a with
      | Failed_recv => Exit 1
      | Interrupted alarm => recv_loop (e || alarm) evs' r
      | Data d from =>
          let r' := RState (received (recvbuf r) d) from in
          match examine (recvbuf r') (Nat.min (length d) (length (recvbuf r))) with
          | None => Abort
          | Some None => recv_loop e evs' r'
          | Some (Some ret) => Ret (ret, r', evs')
          end
      end
  end.

(** [gotalarm = 0; alarm(3);] *)
Definition recv (evs : list event) (r : rstate) : outcome (Z * rstate * list event) := recv_loop false evs r.
End Recv.

Definition recv_v4 (seq : Z) := recv (fun buf n => examine_v4 buf n seq).
Definition recv_v6 (uninit : Z -> Z) (seq : Z) := recv (fun buf n => examine_v6 (uninit seq) buf n seq).

End Program.

Definition bracketed (code : Z) : list Z := cstr "[unknown code " ++ sprintf_d code ++ cstr "]".

Definition icmpcode_v4 (code : Z) : list Z :=
  match code with
  | 0 => cstr "network unreachable"
  | 1 => cstr "host unreachable"
  | 2 => cstr "protocol unreachable"
  | 3 => cstr "port unreachable"
  | 4 => cstr "fragmentation required but DF bit set"
  | 5 => cstr "source route failed"
  | 6 => cstr "destination network unknown"
  | 7 => cstr "destination host unknown"
  | 8 => cstr "source host isolated (obsolete)"
  | 9 => cstr "destination network administratively prohibited"
  | 10 => cstr "destination host administratively prohibited"
  | 11 => cstr "network unreachable for TOS"
  | 12 => cstr "host unreachable for TOS"
  | 13 => cstr "communication administratively prohibited by filtering"
  | 14 => cstr "host recedence violation"
  | 15 => cstr "precedence cutoff in effect"
  | _ => bracketed code
  end.

Definition icmpcode_v6 (code : Z) : list Z :=
  match code with
  | 0 => cstr "no route to host"
  | 1 => cstr "administratively prohibited"
  | 2 => cstr "not a neighbor"
  | 3 => cstr "address unreachable"
  | 4 => cstr "port unreachable"
  | _ => bracketed code
  end.

(** ** traceloop *)

(** What the program does: a probe sent with its time to live, the result of
    [pr->recv], and what is printed. *)
Inductive out :=
| Hop (ttl : Z)
| Sent (ttl seq : Z) (data : list Z) (dest : sockaddr)
| Received (seq code : Z)
| Star
| From (sa : sockaddr) (name : option (list Z))
| Rtt (ms : SpecFloat.spec_float)
| Unreachable (text : list Z).

(** struct proto, with its addresses. *)
Record proto := Proto { icmpcode : Z -> list Z; p_recv : Z -> Z -> Z -> list event -> rstate -> outcome (Z * rstate * list event) }.
Definition proto_v4 (be : bool) : proto := Proto icmpcode_v4 (recv_v4 be).
Definition proto_v6 (be : bool) (uninit : Z -> Z) : proto :=
  Proto icmpcode_v6 (fun sport dport => recv_v6 be sport dport uninit).

Record state := St {
  seq : Z; sendbuf : list Z; sasend : sockaddr; salast : sockaddr; rst : rstate; arrivals : list event }.

Definition datalen : nat := 24.
Definition sport_of (pid : Z) : Z := Z.lor (Z.land pid 0xffff) 0x8000.

Section Loop.
Context (be : bool) (pr : proto) (sport dport nprobes max_ttl : Z).
Context (getnameinfo : sockaddr -> option (list Z)) (sent_at got_at : Z -> timeval).
(** Does sendto() of the probe with this number succeed? *)
Context (sendto : Z -> bool).

(** struct rec at the start of [sendbuf]; [rec_tv] is at offset 8. *)
Definition put_rec (buf : list Z) (sq ttl : Z) (tv : timeval) : option (list Z) :=
  buf ← write_at buf 0 (store_bytes be 2 sq);
  buf ← write_at buf 2 (store_bytes be 2 ttl);
  write_at buf 8 (store_timeval be tv).

(** Lines 54 to 70: the address when it changed, and the round-trip time. *)
Definition report_from (s : state) : option (state * list out) :=
  c ← sock_cmp_addr be (sarecv (rst s)) (salast s);
  sent ← read_at (sendbuf s) 8 16;
  let rtt := Rtt (UnpPing.rtt_ms (UnpPing.tv_sub (got_at (seq s)) (load_timeval be sent))) in
  if negb (c =? 0) then
    Some (St (seq s) (sendbuf s) (sasend s) (sarecv (rst s)) (rst s) (arrivals s),
          [From (sarecv (rst s)) (getnameinfo (sarecv (rst s))); rtt])
  else Some (s, [rtt]).

Definition lift_t {A} (o : option A) : traced out A :=
  match o with Some a => done_with a | None => Abort end.

(** pr->recv with the shared receive state. *)
Definition call_recv (s : state) : traced out (Z * state) :=
  match p_recv pr sport dport (seq s) (arrivals s) (rst s) with
  | Ret (code, r, evs) =>
      Ret ((code, St (seq s) (sendbuf s) (sasend s) (salast s) r evs), [Received (seq s) code])
  | Fail e => Fail e | Exit c => Exit c | Abort => Abort | Blocked => Blocked
  end.

Open Scope traced_scope.

(** One turn of the inner loop; the result tells whether [done] was incremented. *)
Definition send_probe (ttl : Z) (s : state) : traced out state :=
  let sq := seq s + 1 in
  buf ⇐ lift_t (put_rec (sendbuf s) sq ttl (sent_at sq));
  sa ⇐ lift_t (sock_set_port be (sasend s) (htons be (dport + sq)));
  if sendto sq then
    emit [Sent ttl sq (take datalen buf) sa];;
    done_with (St sq buf sa (salast s) (rst s) (arrivals s))
  else Exit 1.

Definition probe (ttl : Z) (s : state) : traced out (state * bool) :=
  s ⇐ send_probe ttl s;
  cs ⇐ call_recv s;
  let '(code, s) := cs in
  if code =? -3 then emit [Star];; done_with (s, false)
  else
    sl ⇐ lift_t (report_from s);
    emit (snd sl);;
    if code =? -1 then done_with (fst sl, true)
    else if 0 <=? code then emit [Unreachable (icmpcode pr code)];; done_with (fst sl, false)
    else done_with (fst sl, false).

(** The loop over the [k] probes that are left; [fin]: done > 0. *)
Fixpoint probes (k : nat) (ttl : Z) (s : state) (fin : bool) : traced out (state * bool) :=
  match k with
  | O => done_with (s, fin)
  | S k' => sb ⇐ probe ttl s; probes k' ttl (fst sb) (fin || snd sb)
  end.

Definition clear_salast (s : state) : state :=
  St (seq s) (sendbuf s) (sasend s) (replicate (length (salast s)) 0) (rst s) (arrivals s).

(** The loop over the hops: [k] values of ttl are left.  setsockopt() refuses a time to
    live above 255. *)
Fixpoint hops (k : nat) (ttl : Z) (s : state) : traced out state :=
  match k with
  | O => done_with s
  | S k' =>
      if 255 <? ttl then Exit 1 else
      emit [Hop ttl];;
      sb ⇐ probes (Z.to_nat nprobes) ttl (clear_salast s) false;
      if snd sb : bool then done_with (fst sb) else hops k' (ttl + 1) (fst sb)
  end.

Definition traceloop (s : state) : traced out state :=
  hops (Z.to_nat max_ttl) 1 (St 0 (sendbuf s) (sasend s) (salast s) (rst s) (arrivals s)).
End Loop.

(** ** What a datagram answers

    The reference definitions look at the datagram alone. *)

(** The source and destination port of the UDP header behind a quoted IP header. *)
Definition quoted_ports (inner : list Z) : option (list Z * list Z) :=
  b ← inner !! 0%nat;
  let h := ip_hlen b in
  if bool_decide (SIZE_IP <= length inner)%nat && bool_decide (h + 4 <= length inner)%nat then
    p ← inner !! 9%nat;
    if p =? IPPROTO_UDP then Some (take 2 (drop h inner), take 2 (drop (h + 2) inner)) else None
  else None.

Definition is_quote (sport dport seq : Z) (q : option (list Z * list Z)) : bool :=
  bool_decide (q = Some (port_bytes sport, port_bytes (dport + seq))).

Definition answer_v4 (sport dport seq : Z) (d : list Z) : option Z :=
  b0 ← d !! 0%nat;
  let m := drop (ip_hlen b0) d in
  match m with
  | ty :: code :: _ =>
      if bool_decide (8 <= length m)%nat && is_quote sport dport seq (quoted_ports (drop 8 m)) then
        if (ty =? ICMP_TIMXCEED) && (code =? ICMP_TIMXCEED_INTRANS) then Some (-2)
        else if ty =? ICMP_UNREACH then Some (if code =? ICMP_UNREACH_PORT then -1 else code)
        else None
      else None
  | _ => None
  end.

Definition quoted_ports6 (d : list Z) : option (list Z * list Z) :=
  if bool_decide (52 <= length d)%nat then
    p ← d !! 14%nat;
    if p =? IPPROTO_UDP then Some (take 2 (drop 48 d), take 2 (drop 50 d)) else None
  else None.

Definition time_exceeded6 (d : list Z) : bool :=
  match d with ty :: code :: _ => (ty =? ICMP6_TIME_EXCEEDED) && (code =? ICMP6_TIME_EXCEED_TRANSIT) | _ => false end.

Definition answer_v6 (sport dport seq : Z) (d : list Z) : option Z :=
  if is_quote sport dport seq (quoted_ports6 d) then
    if time_exceeded6 d then Some (-2)
    else match d with
         | ty :: code :: _ =>
             if ty =? ICMP6_DST_UNREACH then Some (if code =? ICMP6_DST_UNREACH_NOPORT then -1 else code) else None
         | _ => None
         end
  else None.

(** A Time Exceeded message about somebody else's datagram. *)
Definition foreign6 (sport dport seq : Z) (d : list Z) : bool :=
  bool_decide (52 <= length d)%nat && time_exceeded6 d && negb (is_quote sport dport seq (quoted_ports6 d)).

(** The wait without a buffer. *)
Section Await.
Context (answer : list Z -> option Z).

Fixpoint await (alarmed : bool) (evs : list event) (last : sockaddr) : outcome (Z * sockaddr * list event) :=
  if alarmed then Ret (-3, last, evs) else
  match evs with
  | [] => Blocked
  | Event e a :: evs' =>
      match a with
      | Failed_recv => Exit 1
      | Interrupted alarm => await (e || alarm) evs' last
      | Data d from =>
          match answer (take BUFSIZE d) with
          | None => await e evs' from
          | Some ret => Ret (ret, from, evs')
          end
      end
  end.
End Await.

Definition wf_event (f : family) (be : bool) (e : event) : Prop :=
  match arr e with Data d from => Forall is_byte d /\ typed be f from | _ => True end.

Lemma is_quote_None sport dport seq : is_quote sport dport seq None = false.
Proof. by apply bool_decide_eq_false_2. Qed.

Section Examine.
Context (be : bool) (sport dport : Z).

Lemma port_test d off v : (off + 2 <= length d)%nat -> Forall is_byte d ->
  exists p, load_bytes be <$> read_at d off 2 = Some p /\
    (p =? htons be v) = bool_decide (take 2 (drop off d) = port_bytes v).
Proof.
  intros Hl Hb. unfold read_at. rewrite decide_True by done. eexists. split; [done|].
  apply eq_true_iff_eq. rewrite Z.eqb_eq, bool_decide_eq_true. apply htons_eq.
  - rewrite length_take, length_drop. lia.
  - by apply Forall_take, Forall_drop.
Qed.

Lemma and3_quote (p a b : bool) (A B : list Z) sq :
  a = bool_decide (A = port_bytes sport) -> b = bool_decide (B = port_bytes (dport + sq)) ->
  (p && a && b)%bool = is_quote sport dport sq (if p then Some (A, B) else None).
Proof.
  intros -> ->. unfold is_quote. destruct p; [|done]. simpl. apply eq_true_iff_eq.
  rewrite andb_true_iff, !bool_decide_eq_true. naive_solver.
Qed.

Lemma quotes_v4_spec buf d h1 sq :
  (length d <= length buf)%nat -> Forall is_byte d -> (h1 + 8 <= length d)%nat ->
  exists q, quotes_v4 be sport dport (received buf d) h1 (Z.of_nat (length d) - Z.of_nat h1) sq = Some q /\
    (match q with Some true => true | _ => false end) = is_quote sport dport sq (quoted_ports (drop 8 (drop h1 d))).
Proof.
  intros Hd Hb Hh. unfold quotes_v4, quoted_ports. rewrite drop_drop, length_drop.
  destruct (_ <? _) eqn:E1; bprop.
  { exists None. split; [done|]. 
    destruct (drop (h1 + 8) d !! 0%nat); cbn [mbind option_bind]; [|by rewrite is_quote_None].
    rewrite bool_decide_eq_false_2 by (unfold SIZE_IP in *; lia). cbn [andb]. by rewrite is_quote_None. }
  unfold SIZE_IP in *. rewrite (aload_received buf d (h1 + 8)) by lia. replace (drop (h1 + 8) d !! 0%nat) with (d !! (h1 + 8)%nat) by (by rewrite lookup_drop, Nat.add_0_r).
  destruct (lookup_lt_is_Some_2 d (h1 + 8)) as [b Eb]; [lia|]. rewrite Eb. cbn [mbind option_bind]. cbv zeta.
  rewrite (bool_decide_eq_true_2 (20 <= _)%nat) by lia. cbn [andb].
  destruct (_ <? _) eqn:E2; bprop.
  { exists None. split; [done|]. rewrite (bool_decide_eq_false_2 (_ + 4 <= _)%nat) by lia. by rewrite is_quote_None. }
  rewrite (bool_decide_eq_true_2 (_ <= _)%nat) by lia.
  rewrite (aload_received buf d) by lia. replace (drop (h1 + 8) d !! 9%nat) with (d !! (h1 + 8 + 9)%nat) by (by rewrite lookup_drop).
  destruct (lookup_lt_is_Some_2 d (h1 + 8 + 9)) as [p Ep]; [lia|]. rewrite Ep. cbn [mbind option_bind].
  unfold load16. rewrite !(read_received buf d) by lia.
  destruct (port_test d (h1 + 8 + ip_hlen b) sport) as (sp & -> & Ts); [lia|done|].
  destruct (port_test d (h1 + 8 + ip_hlen b + 2) (dport + sq)) as (dp & -> & Td); [lia|done|].
  cbn [mbind option_bind]. eexists. split; [done|].
  rewrite (and3_quote _ _ _ _ _ _ Ts Td). rewrite !drop_drop, Nat.add_assoc. by destruct (is_quote _ _ _ _).
Qed.

(** Only the datagram counts, never what is left in the buffer behind it. *)
Lemma examine_v4_spec buf d sq :
  (length d <= length buf)%nat -> buf <> [] -> Forall is_byte d ->
  examine_v4 be sport dport (received buf d) (length d) sq = Some (answer_v4 sport dport sq d).
Proof.
  intros Hd Hn Hb. unfold examine_v4, answer_v4. destruct d as [|b0 d'].
  { destruct buf as [|c buf]; [done|]. simpl. pose proof (ip_hlen_range c).
    rewrite (proj2 (Z.ltb_lt _ _)) by lia. done. }
  set (d := b0 :: d') in *. rewrite (aload_received buf d) by (simpl; lia || done). change (d !! 0%nat) with (Some b0).
  cbn [mbind option_bind]. set (h1 := ip_hlen b0).
  destruct (_ <? 8) eqn:E1; bprop.
  { destruct (drop h1 d) as [|ty [|code m]] eqn:Em; try done. rewrite <- Em.
    rewrite bool_decide_eq_false_2; [done|]. rewrite length_drop. lia. }
  rewrite !(aload_received buf d) by lia.
  destruct (lookup_lt_is_Some_2 d h1) as [ty Ety]; [lia|]. destruct (lookup_lt_is_Some_2 d (h1 + 1)) as [code Ec]; [lia|].
  rewrite Ety, Ec. cbn [mbind option_bind].
  destruct (quotes_v4_spec buf d h1 sq Hd Hb ltac:(lia)) as (q & Eq & Hq).
  assert (Em : exists m, drop h1 d = ty :: code :: m).
  { rewrite (drop_S d ty h1) by done. rewrite (drop_S d code (S h1)) by (by rewrite Nat.add_1_r in Ec). eauto. }
  destruct Em as [m Em]. rewrite Em in Hq |- *. rewrite <- Hq.
  rewrite bool_decide_eq_true_2 by (rewrite <- Em, length_drop; lia). cbn [andb]. rewrite Eq. cbn [mbind option_bind].
  by destruct q as [[]|]; bsplit.
Qed.

Lemma examine_v6_spec uninit buf d sq :
  (length d <= length buf)%nat -> Forall is_byte d ->
  examine_v6 be sport dport uninit (received buf d) (length d) sq =
    Some (if foreign6 sport dport sq d then Some uninit else answer_v6 sport dport sq d).
Proof.
  intros Hd Hb. unfold examine_v6, foreign6, answer_v6, SIZE_IP6.
  destruct (_ <? 8) eqn:E1; bprop.
  { rewrite bool_decide_eq_false_2 by lia. unfold quoted_ports6. rewrite bool_decide_eq_false_2 by lia. by rewrite is_quote_None. }
  destruct d as [|ty [|code d']]; simpl in E1; try lia. set (d := ty :: code :: d') in *.
  rewrite !(aload_received buf d) by (simpl; lia || done). change (d !! 0%nat) with (Some ty). change (d !! 1%nat) with (Some code).
  cbn [mbind option_bind]. change (time_exceeded6 d) with ((ty =? ICMP6_TIME_EXCEEDED) && (code =? ICMP6_TIME_EXCEED_TRANSIT)).
  destruct (_ <? 8 + _ + _) eqn:E2; bprop.
  { unfold quoted_ports6. rewrite bool_decide_eq_false_2 by lia. rewrite is_quote_None. cbn. by bsplit. }
  rewrite bool_decide_eq_true_2 by lia. unfold quotes_v6, load16, SIZE_IP6.
  rewrite (aload_received buf d), !(read_received buf d) by lia.
  destruct (lookup_lt_is_Some_2 d 14) as [p Ep]; [lia|]. change (8 + 6)%nat with 14%nat. rewrite Ep.
  destruct (port_test d 48 sport) as (sp & Es & Ts); [lia|done|].
  destruct (port_test d 50 (dport + sq)) as (dp & Ed & Td); [lia|done|].
  change (8 + 40)%nat with 48%nat. change (48 + 2)%nat with 50%nat. rewrite Es, Ed. cbn [mbind option_bind].
  rewrite (and3_quote _ _ _ _ _ _ Ts Td). unfold quoted_ports6. rewrite bool_decide_eq_true_2, Ep by lia. cbn [mbind option_bind].
  by destruct (is_quote _ _ _ _); bsplit.
Qed.

(** The loop with a buffer does what the wait without one does. *)
Lemma recv_loop_spec (examine : list Z -> nat -> option (option Z)) (answer : list Z -> option Z) f al evs r :
  (forall buf d, length buf = BUFSIZE -> (length d <= length buf)%nat -> Forall is_byte d ->
     examine (received buf d) (length d) = Some (answer d)) ->
  Forall (wf_event f be) evs -> length (recvbuf r) = BUFSIZE ->
  match await answer al evs (sarecv r) with
  | Ret (code, sa, evs') => exists buf', length buf' = BUFSIZE /\ recv_loop examine al evs r = Ret (code, RState buf' sa, evs')
  | Exit c => recv_loop examine al evs r = Exit c
  | Blocked => recv_loop examine al evs r = Blocked
  | _ => False
  end.
Proof.
  intros Hex Hw. revert al r. induction Hw as [|[e a] evs Hw _ IH]; intros al [buf sa] Hl; simpl in Hl.
  { destruct al; simpl; [by exists buf|done]. }
  destruct al; simpl; [by exists buf|]. destruct a as [d from|alarm|]; simpl; [|by apply (IH _ (RState buf sa))|done].
  destruct Hw as [Hb _].
  assert (Ht : received buf d = received buf (take BUFSIZE d)).
  { unfold received. rewrite Hl, take_take, Nat.min_id. f_equal.
    destruct (decide (length d <= BUFSIZE)%nat); [by rewrite take_ge|].
    rewrite length_take, Nat.min_l, !drop_ge by lia. done. }
  rewrite Ht. replace (Nat.min (length d) (length buf)) with (length (take BUFSIZE d)) by (rewrite length_take, Hl; lia).
  rewrite Hex; [|done|rewrite length_take, Hl; lia|by apply Forall_take].
  destruct (answer (take BUFSIZE d)) as [ret|].
  - exists (received buf (take BUFSIZE d)). by rewrite length_received.
  - specialize (IH e (RState (received buf (take BUFSIZE d)) from)). simpl in IH. rewrite length_received in IH. by apply IH.
Qed.
End Examine.

(** Every result of a wait other than -3 comes from one of the datagrams. *)
Definition from_arrivals (answer : list Z -> option Z) (evs : list event) (code : Z) : Prop :=
  exists e d from, e ∈ evs /\ arr e = Data d from /\ answer (take BUFSIZE d) = Some code.

Lemma await_spec answer al evs last :
  match await answer al evs last with
  | Ret (code, sa, evs') =>
      exists pre, evs = pre ++ evs' /\
        (code = -3 \/ exists e d, e ∈ pre /\ arr e = Data d sa /\ answer (take BUFSIZE d) = Some code)
  | Exit c => c = 1
  | Blocked => True
  | _ => False
  end.
Proof.
  revert al last. induction evs as [|[e a] evs IH]; intros al last; destruct al; simpl; try done.
  - exists []. auto.
  - exists []. auto.
  - destruct a as [d from|alarm|]; [|specialize (IH (e || alarm) last)|done].
    + destruct (answer (take BUFSIZE d)) as [ret|] eqn:E.
      * exists [Event e (Data d from)]. split; [done|]. right. exists (Event e (Data d from)), d.
        split_and!; [by left|done|done].
      * specialize (IH e from). destruct (await answer e evs from) as [[[code sa] evs']|?|?| |]; try done.
        destruct IH as (pre & -> & H). exists (Event e (Data d from) :: pre). split; [done|].
        destruct H as [->|(e' & d' & He & H)]; [by left|right]. exists e', d'. split; [by right|done].
    + destruct (await answer (e || alarm) evs last) as [[[code sa] evs']|?|?| |]; try done.
      destruct IH as (pre & -> & H). exists (Event e (Interrupted alarm) :: pre). split; [done|].
      destruct H as [->|(e' & d' & He & H)]; [by left|right]. exists e', d'. split; [by right|done].
Qed.

(** Two waits that agree on the datagrams that one of them has consumed. *)
Lemma await_agree a1 a2 evs : forall al last,
  match await a1 al evs last with
  | Ret (code, sa, rest) => exists pre, evs = pre ++ rest /\
      ((forall e d from, Event e (Data d from) ∈ pre -> a2 (take BUFSIZE d) = a1 (take BUFSIZE d)) ->
       await a2 al evs last = Ret (code, sa, rest))
  | _ => True
  end.
Proof.
  induction evs as [|[e a] evs IH]; intros al last; destruct al; cbn -[BUFSIZE]; try done; [by exists []|by exists []|].
  destruct a as [d from|alarm|]; [| |done].
  - destruct (a1 (take BUFSIZE d)) as [ret|] eqn:E.
    + exists [Event e (Data d from)]. split; [done|]. intros H. rewrite (H e d from) by (apply elem_of_cons; by left). by rewrite E.
    + specialize (IH e from). destruct (await a1 e evs from) as [[[code sa] rest]|?|?| |]; try done.
      destruct IH as (pre & -> & H). exists (Event e (Data d from) :: pre). split; [done|]. intros Hp.
      rewrite (Hp e d from) by (apply elem_of_cons; by left). rewrite E. apply H. intros. apply (Hp e0 d0 from0), elem_of_cons. by right.
  - specialize (IH (e || alarm) last). destruct (await a1 (e || alarm) evs last) as [[[code sa] rest]|?|?| |]; try done.
    destruct IH as (pre & -> & H). exists (Event e (Interrupted alarm) :: pre). split; [done|]. intros Hp.
    apply H. intros. apply (Hp e0 d from), elem_of_cons. by right.
Qed.

(** What traceloop() asks of [pr->recv]. *)
Class Receiver (be : bool) (f : family) (sport dport : Z) (pr : proto) (answer : Z -> list Z -> option Z) : Prop := {
  recv_ok : forall sq evs r, Forall (wf_event f be) evs -> length (recvbuf r) = BUFSIZE ->
    match p_recv pr sport dport sq evs r with
    | Ret (code, r', evs') =>
        length (recvbuf r') = BUFSIZE /\ (exists pre, evs = pre ++ evs') /\
        (code = -3 \/ typed be f (sarecv r') /\ from_arrivals (answer sq) evs code)
    | Exit c => c = 1
    | Blocked => True
    | _ => False
    end }.

Lemma receiver_of (be : bool) f examine answer evs r :
  (forall buf d, length buf = BUFSIZE -> (length d <= length buf)%nat -> Forall is_byte d ->
     examine (received buf d) (length d) = Some (answer d)) ->
  Forall (wf_event f be) evs -> length (recvbuf r) = BUFSIZE ->
  match recv examine evs r with
  | Ret (code, r', evs') =>
      length (recvbuf r') = BUFSIZE /\ (exists pre, evs = pre ++ evs') /\
      (code = -3 \/ typed be f (sarecv r') /\ from_arrivals answer evs code)
  | Exit c => c = 1
  | Blocked => True
  | _ => False
  end.
Proof.
  intros Hex Hw Hl. pose proof (recv_loop_spec be examine answer f false evs r Hex Hw Hl) as H.
  pose proof (await_spec answer false evs (sarecv r)) as A. unfold recv.
  destruct (await answer false evs (sarecv r)) as [[[code sa] evs']|?|?| |]; try done; [|by rewrite H|by rewrite H].
  destruct H as (buf' & Hb & ->). destruct A as (pre & -> & A). split_and!; [done|by exists pre|].
  destruct A as [->|(e & d & He & Ha & Hc)]; [by left|right]. split.
  - rewrite Forall_app in Hw. destruct Hw as [Hw _]. rewrite Forall_forall in Hw. specialize (Hw e He).
    unfold wf_event in Hw. rewrite Ha in Hw. apply Hw.
  - exists e, d, sa. split_and!; [apply elem_of_app; by left|done|done].
Qed.

#[export] Instance receiver_v4 be sport dport :
  Receiver be AF_INET sport dport (proto_v4 be) (answer_v4 sport dport).
Proof.
  constructor. intros sq evs r Hw Hl. apply receiver_of; [|done|done].
  intros buf d Hb Hd Hby. apply examine_v4_spec; [done| |done]. by intros ->.
Qed.

(** What recv_v6() takes for an answer. *)
Definition taken_v6 (sport dport : Z) (uninit : Z -> Z) (sq : Z) (d : list Z) : option Z :=
  if foreign6 sport dport sq d then Some (uninit sq) else answer_v6 sport dport sq d.

#[export] Instance receiver_v6 be sport dport uninit :
  Receiver be AF_INET6 sport dport (proto_v6 be uninit) (taken_v6 sport dport uninit).
Proof.
  constructor. intros sq evs r Hw Hl. apply receiver_of; [|done|done].
  intros buf d Hb Hd Hby. by apply examine_v6_spec.
Qed.

(** ** The loop of traceloop() *)

Definition sent_of (o : out) : option (Z * Z) := match o with Sent ttl sq _ _ => Some (ttl, sq) | _ => None end.
Definition code_of (o : out) : option (Z * Z) := match o with Received sq c => Some (sq, c) | _ => None end.

(** The probes of a run and their results: [css] has the results of each hop. *)
Fixpoint schedule (ttl sq : Z) (css : list (list Z)) : list (Z * Z * Z) :=
  match css with
  | [] => []
  | cs :: css' => imap (fun i c => (ttl, sq + 1 + Z.of_nat i, c)) cs ++ schedule (ttl + 1) (sq + Z.of_nat (length cs)) css'
  end.

(** The trace stops after the first hop at which a probe found the destination. *)
Fixpoint stops (k : nat) (css : list (list Z)) : Prop :=
  match k, css with
  | O, [] => True
  | S k', cs :: css' => if bool_decide (-1 ∈ cs) then css' = [] else stops k' css'
  | _, _ => False
  end.

Definition only_exit (x : stop) : Prop := x = Exited 1 \/ x = Waits.

Section LoopSpec.
Context (be : bool) (f : family) (Hf : is_ip f = true).

Definition sa_known (sa : sockaddr) : Prop := typed be f sa \/ exists f', sa_family be sa = Some f' /\ f' <> f.

Lemma cmp_known sa1 sa2 : typed be f sa1 -> sa_known sa2 -> exists c, sock_cmp_addr be sa1 sa2 = Some c.
Proof.
  intros T K. unfold sock_cmp_addr. rewrite (t_family _ _ _ T). cbn [mbind option_bind].
  destruct K as [T2|(f' & -> & Hn)]; cbn [mbind option_bind].
  - rewrite (t_family _ _ _ T2). cbn [mbind option_bind]. rewrite bool_decide_eq_true_2 by done. simpl.
    destruct (ip_address be f sa1 T Hf) as (a1 & A1 & _), (ip_address be f sa2 T2 Hf) as (a2 & A2 & _).
    destruct f; try done; rewrite ?address_in, ?address_in6 in *; rewrite A1, A2; eauto.
  - rewrite bool_decide_eq_false_2 by done. eauto.
Qed.

Lemma cleared_known n : (2 <= n)%nat -> sa_known (replicate n 0).
Proof.
  intros Hn. right. exists AF_UNSPEC. split; [|by destruct f].
  destruct n as [|[|n]]; [lia|lia|]. by destruct be.
Qed.

Context (sport dport nprobes max_ttl : Z) (pr : proto).
Context (answer : Z -> list Z -> option Z).
Context (getnameinfo : sockaddr -> option (list Z)) (sent_at got_at : Z -> timeval) (sendto : Z -> bool).
Context (evs0 : list event) (dst : sockaddr).

Record inv (s : state) : Prop := Inv {
  i_sendbuf : length (sendbuf s) = BUFSIZE;
  i_sasend : typed be f (sasend s);
  i_dest : SockAddr.address f (sasend s) = SockAddr.address f dst;
  i_salast : sa_known (salast s);
  i_salen : (2 <= length (salast s))%nat;
  i_recvbuf : length (recvbuf (rst s)) = BUFSIZE;
  i_wf : Forall (wf_event f be) (arrivals s);
  i_suffix : exists pre, evs0 = pre ++ arrivals s }.

(** What each thing done is worth. *)
Definition out_ok (o : out) : Prop :=
  match o with
  | Sent ttl sq data dest =>
      length data = datalen /\ take 4 data = store_bytes be 2 sq ++ store_bytes be 2 ttl /\
      drop 8 data = store_timeval be (sent_at sq) /\
      read_at dest 2 2 = Some (port_bytes (dport + sq)) /\ SockAddr.address f dest = SockAddr.address f dst
  | Received sq code => code = -3 \/ from_arrivals (answer sq) evs0 code
  | Rtt ms => exists sq, ms = UnpPing.rtt_ms (UnpPing.tv_sub (got_at sq) (sent_at sq))
  | _ => True
  end.

Context `{!Receiver be f sport dport pr answer} (Hclock : forall sq, wf_timeval (sent_at sq)).

(** The record in the send buffer. *)
Lemma put_rec_ok buf sq ttl tv : length buf = BUFSIZE ->
  exists buf', put_rec be buf sq ttl tv = Some buf' /\ length buf' = BUFSIZE /\
    take 4 (take datalen buf') = store_bytes be 2 sq ++ store_bytes be 2 ttl /\
    drop 8 (take datalen buf') = store_timeval be tv.
Proof.
  intros Hl. destruct (split_length buf 2 1498 Hl) as (b1 & r1 & -> & L1 & R1).
  destruct (split_length r1 2 1496 R1) as (b2 & r2 & -> & L2 & R2).
  destruct (split_length r2 4 1492 R2) as (b3 & r3 & -> & L3 & R3).
  destruct (split_length r3 16 1476 R3) as (b4 & r4 & -> & L4 & R4).
  unfold put_rec. rewrite (write_at_eq _ [] b1 (b2 ++ b3 ++ b4 ++ r4)) by (done || by rewrite length_store_bytes).
  cbn [mbind option_bind app].
  rewrite (write_at_eq _ (store_bytes be 2 sq) b2 (b3 ++ b4 ++ r4)) by (done || by rewrite length_store_bytes).
  cbn [mbind option_bind].
  rewrite (write_at_eq _ (store_bytes be 2 sq ++ store_bytes be 2 ttl ++ b3) b4 r4);
    [|by rewrite <- !app_assoc|rewrite !length_app, !length_store_bytes; lia|by rewrite length_store_timeval].
  eexists. split; [done|].
  assert (Hd : take datalen ((store_bytes be 2 sq ++ store_bytes be 2 ttl ++ b3) ++ store_timeval be tv ++ r4)
               = (store_bytes be 2 sq ++ store_bytes be 2 ttl) ++ b3 ++ store_timeval be tv).
  { rewrite !app_assoc. rewrite take_app_length'; [done|].
    rewrite !length_app, !length_store_bytes, length_store_timeval, L3. done. }
  rewrite Hd. split_and!.
  - rewrite !length_app, !length_store_bytes, length_store_timeval, L3, R4. done.
  - by rewrite take_app_length' by (by rewrite length_app, !length_store_bytes).
  - rewrite app_assoc, drop_app_length'; [done|]. by rewrite !length_app, !length_store_bytes, L3.
Qed.

Lemma send_probe_ok ttl s : inv s ->
  post only_exit (send_probe be dport sent_at sendto ttl s) (fun s' ev =>
    inv s' /\ seq s' = seq s + 1 /\ omap sent_of ev = [(ttl, seq s + 1)] /\ omap code_of ev = [] /\ Forall out_ok ev /\
    read_at (sendbuf s') 8 16 = Some (store_timeval be (sent_at (seq s')))).
Proof.
  intros [I1 I2 I3 I4 I5 I6 I7 I8]. unfold send_probe. cbv zeta. set (sq := seq s + 1).
  destruct (put_rec_ok (sendbuf s) sq ttl (sent_at sq) I1) as (buf & Eb & Lb & T4 & D8).
  destruct (ip_write_port be f (sasend s) I2 (htons be (dport + sq)) Hf) as [sa Es].
  assert (T' : typed be f sa) by (eapply (typed_write be f (sasend s)); [exact I2|exact Es|lia|apply store_bytes_byte]).
  assert (A' : SockAddr.address f sa = SockAddr.address f dst).
  { rewrite <- I3. apply (read_write_other _ _ _ _ _ _ Es). rewrite length_store_bytes. destruct f; simpl; lia || done. }
  assert (P' : read_at sa 2 2 = Some (port_bytes (dport + sq))).
  { pose proof (read_write_same _ _ _ _ Es) as R. rewrite length_store_bytes in R. rewrite R. f_equal.
    apply (htons_eq be); [by rewrite length_store_bytes|apply store_bytes_byte|].
    rewrite load_store_bytes. apply wrap_small. unfold htons.
    destruct (port_bytes_two (dport + sq)) as (h & l & E & Hh & Hl & _). unfold port_bytes in E. rewrite E, load_two by done.
    unfold is_byte in *. destruct be; lia. }
  apply post_andthen. unfold lift_t at 1. rewrite Eb. apply post_done.
  apply post_andthen. unfold lift_t. rewrite (set_port_eq be f (sasend s) I2), Hf, Es. apply post_done.
  destruct (sendto sq); [|by left].
  apply post_andthen, post_emit, post_done. rewrite app_nil_l. simpl. split_and!; try done.
  - constructor; [|constructor]. split_and!; try done. rewrite length_take, Lb. unfold datalen, BUFSIZE. lia.
  - unfold datalen in D8. rewrite skipn_firstn_comm in D8. unfold read_at. rewrite Lb, decide_True by (unfold BUFSIZE; lia).
    f_equal. exact D8.
Qed.

Lemma call_recv_ok s : inv s ->
  post only_exit (call_recv pr sport dport s) (fun cs ev =>
    exists r evs, snd cs = St (seq s) (sendbuf s) (sasend s) (salast s) r evs /\
      inv (snd cs) /\ omap sent_of ev = [] /\ omap code_of ev = [(seq s, fst cs)] /\ Forall out_ok ev /\
      (fst cs <> -3 -> typed be f (sarecv r))).
Proof.
  intros [I1 I2 I3 I4 I5 I6 I7 [pre0 I8]]. unfold call_recv.
  pose proof (recv_ok (seq s) (arrivals s) (rst s) I7 I6) as H.
  destruct (p_recv pr sport dport (seq s) (arrivals s) (rst s)) as [[[code r] evs]|e|c| |]; try done;
    [|by left; f_equal|by right].
  destruct H as (Hl & [pre E] & Hc). exists r, evs. split; [done|]. simpl. split_and!; try done.
  - split; try done; simpl.
    + rewrite E, Forall_app in I7. apply I7.
    + exists (pre0 ++ pre). by rewrite <- app_assoc, <- E.
  - constructor; [|constructor]. destruct Hc as [->|[_ (e & d & fr & He & Hd)]]; [by left|right].
    exists e, d, fr. split; [|done]. rewrite I8. apply elem_of_app. by right.
  - intros Hn. destruct Hc as [->|[T _]]; done.
Qed.

Lemma report_ok s : inv s -> typed be f (sarecv (rst s)) ->
  read_at (sendbuf s) 8 16 = Some (store_timeval be (sent_at (seq s))) ->
  exists s' o, report_from be getnameinfo got_at s = Some (s', o) /\ inv s' /\ seq s' = seq s /\
    omap sent_of o = [] /\ omap code_of o = [] /\ Forall out_ok o.
Proof.
  intros I T Hs. pose proof I as [I1 I2 I3 I4 I5 I6 I7 I8]. unfold report_from.
  destruct (cmp_known _ _ T I4) as [c ->]. cbn [mbind option_bind]. rewrite Hs. cbn [mbind option_bind].
  rewrite load_store_timeval by apply Hclock.
  assert (Hr : out_ok (Rtt (UnpPing.rtt_ms (UnpPing.tv_sub (got_at (seq s)) (sent_at (seq s)))))) by (by eexists).
  destruct (negb (c =? 0)); eexists _, _; split; try done; split_and!; try done.
  - split; try done; simpl; [by left|].
    destruct T as [_ Ts _]. destruct f; simpl in *; lia || done.
  - by repeat constructor.
  - by repeat constructor.
Qed.

Lemma probe_ok ttl s : inv s ->
  post only_exit (probe be pr sport dport getnameinfo sent_at got_at sendto ttl s) (fun sb ev =>
    inv (fst sb) /\ seq (fst sb) = seq s + 1 /\ omap sent_of ev = [(ttl, seq s + 1)] /\
    Forall out_ok ev /\ exists code, omap code_of ev = [(seq s + 1, code)] /\ snd sb = (code =? -1)).
Proof.
  intros I. unfold probe. apply post_andthen. eapply post_mono; [by apply send_probe_ok|].
  intros s1 ev1 (I1 & Q1 & S1 & C1 & O1 & R1). cbn beta. apply post_andthen.
  eapply post_mono; [by apply call_recv_ok|]. intros [code s2] ev2 (r & evs & E2 & I2 & S2 & C2 & O2 & T2). cbn beta iota.
  simpl in E2, I2, C2, T2. subst s2.
  assert (HS : forall ev3, omap sent_of ev3 = [] -> omap sent_of (ev1 ++ ev2 ++ ev3) = [(ttl, seq s + 1)]).
  { intros ev3 H3. by rewrite !omap_app, S1, S2, H3. }
  assert (HC : forall ev3, omap code_of ev3 = [] -> omap code_of (ev1 ++ ev2 ++ ev3) = [(seq s + 1, code)]).
  { intros ev3 H3. by rewrite !omap_app, C1, C2, H3, Q1. }
  assert (HO : forall ev3, Forall out_ok ev3 -> Forall out_ok (ev1 ++ ev2 ++ ev3)).
  { intros ev3 H3. by rewrite !Forall_app. }
  destruct (code =? -3) eqn:E3; bprop.
  { apply post_andthen, post_emit, post_done. simpl. split_and!; try done; [by apply HS|by apply HO; repeat constructor|].
    exists code. split; [by apply HC|]. by rewrite E3. }
  destruct (report_ok _ I2 (T2 E3)) as (s3 & o & Er & I3 & Q3 & S3 & C3 & O3); [done|].
  apply post_andthen. unfold lift_t. rewrite Er. apply post_done. apply post_andthen, post_emit.
  cbn [fst snd]. rewrite ?app_nil_l. simpl in Q3. rewrite Q1 in Q3.
  destruct (code =? -1) eqn:E1.
  { apply post_done. rewrite app_nil_r. cbn [fst snd]. split_and!; auto. exists code. by rewrite HC. }
  destruct (0 <=? code).
  - apply post_andthen, post_emit, post_done. cbn [fst snd app].
    split_and!; try done; [apply HS; by rewrite omap_app, S3|apply HO, Forall_app; split; [done|by repeat constructor]|].
    exists code. by rewrite HC by (by rewrite omap_app, C3).
  - apply post_done. rewrite app_nil_r. cbn [fst snd]. split_and!; auto. exists code. by rewrite HC.
Qed.

(** The probes of one hop. *)
Definition sends (ttl sq : Z) (cs : list Z) : list (Z * Z) := imap (fun i _ => (ttl, sq + 1 + Z.of_nat i)) cs.
Definition results (sq : Z) (cs : list Z) : list (Z * Z) := imap (fun i c => (sq + 1 + Z.of_nat i, c)) cs.

Lemma probes_ok k ttl s fin : inv s ->
  post only_exit (probes be pr sport dport getnameinfo sent_at got_at sendto k ttl s fin) (fun sb ev =>
    inv (fst sb) /\ seq (fst sb) = seq s + Z.of_nat k /\ Forall out_ok ev /\
    exists cs, length cs = k /\ omap sent_of ev = sends ttl (seq s) cs /\ omap code_of ev = results (seq s) cs /\
      snd sb = fin || bool_decide (-1 ∈ cs)).
Proof.
  revert s fin. induction k as [|k IH]; intros s fin I; cbn [probes].
  { apply post_done. cbn [fst snd]. split_and!; [done|lia|constructor|]. exists []. split_and!; try done.
    rewrite bool_decide_eq_false_2 by apply not_elem_of_nil. by rewrite orb_false_r. }
  apply post_andthen. eapply post_mono; [by apply probe_ok|].
  intros [s1 b] ev1 (I1 & Q1 & S1 & O1 & code & C1 & Hb). cbn [fst snd] in *. eapply post_mono; [by apply IH|].
  intros [s2 b2] ev2 (I2 & Q2 & O2 & cs & Hl & S2 & C2 & Hb2). cbn [fst snd] in *.
  split_and!; [done|lia|by apply Forall_app|]. exists (code :: cs).
  rewrite !omap_app, S1, S2, C1, C2, Q1. split_and!; [simpl; lia|..].
  - unfold sends. rewrite imap_cons. rewrite Z.add_0_r. cbn [app]. f_equal. apply imap_ext. intros. unfold compose. f_equal. lia.
  - unfold results. rewrite imap_cons. rewrite Z.add_0_r. cbn [app]. f_equal. apply imap_ext. intros. unfold compose. f_equal. lia.
  - rewrite Hb2, Hb. subst b. destruct fin; [done|]. simpl. apply eq_true_iff_eq.
    rewrite orb_true_iff, !bool_decide_eq_true, elem_of_cons, Z.eqb_eq. naive_solver.
Qed.

Definition hop_result (p : Z * Z * Z) : Z * Z := (snd (fst p), snd p).

Lemma hops_ok k ttl s : inv s -> 0 <= nprobes ->
  post only_exit (hops be pr sport dport nprobes getnameinfo sent_at got_at sendto k ttl s) (fun s' ev =>
    Forall out_ok ev /\ exists css, stops k css /\ Forall (fun cs => length cs = Z.to_nat nprobes) css /\
      omap sent_of ev = map fst (schedule ttl (seq s) css) /\ omap code_of ev = map hop_result (schedule ttl (seq s) css)).
Proof.
  intros I Hn. revert ttl s I. induction k as [|k IH]; intros ttl s I; cbn [hops].
  { apply post_done. split; [constructor|]. exists []. split_and!; done || constructor. }
  destruct (255 <? ttl); [by left|]. apply post_andthen, post_emit. apply post_andthen.
  assert (I0 : inv (clear_salast s)).
  { destruct I as [I1 I2 I3 I4 I5 I6 I7 I8]. split; try done; simpl; [by apply cleared_known|by rewrite length_replicate]. }
  eapply post_mono; [by apply probes_ok|]. intros [s1 b] ev1 (I1 & Q1 & O1 & cs & Hl & S1 & C1 & Hb).
  cbn [fst snd] in *. simpl in Q1, S1, C1. simpl in Hb. subst b.
  assert (HC : forall css, map hop_result (schedule ttl (seq s) (cs :: css)) =
    results (seq s) cs ++ map hop_result (schedule (ttl + 1) (seq s + Z.of_nat (length cs)) css)).
  { intros css. cbn [schedule]. rewrite map_app. f_equal. unfold results.
    change (map hop_result) with (fmap (M := list) hop_result). by rewrite fmap_imap. }
  assert (HS : forall css, map fst (schedule ttl (seq s) (cs :: css)) =
    sends ttl (seq s) cs ++ map fst (schedule (ttl + 1) (seq s + Z.of_nat (length cs)) css)).
  { intros css. cbn [schedule]. rewrite map_app. f_equal. unfold sends.
    change (map (@fst (Z * Z) Z)) with (fmap (M := list) (@fst (Z * Z) Z)). by rewrite fmap_imap. }
  destruct (bool_decide (-1 ∈ cs)) eqn:Ed.
  - apply post_done. rewrite app_nil_r. cbn [app]. split; [by constructor|]. exists [cs].
    split_and!; [simpl; by rewrite Ed|by repeat constructor|..].
    + rewrite HS. cbn. by rewrite app_nil_r.
    + rewrite HC. cbn. by rewrite app_nil_r.
  - eapply post_mono; [by apply IH|]. intros s2 ev2 (O2 & css & Hst & Hls & S2 & C2).
    rewrite Q1, <- Hl in S2, C2. split; [constructor; [done|by apply Forall_app]|]. exists (cs :: css).
    split_and!; [simpl; by rewrite Ed|by constructor|..].
    + simpl. rewrite omap_app, S1, S2. symmetry. apply HS.
    + simpl. rewrite omap_app, C1, C2. symmetry. apply HC.
Qed.
End LoopSpec.

(** ** Theorems about the program *)

(** The addresses and buffers as main() leaves them. *)
Definition start (salen : nat) (sa : sockaddr) (evs : list event) : state :=
  St 0 (replicate BUFSIZE 0) sa (replicate salen 0) (RState (replicate BUFSIZE 0) (replicate salen 0)) evs.

Lemma trace_inv_start be f (Hf : is_ip f = true) salen sa evs : typed be f sa -> Forall (wf_event f be) evs -> (2 <= salen)%nat ->
  inv be f evs sa (start salen sa evs).
Proof.
  intros T W Hs. split; try done; simpl; [by apply cleared_known|by rewrite length_replicate|by exists []].
Qed.

Lemma answer_v4_quote sport dport sq d c : answer_v4 sport dport sq d = Some c ->
  exists b, d !! 0%nat = Some b /\
    quoted_ports (drop 8 (drop (ip_hlen b) d)) = Some (port_bytes sport, port_bytes (dport + sq)) /\
    (c = -2 \/ c = -1 \/ c ∈ d).
Proof.
  unfold answer_v4. destruct (d !! 0%nat) as [b|]; [|done]. cbn [mbind option_bind]. intros H. exists b. split; [done|].
  destruct (drop (ip_hlen b) d) as [|ty [|code m]] eqn:Em; try done.
  destruct (_ && _) eqn:E; [|done]. bprop.
  match goal with H : is_quote _ _ _ _ = true |- _ => apply bool_decide_eq_true_1 in H; rename H into Hq end.
  split; [done|]. assert (code ∈ d).
  { rewrite <- (take_drop (ip_hlen b) d), Em, elem_of_app, !elem_of_cons. auto. }
  destruct (_ && _); [by injection H as <-; left|]. destruct (ty =? _); [|done].
  destruct (code =? _); injection H as <-; auto.
Qed.

Lemma answer_v4_own sport dport s1 s2 d c1 c2 :
  answer_v4 sport dport s1 d = Some c1 -> answer_v4 sport dport s2 d = Some c2 -> Z.abs (s1 - s2) < 65536 -> s1 = s2.
Proof.
  intros H1 H2 Hs. apply answer_v4_quote in H1 as (b & E1 & Q1 & _). apply answer_v4_quote in H2 as (b' & E2 & Q2 & _).
  rewrite E1 in E2. injection E2 as <-. rewrite Q1 in Q2. assert (Q : port_bytes (dport + s1) = port_bytes (dport + s2)) by congruence. apply port_bytes_eq in Q.
  unfold wrap in Q. change (2 ^ 16) with 65536 in Q.
  Z.div_mod_to_equations. lia.
Qed.

(** An error message built by a router or the destination is recognised. *)
Lemma answer_v4_error sport dport sq hdr ty code ck inner rest :
  ip_hdr hdr -> ip_hdr inner -> inner !! 9%nat = Some IPPROTO_UDP -> length ck = 6%nat ->
  answer_v4 sport dport sq (icmp_error hdr ty code ck inner sport (dport + sq) rest) =
    if (ty =? ICMP_TIMXCEED) && (code =? ICMP_TIMXCEED_INTRANS) then Some (-2)
    else if ty =? ICMP_UNREACH then Some (if code =? ICMP_UNREACH_PORT then -1 else code)
    else None.
Proof.
  intros (b & t & Eh & Hh & Lh) (b' & t' & Ei & Hi & Li) Hu Hc. unfold answer_v4, icmp_error.
  assert (E0 : (hdr ++ [ty; code] ++ ck ++ inner ++ port_bytes sport ++ port_bytes (dport + sq) ++ rest) !! 0%nat = Some b).
  { by rewrite Eh. }
  rewrite E0. cbn [mbind option_bind]. cbv zeta. rewrite Hh, drop_app_length. cbn [app].
  assert (El : forall v, length (port_bytes v) = 2%nat) by (intros v; apply length_store_bytes).
  assert (Eq : quoted_ports (inner ++ port_bytes sport ++ port_bytes (dport + sq) ++ rest)
               = Some (port_bytes sport, port_bytes (dport + sq))).
  { unfold quoted_ports. assert (E : (inner ++ port_bytes sport ++ port_bytes (dport + sq) ++ rest) !! 0%nat = Some b').
    { by rewrite Ei. }
    rewrite E. cbn [mbind option_bind]. rewrite Hi, !length_app, !El.
    rewrite !bool_decide_eq_true_2 by lia. cbn [andb]. rewrite (lookup_app_l_Some _ _ _ _ Hu). cbn [mbind option_bind].
    rewrite Z.eqb_refl, drop_app_length, <- (El sport), <- (length_app inner), take_app_length.
    rewrite (app_assoc inner), drop_app_length. by rewrite (El sport), <- (El (dport + sq)), take_app_length. }
  assert (E8 : drop 8 (ty :: code :: ck ++ inner ++ port_bytes sport ++ port_bytes (dport + sq) ++ rest)
               = inner ++ port_bytes sport ++ port_bytes (dport + sq) ++ rest).
  { cbn [drop]. by rewrite <- Hc, drop_app_length. }
  rewrite E8, Eq. unfold is_quote. rewrite !bool_decide_eq_true_2; [done|done|].
  cbn [length]. rewrite length_app. lia.
Qed.

(** What a run of traceloop() with the receiver [answer] does. *)
Definition trace_ok (be : bool) (f : family) (dport nprobes max_ttl : Z) (answer : Z -> list Z -> option Z)
    (sent_at got_at : Z -> timeval) (evs : list event) (sa : sockaddr) (ev : list out) : Prop :=
  Forall (out_ok be f dport answer sent_at got_at evs sa) ev /\
  exists css, stops (Z.to_nat max_ttl) css /\ Forall (fun cs => length cs = Z.to_nat nprobes) css /\
    omap sent_of ev = map fst (schedule 1 0 css) /\ omap code_of ev = map hop_result (schedule 1 0 css).

Lemma traceloop_ok be f (Hf : is_ip f = true) sport dport nprobes max_ttl pr answer
    `{!Receiver be f sport dport pr answer} getnameinfo sent_at got_at sendto sa evs salen :
  typed be f sa -> Forall (wf_event f be) evs -> (forall sq, wf_timeval (sent_at sq)) -> 0 <= nprobes -> (2 <= salen)%nat ->
  post only_exit (traceloop be pr sport dport nprobes max_ttl getnameinfo sent_at got_at sendto (start salen sa evs))
    (fun _ ev => trace_ok be f dport nprobes max_ttl answer sent_at got_at evs sa ev).
Proof.
  intros T W Hc Hn Hs. unfold traceloop. eapply post_mono.
  - eapply (hops_ok be f Hf sport dport nprobes pr answer getnameinfo sent_at got_at sendto evs sa Hc); [|done].
    by apply trace_inv_start.
  - intros s' ev H. exact H.
Qed.

(** C25: traceroute over IPv4.  traceloop() sends [nprobes] probes per hop, numbered
    without a gap, each to the port of its number and carrying its number, its time
    to live and the time it was sent; it stops after the first hop at which a probe
    found the destination and else after [max_ttl] hops (a sendto() that fails, and a
    time to live above 255, end the process).  A result other than
    -3 comes from a message that quotes the UDP datagram of that very probe (a late
    answer to another probe is never taken for it), whatever the buffer holds behind
    the message; and the message that a router or the destination sends about a probe,
    with any options in both IP headers, is recognised with the right result. *)
Theorem traceroute_v4 be pid dport nprobes max_ttl getnameinfo sent_at got_at sendto sa evs :
  typed be AF_INET sa -> Forall (wf_event AF_INET be) evs -> (forall sq, wf_timeval (sent_at sq)) ->
  0 <= nprobes -> max_ttl * nprobes < 65536 ->
  let sport := sport_of pid in
  post only_exit (traceloop be (proto_v4 be) sport dport nprobes max_ttl getnameinfo sent_at got_at sendto (start 16 sa evs))
    (fun _ ev => trace_ok be AF_INET dport nprobes max_ttl (answer_v4 sport dport) sent_at got_at evs sa ev) /\
  (forall d s1 s2 c1 c2, 1 <= s1 <= max_ttl * nprobes -> 1 <= s2 <= max_ttl * nprobes ->
     answer_v4 sport dport s1 d = Some c1 -> answer_v4 sport dport s2 d = Some c2 -> s1 = s2) /\
  (forall sq hdr ty code ck inner rest,
     ip_hdr hdr -> ip_hdr inner -> inner !! 9%nat = Some IPPROTO_UDP -> length ck = 6%nat ->
     answer_v4 sport dport sq (icmp_error hdr ty code ck inner sport (dport + sq) rest) =
       if (ty =? ICMP_TIMXCEED) && (code =? ICMP_TIMXCEED_INTRANS) then Some (-2)
       else if ty =? ICMP_UNREACH then Some (if code =? ICMP_UNREACH_PORT then -1 else code)
       else None).
Proof.
  intros T W Hc Hn Hm sport. split_and!.
  - by apply traceloop_ok; try apply receiver_v4; [..|lia].
  - intros d s1 s2 c1 c2 H1 H2 A1 A2. eapply answer_v4_own; [exact A1|exact A2|lia].
  - intros. by apply answer_v4_error.
Qed.

(** A run against one router and the destination, little-endian host. *)
Definition ex_dst : sockaddr := [2;0; 0;0; 192;0;2;7] ++ replicate 8 0.
Definition ex_ip (proto : Z) : list Z := [0x45;0;0;0; 0;0;0;0; 64;proto;0;0; 10;0;0;1; 192;0;2;7].
Definition ex_evs (sport : Z) : list event :=
  [ Event false (Data (icmp_error (ex_ip 1) 11 0 (replicate 6 0) (ex_ip 17) sport (33434 + 1) [0;0;0;0]) ex_dst);
    Event false (Data (icmp_error (ex_ip 1) 11 0 (replicate 6 0) (ex_ip 17) sport (33434 + 1) [0;0;0;0]) ex_dst);
    Event true (Interrupted false);
    Event false (Data (icmp_error (ex_ip 1) 3 3 (replicate 6 0) (ex_ip 17) sport (33434 + 3) [0;0;0;0]) ex_dst) ].
Definition ex_run (be : bool) :=
  traceloop be (proto_v4 be) (sport_of 4711) 33434 1 30 (fun _ => None) (fun _ => TV 5 0) (fun _ => TV 5 1500) (fun _ => true)
    (start 16 ex_dst (ex_evs (sport_of 4711))).

Lemma ex_dst_typed : typed false AF_INET ex_dst.
Proof. split; [reflexivity|simpl; lia|unfold is_byte; repeat constructor; lia]. Qed.

Lemma ex_evs_wf sport : Forall (wf_event AF_INET false) (ex_evs sport).
Proof.
  pose proof ex_dst_typed as T.
  assert (Hb : forall ty code p q, is_byte ty -> is_byte code ->
    Forall is_byte (icmp_error (ex_ip 1) ty code (replicate 6 0) (ex_ip 17) p q [0;0;0;0])).
  { intros ty code p q Ht Hc. unfold icmp_error. rewrite !Forall_app, !Forall_cons.
    assert (Forall is_byte (port_bytes p)) by apply store_bytes_byte.
    assert (Forall is_byte (port_bytes q)) by apply store_bytes_byte.
    unfold is_byte in *. split_and!; try done; repeat constructor; lia. }
  unfold ex_evs. rewrite !Forall_cons. unfold wf_event. cbn [arr].
  split_and!; try done; apply Hb; unfold is_byte; lia.
Qed.

Lemma traceroute_v4_witness :
  post only_exit (ex_run false) (fun _ ev =>
    trace_ok false AF_INET 33434 1 30 (answer_v4 (sport_of 4711) 33434) (fun _ => TV 5 0) (fun _ => TV 5 1500)
      (ex_evs (sport_of 4711)) ex_dst ev /\ omap code_of ev = [(1, -2); (2, -3); (3, -1)]).
Proof.
  assert (Hc : forall sq : Z, wf_timeval ((fun _ => TV 5 0) sq)) by (intros sq; unfold wf_timeval; simpl; lia).
  pose proof (proj1 (traceroute_v4 false 4711 33434 1 30 (fun _ => None) (fun _ => TV 5 0) (fun _ => TV 5 1500) (fun _ => true) ex_dst
    (ex_evs (sport_of 4711)) ex_dst_typed (ex_evs_wf _) Hc ltac:(lia) ltac:(lia))) as K.
  assert (C : post only_exit (ex_run false) (fun _ ev => omap code_of ev = [(1, -2); (2, -3); (3, -1)])).
  { vm_compute. reflexivity. }
  unfold post, ex_run in *. destruct (traceloop _ _ _ _ _ _ _ _ _ _ _) as [[s ev]|?|?| |]; try exact K. exact (conj K C).
Defined.

(** An ICMPv6 error message; [hdr6] is the quoted IPv6 header. *)
Definition icmp6_error (ty code : Z) (ck hdr6 : list Z) (sport dport : Z) (rest : list Z) : list Z :=
  [ty; code] ++ ck ++ hdr6 ++ port_bytes sport ++ port_bytes dport ++ rest.

Lemma icmp6_quote sport dport sq ty code ck hdr6 sport' dport' rest :
  length ck = 6%nat -> length hdr6 = 40%nat ->
  (52 <= length (icmp6_error ty code ck hdr6 sport' dport' rest))%nat /\
  is_quote sport dport sq (quoted_ports6 (icmp6_error ty code ck hdr6 sport' dport' rest)) =
    bool_decide (hdr6 !! 6%nat = Some IPPROTO_UDP /\ u16 sport' = u16 sport /\ u16 dport' = u16 (dport + sq)).
Proof.
  intros Hc Hh. assert (El : forall v, length (port_bytes v) = 2%nat) by (intros v; apply length_store_bytes).
  unfold quoted_ports6, icmp6_error. set (d := _ ++ _ ++ _ ++ _ ++ _ ++ rest).
  assert (Hl : (52 <= length d)%nat) by (unfold d; rewrite !length_app, !El, Hc, Hh; simpl; lia). split; [done|].
  rewrite !bool_decide_eq_true_2 by done.
  assert (H14 : d !! 14%nat = hdr6 !! 6%nat).
  { unfold d. rewrite lookup_app_r, lookup_app_r, lookup_app_l by (simpl; rewrite ?Hc, ?Hh; lia). by rewrite Hc. }
  rewrite H14. destruct (lookup_lt_is_Some_2 hdr6 6) as [p Ep]; [lia|]. rewrite Ep. cbn [mbind option_bind].
  assert (E48 : drop 48 d = port_bytes sport' ++ port_bytes dport' ++ rest).
  { unfold d. rewrite !app_assoc, <- (app_assoc _ _ rest), <- (app_assoc _ _ (port_bytes dport' ++ rest)).
    rewrite drop_app_length'; [done|]. rewrite !length_app, Hc, Hh. done. }
  assert (E50 : drop 50 d = port_bytes dport' ++ rest).
  { change 50%nat with (48 + 2)%nat. rewrite <- drop_drop, E48. by rewrite drop_app_length' by (by rewrite El). }
  rewrite E48, E50, !take_app_length' by (by rewrite El). unfold is_quote.
  destruct (p =? IPPROTO_UDP) eqn:E; bprop; apply bool_decide_ext.
  - rewrite <- !port_bytes_eq. split; [intros H; split_and!; congruence|by intros (_ & -> & ->)].
  - split; [done|]. intros ([= ->] & _). done.
Qed.

Lemma exceeded_foreign sport dport sq ck hdr6 sport' dport' rest :
  length ck = 6%nat -> length hdr6 = 40%nat ->
  foreign6 sport dport sq (icmp6_error ICMP6_TIME_EXCEEDED ICMP6_TIME_EXCEED_TRANSIT ck hdr6 sport' dport' rest) =
    negb (bool_decide (hdr6 !! 6%nat = Some IPPROTO_UDP /\ u16 sport' = u16 sport /\ u16 dport' = u16 (dport + sq))).
Proof.
  intros Hc Hh. destruct (icmp6_quote sport dport sq ICMP6_TIME_EXCEEDED ICMP6_TIME_EXCEED_TRANSIT ck hdr6 sport' dport' rest Hc Hh) as [Hl Hq].
  unfold foreign6. rewrite Hq, bool_decide_eq_true_2 by done. done.
Qed.

Lemma answer_v6_own sport dport s1 s2 d c1 c2 :
  answer_v6 sport dport s1 d = Some c1 -> answer_v6 sport dport s2 d = Some c2 -> Z.abs (s1 - s2) < 65536 -> s1 = s2.
Proof.
  unfold answer_v6. destruct (is_quote _ _ s1 _) eqn:Q1; [|done]. destruct (is_quote _ _ s2 _) eqn:Q2; [|done]. intros _ _ Hs.
  apply bool_decide_eq_true_1 in Q1, Q2. rewrite Q1 in Q2. assert (Q : port_bytes (dport + s1) = port_bytes (dport + s2)) by congruence.
  apply port_bytes_eq in Q. unfold wrap in Q. change (2 ^ 16) with 65536 in Q. Z.div_mod_to_equations. lia.
Qed.

(** One wait of recv_v6() that consumes no foreign message. *)
Lemma recv_v6_await be sport dport uninit sq pre code sa rest r :
  Forall (wf_event AF_INET6 be) (pre ++ rest) -> length (recvbuf r) = BUFSIZE ->
  await (answer_v6 sport dport sq) false (pre ++ rest) (sarecv r) = Ret (code, sa, rest) ->
  (forall e d from, Event e (Data d from) ∈ pre -> foreign6 sport dport sq (take BUFSIZE d) = false) ->
  exists buf, recv_v6 be sport dport uninit sq (pre ++ rest) r = Ret (code, RState buf sa, rest).
Proof.
  intros W Hl Ha Hf. pose proof (await_agree (answer_v6 sport dport sq) (taken_v6 sport dport uninit sq) (pre ++ rest) false (sarecv r)) as A.
  rewrite Ha in A. destruct A as (pre' & E & A). apply app_inv_tail in E as <-.
  assert (Hex : forall buf d, length buf = BUFSIZE -> (length d <= length buf)%nat -> Forall is_byte d ->
    examine_v6 be sport dport (uninit sq) (received buf d) (length d) sq = Some (taken_v6 sport dport uninit sq d)).
  { intros. by apply examine_v6_spec. }
  pose proof (recv_loop_spec be (fun buf n => examine_v6 be sport dport (uninit sq) buf n sq) (taken_v6 sport dport uninit sq) AF_INET6 false (pre ++ rest) r Hex W Hl) as R.
  rewrite A in R; [|intros e d from He; unfold taken_v6; by rewrite (Hf e d from He)].
  destruct R as (buf & _ & R). by exists buf.
Qed.

(** C26: traceroute over IPv6.  The probes are sent and the trace stops as over IPv4.
    A result other than -3 is that of a message that quotes the UDP datagram of that very
    probe, or it is the uninitialised [ret], after a Time Exceeded message that quotes
    something else than the probe waited for (what another traceroute on the host
    provokes, or a late answer to an earlier probe), which ends the wait at once.  A
    wait that meets no such message does what the reference does, as over IPv4; and the
    messages that a router or the destination sends about a probe are recognised with
    the right result and are not of that kind. *)
Theorem traceroute_v6 be pid uninit dport nprobes max_ttl getnameinfo sent_at got_at sendto sa evs :
  typed be AF_INET6 sa -> Forall (wf_event AF_INET6 be) evs -> (forall sq, wf_timeval (sent_at sq)) ->
  0 <= nprobes -> max_ttl * nprobes < 65536 ->
  let sport := sport_of pid in
  post only_exit (traceloop be (proto_v6 be uninit) sport dport nprobes max_ttl getnameinfo sent_at got_at sendto (start 28 sa evs))
    (fun _ ev =>
      trace_ok be AF_INET6 dport nprobes max_ttl (taken_v6 sport dport uninit) sent_at got_at evs sa ev /\
      forall sq code, Received sq code ∈ ev ->
        code = -3 \/ from_arrivals (answer_v6 sport dport sq) evs code \/
        (code = uninit sq /\ exists e d from, Event e (Data d from) ∈ evs /\ foreign6 sport dport sq (take BUFSIZE d) = true)) /\
  (forall sq pre code sa' rest r, Forall (wf_event AF_INET6 be) (pre ++ rest) -> length (recvbuf r) = BUFSIZE ->
     await (answer_v6 sport dport sq) false (pre ++ rest) (sarecv r) = Ret (code, sa', rest) ->
     (forall e d from, Event e (Data d from) ∈ pre -> foreign6 sport dport sq (take BUFSIZE d) = false) ->
     exists buf, recv_v6 be sport dport uninit sq (pre ++ rest) r = Ret (code, RState buf sa', rest)) /\
  (forall sq d from more r, Forall is_byte d -> (length d <= BUFSIZE)%nat -> length (recvbuf r) = BUFSIZE ->
     foreign6 sport dport sq d = true ->
     exists r', recv_v6 be sport dport uninit sq (Event false (Data d from) :: more) r = Ret (uninit sq, r', more)) /\
  (forall d s1 s2 c1 c2, 1 <= s1 <= max_ttl * nprobes -> 1 <= s2 <= max_ttl * nprobes ->
     answer_v6 sport dport s1 d = Some c1 -> answer_v6 sport dport s2 d = Some c2 -> s1 = s2) /\
  (forall sq ty code ck hdr6 rest, length ck = 6%nat -> length hdr6 = 40%nat -> hdr6 !! 6%nat = Some IPPROTO_UDP ->
     let d := icmp6_error ty code ck hdr6 sport (dport + sq) rest in
     foreign6 sport dport sq d = false /\
     answer_v6 sport dport sq d =
       if (ty =? ICMP6_TIME_EXCEEDED) && (code =? ICMP6_TIME_EXCEED_TRANSIT) then Some (-2)
       else if ty =? ICMP6_DST_UNREACH then Some (if code =? ICMP6_DST_UNREACH_NOPORT then -1 else code)
       else None) /\
  (forall sq ck hdr6 sport' dport' rest, length ck = 6%nat -> length hdr6 = 40%nat ->
     foreign6 sport dport sq (icmp6_error ICMP6_TIME_EXCEEDED ICMP6_TIME_EXCEED_TRANSIT ck hdr6 sport' dport' rest) =
       negb (bool_decide (hdr6 !! 6%nat = Some IPPROTO_UDP /\ u16 sport' = u16 sport /\ u16 dport' = u16 (dport + sq)))).
Proof.
  intros T W Hc Hn Hm sport. split; [|split; [|split; [|split; [|split]]]].
  - eapply post_mono; [apply traceloop_ok; try apply receiver_v6; done || lia|].
    intros s0 ev H. split; [exact H|]. intros sq code Hin. destruct H as [Ho _].
    pose proof (proj1 (Forall_forall _ _) Ho _ Hin) as O. cbn in O. destruct O as [->|([e a] & d & from & He & Ha & Hd)]; [by left|right].
    cbn in Ha. subst a. unfold taken_v6 in Hd. destruct (foreign6 sport dport sq (take BUFSIZE d)) eqn:F.
    + right. injection Hd as <-. split; [done|]. by exists e, d, from.
    + left. by exists (Event e (Data d from)), d, from.
  - intros. by apply recv_v6_await.
  - intros sq d from more [buf sa'] Hb Hl Hr Hf. simpl in Hr. unfold recv_v6, recv. simpl.
    rewrite Nat.min_l by lia. rewrite examine_v6_spec, Hf by (done || lia). eauto.
  - intros d s1 s2 c1 c2 H1 H2 A1 A2. eapply answer_v6_own; [exact A1|exact A2|lia].
  - intros sq ty code ck hdr6 rest Hck Hh Hu d.
    destruct (icmp6_quote sport dport sq ty code ck hdr6 sport (dport + sq) rest Hck Hh) as [Hl Hq].
    rewrite bool_decide_eq_true_2 in Hq by done. unfold foreign6, answer_v6, d. by rewrite Hq, andb_false_r.
  - intros. by apply exceeded_foreign.
Qed.

(** A trace through a router to the destination, and the same with another process's
    Time Exceeded message first and a [ret] that happens to be -1: it ends at the first
    hop. *)
Definition ex_dst6 : sockaddr := [10;0; 0;0; 0;0;0;0] ++ replicate 15 0 ++ [1] ++ replicate 4 0.
Definition ex_hdr6 : list Z := replicate 6 0 ++ [17] ++ replicate 33 0.
Definition ex_error6 (ty code sport port : Z) : event :=
  Event false (Data (icmp6_error ty code (replicate 6 0) ex_hdr6 sport port []) ex_dst6).
Definition ex_foreign : event := ex_error6 3 0 50000 33435.
Definition ex_evs6 : list event :=
  [ex_error6 3 0 (sport_of 4711) (33434 + 1); ex_error6 1 4 (sport_of 4711) (33434 + 2)].
Definition ex_run6 (evs : list event) :=
  traceloop false (proto_v6 false (fun _ => -1)) (sport_of 4711) 33434 1 30 (fun _ => None) (fun _ => TV 5 0)
    (fun _ => TV 5 1500) (fun _ => true) (start 28 ex_dst6 evs).

Lemma ex_dst6_typed : typed false AF_INET6 ex_dst6.
Proof. split; [reflexivity|simpl; lia|unfold is_byte; repeat constructor; lia]. Qed.

Lemma ex_evs6_wf : Forall (wf_event AF_INET6 false) ex_evs6.
Proof.
  pose proof ex_dst6_typed as T. unfold ex_evs6. rewrite !Forall_cons. unfold wf_event. cbn [arr ex_error6].
  split_and!; try done; apply (bool_decide_unpack _); vm_compute; exact I.
Qed.

Lemma traceroute_v6_witness :
  post only_exit (ex_run6 ex_evs6) (fun _ ev =>
    (forall sq code, Received sq code ∈ ev ->
       code = -3 \/ from_arrivals (answer_v6 (sport_of 4711) 33434 sq) ex_evs6 code \/
       (code = -1 /\ exists e d from, Event e (Data d from) ∈ ex_evs6 /\ foreign6 (sport_of 4711) 33434 sq (take BUFSIZE d) = true)) /\
    omap code_of ev = [(1, -2); (2, -1)]) /\
  match ex_run6 (ex_foreign :: ex_evs6) with Ret (_, ev) => omap code_of ev = [(1, -1)] | _ => False end.
Proof.
  split; [|vm_compute; reflexivity].
  assert (Hc : forall sq : Z, wf_timeval ((fun _ => TV 5 0) sq)) by (intros sq; unfold wf_timeval; simpl; lia).
  pose proof (proj1 (traceroute_v6 false 4711 (fun _ => -1) 33434 1 30 (fun _ => None) (fun _ => TV 5 0) (fun _ => TV 5 1500)
    (fun _ => true) ex_dst6 ex_evs6 ex_dst6_typed ex_evs6_wf Hc ltac:(lia) ltac:(lia))) as K.
  assert (C : post only_exit (ex_run6 ex_evs6) (fun _ ev => omap code_of ev = [(1, -2); (2, -1)])) by (vm_compute; reflexivity).
  unfold post, ex_run6 in *. destruct (traceloop _ _ _ _ _ _ _ _ _ _ _) as [[s ev]|?|?| |]; try exact K. exact (conj (proj2 K) C).
Defined.
