(* ===== verification/Icmpd.v ===== *)
(** * The ICMP daemon

    Model of src/UNPLearning/unpv13e/icmpd: icmpd.c, readable_listen.c,
    readable_conn.c, readable_v4.c, readable_v6.c and the client's dg_cli() of
    dgcli01.c, with lib/read_fd.c.  A round of the daemon's loop is a function of its
    tables and of what the kernel answers.  The packet buffers of readable_v4() and
    readable_v6() are local: what lies behind the message is what was on the stack,
    a parameter. *)

From S2P Require Import Prelude CString InetAddr SockAddr Icmp Traced SelectServer.

Definition MAXLINE : nat := 4096.
Definition EHOSTUNREACH : Z := 113.
Definition ECONNREFUSED : Z := 111.
Definition EMSGSIZE_ : Z := 90.

(** ** read_fd *)

Definition SOL_SOCKET : Z := 1.
Definition SCM_RIGHTS : Z := 1.
Definition CMSG_LEN_INT : Z := 20.

Record cmsg := Cmsg { cmsg_len : Z; cmsg_level : Z; cmsg_type : Z; cmsg_data : Z }.

(** recvmsg(): an error, or the number of bytes and the first control message. *)
Inductive recvmsg_result := MError (e : errno) | MGot (n : Z) (c : option cmsg).

(** The result and the new value of [*recvfd], which keeps [old] at the end of file.
    [Fail]: recvmsg() failed. *)
Definition read_fd (r : recvmsg_result) (old : Z) : outcome (Z * Z) :=
  match r with
  | MError e => Fail e
  | MGot n c =>
      if n <=? 0 then Ret (n, old) else
      match c with
      | Some c =>
          if cmsg_len c =? CMSG_LEN_INT then
            if negb (cmsg_level c =? SOL_SOCKET) then Exit 1
            else if negb (cmsg_type c =? SCM_RIGHTS) then Exit 1
            else Ret (n, cmsg_data c)
          else Ret (n, -1)
      | None => Ret (n, -1)
      end
  end.

(** What write_fd() passes; the receiving kernel replaces the descriptor. *)
Definition write_fd (sendfd : Z) : cmsg := Cmsg CMSG_LEN_INT SOL_SOCKET SCM_RIGHTS sendfd.

(** ** The daemon *)

Record icmpd_err := IcmpdErr {
  icmpd_errno : Z; icmpd_type : Z; icmpd_code : Z; icmpd_len : Z; icmpd_dest : sockaddr }.

Record client := Client { connfd : Z; family_ : family; lport : Z }.

Record state := St { clients : list client; allset : gset Z; maxi : Z; maxfd : Z; nready : Z }.

(** What the daemon does that others see. *)
Inductive event :=
| Accepted (fd : Z)
| Passed (fd : Z)                      (* a descriptor received from a client *)
| Closed (fd : Z)
| Answered (fd : Z) (ok : bool)
| ToClient (fd : Z) (err : icmpd_err).

Record answers := Answers {
  a_select : gset Z + errno;
  a_accept : Z + errno;
  a_recvmsg : Z -> recvmsg_result;
  a_getsockname : Z -> option sockaddr;
  a_bind : Z -> sockaddr -> bool;
  a_boundname : Z -> option sockaddr;   (* getsockname() after the bind() *)
  a_recv4 : list Z + errno;
  a_recv6 : list Z + errno;
  a_write : Z -> bool }.

Definition lift_e {A} (o : option A) : traced event A :=
  match o with Some a => done_with a | None => Abort end.
Definition quit {A} : traced event A := Exit 1.

Definition set_nready (s : state) (n : Z) : state := St (clients s) (allset s) (maxi s) (maxfd s) n.
Definition set_client (s : state) (i : nat) (c : client) : state :=
  St (<[i := c]> (clients s)) (allset s) (maxi s) (maxfd s) (nready s).

Section Daemon.
Context (be : bool) (SETSIZE : nat) (fd4 fd6 listenfd : Z).
Context (stack4 stack6 : list Z).
Open Scope traced_scope.

Definition init : state :=
  St (replicate SETSIZE (Client (-1) AF_UNSPEC 0)) ({[fd4]} ∪ {[fd6]} ∪ {[listenfd]}) (-1) (Z.max (Z.max fd4 fd6) listenfd) 0.

(** [return(--nready)] *)
Definition return_nready (s : state) : traced event (Z * state) :=
  done_with (nready s - 1, set_nready s (nready s - 1)).

Definition readable_listen (a : answers) (s : state) : traced event (Z * state) :=
  match a_accept a with
  | inr _ => quit
  | inl fd =>
      emit [Accepted fd];;
      match index_of (fun c => c <? 0) (map connfd (clients s)) with
      | None => emit [Closed fd];; return_nready s
      | Some i =>
          c ⇐ lift_e (clients s !! i);
          all ⇐ lift_e (FD_SET fd (allset s));
          return_nready (St (<[i := Client fd (family_ c) (lport c)]> (clients s)) all
            (if Z.of_nat i >? maxi s then Z.of_nat i else maxi s)
            (if fd >? maxfd s then fd else maxfd s) (nready s))
      end
  end.

(** The labels clienterr and clientdone. *)
Definition clientdone (s : state) (i : nat) (unixfd recvfd : Z) : traced event (Z * state) :=
  emit (Closed unixfd :: (if 0 <=? recvfd then [Closed recvfd] else []));;
  c ⇐ lift_e (clients s !! i);
  return_nready (St (<[i := Client (-1) (family_ c) (lport c)]> (clients s)) (allset s ∖ {[unixfd]}) (maxi s) (maxfd s) (nready s)).

Definition clienterr (a : answers) (s : state) (i : nat) (unixfd recvfd : Z) : traced event (Z * state) :=
  if negb (a_write a unixfd) then quit else
  emit [Answered unixfd false];; clientdone s i unixfd recvfd.

(** Lines 34 to 40: the port, or the ephemeral port that is bound now, and whether
    there is one. *)
Definition client_port (a : answers) (recvfd : Z) (ss : sockaddr) : traced event (family * Z * bool) :=
  f ⇐ lift_e (sa_family be ss);
  p ⇐ lift_e (sock_get_port be ss);
  if p =? 0 then
    p' ⇐ lift_e (sock_bind_wild be (a_bind a recvfd) (a_boundname a recvfd) f);
    done_with (f, p', negb (p' <=? 0))
  else done_with (f, p, true).

Definition readable_conn (a : answers) (i : nat) (s : state) : traced event (Z * state) :=
  c ⇐ lift_e (clients s !! i);
  let unixfd := connfd c in
  match read_fd (a_recvmsg a unixfd) (-1) with
  | Fail _ => quit
  | Exit code => Exit code | Abort => Abort | Blocked => Blocked
  | Ret (n, recvfd) =>
      emit (if 0 <=? recvfd then [Passed recvfd] else []);;
      if n =? 0 then clientdone s i unixfd recvfd
      else if recvfd <? 0 then clienterr a s i unixfd recvfd
      else
        match a_getsockname a recvfd with
        | None => clienterr a s i unixfd recvfd
        | Some ss =>
            fp ⇐ client_port a recvfd ss;
            let '(f, p, has_port) := fp in
            let s := set_client s i (Client unixfd f p) in
            if negb has_port then clienterr a s i unixfd recvfd
            else if negb (a_write a unixfd) then quit
            else emit [Answered unixfd true; Closed recvfd];; return_nready s
        end
  end.

(** The loop over the clients, lines 56 to 85 of readable_v4.c and 59 to 87 of
    readable_v6.c: [cl] holds the clients with indices up to [maxi]. *)
Fixpoint deliver (a : answers) (f : family) (sport : Z) (err : icmpd_err) (cl : list client) : traced event unit :=
  match cl with
  | [] => done_with tt
  | c :: cl' =>
      if (0 <=? connfd c) && bool_decide (family_ c = f) && (lport c =? sport) then
        if negb (a_write a (connfd c)) then quit
        else emit [ToClient (connfd c) err];; deliver a f sport err cl'
      else deliver a f sport err cl'
  end.

Definition in_use (s : state) : list client := take (Z.to_nat (maxi s + 1)) (clients s).

Definition errno_v4 (ty code : Z) : Z :=
  if ty =? ICMP_UNREACH then
    if code =? ICMP_UNREACH_PORT then ECONNREFUSED
    else if code =? ICMP_UNREACH_NEEDFRAG then EMSGSIZE_ else EHOSTUNREACH
  else EHOSTUNREACH.

Definition is_error_v4 (ty : Z) : bool :=
  (ty =? ICMP_UNREACH) || (ty =? ICMP_TIMXCEED) || (ty =? ICMP_SOURCEQUENCH).

(** The quoted datagram, lines 45 to 76 of readable_v4.c: [Some (sport, dest)] when
    it is UDP. *)
Definition quoted_v4 (buf : list Z) (hlen1 : nat) : option (option (Z * sockaddr)) :=
  b ← aload buf (hlen1 + 8);
  let hlen2 := ip_hlen b in
  p ← aload buf (hlen1 + 8 + 9);
  if p =? IPPROTO_UDP then
    sport ← load16 be buf (hlen1 + 8 + hlen2);
    dst ← read_at buf (hlen1 + 8 + 16) 4;
    dport ← read_at buf (hlen1 + 8 + hlen2 + 2) 2;
    Some (Some (sport, store_bytes be 2 (family_num AF_INET) ++ dport ++ dst ++ replicate 8 0))
  else Some None.

Definition readable_v4 (a : answers) (s : state) : traced event (Z * state) :=
  match a_recv4 a with
  | inr _ => quit
  | inl d =>
      let buf := received stack4 d in
      let n := Z.of_nat (Nat.min (length d) (length stack4)) in
      b0 ⇐ lift_e (aload buf 0);
      let hlen1 := ip_hlen b0 in
      let icmplen := n - Z.of_nat hlen1 in
      if icmplen <? 8 then quit else
      ty ⇐ lift_e (aload buf hlen1);
      code ⇐ lift_e (aload buf (hlen1 + 1));
      if is_error_v4 ty then
        if icmplen <? 8 + 20 + 8 then quit else
        q ⇐ lift_e (quoted_v4 buf hlen1);
        match q with
        | Some (sport, dest) =>
            deliver a AF_INET sport (IcmpdErr (errno_v4 ty code) (swrap 8 ty) (swrap 8 code) 16 dest) (in_use s);;
            return_nready s
        | None => return_nready s
        end
      else return_nready s
  end.

Definition errno_v6 (ty code : Z) : Z :=
  if ty =? ICMP6_PACKET_TOO_BIG then EMSGSIZE_
  else if (ty =? ICMP6_DST_UNREACH) && (code =? ICMP6_DST_UNREACH_NOPORT) then ECONNREFUSED
  else EHOSTUNREACH.

Definition is_error_v6 (ty : Z) : bool :=
  (ty =? ICMP6_DST_UNREACH) || (ty =? ICMP6_PACKET_TOO_BIG) || (ty =? ICMP6_TIME_EXCEEDED).

Definition quoted_v6 (buf : list Z) : option (option (Z * sockaddr)) :=
  p ← aload buf (8 + 6);
  if p =? IPPROTO_UDP then
    sport ← load16 be buf (8 + SIZE_IP6);
    dst ← read_at buf (8 + 24) 16;
    dport ← read_at buf (8 + SIZE_IP6 + 2) 2;
    Some (Some (sport, store_bytes be 2 (family_num AF_INET6) ++ dport ++ replicate 4 0 ++ dst ++ replicate 4 0))
  else Some None.

Definition readable_v6 (a : answers) (s : state) : traced event (Z * state) :=
  match a_recv6 a with
  | inr _ => quit
  | inl d =>
      let buf := received stack6 d in
      let icmp6len := Z.of_nat (Nat.min (length d) (length stack6)) in
      if icmp6len <? 8 then quit else
      ty ⇐ lift_e (aload buf 0);
      code ⇐ lift_e (aload buf 1);
      if is_error_v6 ty then
        if icmp6len <? 8 + 8 then quit else
        q ⇐ lift_e (quoted_v6 buf);
        match q with
        | Some (sport, dest) =>
            deliver a AF_INET6 sport (IcmpdErr (errno_v6 ty code) (swrap 8 ty) (swrap 8 code) 28 dest) (in_use s);;
            return_nready s
        | None => return_nready s
        end
      else return_nready s
  end.

(** ** A round of main() *)

Definition when_ready (rset : gset Z) (fd : Z) (handler : state -> traced event (Z * state)) (s : state)
  (k : state -> traced event state) : traced event state :=
  if bool_decide (fd ∈ rset) then
    rs ⇐ handler s;
    if fst rs <=? 0 then done_with (snd rs) else k (snd rs)
  else k s.

(** The loop over the clients: [js] holds the indices left. *)
Fixpoint check_clients (a : answers) (rset : gset Z) (js : list nat) (s : state) : traced event state :=
  match js with
  | [] => done_with s
  | i :: js' =>
      c ⇐ lift_e (clients s !! i);
      if (connfd c <? 0) then check_clients a rset js' s
      else if bool_decide (connfd c ∈ rset) then
        rs ⇐ readable_conn a i s;
        if fst rs <=? 0 then done_with (snd rs) else check_clients a rset js' (snd rs)
      else check_clients a rset js' s
  end.

Definition round (a : answers) (s : state) : traced event state :=
  match a_select a with
  | inr _ => quit
  | inl rset =>
      let s := set_nready s (Z.of_nat (size rset)) in
      when_ready rset listenfd (readable_listen a) s (fun s =>
      when_ready rset fd4 (readable_v4 a) s (fun s =>
      when_ready rset fd6 (readable_v6 a) s (fun s =>
      check_clients a rset (seq 0 (Z.to_nat (maxi s + 1))) s)))
  end.

Fixpoint rounds (l : list answers) (s : state) : traced event state :=
  match l with
  | [] => done_with s
  | a :: l' => s ⇐ round a s; rounds l' s
  end.
End Daemon.

(** ** The tables *)

Definition delta (fd : Z) (e : event) : Z :=
  match e with
  | Accepted fd' | Passed fd' => b2z (fd' =? fd)
  | Closed fd' => - b2z (fd' =? fd)
  | _ => 0
  end.

(** How often [fd] was opened minus how often it was closed. *)
Definition balance (fd : Z) (ev : list event) : Z := sumz (delta fd) ev.
Definition held (fd : Z) (cl : list client) : Z := cnt (fun c => connfd c =? fd) cl.

Definition only_quit (x : stop) : Prop := x = Exited 1.

Section Tables.
Context (be : bool) (SETSIZE : nat) (fd4 fd6 listenfd : Z) (stack4 stack6 : list Z).
Context (H4 : length stack4 = MAXLINE) (H6 : length stack6 = MAXLINE).
Implicit Types (s : state) (a : answers).

Definition base_fds : gset Z := {[fd4]} ∪ {[fd6]} ∪ {[listenfd]}.

Record wf s : Prop := Wf {
  w_len : length (clients s) = SETSIZE;
  w_fd : forall i c, clients s !! i = Some c -> connfd c = -1 \/ 0 <= connfd c;
  w_one : forall fd, 0 <= fd -> held fd (clients s) + b2z (bool_decide (fd ∈ base_fds)) = b2z (bool_decide (fd ∈ allset s));
  w_maxi : -1 <= maxi s < Z.of_nat SETSIZE;
  w_used : forall i c, clients s !! i = Some c -> 0 <= connfd c -> Z.of_nat i <= maxi s;
  w_maxfd : forall fd, fd ∈ allset s -> fd <= maxfd s }.

(** What is documented of the kernel's answers, whatever the state. *)
Definition names_ok a : Prop :=
  (forall fd ss, a_getsockname a fd = Some ss -> exists f, typed be f ss) /\
  (forall fd ss, a_boundname a fd = Some ss -> (4 <= length ss)%nat).

Definition kernel_ok s a : Prop :=
  names_ok a /\
  forall fd, a_accept a = inl fd -> 0 <= fd < FD_SETSIZE /\ fd ∉ allset s.

(** A handler keeps the tables and accounts for every descriptor. *)
Definition step_ok s (s' : state) (ev : list event) : Prop :=
  wf s' /\ maxi s' >= maxi s /\ forall fd, 0 <= fd -> held fd (clients s') = held fd (clients s) + balance fd ev.

Lemma balance_app fd ev1 ev2 : balance fd (ev1 ++ ev2) = balance fd ev1 + balance fd ev2.
Proof. apply sumz_app. Qed.
Lemma balance_cons fd e ev : balance fd (e :: ev) = delta fd e + balance fd ev.
Proof. done. Qed.

Lemma step_ok_refl s : wf s -> step_ok s s [].
Proof. intros W. split_and!; [done|lia|]. intros fd _. change (balance fd []) with 0. lia. Qed.

Lemma step_ok_trans s s1 s2 ev1 ev2 : step_ok s s1 ev1 -> step_ok s1 s2 ev2 -> step_ok s s2 (ev1 ++ ev2).
Proof.
  intros (_ & M1 & B1) (W & M2 & B2). split_and!; [done|lia|]. intros fd Hfd. rewrite balance_app, B2, B1 by done. lia.
Qed.

Lemma wf_nready s n : wf s -> wf (set_nready s n).
Proof. intros [? ? ? ? ? ?]. by split. Qed.

(** A client that stays in its slot with its descriptor. *)
Lemma wf_same s i c c' : wf s -> clients s !! i = Some c -> connfd c' = connfd c ->
  wf (set_client s i c') /\ forall fd, held fd (<[i := c']> (clients s)) = held fd (clients s).
Proof.
  clear stack4 stack6 H4 H6. intros [W1 W2 W3 W4 W5 W6] Hi Hc.
  assert (HB : forall fd, held fd (<[i := c']> (clients s)) = held fd (clients s)).
  { intros fd. unfold held. rewrite (cnt_insert _ _ _ _ _ Hi). rewrite Hc. lia. }
  split; [|done]. split; simpl; try done.
  - by rewrite length_insert.
  - intros j d Hj. destruct (decide (j = i)) as [->|Hne].
    + rewrite list_lookup_insert_eq in Hj by (by eapply lookup_lt_Some). injection Hj as <-. rewrite Hc. eauto.
    + rewrite list_lookup_insert_ne in Hj by done. eauto.
  - intros fd Hfd. by rewrite HB, W3.
  - intros j d Hj Hd. destruct (decide (j = i)) as [->|Hne].
    + rewrite list_lookup_insert_eq in Hj by (by eapply lookup_lt_Some). injection Hj as <-. rewrite Hc in Hd. eauto.
    + rewrite list_lookup_insert_ne in Hj by done. eauto.
Qed.

Lemma held_lookup s i c : wf s -> clients s !! i = Some c -> 0 <= connfd c ->
  connfd c ∈ allset s /\ (connfd c ∉ base_fds) /\ held (connfd c) (clients s) = 1.
Proof.
  intros W Hi Hc. pose proof (w_one s W (connfd c) Hc) as H.
  assert (0 < held (connfd c) (clients s)) by (eapply cnt_lookup; [exact Hi|by apply Z.eqb_eq]).
  pose proof (b2z_range (bool_decide (connfd c ∈ base_fds))).
  destruct (bool_decide (connfd c ∈ allset s)) eqn:E; simpl in H; [|lia]. bprop.
  destruct (bool_decide (connfd c ∈ base_fds)) eqn:E2; simpl in H; [lia|]. bprop. split_and!; [done|done|lia].
Qed.

(** The slot of a client that is done is freed. *)
Lemma clientdone_ok s i c recvfd : wf s -> clients s !! i = Some c -> 0 <= connfd c ->
  post only_quit (clientdone s i (connfd c) recvfd) (fun rs ev =>
    wf (snd rs) /\ maxi (snd rs) = maxi s /\
    forall fd, 0 <= fd -> held fd (clients (snd rs)) = held fd (clients s) + balance fd ev + b2z (recvfd =? fd)).
Proof.
  intros W Hi Hc. destruct (held_lookup s i c W Hi Hc) as (Ha & Hb & H1). unfold clientdone.
  apply post_andthen, post_emit. apply post_andthen. unfold lift_e. rewrite Hi. apply post_done.
  apply post_done. cbn [fst snd]. rewrite !app_nil_r.
  assert (HB : forall fd, held fd (<[i := Client (-1) (family_ c) (lport c)]> (clients s)) =
    held fd (clients s) - b2z (connfd c =? fd) + b2z (-1 =? fd)).
  { intros fd. unfold held. by rewrite (cnt_insert _ _ _ _ _ Hi). }
  destruct W as [W1 W2 W3 W4 W5 W6]. split_and!; [split; simpl|done|].
  - by rewrite length_insert.
  - intros j d Hj. destruct (decide (j = i)) as [->|Hne].
    + rewrite list_lookup_insert_eq in Hj by (by eapply lookup_lt_Some). injection Hj as <-. by left.
    + rewrite list_lookup_insert_ne in Hj by done. eauto.
  - intros fd Hfd. rewrite HB, (proj2 (Z.eqb_neq (-1) fd)) by lia. specialize (W3 fd Hfd). simpl.
    destruct (connfd c =? fd) eqn:E; bprop; simpl.
    + subst fd. rewrite (bool_decide_eq_false_2 (connfd c ∈ allset s ∖ _)) by set_solver.
      rewrite (bool_decide_eq_false_2 (_ ∈ base_fds)) by done. simpl. lia.
    + replace (bool_decide (fd ∈ allset s ∖ {[connfd c]})) with (bool_decide (fd ∈ allset s)); [lia|].
      apply bool_decide_ext. set_solver.
  - done.
  - intros j d Hj Hd. destruct (decide (j = i)) as [->|Hne].
    + rewrite list_lookup_insert_eq in Hj by (by eapply lookup_lt_Some). injection Hj as <-. simpl in Hd. lia.
    + rewrite list_lookup_insert_ne in Hj by done. eauto.
  - intros fd Hfd. apply W6. set_solver.
  - intros fd Hfd. rewrite HB, (proj2 (Z.eqb_neq (-1) fd)) by lia. rewrite balance_cons. simpl.
    destruct (0 <=? recvfd) eqn:E; bprop; unfold balance, sumz; simpl; [lia|].
    rewrite (proj2 (Z.eqb_neq recvfd fd)) by lia. simpl. lia.
Qed.

Lemma clienterr_ok a s i c recvfd : wf s -> clients s !! i = Some c -> 0 <= connfd c ->
  post only_quit (clienterr a s i (connfd c) recvfd) (fun rs ev =>
    wf (snd rs) /\ maxi (snd rs) = maxi s /\
    forall fd, 0 <= fd -> held fd (clients (snd rs)) = held fd (clients s) + balance fd ev + b2z (recvfd =? fd)).
Proof.
  intros W Hi Hc. unfold clienterr. destruct (negb (a_write a (connfd c))); [done|].
  apply post_andthen, post_emit. eapply post_mono; [by eapply clientdone_ok|].
  intros [r s'] ev (W' & M & B). cbn [snd] in *. split_and!; [done|done|]. intros fd Hfd. rewrite B by done.
  cbn [app]. rewrite balance_cons. simpl. lia.
Qed.

Lemma client_port_ok a fd ss f : typed be f ss -> names_ok a ->
  post only_quit (client_port be a fd ss) (fun fp ev => ev = [] /\ fst (fst fp) = f).
Proof.
  intros T [_ Hb]. unfold client_port. unfold lift_e at 1. rewrite (t_family _ _ _ T). rewrite andthen_done_l.
  assert (Hp : exists p, sock_get_port be ss = Some p).
  { rewrite (get_port_eq be f) by done. destruct (is_ip f) eqn:E; [by apply (ip_port be f)|eauto]. }
  destruct Hp as [p Hp]. unfold lift_e at 1. rewrite Hp, andthen_done_l. destruct (p =? 0); [|by apply post_done].
  assert (Hw : exists p', sock_bind_wild be (a_bind a fd) (a_boundname a fd) f = Some p').
  { assert (Hbp : forall sa, exists p', bind_port be (a_bind a fd) (a_boundname a fd) sa = Some p').
    { intros sa. unfold bind_port. destruct (a_bind a fd sa); [|eauto].
      destruct (a_boundname a fd) as [sa'|] eqn:Eb; [|eauto]. apply Hb in Eb. unfold sin_port.
      destruct (read_at_some sa' 2 2) as (bs & -> & _); [lia|]. eauto. }
    destruct f; simpl; eauto. }
  destruct Hw as [p' ->]. unfold lift_e. rewrite andthen_done_l. by apply post_done.
Qed.

Lemma balance_passed fd recvfd : balance fd (if 0 <=? recvfd then [Passed recvfd] else []) = if 0 <=? recvfd then b2z (recvfd =? fd) else 0.
Proof. destruct (0 <=? recvfd); unfold balance, sumz; simpl; lia. Qed.

Lemma passed_or fd recvfd : 0 <= fd -> (if 0 <=? recvfd then b2z (recvfd =? fd) else 0) = b2z (recvfd =? fd).
Proof. intros H. destruct (0 <=? recvfd) eqn:E; [done|]. bprop. by rewrite (proj2 (Z.eqb_neq _ _)) by lia. Qed.

(** A message of a client: its descriptor is closed again, whatever happens. *)
Lemma readable_conn_ok a i s c : wf s -> names_ok a -> clients s !! i = Some c -> 0 <= connfd c ->
  post only_quit (readable_conn be a i s) (fun rs ev => step_ok s (snd rs) ev).
Proof.
  intros W Hn Hi Hc. unfold readable_conn. apply post_andthen. unfold lift_e at 1. rewrite Hi. apply post_done. cbv zeta.
  assert (Hr : match read_fd (a_recvmsg a (connfd c)) (-1) with Ret _ | Fail _ => True | Exit x => x = 1 | _ => False end).
  { destruct (a_recvmsg a (connfd c)) as [e|m [cm|]]; simpl; [done|by bsplit..]. }
  destruct (read_fd _ _) as [[n recvfd]|e|x| |]; try done; [|by subst x]. clear Hr. cbn beta.
  apply post_andthen, post_emit.
  assert (Hfin : forall s1, wf s1 -> maxi s1 = maxi s -> (forall fd, held fd (clients s1) = held fd (clients s)) ->
    forall o : traced event (Z * state),
    post only_quit o (fun rs ev => wf (snd rs) /\ maxi (snd rs) = maxi s1 /\
      forall fd, 0 <= fd -> held fd (clients (snd rs)) = held fd (clients s1) + balance fd ev + b2z (recvfd =? fd)) ->
    post only_quit o (fun rs ev => step_ok s (snd rs) ([] ++ (if 0 <=? recvfd then [Passed recvfd] else []) ++ ev))).
  { intros s1 W1 M1 B1 o Ho. eapply post_mono; [exact Ho|]. intros [r s'] ev (W' & M & B). cbn [snd app] in *.
    split_and!; [done|lia|]. intros fd Hfd. rewrite B, B1, balance_app, balance_passed, passed_or by done. lia. }
  destruct (n =? 0); [apply (Hfin s W); [done..|by apply clientdone_ok]|].
  destruct (recvfd <? 0) eqn:E0; [apply (Hfin s W); [done..|by apply clienterr_ok]|]. bprop.
  destruct (a_getsockname a recvfd) as [ss|] eqn:Es; [|apply (Hfin s W); [done..|by apply clienterr_ok]].
  destruct (proj1 Hn recvfd ss Es) as [f T]. apply post_andthen. eapply post_mono; [by apply client_port_ok|].
  intros [[f' p] has] ev [-> Ef]. simpl in Ef. subst f'. cbn beta iota.
  destruct (wf_same s i c (Client (connfd c) f p) W Hi eq_refl) as [W1 B1].
  assert (Hi1 : clients (set_client s i (Client (connfd c) f p)) !! i = Some (Client (connfd c) f p)).
  { simpl. apply list_lookup_insert_eq. by eapply lookup_lt_Some. }
  destruct (negb has); [apply (Hfin _ W1); [done..|by apply (clienterr_ok a _ i (Client (connfd c) f p))]|].
  destruct (negb (a_write a (connfd c))); [done|].
  apply (Hfin _ W1); [done|done|]. apply post_andthen, post_emit, post_done. cbn [snd app].
  split_and!; [by apply wf_nready|done|]. intros fd Hfd. simpl. rewrite !balance_cons. simpl.
  change (balance fd []) with 0. lia.
Qed.

(** A new connection. *)
Lemma readable_listen_ok a s : wf s -> kernel_ok s a ->
  post only_quit (readable_listen a s) (fun rs ev => step_ok s (snd rs) ev).
Proof.
  intros W [_ Hk]. unfold readable_listen. destruct (a_accept a) as [fd|]; [|done].
  destruct (Hk fd eq_refl) as [Hr Hf]. apply post_andthen, post_emit.
  destruct (index_of _ _) as [i|] eqn:Ei.
  2:{ apply post_andthen, post_emit, post_done. cbn [snd app]. split_and!; [by apply wf_nready|simpl; lia|].
      intros fd' _. rewrite !balance_cons. simpl. change (balance fd' []) with 0. lia. }
  destruct (index_of_Some _ _ _ Ei) as (l1 & c0 & l2 & El & Hl & Hc0). bprop.
  destruct (map_eq_app _ _ _ _ El) as (cl1 & cl2' & Ecl & E1 & E2).
  destruct cl2' as [|c cl2]; [done|]. simpl in E2. injection E2 as Ec E2.
  assert (Hi : clients s !! i = Some c).
  { rewrite Ecl, lookup_app_r by (rewrite <- Hl, <- E1, length_map; lia).
    rewrite <- Hl, <- E1, length_map, Nat.sub_diag. done. }
  apply post_andthen. unfold lift_e at 1. rewrite Hi. apply post_done.
  apply post_andthen. unfold lift_e. rewrite FD_SET_ok by done. apply post_done. cbn [app]. apply post_done. cbn [snd].
  assert (Hcm : connfd c = -1) by (destruct (w_fd s W i c Hi); lia).
  assert (HB : forall fd', 0 <= fd' -> held fd' (<[i := Client fd (family_ c) (lport c)]> (clients s)) =
    held fd' (clients s) + b2z (fd =? fd')).
  { intros fd' Hfd'. unfold held. rewrite (cnt_insert _ _ _ _ _ Hi). simpl.
    rewrite (proj2 (Z.eqb_neq (connfd c) fd')) by lia. simpl. lia. }
  pose proof (lookup_lt_Some _ _ _ Hi) as Hlt.
  destruct W as [W1 W2 W3 W4 W5 W6]. split_and!; [split; simpl|simpl|].
  - by rewrite length_insert.
  - intros j d Hj. destruct (decide (j = i)) as [->|Hne].
    + rewrite list_lookup_insert_eq in Hj by done. injection Hj as <-. right. simpl. lia.
    + rewrite list_lookup_insert_ne in Hj by done. eauto.
  - intros fd' Hfd'. rewrite HB by done. specialize (W3 fd' Hfd').
    destruct (fd =? fd') eqn:E; bprop; simpl.
    + subst fd'. rewrite (bool_decide_eq_true_2 (fd ∈ {[fd]} ∪ allset s)) by set_solver.
      rewrite (bool_decide_eq_false_2 (fd ∈ allset s)) in W3 by done. simpl in *. lia.
    + replace (bool_decide (fd' ∈ {[fd]} ∪ allset s)) with (bool_decide (fd' ∈ allset s)); [lia|].
      apply bool_decide_ext. set_solver.
  - case_match; bprop; lia.
  - intros j d Hj Hd. destruct (decide (j = i)) as [->|Hne].
    + case_match; bprop; lia.
    + rewrite list_lookup_insert_ne in Hj by done. specialize (W5 j d Hj Hd). case_match; bprop; lia.
  - intros fd' [->%elem_of_singleton|Hin]%elem_of_union; [case_match; bprop; lia|].
    specialize (W6 fd' Hin). case_match; bprop; lia.
  - case_match; bprop; lia.
  - intros fd' Hfd'. simpl. rewrite HB, balance_cons by done. simpl. change (balance fd' []) with 0. lia.
Qed.

Lemma deliver_ok a f sport err cl :
  post only_quit (deliver a f sport err cl) (fun _ ev => forall fd, balance fd ev = 0).
Proof.
  induction cl as [|c cl IH]; simpl; [by apply post_done|].
  destruct (_ && _); [|exact IH]. destruct (negb _); [done|]. apply post_andthen, post_emit.
  eapply post_mono; [exact IH|]. intros [] ev H fd. cbn [app]. rewrite balance_cons, H. simpl. lia.
Qed.

Lemma load16_some buf off : (off + 2 <= length buf)%nat -> exists v, load16 be buf off = Some v.
Proof. intros H. unfold load16. destruct (read_at_some buf off 2 H) as (bs & -> & _). by eexists. Qed.

Lemma aload_some (buf : list Z) i : (i < length buf)%nat -> exists v, aload buf i = Some v.
Proof. intros H. by apply lookup_lt_is_Some_2. Qed.

(** The reads of the quoted datagram stay inside the buffer (not inside the message). *)
Lemma quoted_v4_some buf h : length buf = MAXLINE -> (h <= 60)%nat -> exists q, quoted_v4 be buf h = Some q.
Proof.
  intros Hl Hh. unfold quoted_v4, MAXLINE in *. destruct (aload_some buf (h + 8)) as [b ->]; [lia|].
  cbn [mbind option_bind]. pose proof (ip_hlen_range b).
  destruct (aload_some buf (h + 8 + 9)) as [p ->]; [lia|]. cbn [mbind option_bind].
  destruct (p =? IPPROTO_UDP); [|eauto].
  destruct (load16_some buf (h + 8 + ip_hlen b)) as [sp ->]; [lia|].
  destruct (read_at_some buf (h + 8 + 16) 4) as (dst & -> & _); [lia|].
  destruct (read_at_some buf (h + 8 + ip_hlen b + 2) 2) as (dp & -> & _); [lia|]. cbn [mbind option_bind]. eauto.
Qed.

Lemma quoted_v6_some buf : length buf = MAXLINE -> exists q, quoted_v6 be buf = Some q.
Proof.
  intros Hl. unfold quoted_v6, MAXLINE, SIZE_IP6 in *. destruct (aload_some buf (8 + 6)) as [p ->]; [lia|].
  cbn [mbind option_bind]. destruct (p =? IPPROTO_UDP); [|eauto].
  destruct (load16_some buf (8 + 40)) as [sp ->]; [lia|].
  destruct (read_at_some buf (8 + 24) 16) as (dst & -> & _); [lia|].
  destruct (read_at_some buf (8 + 40 + 2) 2) as (dp & -> & _); [lia|]. cbn [mbind option_bind]. eauto.
Qed.

Lemma nready_step_ok s : wf s -> post only_quit (return_nready s) (fun rs ev => step_ok s (snd rs) ev).
Proof.
  intros W. apply post_done. split_and!; [by apply wf_nready|simpl; lia|].
  intros fd _. simpl. change (balance fd []) with 0. lia.
Qed.

Lemma deliver_step_ok a f sport err cl s : wf s ->
  post only_quit (deliver a f sport err cl ;; return_nready s)%traced (fun rs ev => step_ok s (snd rs) ev).
Proof.
  intros W. apply post_andthen. eapply post_mono; [apply deliver_ok|]. intros [] ev H.
  eapply post_mono; [by apply nready_step_ok|]. intros [r s'] ev' (W' & M & B). cbn [snd] in *.
  split_and!; [done|done|]. intros fd Hfd. rewrite balance_app, H, B by done. lia.
Qed.

Lemma readable_v4_ok a s : wf s -> post only_quit (readable_v4 be stack4 a s) (fun rs ev => step_ok s (snd rs) ev).
Proof.
  intros W. unfold readable_v4. destruct (a_recv4 a) as [d|]; [|done]. cbv zeta.
  pose proof (length_received stack4 d) as Hl. rewrite H4 in Hl. set (buf := received stack4 d) in *.
  destruct (aload_some buf 0) as [b0 E0]; [rewrite Hl; unfold MAXLINE; lia|]. rewrite E0. unfold lift_e at 1. rewrite andthen_done_l.
  pose proof (ip_hlen_range b0). destruct (_ <? 8); [done|].
  destruct (aload_some buf (ip_hlen b0)) as [ty ->]; [rewrite Hl; unfold MAXLINE; lia|].
  destruct (aload_some buf (ip_hlen b0 + 1)) as [code ->]; [rewrite Hl; unfold MAXLINE; lia|].
  unfold lift_e at 1 2. rewrite !andthen_done_l. destruct (is_error_v4 ty); [|by apply nready_step_ok].
  destruct (_ <? _); [done|]. destruct (quoted_v4_some buf (ip_hlen b0)) as [q ->]; [done|lia|].
  unfold lift_e. rewrite andthen_done_l. destruct q as [[sport dest]|]; [by apply deliver_step_ok|by apply nready_step_ok].
Qed.

Lemma readable_v6_ok a s : wf s -> post only_quit (readable_v6 be stack6 a s) (fun rs ev => step_ok s (snd rs) ev).
Proof.
  intros W. unfold readable_v6. destruct (a_recv6 a) as [d|]; [|done]. cbv zeta.
  pose proof (length_received stack6 d) as Hl. rewrite H6 in Hl. set (buf := received stack6 d) in *.
  destruct (_ <? 8); [done|].
  destruct (aload_some buf 0) as [ty ->]; [rewrite Hl; unfold MAXLINE; lia|].
  destruct (aload_some buf 1) as [code ->]; [rewrite Hl; unfold MAXLINE; lia|].
  unfold lift_e at 1 2. rewrite !andthen_done_l. destruct (is_error_v6 ty); [|by apply nready_step_ok].
  destruct (_ <? _); [done|]. destruct (quoted_v6_some buf) as [q ->]; [done|].
  unfold lift_e. rewrite andthen_done_l. destruct q as [[sport dest]|]; [by apply deliver_step_ok|by apply nready_step_ok].
Qed.

Lemma check_clients_ok a rset js s : wf s -> names_ok a -> Forall (fun i => (i < SETSIZE)%nat) js ->
  post only_quit (check_clients be a rset js s) (fun s' ev => step_ok s s' ev).
Proof.
  intros W Hn Hj. revert s W. induction Hj as [|i js Hi _ IH]; intros s W; simpl; [by apply post_done, step_ok_refl|].
  destruct (lookup_lt_is_Some_2 (clients s) i) as [c Ec]; [by rewrite (w_len s W)|].
  unfold lift_e. rewrite Ec, andthen_done_l. destruct (connfd c <? 0) eqn:E0; [by apply IH|]. bprop.
  case_bool_decide; [|by apply IH]. apply post_andthen. eapply post_mono; [by eapply readable_conn_ok|].
  intros [r s1] ev1 H1. cbn [fst snd] in *. destruct (r <=? 0); [apply post_done; by rewrite app_nil_r|].
  eapply post_mono; [apply IH, H1|]. intros s2 ev2 H2. by eapply step_ok_trans.
Qed.

Lemma when_ready_ok rset fd handler s k :
  (bool_decide (fd ∈ rset) = true -> post only_quit (handler s) (fun rs ev => step_ok s (snd rs) ev)) -> wf s ->
  (forall s1, wf s1 -> post only_quit (k s1) (fun s' ev => step_ok s1 s' ev)) ->
  post only_quit (when_ready rset fd handler s k) (fun s' ev => step_ok s s' ev).
Proof.
  intros Hh W Hk. unfold when_ready. destruct (bool_decide (fd ∈ rset)) eqn:E; [|by apply Hk]. apply post_andthen.
  eapply post_mono; [by apply Hh|]. intros [r s1] ev1 H1. cbn [fst snd] in *.
  destruct (r <=? 0); [apply post_done; by rewrite app_nil_r|].
  eapply post_mono; [apply Hk, H1|]. intros s2 ev2 H2. by eapply step_ok_trans.
Qed.

Lemma round_ok a s : wf s -> kernel_ok s a ->
  post only_quit (round be fd4 fd6 listenfd stack4 stack6 a s) (fun s' ev => step_ok s s' ev).
Proof.
  intros W Hk. unfold round. destruct (a_select a) as [rset|]; [|done]. cbv zeta.
  set (s0 := set_nready s (Z.of_nat (size rset))).
  assert (W0 : wf s0) by by apply wf_nready.
  assert (K0 : kernel_ok s0 a) by exact Hk.
  change (post only_quit (when_ready rset listenfd (readable_listen a) s0 (fun s1 =>
    when_ready rset fd4 (readable_v4 be stack4 a) s1 (fun s2 =>
    when_ready rset fd6 (readable_v6 be stack6 a) s2 (fun s3 =>
    check_clients be a rset (seq 0 (Z.to_nat (maxi s3 + 1))) s3)))) (fun s' ev => step_ok s0 s' ev)).
  apply when_ready_ok; [intros _; by apply readable_listen_ok|done|]. intros s1 W1.
  apply when_ready_ok; [intros _; by apply readable_v4_ok|done|]. intros s2 W2.
  apply when_ready_ok; [intros _; by apply readable_v6_ok|done|]. intros s3 W3.
  apply check_clients_ok; [done|by destruct Hk|]. apply Forall_forall. intros i Hi%elem_of_seq.
  pose proof (w_maxi s3 W3). lia.
Qed.

(** The kernel keeps to its documentation along a run. *)
Fixpoint run_ok s (l : list answers) : Prop :=
  match l with
  | [] => True
  | a :: l' => kernel_ok s a /\
      forall s' ev, round be fd4 fd6 listenfd stack4 stack6 a s = Ret (s', ev) -> run_ok s' l'
  end.

Lemma rounds_ok l s : wf s -> run_ok s l ->
  post only_quit (rounds be fd4 fd6 listenfd stack4 stack6 l s) (fun s' ev => step_ok s s' ev).
Proof.
  revert s. induction l as [|a l IH]; intros s W Hr; simpl; [by apply post_done, step_ok_refl|].
  destruct Hr as [Hk Hr]. apply post_andthen. eapply post_mono; [apply post_eq; by apply round_ok|].
  intros s1 ev1 [E R]. eapply post_mono; [apply IH; [apply R|by eapply Hr]|].
  intros s2 ev2 H2. by eapply step_ok_trans.
Qed.

Lemma wf_init : 0 <= fd4 -> 0 <= fd6 -> 0 <= listenfd -> wf (init SETSIZE fd4 fd6 listenfd).
Proof.
  clear stack4 stack6 H4 H6. intros P4 P6 Pl. split; simpl.
  - by rewrite length_replicate.
  - intros i c [-> _]%lookup_replicate. by left.
  - intros fd Hfd. assert (Hz : held fd (replicate SETSIZE (Client (-1) AF_UNSPEC 0)) = 0).
    { unfold held. induction SETSIZE as [|n IH]; [done|]. cbn [replicate]. rewrite cnt_cons, IH. cbn [connfd].
      rewrite (proj2 (Z.eqb_neq (-1) fd)) by lia. done. }
    rewrite Hz. done.
  - lia.
  - intros i c [-> _]%lookup_replicate. simpl. lia.
  - intros fd. set_solver by lia.
Qed.
End Tables.

(** The daemon keeps its tables consistent along every run: the watched
    descriptors are exactly the two raw sockets, the listening socket and the
    connections in the table, each once; no connection in use is beyond [maxi]
    and no watched descriptor beyond [maxfd]; no access is outside a table or a
    buffer.  A descriptor is closed as often as it was accepted from a connection or
    received from a client, except for the connections that are in the table, on
    every path through the handlers, refused connections and failed registrations
    included. *)
Theorem icmpd_table be SETSIZE fd4 fd6 listenfd stack4 stack6 l :
  0 <= fd4 -> 0 <= fd6 -> 0 <= listenfd -> length stack4 = MAXLINE -> length stack6 = MAXLINE ->
  run_ok be fd4 fd6 listenfd stack4 stack6 (init SETSIZE fd4 fd6 listenfd) l ->
  post only_quit (rounds be fd4 fd6 listenfd stack4 stack6 l (init SETSIZE fd4 fd6 listenfd)) (fun s ev =>
    wf SETSIZE fd4 fd6 listenfd s /\ forall fd, 0 <= fd -> balance fd ev = held fd (clients s)).
Proof.
  intros P4 P6 Pl L4 L6 Hr. eapply post_mono; [exact (rounds_ok be SETSIZE fd4 fd6 listenfd stack4 stack6 L4 L6 l _ (wf_init SETSIZE fd4 fd6 listenfd P4 P6 Pl) Hr)|].
  intros s ev (W & _ & B). split; [done|]. intros fd Hfd. rewrite B by done.
  assert (Hz : held fd (replicate SETSIZE (Client (-1) AF_UNSPEC 0)) = 0).
  { clear Hr W B. induction SETSIZE as [|n IH]; [done|]. unfold held in *. cbn [replicate]. rewrite cnt_cons, IH. cbn [connfd].
    by rewrite (proj2 (Z.eqb_neq (-1) fd)) by lia. }
  simpl. rewrite Hz. lia.
Qed.

(** ** What clients are told *)

Definition registered (f : family) (port : Z) (c : client) : bool :=
  (0 <=? connfd c) && bool_decide (family_ c = f) && (lport c =? port).

Definition tells (f : family) (port : Z) (err : icmpd_err) (cl : list client) : list event :=
  map (fun c => ToClient (connfd c) err) (List.filter (registered f port) cl).

Lemma deliver_tells a f port err cl : (forall fd, a_write a fd = true) ->
  deliver a f port err cl = Ret (tt, tells f port err cl).
Proof.
  intros Hw. unfold tells. induction cl as [|c cl IH]; [done|]. simpl.
  change ((0 <=? connfd c) && bool_decide (family_ c = f) && (lport c =? port)) with (registered f port c).
  destruct (registered f port c); [|exact IH]. rewrite Hw, IH. done.
Qed.

Lemma filter_no {A} (p : A -> bool) l : Forall (fun x => p x = false) l -> List.filter p l = [].
Proof. induction 1 as [|x l Hx _ IH]; [done|]. simpl. by rewrite Hx. Qed.

(** Nobody behind [maxi] is registered. *)
Lemma tells_in_use SETSIZE fd4 fd6 lfd s f port err : wf SETSIZE fd4 fd6 lfd s ->
  tells f port err (in_use s) = tells f port err (clients s).
Proof.
  intros W. unfold tells, in_use. rewrite <- (take_drop (Z.to_nat (maxi s + 1)) (clients s)) at 2.
  rewrite List.filter_app.
  replace (List.filter (registered f port) (drop (Z.to_nat (maxi s + 1)) (clients s))) with (@nil client); [by rewrite app_nil_r|].
  symmetry. apply filter_no, Forall_lookup. intros j c Hj.
  rewrite lookup_drop in Hj. unfold registered. destruct (0 <=? connfd c) eqn:E; [|done]. bprop.
  pose proof (w_used _ _ _ _ _ W _ _ Hj E). lia.
Qed.

(** The sockaddr_in that readable_v4() builds. *)
Definition inet_dest (be : bool) (dport : list Z) (dst : list Z) : sockaddr :=
  store_bytes be 2 (family_num AF_INET) ++ dport ++ dst ++ replicate 8 0.

Section Delivery.
Context (be : bool) (SETSIZE : nat) (fd4 fd6 listenfd : Z) (stack4 : list Z) (H4 : length stack4 = MAXLINE).
Context (s : state) (W : wf SETSIZE fd4 fd6 listenfd s) (a : answers) (Hw : forall fd, a_write a fd = true).

(** The quoted datagram of an error message, read where the program reads it. *)
Lemma quoted_v4_error hdr ty code ck inner sport dport rest :
  ip_hdr hdr -> ip_hdr inner -> inner !! 9%nat = Some IPPROTO_UDP -> length ck = 6%nat ->
  let d := icmp_error hdr ty code ck inner sport dport rest in
  (length d <= MAXLINE)%nat ->
  quoted_v4 be (received stack4 d) (length hdr) =
    Some (Some (htons be sport, inet_dest be (port_bytes dport) (take 4 (drop 16 inner)))).
Proof.
  intros Hh Hi Hu Hc d Hd. destruct Hh as (b & t & Eh & _ & _). destruct Hi as (b' & t' & Ei & Hl & Li). unfold SIZE_IP in Li.
  assert (El : forall v, length (port_bytes v) = 2%nat) by (intros v; apply length_store_bytes).
  assert (Ld : length d = (length hdr + 8 + length inner + 4 + length rest)%nat).
  { unfold d, icmp_error. rewrite !length_app, Hc, !El. simpl. lia. }
  assert (Ed : d = (hdr ++ [ty; code] ++ ck) ++ inner ++ port_bytes sport ++ port_bytes dport ++ rest).
  { unfold d, icmp_error. by rewrite <- !app_assoc. }
  assert (Lp : length (hdr ++ [ty; code] ++ ck) = (length hdr + 8)%nat) by (rewrite !length_app, Hc; done).
  assert (Hlk : forall i, (i < length inner)%nat -> d !! (length hdr + 8 + i)%nat = inner !! i).
  { intros i Hlt. rewrite Ed, lookup_app_r by lia. rewrite Lp, lookup_app_l by lia. f_equal. lia. }
  unfold quoted_v4. rewrite (aload_received stack4 d (length hdr + 8)) by lia.
  rewrite <- (Nat.add_0_r (length hdr + 8)) at 1. rewrite (Hlk 0%nat) by lia. rewrite Ei at 1. cbn [lookup list_lookup mbind option_bind].
  rewrite Hl, (aload_received stack4 d), (Hlk 9%nat), Hu by lia. cbn [mbind option_bind].
  change (IPPROTO_UDP =? IPPROTO_UDP) with true. cbn iota. unfold load16. rewrite !(read_received stack4 d) by lia.
  rewrite (read_at_eq d (hdr ++ [ty; code] ++ ck ++ inner) (port_bytes sport) (port_bytes dport ++ rest) (length hdr + 8 + length inner) 2);
    [|rewrite Ed; by rewrite <- !app_assoc|rewrite !length_app, Hc; simpl; lia|apply El].
  rewrite (read_at_eq d (hdr ++ [ty; code] ++ ck ++ inner ++ port_bytes sport) (port_bytes dport) rest (length hdr + 8 + length inner + 2) 2);
    [|rewrite Ed; by rewrite <- !app_assoc|rewrite !length_app, Hc, El; simpl; lia|apply El].
  assert (E16 : read_at d (length hdr + 8 + 16) 4 = Some (take 4 (drop 16 inner))).
  { unfold read_at. rewrite decide_True by lia. f_equal. rewrite Ed, drop_app_ge by lia. rewrite Lp.
    replace (length hdr + 8 + 16 - (length hdr + 8))%nat with 16%nat by lia.
    rewrite drop_app_le by lia. rewrite take_app_le by (rewrite length_drop; lia). done. }
  rewrite E16. done.
Qed.

(** An error message about a UDP datagram is passed to those who registered its
    source port, and to nobody else. *)
Lemma readable_v4_delivers hdr ty code ck inner sport dport rest :
  ip_hdr hdr -> ip_hdr inner -> inner !! 9%nat = Some IPPROTO_UDP -> length ck = 6%nat -> (4 <= length rest)%nat ->
  is_error_v4 ty = true ->
  let d := icmp_error hdr ty code ck inner sport dport rest in
  (length d <= MAXLINE)%nat -> a_recv4 a = inl d ->
  readable_v4 be stack4 a s =
    Ret ((nready s - 1, set_nready s (nready s - 1)),
         tells AF_INET (htons be sport)
           (IcmpdErr (errno_v4 ty code) (swrap 8 ty) (swrap 8 code) 16 (inet_dest be (port_bytes dport) (take 4 (drop 16 inner))))
           (clients s)).
Proof.
  intros Hh Hi Hu Hc Hr Ht d Hd Ha. pose proof (quoted_v4_error hdr ty code ck inner sport dport rest Hh Hi Hu Hc Hd) as Hq.
  fold d in Hq. pose proof Hh as (b & t & Eh & Hl & Lh). pose proof Hi as (_ & _ & _ & _ & Li). unfold SIZE_IP in *.
  assert (El : forall v, length (port_bytes v) = 2%nat) by (intros v; apply length_store_bytes).
  assert (Ld : length d = (length hdr + 8 + length inner + 4 + length rest)%nat).
  { unfold d, icmp_error. rewrite !length_app, Hc, !El. simpl. lia. }
  unfold readable_v4. rewrite Ha. cbv zeta. rewrite !(aload_received stack4 d) by lia.
  assert (E0 : d !! 0%nat = Some b) by (unfold d, icmp_error; by rewrite Eh).
  rewrite E0. unfold lift_e at 1. rewrite andthen_done_l, Hl.
  rewrite Nat.min_l, (proj2 (Z.ltb_ge _ 8)) by lia. rewrite !(aload_received stack4 d) by lia.
  assert (E1 : d !! length hdr = Some ty) by (unfold d, icmp_error; cbn [app]; by rewrite list_lookup_middle).
  assert (E2 : d !! (length hdr + 1)%nat = Some code).
  { unfold d, icmp_error. rewrite lookup_app_r by lia. by replace (length hdr + 1 - length hdr)%nat with 1%nat by lia. }
  rewrite E1, E2. unfold lift_e at 1 2. rewrite !andthen_done_l, Ht, (proj2 (Z.ltb_ge _ _)) by lia.
  rewrite Hq. unfold lift_e. rewrite andthen_done_l. rewrite deliver_tells by done.
  rewrite (tells_in_use SETSIZE fd4 fd6 listenfd) by done. unfold return_nready, andthen, done_with. by rewrite app_nil_r.
Qed.

(** A client that sends a bound socket is registered for its port. *)
Lemma readable_conn_registers i c k ss f p :
  clients s !! i = Some c -> 0 <= k -> a_recvmsg a (connfd c) = MGot 1 (Some (write_fd k)) ->
  a_getsockname a k = Some ss -> typed be f ss -> sock_get_port be ss = Some p -> p <> 0 ->
  readable_conn be a i s =
    Ret ((nready s - 1, set_nready (set_client s i (Client (connfd c) f p)) (nready s - 1)),
         [Passed k; Answered (connfd c) true; Closed k]).
Proof.
  intros Hi Hk Hm Hs T Hp Hn. unfold readable_conn. unfold lift_e at 1. rewrite Hi, andthen_done_l, Hm. simpl.
  rewrite (proj2 (Z.leb_le 0 k)) by done. rewrite (proj2 (Z.ltb_ge k 0)) by done. rewrite Hs.
  unfold client_port, lift_e. rewrite (t_family _ _ _ T), andthen_done_l, Hp, andthen_done_l.
  rewrite (proj2 (Z.eqb_neq p 0)) by done. rewrite andthen_done_l. simpl. rewrite Hw. done.
Qed.

(** A new connection gets the registration that its slot had before. *)
Lemma readable_listen_inherits i c fd :
  index_of (fun c => c <? 0) (map connfd (clients s)) = Some i -> clients s !! i = Some c ->
  a_accept a = inl fd -> 0 <= fd < FD_SETSIZE ->
  exists s', readable_listen a s = Ret ((nready s - 1, s'), [Accepted fd]) /\
    clients s' = <[i := Client fd (family_ c) (lport c)]> (clients s).
Proof.
  intros Ei Hi Ha Hf. unfold readable_listen. rewrite Ha. unfold lift_e at 1. rewrite Ei, Hi, andthen_done_l.
  unfold lift_e. rewrite FD_SET_ok by done. eexists. by split.
Qed.
End Delivery.

(** C27: an ICMP error about a UDP datagram, with options in either IP header, is passed
    to exactly the connections in the table whose family and port are those of its
    source, in the order of the table, once each, with the datagram's destination and
    the error number for its type and code; a connection gets its family and port when it
    sends a bound socket.  But accept() leaves the family and port of the table's
    slot as the previous connection registered them: until it has registered itself,
    a new connection is told the errors of a client that has gone. *)
Theorem icmpd_delivery be SETSIZE fd4 fd6 listenfd stack4 s a :
  length stack4 = MAXLINE -> wf SETSIZE fd4 fd6 listenfd s -> (forall fd, a_write a fd = true) ->
  (forall hdr ty code ck inner sport dport rest,
     let d := icmp_error hdr ty code ck inner sport dport rest in
     ip_hdr hdr -> ip_hdr inner -> inner !! 9%nat = Some IPPROTO_UDP -> length ck = 6%nat -> (4 <= length rest)%nat ->
     is_error_v4 ty = true -> (length d <= MAXLINE)%nat -> a_recv4 a = inl d ->
     readable_v4 be stack4 a s =
       Ret ((nready s - 1, set_nready s (nready s - 1)),
            tells AF_INET (htons be sport)
              (IcmpdErr (errno_v4 ty code) (swrap 8 ty) (swrap 8 code) 16
                 (inet_dest be (port_bytes dport) (take 4 (drop 16 inner)))) (clients s))) /\
  (forall i c k ss f p, clients s !! i = Some c -> 0 <= k -> a_recvmsg a (connfd c) = MGot 1 (Some (write_fd k)) ->
     a_getsockname a k = Some ss -> typed be f ss -> sock_get_port be ss = Some p -> p <> 0 ->
     readable_conn be a i s =
       Ret ((nready s - 1, set_nready (set_client s i (Client (connfd c) f p)) (nready s - 1)),
            [Passed k; Answered (connfd c) true; Closed k])) /\
  (forall i c fd port err, index_of (fun c => c <? 0) (map connfd (clients s)) = Some i -> clients s !! i = Some c ->
     a_accept a = inl fd -> 0 <= fd < FD_SETSIZE -> family_ c = AF_INET -> lport c = port ->
     exists s', readable_listen a s = Ret ((nready s - 1, s'), [Accepted fd]) /\
       ToClient fd err ∈ tells AF_INET port err (clients s')).
Proof.
  intros L4 W Hw. split_and!.
  - intros hdr ty code ck inner sport dport rest d ? ? ? ? ? ? ? ?.
    by apply (readable_v4_delivers be SETSIZE fd4 fd6 listenfd stack4 L4 s W a Hw hdr ty code ck inner sport dport rest).
  - intros. by eapply readable_conn_registers.
  - intros i c fd port err Ei Hi Ha Hf Hfam Hp.
    destruct (readable_listen_inherits s a i c fd Ei Hi Ha Hf) as (s' & E & Ec). exists s'. split; [exact E|].
    rewrite Ec. unfold tells. apply list_elem_of_In, in_map_iff. exists (Client fd (family_ c) (lport c)). split; [done|].
    apply List.filter_In. split.
    + apply list_elem_of_In, (list_elem_of_lookup_2 _ i), list_lookup_insert_eq. by eapply lookup_lt_Some.
    + unfold registered. simpl. rewrite (proj2 (Z.leb_le _ _)), Hfam, Hp by lia. rewrite bool_decide_eq_true_2, Z.eqb_refl; done.
Qed.

(** A little-endian host: a client on port 8080 registers and goes, another connects. *)
Definition ex_error : list Z :=
  icmp_error ([0x45] ++ replicate 19 0) 3 3 (replicate 6 0) ([0x45] ++ replicate 8 0 ++ [17] ++ replicate 6 0 ++ [10;0;0;9])
    8080 53 (replicate 4 0).
Definition ex_answers (ready : Z) (accept : Z + errno) (m : recvmsg_result) : answers :=
  Answers (inl {[ready]}) accept (fun _ => m) (fun fd => if fd =? 7 then Some ex_in else None) (fun _ _ => true)
    (fun _ => None) (inl ex_error) (inl []) (fun _ => true).
Definition ex_rounds : list answers :=
  [ ex_answers 5 (inl 6) (MGot 0 None); ex_answers 6 (inr EINTR) (MGot 1 (Some (write_fd 7)));
    ex_answers 6 (inr EINTR) (MGot 0 None); ex_answers 5 (inl 8) (MGot 0 None); ex_answers 3 (inr EINTR) (MGot 0 None) ].
Definition ex_stack : list Z := replicate MAXLINE 0.
Definition ex_run (n : nat) := rounds false 3 4 5 ex_stack ex_stack (take n ex_rounds) (init 4 3 4 5).

(** What the second client is told is the error about a datagram of the first. *)
Example icmpd_stale_run : match ex_run 5 with
  | Ret (_, ev) => ev = [Accepted 6; Passed 7; Answered 6 true; Closed 7; Closed 6; Accepted 8;
      ToClient 8 (IcmpdErr ECONNREFUSED 3 3 16 ([2;0; 0;53; 10;0;0;9] ++ replicate 8 0))]
  | _ => False end.
Proof. vm_compute. reflexivity. Qed.

(** A message of 16 bytes passes the test of readable_v6.c, and what is done with it
    is decided by what lies behind it on the stack. *)
Example icmpd_short_v6 :
  let told stack := match readable_v6 false stack (Answers (inr EINTR) (inr EINTR) (fun _ => MError EINTR) (fun _ => None)
      (fun _ _ => true) (fun _ => None) (inr EINTR) (inl ([1; 4] ++ replicate 14 17)) (fun _ => true))
      (St [Client 6 AF_INET6 36895] ∅ 0 6 1) with Ret (_, ev) => ev | _ => [] end in
  told (replicate MAXLINE 0) = [] /\ told (replicate 48 0 ++ port_bytes 8080 ++ replicate 4046 0) <> [].
Proof. vm_compute. by split. Qed.

Lemma ex_in_typed : typed false AF_INET ex_in.
Proof. split; [reflexivity|simpl; lia|]. unfold is_byte. repeat constructor; lia. Qed.

Lemma ex_names_ok ready accept m : names_ok false (ex_answers ready accept m).
Proof.
  split; [|done]. intros fd ss. simpl. destruct (fd =? 7); [|done]. intros [= <-]. exists AF_INET. apply ex_in_typed.
Qed.

Lemma icmpd_table_witness :
  post only_quit (ex_run 2) (fun s ev =>
    wf 4 3 4 5 s /\ forall fd, 0 <= fd -> balance fd ev = held fd (clients s)).
Proof.
  apply (icmpd_table false 4 3 4 5 ex_stack ex_stack (take 2 ex_rounds)); [lia|lia|lia|reflexivity|reflexivity|].
  split.
  { split; [apply ex_names_ok|]. intros fd [= <-]. split; [unfold FD_SETSIZE; lia|].
    apply (bool_decide_unpack _). vm_compute. exact I. }
  intros s1 ev1 _. split; [|done]. split; [apply ex_names_ok|done].
Defined.

Definition ex_left : state := set_client (init 4 3 4 5) 0 (Client (-1) AF_INET (htons false 8080)).
Definition ex_err : icmpd_err := IcmpdErr ECONNREFUSED 3 3 16 [].

Lemma icmpd_delivery_witness :
  exists s', readable_listen (ex_answers 5 (inl 8) (MGot 0 None)) ex_left = Ret ((-1, s'), [Accepted 8]) /\
    ToClient 8 ex_err ∈ tells AF_INET (htons false 8080) ex_err (clients s').
Proof.
  refine (proj2 (proj2 (icmpd_delivery false 4 3 4 5 ex_stack ex_left (ex_answers 5 (inl 8) (MGot 0 None)) _ _ _)) 0%nat
    (Client (-1) AF_INET (htons false 8080)) 8 (htons false 8080) ex_err _ _ _ _ _ _).
  - reflexivity.
  - apply (wf_same 4 3 4 5 (init 4 3 4 5) 0 (Client (-1) AF_UNSPEC 0)); [|reflexivity|reflexivity].
    apply wf_init; lia.
  - done.
  - reflexivity.
  - reflexivity.
  - reflexivity.
  - unfold FD_SETSIZE. lia.
  - reflexivity.
  - reflexivity.
Defined.

(** ** The client's dg_cli() *)

Definition SIZEOF_ICMPD_ERR : Z := 144.

Inductive cli_event :=
| CSent (line : list Z)
| CTimeout
| CEchoed (text : list Z)
| CIcmp (text : list Z) (errno_ type code : Z).

(** select(): the ready descriptors, none for a timeout; recvfrom() on the socket;
    read() on the connection to the daemon: the size and the structure. *)
Record cli_answers := CliAnswers {
  c_select : gset Z + errno; c_recvfrom : list Z + errno; c_read : Z * icmpd_err + errno }.

Section Client.
Context (be : bool) (sockfd icmpfd : Z).
Open Scope traced_scope.

(** Lines 15 to 25: the socket is bound, passed to the daemon, and the answer must be
    one byte '1'. *)
Definition dg_cli_register (bind : sockaddr -> bool) (boundname : option sockaddr) (f : family) (n c : Z) : outcome cmsg :=
  match sock_bind_wild be bind boundname f with
  | None => Abort
  | Some port =>
      if port <? 0 then Exit 1
      else if negb (n =? 1) || negb (c =? 49) then Exit 1
      else Ret (write_fd sockfd)
  end.

(** Lines 44 to 59. *)
Definition cli_socket (ready : gset Z) (a : cli_answers) : traced cli_event unit :=
  if bool_decide (sockfd ∈ ready) then
    match c_recvfrom a with
    | inl d => emit [CEchoed (default [] (c_string (take MAXLINE d ++ [0])))]
    | inr _ => Exit 1
    end
  else done_with tt.

Definition cli_daemon (str : list Z) (ready : gset Z) (a : cli_answers) : traced cli_event unit :=
  if bool_decide (icmpfd ∈ ready) then
    match c_read a with
    | inr _ => Exit 1
    | inl (n, err) =>
        if n =? 0 then Exit 1
        else if negb (n =? SIZEOF_ICMPD_ERR) then Exit 1
        else
          match or_exit (sock_ntop be 0 str (icmpd_dest err) (icmpd_len err)) with
          | Ret (str', i) =>
              emit [CIcmp (default [] (c_string (drop i str'))) (icmpd_errno err) (icmpd_type err) (icmpd_code err)]
          | Fail e => Fail e | Exit c => Exit c | Abort => Abort | Blocked => Blocked
          end
    end
  else done_with tt.

Definition cli_turn (str line : list Z) (a : cli_answers) : traced cli_event unit :=
  emit [CSent line];;
  match c_select a with
  | inr _ => Exit 1
  | inl ready =>
      if bool_decide (ready = ∅) then emit [CTimeout]
      else cli_socket ready a;; cli_daemon str ready a
  end.

Fixpoint dg_cli (str : list Z) (lines : list (list Z)) (l : list cli_answers) : traced cli_event unit :=
  match lines, l with
  | [], _ => done_with tt
  | _ :: _, [] => Blocked
  | line :: lines', a :: l' => cli_turn str line a;; dg_cli str lines' l'
  end.
End Client.

(** The end of the chain: what the daemon wrote about a datagram to [dst]:[dport] is
    printed with that address, and the echo that arrived in the same turn is not
    lost. *)
Theorem client_told be sockfd icmpfd str line data ready err dport dst ty code e :
  length str = STRSZ -> (length data <= MAXLINE)%nat -> no_null data -> length dst = 4%nat -> Forall is_byte dst ->
  sockfd <> icmpfd -> ready = {[sockfd]} ∪ {[icmpfd]} ->
  err = IcmpdErr e (swrap 8 ty) (swrap 8 code) 16 (inet_dest be (port_bytes dport) dst) ->
  cli_turn be sockfd icmpfd str line (CliAnswers (inl ready) (inl data) (inl (SIZEOF_ICMPD_ERR, err))) =
    Ret (tt, [CSent line; CEchoed data;
              CIcmp (with_port AF_INET (u16 dport) (dotted dst)) e (swrap 8 ty) (swrap 8 code)]).
Proof.
  intros Hl Hd Hn Ld Hb Hne -> ->. unfold cli_turn. cbn [c_select].
  rewrite bool_decide_eq_false_2 by set_solver. unfold cli_socket. rewrite bool_decide_eq_true_2 by set_solver.
  cbn [c_recvfrom]. rewrite take_ge, c_string_app by done. unfold cli_daemon.
  rewrite bool_decide_eq_true_2 by set_solver. cbn [c_read]. change (SIZEOF_ICMPD_ERR =? 0) with false.
  change (SIZEOF_ICMPD_ERR =? SIZEOF_ICMPD_ERR) with true. cbn [negb icmpd_dest icmpd_len icmpd_errno icmpd_type icmpd_code].
  set (sa := inet_dest be (port_bytes dport) dst).
  destruct (port_bytes_two dport) as (h & l & Ep & Hh & Hl' & V).
  assert (T : typed be AF_INET sa).
  { unfold sa, inet_dest. rewrite Ep. split.
    - destruct be; reflexivity.
    - rewrite !length_app, length_store_bytes, Ld. simpl. lia.
    - rewrite !Forall_app. split_and!; [apply store_bytes_byte|by rewrite !Forall_cons, Forall_nil|done|].
      apply Forall_replicate. unfold is_byte. lia. }
  assert (A : SockAddr.address AF_INET sa = Some dst).
  { unfold sa, inet_dest, SockAddr.address. simpl addr_off. simpl addr_size. rewrite Ep.
    rewrite (read_at_eq _ (store_bytes be 2 (family_num AF_INET) ++ [h; l]) dst (replicate 8 0)); [done|by rewrite <- app_assoc|by rewrite length_app, length_store_bytes|done]. }
  assert (P : port_number sa = Some (u16 dport)).
  { unfold port_number, sa, inet_dest. rewrite Ep.
    rewrite (read_at_eq _ (store_bytes be 2 (family_num AF_INET)) [h; l] (dst ++ replicate 8 0)); [|done|by rewrite length_store_bytes|done].
    cbn [fmap option_fmap option_map]. rewrite load_two by done. by rewrite V. }
  assert (N : inet_ntop 0 AF_INET dst 46 = Ret (dotted dst)).
  { simpl. unfold inet_ntop4. pose proof (dotted_length dst Ld Hb). by rewrite (proj2 (Z.ltb_ge _ _)) by lia. }
  destruct (sock_ntop_ip be 0 AF_INET sa T eq_refl dst (u16 dport) A P (dotted dst) N str 16 Hl) as (str' & -> & _ & Hc).
  rewrite bool_decide_eq_false_2 in Hc |- * by done. simpl in Hc |- *. rewrite Hc. done.
Qed.
