(* ===== verification/SigIO.v ===== *)
(** * A UDP echo server driven by SIGIO

    Model of src/UNPLearning/unpv13e/sigio/dgecho01.c: the ring of datagrams that the
    handler of SIGIO fills and dg_echo() empties, from the two ioctl() on.  A step is one
    access of dg_echo() to [nqueue], one of its calls that set the signal mask, suspend,
    send or set the socket, the increment of [iget], one turn of the loop of sig_io(), the
    delivery of the signal, or something from outside: a datagram that arrives, a SIGHUP.
    Signals do not queue: [pending] is one bit.  The signal mask is a part of the state,
    and sigsuspend() is the only call that changes it and waits in one step. *)

From S2P Require Import Prelude SockAddr Icmp.

Definition QSIZE : nat := 8.
Definition MAXDG : nat := 4096.

(** A datagram with its sender. *)
Definition datagram : Type := list Z * sockaddr.

Record DG := Dg { dg_data : list Z; dg_len : nat; dg_sa : sockaddr }.

(** Before which statement dg_echo() is; [PSleep] is inside sigsuspend(), and [PDecStore n]
    between the load and the store of nqueue--. *)
Inductive main_pc := PAsync | PNbio | PMask | PTest | PSuspend | PSleep | PUnblock | PSend | PIncr | PBlock | PDec | PDecStore (n : nat).
Inductive mode :=
| Main (p : main_pc)
| Handler (nread : nat) (p : main_pc)    (* interrupted at [p] *)
| Overflow                               (* err_quit("receive overflow") *)
| Failed.                                (* ioctl(), recvfrom() or sendto() failed *)

#[export] Instance main_pc_dec : EqDecision main_pc.
Proof. solve_decision. Defined.
#[export] Instance mode_dec : EqDecision mode.
Proof. solve_decision. Defined.

(** Whether SIGIO is blocked and was in [oldmask], the two flags of the socket, whether
    SIGIO is pending, and whether a datagram was in the socket when FIOASYNC was set. *)
Record signals := Signals {
  blocked : bool; oldmask : bool; async : bool; nbio : bool; pending : bool; early : bool }.

Record state := St {
  dg : list DG; iget : nat; iput : nat; nqueue : nat; cntread : list Z;
  run : mode; sg : signals; sockq : list datagram;
  arrived : list datagram; sent : list datagram }.

Definition init (buffers : list DG) (waiting : list datagram) : state :=
  St buffers 0 0 0 (replicate (QSIZE + 1) 0) (Main PAsync) (Signals false false false false false false) waiting waiting [].

(** if (++i >= QSIZE) i = 0; *)
Definition next (i : nat) : nat := if decide (QSIZE <= S i)%nat then 0%nat else S i.

Definition set_run (s : state) (m : mode) : state :=
  St (dg s) (iget s) (iput s) (nqueue s) (cntread s) m (sg s) (sockq s) (arrived s) (sent s).
Definition set_sg (s : state) (m : mode) (g : signals) : state :=
  St (dg s) (iget s) (iput s) (nqueue s) (cntread s) m g (sockq s) (arrived s) (sent s).
Definition set_nqueue (s : state) (m : mode) (n : nat) : state :=
  St (dg s) (iget s) (iput s) n (cntread s) m (sg s) (sockq s) (arrived s) (sent s).

(** Sigprocmask(SIG_BLOCK, &newmask, &oldmask) and Sigprocmask(SIG_SETMASK, &oldmask, NULL). *)
Definition sig_block (g : signals) : signals := Signals true (blocked g) (async g) (nbio g) (pending g) (early g).
Definition sig_setmask (g : signals) : signals := Signals (oldmask g) (oldmask g) (async g) (nbio g) (pending g) (early g).
(** Ioctl(sockfd, FIOASYNC, &on) and Ioctl(sockfd, FIONBIO, &on). *)
Definition fioasync (g : signals) (q : list datagram) : signals :=
  Signals (blocked g) (oldmask g) true (nbio g) (pending g) (match q with [] => false | _ => true end).
Definition fionbio (g : signals) : signals := Signals (blocked g) (oldmask g) (async g) true (pending g) (early g).
Definition set_pending (g : signals) (b : bool) : signals := Signals (blocked g) (oldmask g) (async g) (nbio g) b (early g).

(** One step of dg_echo(); [ok]: whether the ioctl() or sendto() succeeds.  [None]: it
    waits in sigsuspend(), or an index is outside the ring. *)
Definition main_step (ok : bool) (p : main_pc) (s : state) : option state :=
  match p with
  | PAsync => Some (if ok then set_sg s (Main PNbio) (fioasync (sg s) (sockq s)) else set_run s Failed)
  | PNbio => Some (if ok then set_sg s (Main PMask) (fionbio (sg s)) else set_run s Failed)
  | PMask => Some (set_sg s (Main PTest) (sig_block (sg s)))
  | PTest => Some (set_run s (Main (if decide (nqueue s = 0%nat) then PSuspend else PUnblock)))
  | PSuspend => Some (set_run s (Main PSleep))
  | PSleep => None
  | PUnblock => Some (set_sg s (Main PSend) (sig_setmask (sg s)))
  | PSend =>
      if ok then
        d ← dg s !! iget s;
        Some (St (dg s) (iget s) (iput s) (nqueue s) (cntread s) (Main PIncr) (sg s) (sockq s) (arrived s)
                (sent s ++ [(take (dg_len d) (dg_data d), dg_sa d)]))
      else Some (set_run s Failed)
  | PIncr => Some (St (dg s) (next (iget s)) (iput s) (nqueue s) (cntread s) (Main PBlock) (sg s) (sockq s) (arrived s) (sent s))
  | PBlock => Some (set_sg s (Main PDec) (sig_block (sg s)))
  | PDec => Some (set_run s (Main (PDecStore (nqueue s))))
  | PDecStore n => Some (set_nqueue s (Main PTest) (Nat.pred n))
  end.

(** Where dg_echo() goes on when a handler returns: sigsuspend() does too. *)
Definition resume (p : main_pc) : main_pc := match p with PSleep => PTest | _ => p end.

(** One turn of the loop of sig_io(); [ok]: recvfrom() does not fail for another reason
    than an empty socket.  [None]: recvfrom() waits for a datagram, the socket not being
    nonblocking yet, or an index is outside an array. *)
Definition handler_step (ok : bool) (nread : nat) (p : main_pc) (s : state) : option state :=
  if decide (QSIZE <= nqueue s)%nat then Some (set_run s Overflow) else
  if negb ok then Some (set_run s Failed) else
  match sockq s with
  | [] =>
      if nbio (sg s) then
        c ← cntread s !! nread;
        Some (St (dg s) (iget s) (iput s) (nqueue s) (<[nread := c + 1]> (cntread s)) (Main (resume p)) (sg s) [] (arrived s) (sent s))
      else None
  | (d, from) :: q =>
      b ← dg s !! iput s;
      Some (St (<[iput s := Dg (received (dg_data b) d) (Nat.min (length d) MAXDG) from]> (dg s)) (iget s) (next (iput s))
              (S (nqueue s)) (cntread s) (Handler (S nread) p) (sg s) q (arrived s) (sent s))
  end.

(** The mask is empty inside sigsuspend(). *)
Definition unmasked (p : main_pc) (g : signals) : bool := match p with PSleep => true | _ => negb (blocked g) end.

(** The kernel interrupts dg_echo() to run the handler. *)
Definition deliver (s : state) : option state :=
  match run s with
  | Main p => if pending (sg s) && unmasked p (sg s) then Some (set_sg s (Handler 0 p) (set_pending (sg s) false)) else None
  | _ => None
  end.

(** A step of the process; [None] when it waits, has ended, or leaves an array. *)
Definition proc_step (ok : bool) (s : state) : option state :=
  match run s with
  | Main p => main_step ok p s
  | Handler nread p => handler_step ok nread p s
  | _ => None
  end.

(** A datagram arrives: the kernel queues it and, with FIOASYNC, raises SIGIO. *)
Definition arrive (d : datagram) (s : state) : state :=
  St (dg s) (iget s) (iput s) (nqueue s) (cntread s) (run s) (set_pending (sg s) (async (sg s) || pending (sg s)))
    (sockq s ++ [d]) (arrived s ++ [d]) (sent s).

(** SIGHUP: its handler prints, and sigsuspend() returns. *)
Definition hangup (s : state) : option state :=
  match run s with Main PSleep => Some (set_run s (Main PTest)) | _ => None end.

Inductive step : state -> state -> Prop :=
| step_proc ok s s' : proc_step ok s = Some s' -> step s s'
| step_signal s s' : deliver s = Some s' -> step s s'
| step_arrive d s : step s (arrive d s)
| step_hangup s s' : hangup s = Some s' -> step s s'.

(** A run on a list of choices. *)
Inductive choice := CProc | CSignal | CArrive (d : datagram).
Fixpoint run_on (l : list choice) (s : state) : option state :=
  match l with
  | [] => Some s
  | CProc :: l' => proc_step true s ≫= run_on l'
  | CSignal :: l' => deliver s ≫= run_on l'
  | CArrive d :: l' => run_on l' (arrive d s)
  end.

Lemma run_on_rtc l s s' : run_on l s = Some s' -> rtc step s s'.
Proof.
  revert s. induction l as [|[| |d] l IH]; intros s H; simpl in H.
  - injection H as <-. done.
  - destruct (proc_step true s) as [s1|] eqn:E; [|done]. eapply rtc_l; [by eapply step_proc|by apply IH].
  - destruct (deliver s) as [s1|] eqn:E; [|done]. eapply rtc_l; [by eapply step_signal|by apply IH].
  - eapply rtc_l; [apply step_arrive|by apply IH].
Qed.

(** ** The ring *)

(** The index [k] places behind [i]. *)
Definition idx (i k : nat) : nat := if decide (i + k < QSIZE)%nat then (i + k)%nat else (i + k - QSIZE)%nat.

Definition item (d : DG) : datagram := (take (dg_len d) (dg_data d), dg_sa d).

(** What the program makes of a datagram: its first MAXDG bytes. *)
Definition cut (d : datagram) : datagram := (take MAXDG (fst d), snd d).

Definition pc_of (m : mode) : option main_pc :=
  match m with Main p | Handler _ p => Some p | _ => None end.

(** [iget] has moved on, [nqueue] not yet. *)
Definition taken (p : main_pc) : nat := match p with PBlock | PDec | PDecStore _ => 1 | _ => 0 end.
(** The datagram at [iget] is sent. *)
Definition front (p : main_pc) (q : list datagram) : list datagram := match p with PIncr => take 1 q | _ => [] end.
Definition needs_one (p : main_pc) : bool := match p with PUnblock | PSend | PIncr => true | _ => false end.
(** Where SIGIO is blocked. *)
Definition critical (p : main_pc) : bool :=
  match p with PTest | PSuspend | PSleep | PUnblock | PDec | PDecStore _ => true | _ => false end.
Definition flags (p : main_pc) (g : signals) : Prop :=
  blocked g = critical p /\ oldmask g = false /\
  async g = (match p with PAsync => false | _ => true end) /\ nbio g = (match p with PAsync | PNbio => false | _ => true end) /\
  (p = PAsync -> pending g = false).

Record ok (p : main_pc) (s : state) (q : list datagram) : Prop := Ok {
  k_len : length (dg s) = QSIZE;
  k_buf : Forall (fun d => length (dg_data d) = MAXDG) (dg s);
  k_cnt : length (cntread s) = (QSIZE + 1)%nat /\ cntread s !! QSIZE = Some 0;
  k_iget : (iget s < QSIZE)%nat;
  k_n : nqueue s = (length q + taken p)%nat;
  k_max : (nqueue s <= QSIZE)%nat;
  k_iput : iput s = idx (iget s) (length q);
  k_ring : forall k x, q !! k = Some x -> exists d, dg s !! idx (iget s) k = Some d /\ item d = x;
  k_hist : exists done_, sent s = done_ ++ front p q /\ map cut (arrived s) = done_ ++ q ++ map cut (sockq s);
  k_one : needs_one p = true -> q <> [];
  k_mode : match run s with
           | Handler n _ => (n <= nqueue s)%nat /\ unmasked p (sg s) = true /\ p <> PAsync
           | Main PSuspend | Main PSleep => q = []
           | Main (PDecStore n) => n = nqueue s
           | _ => True
           end;
  k_flags : flags p (sg s) }.

(** Also after the process has ended. *)
Definition inv (s : state) : Prop :=
  match pc_of (run s) with
  | Some p => exists q, ok p s q
  | None => exists rest, map cut (arrived s) = sent s ++ rest
  end.

Lemma next_idx i : (i < QSIZE)%nat -> next i = idx i 1.
Proof. intros H. unfold next, idx, QSIZE in *. repeat case_decide; lia. Qed.

Lemma idx_0 i : (i < QSIZE)%nat -> idx i 0 = i.
Proof. intros H. unfold idx, QSIZE in *. case_decide; lia. Qed.

Lemma idx_next i k : (i < QSIZE)%nat -> (k < QSIZE)%nat -> idx (idx i 1) k = idx i (S k).
Proof. intros H Hk. unfold idx, QSIZE in *. repeat case_decide; lia. Qed.

Lemma next_idx_back i k : (i < QSIZE)%nat -> (k < QSIZE)%nat -> next (idx i k) = idx i (k + 1).
Proof.
  intros H Hk. unfold next, idx. destruct (decide (i + k < QSIZE)%nat), (decide (i + (k + 1) < QSIZE)%nat);
    case_decide; unfold QSIZE in *; lia.
Qed.

Lemma idx_lt i k : (i < QSIZE)%nat -> (k <= QSIZE)%nat -> (idx i k < QSIZE)%nat.
Proof. intros H Hk. unfold idx, QSIZE in *. case_decide; lia. Qed.

Lemma idx_inj i j k : (i < QSIZE)%nat -> (j < QSIZE)%nat -> (k < QSIZE)%nat -> idx i j = idx i k -> j = k.
Proof. intros H Hj Hk. unfold idx, QSIZE in *. repeat case_decide; lia. Qed.

Lemma item_received data d from : length data = MAXDG ->
  item (Dg (received data d) (Nat.min (length d) MAXDG) from) = cut (d, from).
Proof.
  intros Hl. unfold item, cut, received. cbn [dg_data dg_len dg_sa fst snd]. rewrite Hl. f_equal.
  destruct (decide (length d <= MAXDG)%nat) as [H|H].
  - rewrite Nat.min_l, !(firstn_all2 d) by lia. by rewrite take_app_length.
  - rewrite Nat.min_r, take_app_le, take_take, Nat.min_id by (try rewrite length_take; lia). done.
Qed.

Lemma sent_prefix p s q : ok p s q -> exists rest, map cut (arrived s) = sent s ++ rest.
Proof.
  intros K. destruct (k_hist _ _ _ K) as (dn & -> & ->). unfold front.
  destruct p; try (exists (q ++ map cut (sockq s)); by rewrite app_nil_r).
  exists (drop 1 q ++ map cut (sockq s)). rewrite <- app_assoc. f_equal. by rewrite (app_assoc (take 1 q)), take_drop.
Qed.

Ltac keep q dn := exists q; split; try done; simpl; try (by exists dn); try (unfold flags; by simpl).

Lemma ok_main_step b p s s' q : run s = Main p -> ok p s q -> main_step b p s = Some s' -> inv s'.
Proof.
  intros Er K E. pose proof (sent_prefix _ _ _ K) as Hsp. destruct K as [K1 K2 K3 K4 K5 K6 K7 K8 (dn & Hs & Ha) K10 K11 (F1 & F2 & F3 & F4 & F5)].
  rewrite Er in K11. unfold inv.
  destruct p; simpl in E; try (injection E as <-); simpl in *.
  - destruct b; simpl; [keep q dn|done].
  - destruct b; simpl; [keep q dn|done].
  - keep q dn.
  - case_decide as Hn; keep q dn; destruct q; simpl in *; try done; lia.
  - keep q dn.
  - done.
  - keep q dn.
  - destruct b; [|injection E as <-; simpl; done].
    destruct q as [|x q]; [by destruct (K10 eq_refl)|].
    destruct (K8 0%nat x eq_refl) as (d & Hd & Hi).
    rewrite idx_0 in Hd by done. rewrite Hd in E. injection E as <-. simpl. exists (x :: q). split; try done.
    exists dn. simpl. split; [|done]. rewrite Hs, app_nil_r. f_equal. f_equal. exact Hi.
  - destruct q as [|x q]; [by destruct (K10 eq_refl)|]. simpl in *. exists q.
    split; try done; simpl.
    + rewrite next_idx by done. apply idx_lt; unfold QSIZE in *; lia.
    + lia.
    + rewrite K7, next_idx by done. rewrite idx_next; [done|done|]. unfold QSIZE in *. lia.
    + intros k y Hk. rewrite next_idx by done. apply lookup_lt_Some in Hk as Hlt.
      rewrite idx_next by (done || unfold QSIZE in *; lia). by apply (K8 (S k)).
    + exists (dn ++ [x]). rewrite Hs, Ha, app_nil_r, <- app_assoc. done.
  - keep q dn.
  - keep q dn.
  - subst n. keep q dn; lia.
Qed.

Lemma ok_handler_step b n p s s' q : run s = Handler n p -> ok p s q -> handler_step b n p s = Some s' -> inv s'.
Proof.
  intros Er K E. pose proof K as [K1 K2 K3 K4 K5 K6 K7 K8 (dn & Hs & Ha) K10 K11 K12]. rewrite Er in K11.
  destruct K11 as (Hn & Hu & Hp). unfold handler_step in E. unfold inv.
  case_decide as Hf; [injection E as <-; simpl; by eapply sent_prefix|].
  destruct b; simpl in E; [|injection E as <-; simpl; by eapply sent_prefix].
  destruct (sockq s) as [|[d from] sq] eqn:Eq.
  - destruct (nbio (sg s)); [|done]. destruct (cntread s !! n) as [c|]; [|done]. injection E as <-. simpl. exists q.
    destruct K12 as (F1 & F2 & F3 & F4 & F5).
    assert (Hc : p = PSleep \/ critical p = false) by (unfold unmasked in Hu; rewrite F1 in Hu; destruct p; auto; done).
    split; try done; simpl.
    + rewrite length_insert, list_lookup_insert_ne by lia. done.
    + destruct p; simpl in *; lia.
    + exists dn. destruct p; done.
    + by destruct p.
    + destruct Hc as [-> |]; [done|]. by destruct p.
    + destruct p; unfold flags; simpl; done.
  - destruct (dg s !! iput s) as [b|] eqn:Eb; [|done]. injection E as <-. simpl. exists (q ++ [cut (d, from)]).
    assert (Hlb : length (dg_data b) = MAXDG) by (rewrite Forall_forall in K2; apply K2; by eapply list_elem_of_lookup_2).
    split; try done; simpl.
    + by rewrite length_insert.
    + apply Forall_insert; [done|]. cbn [dg_data]. by rewrite length_received.
    + rewrite length_app. simpl. lia.
    + lia.
    + rewrite K7, length_app. apply next_idx_back; [done|]. unfold QSIZE in *. lia.
    + intros k x Hk. apply lookup_app_Some in Hk as [Hk|[Hk1 Hk2]].
      * apply lookup_lt_Some in Hk as Hlt. destruct (K8 k x Hk) as (e & He & Hi). exists e. split; [|done].
        rewrite list_lookup_insert_ne; [done|]. rewrite K7. intros Hx. apply idx_inj in Hx; unfold QSIZE in *; lia.
      * apply list_lookup_singleton_Some in Hk2 as [Hk2 <-]. assert (k = length q) as -> by lia.
        eexists. split; [rewrite K7; apply list_lookup_insert_eq; rewrite K1; apply idx_lt; unfold QSIZE in *; lia|].
        by apply item_received.
    + exists dn. rewrite Ha, <- !app_assoc. split; [|done]. rewrite Hs. destruct p, q; try done. exfalso. by apply (K10 eq_refl).
    + intros _. by destruct q.
    + split_and!; [lia|done|done].
Qed.

Lemma ok_arrive p d s q : ok p s q -> ok p (arrive d s) q.
Proof.
  intros [K1 K2 K3 K4 K5 K6 K7 K8 (dn & Hs & Ha) K10 K11 (F1 & F2 & F3 & F4 & F5)]. split; try done; simpl.
  - exists dn. rewrite !map_app, Ha, <- !app_assoc. done.
  - unfold flags. simpl. split_and!; try done. intros ->. rewrite F3. by apply F5.
Qed.

Lemma sig_inv_step s s' : inv s -> step s s' -> inv s'.
Proof.
  intros I H. destruct H as [b t t' E|t t' E|d t|t t' E]; unfold inv in I.
  - unfold proc_step in E. destruct (run t) as [p|n p| |] eqn:Er; try done; simpl in I; destruct I as [q K];
      [by eapply ok_main_step|by eapply ok_handler_step].
  - unfold deliver in E. destruct (run t) as [p|n p| |] eqn:Er; try done; simpl in I; destruct I as [q K].
    destruct (pending (sg t) && unmasked p (sg t)) eqn:Ep; [|done]. injection E as <-. unfold inv. simpl. exists q.
    destruct K as [K1 K2 K3 K4 K5 K6 K7 K8 K9 K10 K11 K12]. bprop. split; try done; simpl.
    + split_and!; [lia|done|]. intros ->. destruct K12 as (_ & _ & _ & _ & F5). rewrite F5 in *; done.
    + destruct K12 as (F1 & F2 & F3 & F4 & F5). done.
  - unfold inv. simpl. destruct (pc_of (run t)) as [p|]; simpl.
    + destruct I as [q K]. exists q. by apply ok_arrive.
    + destruct I as [rest Hr]. exists (rest ++ [cut d]). rewrite map_app, Hr, <- app_assoc. done.
  - unfold hangup in E. destruct (run t) as [[]| | |] eqn:Er; try done. injection E as <-. simpl in I. destruct I as [q K].
    unfold inv. simpl. exists q. destruct K as [K1 K2 K3 K4 K5 K6 K7 K8 K9 K10 K11 K12]. destruct K12 as (F1 & F2 & F3 & F4 & F5); split; try done; unfold flags; by simpl.
Qed.

(** The buffers that dg_echo() allocates. *)
Definition buffers_ok (b : list DG) : Prop := length b = QSIZE /\ Forall (fun d => length (dg_data d) = MAXDG) b.

Lemma sig_inv_init b w : buffers_ok b -> inv (init b w).
Proof.
  intros [Hl Hb]. unfold inv. simpl. exists []. split; simpl; try done; try (unfold QSIZE; lia).
  by exists [].
Qed.

(** What the program reaches from dg_echo()'s initialisations, with the datagrams
    [waiting] already in the socket. *)
Definition start (waiting : list datagram) (s : state) : Prop := exists b, buffers_ok b /\ s = init b waiting.
Definition reached (waiting : list datagram) : state -> Prop := reachable (start waiting) step.

Lemma inv_reach w s : reached w s -> inv s.
Proof. apply reachable_inv; [by intros ? (b & Hb & ->); apply sig_inv_init|apply sig_inv_step]. Qed.

(** ** Nothing is left in the socket unnoticed *)

(** A datagram in the socket has its signal pending, or the handler is still at
    work, unless one was there before FIOASYNC. *)
Definition noticed (s : state) : Prop :=
  match run s with
  | Main _ => early (sg s) = false -> async (sg s) = true -> sockq s = [] \/ pending (sg s) = true
  | _ => True
  end.

Lemma noticed_step s s' : noticed s -> step s s' -> noticed s'.
Proof.
  intros N H. destruct H as [b t t' E|t t' E|d t|t t' E]; unfold noticed in *.
  - unfold proc_step in E. destruct (run t) as [p|n p| |] eqn:Er; try done.
    + destruct p, b; simpl in E; try destruct (dg t !! iget t); simpl in E; try done; injection E as <-; simpl; first [exact N | done | by destruct (sockq t); [left|]].
    + unfold handler_step in E. case_decide; [by injection E as <-|]. destruct b; [|by injection E as <-]. simpl in E.
      destruct (sockq t) as [|[d from] q].
      * destruct (nbio (sg t)); [|done]. destruct (cntread t !! n); [injection E as <-; by left|done].
      * destruct (dg t !! iput t); [by injection E as <-|done].
  - unfold deliver in E. destruct (run t) as [p|n p| |]; try done. destruct (pending (sg t) && _); [|done].
    by injection E as <-.
  - simpl. destruct (run t); try done. intros _ ->. by right.
  - unfold hangup in E. destruct (run t) as [[]| | |]; try done. by injection E as <-.
Qed.

(** ** Between two datagrams the process comes to rest *)

Definition live (p : main_pc) (s : state) : nat := nqueue s - taken p.
Definition weight (p : main_pc) : nat :=
  match p with
  | PAsync => 7 | PNbio => 6 | PMask => 5 | PTest => 4 | PSuspend => 3 | PSleep => 2
  | PUnblock => 3 | PSend => 2 | PIncr => 1 | PBlock => 7 | PDec => 6 | PDecStore _ => 5
  end.
Definition signalled (g : signals) : nat := if pending g then 4 else 0.
Definition work (s : state) : nat :=
  match run s with
  | Main p => 10 * length (sockq s) + 7 * live p s + weight p + signalled (sg s)
  | Handler _ p => 10 * length (sockq s) + 7 * live p s + weight p + signalled (sg s) + 3
  | _ => 0
  end.

Definition quiet (c : choice) : Prop := match c with CArrive _ => False | _ => True end.

Lemma proc_work p b s s' : inv s -> run s = Main p -> main_step b p s = Some s' -> (work s' < work s)%nat.
Proof.
  intros I Er E. unfold inv in I. rewrite Er in I. destruct I as [q K].
  destruct K as [K1 K2 K3 K4 K5 K6 K7 K8 K9 K10 K11 K12]. rewrite Er in K11.
  assert (Hq : needs_one p = true -> (1 <= length q)%nat) by (intros Hp; apply K10 in Hp; destruct q; simpl; [done|lia]).
  clear K1 K2 K3 K7 K8 K9 K10 K12. unfold work. rewrite Er. unfold live, signalled.
  destruct p; simpl in E, Hq, K5; try (injection E as <-); simpl; try lia.
  - destruct b; simpl; lia.
  - destruct b; simpl; lia.
  - case_decide; simpl; lia.
  - done.
  - destruct b; [|injection E as <-; simpl; lia]. destruct (dg s !! iget s); [|done]. injection E as <-. simpl. lia.
Qed.

Lemma handler_work n p b s s' : inv s -> run s = Handler n p -> handler_step b n p s = Some s' -> (work s' < work s)%nat.
Proof.
  intros I Er E. unfold inv in I. rewrite Er in I. destruct I as [q K].
  destruct K as [K1 K2 K3 K4 K5 K6 K7 K8 K9 K10 K11 (F1 & _)]. rewrite Er in K11. destruct K11 as (_ & Hu & _).
  clear K1 K2 K3 K7 K8 K9 K10. unfold work. rewrite Er. unfold live, signalled. unfold handler_step in E.
  case_decide; [injection E as <-; simpl; lia|]. destruct b; [|injection E as <-; simpl; lia]. simpl in E.
  destruct (sockq s) as [|[d from] sq].
  - destruct (nbio (sg s)); [|done]. destruct (cntread s !! n); [|done]. injection E as <-. simpl. destruct p; simpl in *; try done; lia.
  - destruct (dg s !! iput s); [|done]. injection E as <-. simpl. lia.
Qed.

Lemma quiet_work c l s s' : inv s -> quiet c -> run_on (c :: l) s = Some s' ->
  exists s1, inv s1 /\ (work s1 < work s)%nat /\ run_on l s1 = Some s'.
Proof.
  intros I Hc E. destruct c as [| |d]; [| |done]; simpl in E.
  - destruct (proc_step true s) as [s1|] eqn:E1; [|done]. exists s1. split; [eapply sig_inv_step; [done|by eapply step_proc]|].
    split; [|done]. unfold proc_step in E1. destruct (run s) eqn:Er; try done; [by eapply proc_work|by eapply handler_work].
  - destruct (deliver s) as [s1|] eqn:E1; [|done]. exists s1. split; [eapply sig_inv_step; [done|by apply step_signal]|].
    split; [|done]. unfold deliver in E1. unfold work. destruct (run s) eqn:Er; try done.
    destruct (pending (sg s)) eqn:Ep; [|done]. simpl in E1. destruct (unmasked p (sg s)); [|done]. injection E1 as <-. simpl.
    unfold live, signalled. rewrite Ep. simpl. lia.
Qed.

Lemma quiet_bound l s s' : inv s -> Forall quiet l -> run_on l s = Some s' -> (length l + work s' <= work s)%nat.
Proof.
  revert s. induction l as [|c l IH]; intros s I Hl E; [simpl in E; injection E as ->; simpl; lia|].
  apply Forall_cons in Hl as [Hc Hl]. destruct (quiet_work _ _ _ _ I Hc E) as (s1 & I1 & Hw & E1).
  specialize (IH _ I1 Hl E1). simpl. lia.
Qed.

Lemma run_on_app l l' s : run_on (l ++ l') s = run_on l s ≫= run_on l'.
Proof.
  revert s. induction l as [|[| |d] l IH]; intros s; simpl; [done| | |apply IH].
  - destruct (proc_step true s); [apply IH|done].
  - destruct (deliver s); [apply IH|done].
Qed.

(** recvfrom() waits in the handler: the socket is empty, and blocking still. *)
Definition handler_waits (s : state) : Prop :=
  exists n, run s = Handler n PNbio /\ nbio (sg s) = false /\ sockq s = [] /\ (nqueue s < QSIZE)%nat.

(** A process that is not waiting and has not ended can go on: no index leaves an
    array. *)
Lemma can_go b p s q : ok p s q -> pc_of (run s) = Some p -> run s <> Main PSleep -> is_Some (proc_step b s) \/ handler_waits s.
Proof.
  intros [K1 K2 [K3 K3'] K4 K5 K6 K7 K8 K9 K10 K11 (F1 & F2 & F3 & F4 & F5)] Hp Hn. unfold proc_step.
  destruct (run s) as [p'|n p'| |] eqn:Er; simpl in Hp; try done; injection Hp as ->.
  - left. destruct p; simpl; try done; try (by eexists). destruct b; [|by eexists].
    destruct (lookup_lt_is_Some_2 (dg s) (iget s)) as [d ->]; [lia|]. by eexists.
  - destruct K11 as (Hm & Hu & Ha). unfold handler_step. case_decide; [left; by eexists|]. destruct b; [|left; by eexists]. simpl.
    destruct (sockq s) as [|[d from] sq] eqn:Eq.
    + destruct (nbio (sg s)) eqn:Eb.
      * left. destruct (lookup_lt_is_Some_2 (cntread s) n) as [c ->]; [lia|]. by eexists.
      * destruct p; try done. right. exists n. split_and!; try done. lia.
    + left. destruct (lookup_lt_is_Some_2 (dg s) (iput s)) as [c ->]; [|by eexists].
      rewrite K1, K7. apply idx_lt; [done|]. lia.
Qed.

Definition waits (s : state) : Prop := proc_step true s = None /\ deliver s = None.

Lemma proc_arrived b s s' : proc_step b s = Some s' -> arrived s' = arrived s.
Proof.
  unfold proc_step. destruct (run s) as [p|n p| |]; try done.
  - destruct p, b; simpl; try destruct (dg s !! iget s); simpl; intros E; try done; by simplify_eq.
  - unfold handler_step. case_decide; [intros E; by injection E as <-|]. destruct b; simpl; [|intros E; by injection E as <-].
    destruct (sockq s) as [|[d from] q].
    + destruct (nbio (sg s)); [|done]. destruct (cntread s !! n); [intros E; by injection E as <-|done].
    + destruct (dg s !! iput s); [intros E; by injection E as <-|done].
Qed.

Lemma run_on_arrived l s s' : Forall quiet l -> run_on l s = Some s' -> arrived s' = arrived s.
Proof.
  revert s. induction l as [|c l IH]; intros s Hl E; [simpl in E; by injection E as ->|].
  apply Forall_cons in Hl as [Hc Hl]. destruct c; [| |done]; simpl in E.
  - destruct (proc_step true s) as [s1|] eqn:E1; [|done]. rewrite (IH _ Hl E). by eapply proc_arrived.
  - destruct (deliver s) as [s1|] eqn:E1; [|done]. rewrite (IH _ Hl E). clear -E1.
    unfold deliver in E1. repeat case_match; by simplify_eq/=.
Qed.

Lemma reached_run w l s s' : reached w s -> run_on l s = Some s' -> reached w s'.
Proof. intros H E. eapply reachable_rtc; [exact H|by eapply run_on_rtc]. Qed.

(** What is left when the process waits. *)
Lemma rest_state s : inv s -> waits s ->
  run s = Overflow \/ run s = Failed \/ handler_waits s \/
  run s = Main PSleep /\ nqueue s = 0%nat /\ pending (sg s) = false /\
    (noticed s -> early (sg s) = false -> sent s = map cut (arrived s)).
Proof.
  intros I [Hp Hd]. unfold inv in I. destruct (pc_of (run s)) as [p|] eqn:Ep; [|destruct (run s); try done; auto].
  destruct I as [q K]. destruct (decide (run s = Main PSleep)) as [Er|Hn].
  2: { destruct (can_go true _ _ _ K Ep Hn) as [[s' E]|Hw]; [by rewrite E in Hp|auto]. }
  right; right; right. rewrite Er in Ep. injection Ep as <-. unfold deliver in Hd. rewrite Er, andb_true_r in Hd.
  destruct (pending (sg s)) eqn:Epd; [done|]. destruct K as [_ _ _ _ K5 _ _ _ (dn & Hs & Ha) _ K11 (_ & _ & F3 & _)]. rewrite Er in K11.
  subst q. split_and!; try done. unfold noticed. rewrite Er. intros Hq He. specialize (Hq He F3).
  destruct Hq as [Hq|]; [|congruence]. by rewrite Hs, Ha, Hq, !app_nil_r.
Qed.

(** Nothing was in the socket when FIOASYNC was set, or it has not been set. *)
Lemma noticed_reach w s : reached w s -> noticed s.
Proof. apply reachable_inv; [by intros ? (b & _ & ->)|apply noticed_step]. Qed.

(** A datagram between FIOASYNC and FIONBIO. *)
Definition between (d : datagram) : list choice := [CProc; CArrive d; CSignal; CProc].

(** C22: dg_echo() and the handler of SIGIO, with datagrams and signals arriving at any
    moment at which the signal is not blocked: the datagrams that arrived are echoed
    to their senders, each once, in order and cut at MAXDG bytes, and none is
    overwritten in the ring; the process leaves none of its arrays; between two
    datagrams it runs for a bounded number of steps, and when it then sleeps in
    sigsuspend() everything that has arrived is echoed, provided that nothing was in the
    socket when FIOASYNC was set: no signal is lost between the test of [nqueue] and
    sigsuspend(), and no change of [nqueue] by the handler during nqueue--.  Otherwise
    it has ended, or its handler waits in recvfrom(), which happens when a datagram
    comes between FIOASYNC and FIONBIO.  The handler ends the program exactly when it
    finds the ring full, before it knows whether there is another datagram, so the last
    entry of [cntread] stays 0; and with datagrams that came before FIOASYNC the program
    sleeps, whatever they are. *)
Theorem sigio_echo waiting s : reached waiting s ->
  (exists rest, map cut (arrived s) = sent s ++ rest) /\
  (forall b p, pc_of (run s) = Some p -> run s <> Main PSleep -> is_Some (proc_step b s) \/ handler_waits s) /\
  (forall l s', Forall quiet l -> run_on l s = Some s' ->
     (length l <= work s)%nat /\
     (waits s' ->
        run s' = Overflow \/ run s' = Failed \/ handler_waits s' \/
        run s' = Main PSleep /\ nqueue s' = 0%nat /\ pending (sg s') = false /\
        (early (sg s') = false -> sent s' = map cut (arrived s)))) /\
  (forall n p, run s = Handler n p ->
     cntread s !! QSIZE = Some 0 /\
     (proc_step true s = Some (set_run s Overflow) <-> nqueue s = QSIZE)) /\
  (forall b, buffers_ok b ->
     (exists s', run_on (replicate 5 CProc) (init b waiting) = Some s' /\ waits s' /\ sent s' = []) /\
     forall d, exists s', run_on (between d) (init b []) = Some s' /\ waits s' /\ handler_waits s' /\ sent s' = []).
Proof.
  intros R. pose proof (inv_reach _ _ R) as I. split_and!.
  - unfold inv in I. destruct (pc_of (run s)); [|done]. destruct I as [q K]. by eapply sent_prefix.
  - intros b p Ep Hn. unfold inv in I. rewrite Ep in I. destruct I as [q K]. by eapply can_go.
  - intros l s' Hl E. split; [pose proof (quiet_bound _ _ _ I Hl E); lia|]. intros Hw.
    pose proof (reached_run _ _ _ _ R E) as R'.
    destruct (rest_state _ (inv_reach _ _ R') Hw) as [|[|[|(H1 & H2 & H3 & H4)]]]; [by left|by right; left|by right; right; left|].
    right; right; right. split_and!; try done. rewrite <- (run_on_arrived _ _ _ Hl E). by eapply H4, noticed_reach.
  - intros n p Er. unfold inv in I. rewrite Er in I. destruct I as [q K]. split; [by apply (k_cnt _ _ _ K)|].
    pose proof (k_max _ _ _ K). unfold proc_step. rewrite Er. unfold handler_step. case_decide as Hf.
    + split; [intros _; lia|done].
    + split; [|lia]. simpl. destruct (sockq s) as [|[d from] sq].
      * destruct (nbio (sg s)); [|done]. destruct (cntread s !! n); intros E; [|done]. injection E. intros; congruence.
      * destruct (dg s !! iput s); intros E; [|done]. injection E. intros; congruence.
  - intros b [Hl Hb]. split; [eexists; split; [reflexivity|]; done|]. intros [d from].
    destruct b as [|b0 b]; [done|]. eexists. split; [reflexivity|]. split; [done|]. split; [|done].
    exists 1%nat. split_and!; try done. simpl. unfold QSIZE. lia.
Qed.

(** A run: a datagram arrives while dg_echo() sleeps, another while it sends. *)
Definition ex_buffers : list DG := replicate QSIZE (Dg (replicate MAXDG 0) 0 []).
Definition ex_run : list choice :=
  replicate 5 CProc ++ [CArrive ([104; 105], [2; 0]); CSignal; CProc; CProc; CProc; CProc; CArrive ([33], [2; 1])].
Definition ex_state : state := default (init ex_buffers []) (run_on ex_run (init ex_buffers [])).

Lemma ex_start : start [] (init ex_buffers []).
Proof.
  exists ex_buffers. split; [|done]. split; [done|]. unfold ex_buffers. apply Forall_replicate. unfold dg_data. apply length_replicate.
Qed.

Lemma sigio_echo_witness :
  reached [] ex_state /\ run ex_state = Main PSend /\ nqueue ex_state = 1%nat /\
  exists rest, map cut (arrived ex_state) = sent ex_state ++ rest.
Proof.
  assert (H : reached [] ex_state).
  { apply (reached_run [] ex_run (init ex_buffers [])); [apply reach_init, ex_start|]. vm_compute. reflexivity. }
  split; [exact H|]. split; [vm_compute; reflexivity|]. split; [vm_compute; reflexivity|].
  apply (sigio_echo [] ex_state H).
Defined.

(** The two datagrams are echoed. *)
Example sigio_two :
  let s := default ex_state (run_on (CSignal :: replicate 16 CProc) ex_state) in
  run s = Main PSleep /\ sent s = [([104; 105], [2; 0]); ([33], [2; 1])].
Proof. split; vm_compute; reflexivity. Qed.

(** Eight datagrams fit in the ring; the program quits all the same. *)
Example sigio_full :
  let s := run_on (replicate 5 CProc ++ replicate 8 (CArrive ([1], [])) ++ [CSignal] ++ replicate 9 CProc) (init ex_buffers []) in
  run <$> s = Some Overflow /\ sockq <$> s = Some [] /\ sent <$> s = Some [].
Proof. split_and!; vm_compute; reflexivity. Qed.
