(* ===== verification/UdpCksum.v ===== *)
(** * A UDP datagram made by hand, and its checksum

    Model of src/UNPLearning/unpv13e/udpcksum: udp_write() (udpwrite.c) and
    send_dns_query() (senddnsquery-raw.c), which make an IP datagram byte by byte
    around the checksum of [Cksum.v]; next_pcap() (pcap.c), udp_read() and udp_check()
    (udpread.c), which look at a captured frame; test_udp() (udpcksum.c), which sends
    the query up to three times.  The buffers are bytes; the structures udpiphdr and ip
    lie over each other, as in the program. *)

From S2P Require Import Prelude Cksum Icmp Traced.

Definition TTL_OUT : Z := 64.
Definition IPVERSION : Z := 4.
(** sizeof(struct udpiphdr) and sizeof(struct udphdr). *)
Definition SIZE_UDPIP : nat := 28.
Definition SIZE_UDP : nat := 8.

Section Host.
(** The byte order of the host; whether ip_len is sent in network byte order (Linux,
    OpenBSD); the addresses [local] and [dest], struct sockaddr_in; the option -0. *)
Context (be net_len : bool) (local dest : list Z) (zerosum : Z).

(** ** udp_write() *)

(** The UDP header and the pseudoheader. *)
Definition fill_udp (buf : list Z) (userlen : Z) : option (list Z) :=
  b ← write_at buf 0 (replicate SIZE_UDPIP 0);
  b ← write_at b 10 (port_bytes (Z.of_nat SIZE_UDP + userlen));
  b ← write_at b 9 [IPPROTO_UDP];
  src ← read_at local 4 4; b ← write_at b 12 src;
  dst ← read_at dest 4 4; b ← write_at b 16 dst;
  sport ← read_at local 2 2; b ← write_at b 20 sport;
  dport ← read_at dest 2 2; b ← write_at b 22 dport;
  ui_len ← read_at b 10 2; write_at b 24 ui_len.

(** if (zerosum == 0) { if ((ui->ui_sum = in_cksum(ui, userlen)) == 0) ui->ui_sum = 0xffff; } *)
Definition set_sum (b : list Z) (len : Z) : option (list Z) :=
  if zerosum =? 0 then
    c ← Cksum.in_cksum be b len;
    b ← write_at b 26 (Cksum.bytes16 be c);
    if c =? 0 then write_at b 26 (Cksum.bytes16 be 0xffff) else Some b
  else Some b.

(** The IP header: version and length share a byte. *)
Definition fill_ip (b : list Z) (len : Z) : option (list Z) :=
  b ← write_at b 0 [Z.lor (Z.shiftl IPVERSION 4) (Z.shiftr (Z.of_nat SIZE_IP) 2)];
  b ← write_at b 1 [0];
  b ← write_at b 2 (store_bytes (net_len || be) 2 len);
  b ← write_at b 4 (store_bytes be 2 0);
  b ← write_at b 6 (store_bytes be 2 0);
  write_at b 8 [TTL_OUT].

(** The datagram given to sendto(), and the buffer. *)
Definition udp_write (buf : list Z) (userlen : Z) : option (list Z * list Z) :=
  b ← fill_udp buf userlen;
  let userlen := userlen + Z.of_nat SIZE_UDPIP in
  b ← set_sum b userlen;
  b ← fill_ip b userlen;
  d ← read_at b 0 (Z.to_nat userlen);
  Some (d, b).

(** ** send_dns_query() *)

(** The string of memcpy(): 1 a, 12 root-servers, 3 net, and the root. *)
Definition qname : list Z :=
  [1; 97; 12; 114; 111; 111; 116; 45; 115; 101; 114; 118; 101; 114; 115; 3; 110; 101; 116; 0].

(** The stores at [ptr], one after the other. *)
Fixpoint put (buf : list Z) (ptr : nat) (l : list (list Z)) : option (list Z * nat) :=
  match l with
  | [] => Some (buf, ptr)
  | bs :: l' => b ← write_at buf ptr bs; put b (ptr + length bs) l'
  end.

Definition query : list (list Z) :=
  [port_bytes 1234; port_bytes 0x0100; port_bytes 1; store_bytes be 2 0; store_bytes be 2 0; store_bytes be 2 0;
   qname; port_bytes 1; port_bytes 1].

(** [mem]: what malloc() returns. *)
Definition send_dns_query (mem : list Z) : option (list Z * list Z) :=
  '(buf, ptr) ← put mem SIZE_UDPIP query;
  let nbytes := (ptr - SIZE_UDPIP)%nat in
  udp_write buf (Z.of_nat nbytes).

(** ** udp_read() *)

Inductive link := DLT_NULL | DLT_EN10MB | DLT_SLIP | DLT_PPP | DLT_other.

Definition ETHERTYPE_IP : list Z := [8; 0].

(** The comparison of an int with a sum of sizes: the int becomes a size_t. *)
Definition int_lt_size (len size : Z) : bool := u64 len <? size.

(** udp_check(ptr, len), [ptr] at [off] in the captured bytes [cap]: the bytes with
    ip_sum overwritten.  [Exit 1] is err_quit(), [Abort] an access outside [cap]. *)
Definition udp_check (cap : list Z) (off : nat) (len : Z) : outcome (list Z) :=
  if int_lt_size len (Z.of_nat SIZE_IP + Z.of_nat SIZE_UDP) then Exit 1 else
  match cap !! off with
  | None => Abort
  | Some b0 =>
      if negb (Z.shiftr b0 4 =? IPVERSION) then Exit 1 else
      let hlen := ip_hlen b0 in
      if int_lt_size (Z.of_nat hlen) (Z.of_nat SIZE_IP) then Exit 1 else
      if int_lt_size len (Z.of_nat hlen + Z.of_nat SIZE_UDP) then Exit 1 else
      match Cksum.in_cksum be (drop off cap) (Z.of_nat hlen) with
      | None => Abort
      | Some c =>
          match write_at cap (off + 10) (Cksum.bytes16 be c), cap !! (off + 9)%nat with
          | Some cap', Some p =>
              if negb (c =? 0) then Exit 1 else if p =? IPPROTO_UDP then Ret cap' else Exit 1
          | _, _ => Abort
          end
      end
  end.

(** The captured frame [cap], its link layer; the offset of the datagram too. *)
Definition udp_read (datalink : link) (cap : list Z) : outcome (list Z * nat) :=
  let check off := match udp_check cap off (Z.of_nat (length cap) - Z.of_nat off) with
                   | Ret c => Ret (c, off) | Fail e => Fail e | Exit x => Exit x | Abort => Abort | Blocked => Blocked
                   end in
  match datalink with
  | DLT_NULL => check 4%nat
  | DLT_EN10MB =>
      match read_at cap 12 2 with
      | None => Abort
      | Some ty => if decide (ty = ETHERTYPE_IP) then check 14%nat else Exit 1
      end
  | DLT_SLIP => check 24%nat
  | DLT_PPP => check 24%nat
  | DLT_other => Exit 1
  end.

(** next_pcap(): it calls pcap_next() until there is a frame. *)
Fixpoint next_pcap (frames : list (option (list Z))) : option (list Z) :=
  match frames with
  | [] => None
  | None :: frames' => next_pcap frames'
  | Some f :: _ => Some f
  end.

(** ** test_udp() *)

(** What test_udp() does: a query, an alarm, the answer it prints. *)
Inductive event := Sent (d : list Z) | Alarm (secs : Z) | Timeout | ChecksumsOff | ChecksumsOn.

(** if (ui->ui_sum == 0) ..., with ui at the start of the IP header *)
Definition report (r : list Z * nat) : traced event unit :=
  match read_at (fst r) (snd r + 26) 2 with
  | None => Abort
  | Some s => emit [if Cksum.load16 be (nth 0 s 0) (nth 1 s 0) =? 0 then ChecksumsOff else ChecksumsOn]
  end.

(** [tries]: for each query, what pcap_next() returns until the alarm goes off, or
    until a frame comes; [mems]: what malloc() returns. *)
Fixpoint test_udp (datalink : link) (tries : list (list (option (list Z)))) (mems : list (list Z)) (nsent timeout : Z) : traced event unit :=
  match tries, mems with
  | t :: tries', mem :: mems' =>
      match send_dns_query mem with
      | None => Abort
      | Some (d, _) =>
          andthen (emit [Sent d; Alarm timeout]) (fun _ =>
          match next_pcap t with
          | Some f =>
              match udp_read datalink f with
              | Ret r => andthen (emit [Alarm 0]) (fun _ => report r)
              | Fail e => Fail e | Exit x => Exit x | Abort => Abort | Blocked => Blocked
              end
          | None =>
              if nsent + 1 >=? 3 then Exit 1 else
              andthen (emit [Timeout]) (fun _ => test_udp datalink tries' mems' (nsent + 1) (s32 (timeout * 2)))
          end)
      end
  | _, _ => Blocked
  end.
End Host.

Lemma read_at_prefix l r n : n = length l -> read_at (l ++ r) 0 n = Some l.
Proof. intros ->. by apply (read_at_mid [] l r). Qed.

(** ** The checksum does not look behind the packet *)

Lemma in_cksum_prefix be bs r :
  Cksum.in_cksum be (bs ++ r) (Z.of_nat (length bs)) = Cksum.in_cksum be bs (Z.of_nat (length bs)).
Proof.
  unfold Cksum.in_cksum. generalize 0. induction bs as [|b|a b bs IH] using Cksum.list_pair_ind; intros s.
  - by destruct r.
  - by destruct r.
  - replace (Z.of_nat (length (a :: b :: bs))) with (Z.of_nat (length bs) + 2) by (simpl; lia).
    cbn [Cksum.sum_loop app]. replace (Z.of_nat (length bs) + 2 >? 1) with true by (symmetry; rewrite Z.gtb_ltb, Z.ltb_lt; lia).
    replace (Z.of_nat (length bs) + 2 - 2) with (Z.of_nat (length bs)) by lia. apply IH.
Qed.

(** ** What udp_write() makes *)

(** The fields of an Internet address with the port in front. *)
Record in_addr_port := InAP { ap_port : list Z; ap_addr : list Z }.
Definition ap_ok (a : in_addr_port) : Prop :=
  length (ap_port a) = 2%nat /\ length (ap_addr a) = 4%nat /\ Forall is_byte (ap_port a) /\ Forall is_byte (ap_addr a).
(** A struct sockaddr_in with these fields. *)
Definition in_sockaddr (sa : list Z) (a : in_addr_port) : Prop :=
  exists f z, length f = 2%nat /\ sa = f ++ ap_port a ++ ap_addr a ++ z.

(** RFC 768: the pseudoheader, and the datagram with checksum field [sum]. *)
Definition pseudo (l r : in_addr_port) (ulen : Z) : list Z :=
  ap_addr l ++ ap_addr r ++ [0; IPPROTO_UDP] ++ port_bytes ulen.
Definition udp_datagram (l r : in_addr_port) (ulen : Z) (sum user : list Z) : list Z :=
  ap_port l ++ ap_port r ++ port_bytes ulen ++ sum ++ user.
(** The IP header as udp_write() leaves it: the kernel sets the identification and
    the checksum, where the length of the pseudoheader still stands. *)
Definition ip_header (order : bool) (l r : in_addr_port) (len ulen : Z) : list Z :=
  [69; 0] ++ store_bytes order 2 len ++ [0; 0; 0; 0; TTL_OUT; IPPROTO_UDP] ++ port_bytes ulen ++ ap_addr l ++ ap_addr r.

(** Over the same bytes, the pseudoheader as the program lays it out. *)
Definition laid_out (l r : in_addr_port) (ulen : Z) : list Z :=
  [0; 0; 0; 0; 0; 0; 0; 0; 0; IPPROTO_UDP] ++ port_bytes ulen ++ ap_addr l ++ ap_addr r.

Ltac two l := let x := fresh in let y := fresh in destruct l as [|x [|y [|]]]; try done.

Lemma fill_udp_spec local dest l r hdr user rest :
  in_sockaddr local l -> in_sockaddr dest r -> ap_ok l -> ap_ok r -> length hdr = SIZE_UDPIP ->
  fill_udp local dest (hdr ++ user ++ rest) (Z.of_nat (length user)) =
  Some (laid_out l r (8 + Z.of_nat (length user)) ++ udp_datagram l r (8 + Z.of_nat (length user)) [0; 0] user ++ rest).
Proof.
  intros (f & z & Hf & ->) (f' & z' & Hf' & ->) (Hp & Ha & _) (Hp' & Ha' & _) Hh.
  destruct l as [lp la], r as [rp ra]. unfold fill_udp, laid_out, udp_datagram. cbn [ap_port ap_addr] in *.
  rewrite (write_at_eq _ [] hdr (user ++ rest)) by (done || by rewrite length_replicate). clear Hh hdr.
  replace (Z.of_nat SIZE_UDP) with 8 by done.
  destruct (port_bytes_two (8 + Z.of_nat (length user))) as (h & w & -> & _ & _ & _).
  destruct f as [|? [|? [|]]]; try done. destruct f' as [|? [|? [|]]]; try done.
  destruct lp as [|? [|? [|]]]; try done. destruct rp as [|? [|? [|]]]; try done.
  destruct la as [|? [|? [|? [|? [|]]]]]; try done. destruct ra as [|? [|? [|? [|? [|]]]]]; try done.
Qed.

(** The UDP checksum field as a number, and in memory. *)
Definition udp_sum (be : bool) (l r : in_addr_port) (user : list Z) : Z :=
  let ulen := 8 + Z.of_nat (length user) in
  let c := 65535 - Cksum.norm (Cksum.total (Cksum.words be (laid_out l r ulen ++ udp_datagram l r ulen [0; 0] user))) in
  if c =? 0 then 65535 else c.

Lemma port_bytes_byte v : Forall is_byte (port_bytes v).
Proof. apply store_bytes_byte. Qed.

Lemma laid_out_byte l r ulen : ap_ok l -> ap_ok r -> Forall is_byte (laid_out l r ulen).
Proof.
  intros (_ & _ & _ & Ha) (_ & _ & _ & Hb). unfold laid_out. rewrite !Forall_app. split_and!; auto using port_bytes_byte.
  by repeat (constructor; [unfold is_byte, IPPROTO_UDP; lia|]).
Qed.

Lemma datagram_byte l r ulen sum user : ap_ok l -> ap_ok r -> Forall is_byte sum -> Forall is_byte user ->
  Forall is_byte (udp_datagram l r ulen sum user).
Proof.
  intros (_ & _ & Ha & _) (_ & _ & Hb & _) Hs Hu. unfold udp_datagram. rewrite !Forall_app. auto using port_bytes_byte.
Qed.

Lemma length_laid_out l r ulen : ap_ok l -> ap_ok r -> length (laid_out l r ulen) = SIZE_IP.
Proof.
  intros (_ & Ha & _) (_ & Hb & _). unfold laid_out. rewrite !length_app, Ha, Hb. unfold port_bytes. by rewrite length_store_bytes.
Qed.

Lemma length_datagram l r ulen sum user : ap_ok l -> ap_ok r -> length sum = 2%nat ->
  length (udp_datagram l r ulen sum user) = (8 + length user)%nat.
Proof.
  intros (Ha & _) (Hb & _) Hs. unfold udp_datagram. rewrite !length_app, Ha, Hb, Hs. unfold port_bytes. by rewrite length_store_bytes.
Qed.

Definition udp_fits (user : list Z) : Prop := Forall is_byte user /\ (length user <= Nat.pow 2 16)%nat.

Lemma small_pow n : (n <= Nat.pow 2 16)%nat -> (28 + n <= Nat.pow 2 17)%nat.
Proof. rewrite (Nat.pow_succ_r' 2 16). intros H. enough (28 <= Nat.pow 2 16)%nat by lia. apply Nat.leb_le. vm_compute. done. Qed.

Section Sums.
Context (l r : in_addr_port) (user : list Z).
Hypothesis (Hl : ap_ok l) (Hr : ap_ok r) (Hu : udp_fits user).
Local Abbreviation ulen := (8 + Z.of_nat (length user)).
Local Abbreviation empty := (laid_out l r ulen ++ udp_datagram l r ulen [0; 0] user).

Lemma empty_byte : Forall is_byte empty.
Proof.
  destruct Hu as [Hb _]. apply Forall_app. split; [by apply laid_out_byte|]. apply datagram_byte; try done.
  by repeat (constructor; [unfold is_byte; lia|]).
Qed.

Lemma length_empty : length empty = (28 + length user)%nat.
Proof. rewrite length_app, length_laid_out, length_datagram by done. done. Qed.

Lemma empty_pos be : 0 < Cksum.total (Cksum.words be empty).
Proof.
  pose proof empty_byte as Hb. unfold laid_out in *. rewrite <- app_assoc in *. cbn [app Cksum.words] in *. 
  rewrite !Forall_cons in Hb. destruct Hb as (_ & _ & _ & _ & _ & _ & _ & _ & _ & _ & Hb).
  pose proof (Cksum.total_nonneg _ (Cksum.words_range be _ Hb)) as Hn. unfold Cksum.total in *. cbn [foldr] in *.
  destruct be; cbn [Cksum.load16]; unfold IPPROTO_UDP; lia.
Qed.

Lemma udp_sum_range be : 0 < udp_sum be l r user <= 65535.
Proof.
  pose proof (empty_pos be). pose proof (Cksum.norm_range _ (Z.lt_le_incl _ _ H)). pose proof (Cksum.norm_zero _ (Z.lt_le_incl _ _ H)).
  unfold udp_sum. cbv zeta. destruct (_ =? 0) eqn:E; bprop; lia.
Qed.

(** The sum the receiver takes over pseudoheader and datagram: the same words in
    another order, and the checksum. *)
Lemma verified_total be v : 0 <= v < 65536 ->
  Cksum.total (Cksum.words be (pseudo l r ulen ++ udp_datagram l r ulen (Cksum.bytes16 be v) user)) =
  Cksum.total (Cksum.words be empty) + v.
Proof.
  intros Hv. destruct (Cksum.load16_bytes16 be v Hv) as (x & y & -> & _ & _ & Ex).
  destruct Hl as (Hp & Ha & _), Hr as (Hp' & Ha' & _). clear Hl Hr Hu.
  destruct l as [lp la], r as [rp ra]. unfold pseudo, laid_out, udp_datagram. cbn [ap_port ap_addr] in *.
  destruct (port_bytes_two ulen) as (h & w & -> & _ & _ & _).
  two lp. two rp.
  destruct la as [|? [|? [|? [|? [|]]]]]; try done. destruct ra as [|? [|? [|? [|? [|]]]]]; try done.
  cbn [app Cksum.words Cksum.total foldr]. rewrite Ex. assert (Cksum.load16 be 0 0 = 0) as -> by by destruct be. lia.
Qed.

Lemma udp_sum_verifies be :
  Cksum.norm (Cksum.total (Cksum.words be (pseudo l r ulen ++ udp_datagram l r ulen (Cksum.bytes16 be (udp_sum be l r user)) user))) = 65535.
Proof.
  rewrite verified_total by (pose proof (udp_sum_range be); lia). unfold udp_sum.
  pose proof (empty_pos be) as Hp. set (T := Cksum.total (Cksum.words be empty)) in *.
  destruct (Cksum.norm_congr T ltac:(lia)) as (k & Hk & Ek). pose proof (Cksum.norm_range T ltac:(lia)). cbv zeta.
  destruct (_ =? 0) eqn:E; bprop; [apply (Cksum.norm_unique _ _ (k + 1))|apply (Cksum.norm_unique _ _ k)]; lia.
Qed.

(** Whatever the byte order of the receiver. *)
Lemma udp_sum_accepted be be' :
  let p := pseudo l r ulen ++ udp_datagram l r ulen (Cksum.bytes16 be (udp_sum be l r user)) user in
  Cksum.in_cksum be' p (Z.of_nat (length p)) = Some 0.
Proof.
  cbv zeta. set (p := pseudo l r ulen ++ _).
  assert (Hb : Forall is_byte p).
  { pose proof Hl as (_ & _ & _ & Ha). pose proof Hr as (_ & _ & _ & Ha'). destruct Hu as [Hb _]. unfold p, pseudo.
    rewrite !Forall_app. split_and!; auto using port_bytes_byte.
    - by repeat (constructor; [unfold is_byte, IPPROTO_UDP; lia|]).
    - apply datagram_byte; try done. apply Cksum.bytes16_byte. pose proof (udp_sum_range be). lia. }
  assert (Hn : (length p <= Nat.pow 2 17)%nat).
  { unfold p, pseudo. rewrite !length_app, length_datagram by (done || apply Cksum.length_bytes16).
    pose proof Hl as (_ & -> & _). pose proof Hr as (_ & -> & _). destruct Hu as [_ Hn].
    unfold port_bytes. rewrite length_store_bytes. cbn [length]. apply small_pow in Hn. lia. }
  rewrite Cksum.in_cksum_norm by done. f_equal.
  pose proof (udp_sum_verifies be) as E. fold p in E.
  destruct (decide (be' = be)) as [->|Hne]; [lia|].
  replace be' with (negb be) by (by destruct be, be'). rewrite Cksum.norm_total_swap, E by done. done.
Qed.
End Sums.

Lemma set_sum_spec be zerosum l r user rest : ap_ok l -> ap_ok r -> udp_fits user ->
  let ulen := 8 + Z.of_nat (length user) in
  set_sum be zerosum (laid_out l r ulen ++ udp_datagram l r ulen [0; 0] user ++ rest) (Z.of_nat (length user) + 28) =
  Some (laid_out l r ulen ++
        udp_datagram l r ulen (if zerosum =? 0 then Cksum.bytes16 be (udp_sum be l r user) else [0; 0]) user ++ rest).
Proof.
  intros Hl Hr Hu ulen. unfold set_sum. destruct (zerosum =? 0); [|done].
  rewrite app_assoc. replace (Z.of_nat (length user) + 28) with (Z.of_nat (length (laid_out l r ulen ++ udp_datagram l r ulen [0; 0] user)))
    by (unfold ulen; rewrite length_empty by done; lia).
  rewrite in_cksum_prefix, Cksum.in_cksum_norm; [|by apply empty_byte|unfold ulen; rewrite length_empty by done; apply small_pow, Hu].
  cbn [mbind option_bind]. fold ulen. unfold udp_sum. fold ulen. cbv zeta.
  set (c := 65535 - _).
  assert (W : forall s s', length s = 2%nat -> length s' = 2%nat ->
    write_at (laid_out l r ulen ++ udp_datagram l r ulen s user ++ rest) 26 s' =
    Some (laid_out l r ulen ++ udp_datagram l r ulen s' user ++ rest)).
  { intros s s' Hs Hs'. rewrite (write_at_eq _ (laid_out l r ulen ++ ap_port l ++ ap_port r ++ port_bytes ulen) s (user ++ rest)).
    - unfold udp_datagram. by rewrite <- !app_assoc.
    - unfold udp_datagram. by rewrite <- !app_assoc.
    - pose proof Hl as (Hp & _). pose proof Hr as (Hp' & _). rewrite !length_app, length_laid_out, Hp, Hp' by done.
      unfold port_bytes. by rewrite length_store_bytes.
    - congruence. }
  rewrite <- app_assoc, W by (done || apply Cksum.length_bytes16). cbn [mbind option_bind].
  destruct (c =? 0); [|done]. apply W; apply Cksum.length_bytes16.
Qed.

Lemma fill_ip_spec be net_len l r ulen len tail :
  fill_ip be net_len (laid_out l r ulen ++ tail) len = Some (ip_header (net_len || be) l r len ulen ++ tail).
Proof.
  unfold fill_ip, laid_out, ip_header. generalize (length_store_bytes (net_len || be) 2 len).
  generalize (store_bytes (net_len || be) 2 len). intros s Hs. two s.
  rewrite <- !app_assoc. generalize (port_bytes ulen ++ ap_addr l ++ ap_addr r ++ tail). intros t.
  destruct be; reflexivity.
Qed.

(** The checksum field of the datagram. *)
Definition sum_field (be : bool) (zerosum : Z) (l r : in_addr_port) (user : list Z) : list Z :=
  if zerosum =? 0 then Cksum.bytes16 be (udp_sum be l r user) else [0; 0].

Lemma length_sum_field be zerosum l r user : length (sum_field be zerosum l r user) = 2%nat.
Proof. unfold sum_field. destruct (_ =? 0); [apply Cksum.length_bytes16|done]. Qed.

Lemma length_ip_header order l r len ulen : ap_ok l -> ap_ok r -> length (ip_header order l r len ulen) = SIZE_IP.
Proof.
  intros (_ & Ha & _) (_ & Hb & _). unfold ip_header, port_bytes. by rewrite !length_app, !length_store_bytes, Ha, Hb.
Qed.

Lemma udp_write_eq be net_len local dest zerosum l r hdr user rest :
  in_sockaddr local l -> in_sockaddr dest r -> ap_ok l -> ap_ok r -> length hdr = SIZE_UDPIP -> udp_fits user ->
  let n := Z.of_nat (length user) in
  let d := ip_header (net_len || be) l r (n + 28) (8 + n) ++ udp_datagram l r (8 + n) (sum_field be zerosum l r user) user in
  udp_write be net_len local dest zerosum (hdr ++ user ++ rest) n = Some (d, d ++ rest).
Proof.
  intros Hlo Hde Hl Hr Hh Hu n d. unfold udp_write, n. rewrite (fill_udp_spec _ _ l r) by done. cbn [mbind option_bind].
  change (Z.of_nat SIZE_UDPIP) with 28.
  rewrite set_sum_spec by done. cbn [mbind option_bind]. rewrite fill_ip_spec. cbn [mbind option_bind].
  fold (sum_field be zerosum l r user). rewrite app_assoc. fold d. rewrite read_at_prefix; [done|].
  unfold d. rewrite length_app, length_ip_header, length_datagram by (done || apply length_sum_field). unfold n, SIZE_IP. lia.
Qed.

(** ** udp_check() and udp_read() *)

Definition link_len (datalink : link) : option nat :=
  match datalink with DLT_NULL => Some 4%nat | DLT_EN10MB => Some 14%nat | DLT_SLIP => Some 24%nat | DLT_PPP => Some 24%nat | DLT_other => None end.

Lemma int_lt_nat n size : Z.of_nat n < 2 ^ 31 -> int_lt_size (Z.of_nat n) size = (Z.of_nat n <? size).
Proof. intros H. unfold int_lt_size. by rewrite wrap_small by lia. Qed.

Lemma int_lt_negative len size : - 2 ^ 31 <= len < 0 -> size < 2 ^ 32 -> int_lt_size len size = false.
Proof.
  intros H Hs. unfold int_lt_size, wrap. rewrite <- (Z.mod_unique len (2 ^ 64) (-1) (len + 2 ^ 64)) by lia.
  apply Z.ltb_ge. lia.
Qed.

(** in_cksum() reads its [len] bytes and no others. *)
Lemma in_cksum_reads be bs n : (n <= length bs)%nat -> is_Some (Cksum.in_cksum be bs (Z.of_nat n)).
Proof.
  intros H. rewrite <- (take_drop n bs). replace n with (length (take n bs)) at 3 by (rewrite length_take; lia).
  rewrite in_cksum_prefix. clear H. generalize (take n bs). intros l. unfold Cksum.in_cksum. generalize 0.
  induction l as [|b|a b l IH] using Cksum.list_pair_ind; intros s; [by eexists|by eexists|].
  replace (Z.of_nat (length (a :: b :: l))) with (Z.of_nat (length l) + 2) by (simpl; lia).
  cbn [Cksum.sum_loop]. replace (Z.of_nat (length l) + 2 >? 1) with true by (symmetry; rewrite Z.gtb_ltb, Z.ltb_lt; lia).
  replace (Z.of_nat (length l) + 2 - 2) with (Z.of_nat (length l)) by lia. apply IH.
Qed.

Lemma udp_check_reads be cap off : Z.of_nat (length cap) < 2 ^ 31 -> (off <= 24)%nat ->
  udp_check be cap off (Z.of_nat (length cap) - Z.of_nat off) = Abort <-> (length cap < off)%nat.
Proof.
  intros Hc Ho. unfold udp_check. change (Z.of_nat SIZE_IP + Z.of_nat SIZE_UDP) with 28.
  destruct (decide (length cap < off)%nat) as [H|H].
  - rewrite int_lt_negative by lia. by rewrite lookup_ge_None_2 by lia.
  - replace (Z.of_nat (length cap) - Z.of_nat off) with (Z.of_nat (length cap - off)) by lia. rewrite !int_lt_nat by lia.
    destruct (_ <? 28) eqn:E1; [split; [done|lia]|]. bprop.
    destruct (lookup_lt_is_Some_2 cap off) as [b0 ->]; [lia|].
    destruct (negb _); [split; [done|lia]|]. pose proof (ip_hlen_range b0).
    rewrite (int_lt_nat (ip_hlen b0)), (int_lt_nat (length cap - off)) by lia. destruct (_ <? Z.of_nat SIZE_IP) eqn:E2; [split; [done|lia]|].
    destruct (Z.of_nat (length cap - off) <? Z.of_nat (ip_hlen b0) + Z.of_nat SIZE_UDP) eqn:E3; [split; [done|lia]|]. bprop.
    unfold SIZE_IP, SIZE_UDP in *.
    destruct (in_cksum_reads be (drop off cap) (ip_hlen b0)) as [c ->]; [rewrite length_drop; lia|].
    destruct (write_at_some cap (off + 10) (Cksum.bytes16 be c)) as [cap' ->]; [rewrite Cksum.length_bytes16; lia|].
    destruct (lookup_lt_is_Some_2 cap (off + 9)) as [p ->]; [lia|].
    destruct (negb _); [split; [done|lia]|]. destruct (_ =? _); split; done || lia.
Qed.

(** A datagram with a right IP header is taken; ip_sum is overwritten with 0. *)
Lemma udp_check_takes be pre hdr dgram b0 t :
  hdr = b0 :: t -> Z.shiftr b0 4 = IPVERSION -> ip_hlen b0 = length hdr -> (SIZE_IP <= length hdr)%nat ->
  hdr !! 9%nat = Some IPPROTO_UDP -> Cksum.in_cksum be hdr (Z.of_nat (length hdr)) = Some 0 ->
  (SIZE_UDP <= length dgram)%nat -> Z.of_nat (length (pre ++ hdr ++ dgram)) < 2 ^ 31 ->
  exists hdr', write_at hdr 10 (Cksum.bytes16 be 0) = Some hdr' /\
    udp_check be (pre ++ hdr ++ dgram) (length pre) (Z.of_nat (length (hdr ++ dgram))) = Ret (pre ++ hdr' ++ dgram).
Proof.
  intros Eh Hv Hh Hs Hp Hc Hd Hm. rewrite !length_app in *. pose proof (ip_hlen_range b0) as Hr. unfold SIZE_IP, SIZE_UDP in *.
  destruct (write_at_some hdr 10 (Cksum.bytes16 be 0)) as [hdr' E']; [rewrite Cksum.length_bytes16; lia|].
  exists hdr'. split; [done|]. unfold udp_check, SIZE_IP, SIZE_UDP. rewrite !int_lt_nat by lia.
  replace (_ <? _) with false by (symmetry; apply Z.ltb_ge; lia).
  rewrite lookup_app_r, Nat.sub_diag, Eh by lia. cbn [app lookup list_lookup]. rewrite <- Eh. rewrite Hv, Z.eqb_refl. cbn [negb].
  rewrite Hh, (int_lt_nat (length hdr)), (int_lt_nat (length hdr + length dgram)) by lia.
  replace (_ <? Z.of_nat 20) with false by (symmetry; apply Z.ltb_ge; lia).
  replace (_ <? _) with false by (symmetry; apply Z.ltb_ge; lia).
  replace (b0 :: t ++ dgram) with (hdr ++ dgram) by (by rewrite Eh).
  rewrite drop_app_length, in_cksum_prefix, Hc.
  rewrite lookup_app_r by lia. replace (length pre + 9 - length pre)%nat with 9%nat by lia.
  rewrite lookup_app_l by lia. rewrite Hp.
  assert (W : write_at (pre ++ hdr ++ dgram) (length pre + 10) (Cksum.bytes16 be 0) = Some (pre ++ hdr' ++ dgram)).
  { clear -E' Hs. unfold write_at in *. case_decide as H; [|done]. injection E' as <-.
    rewrite decide_True by (rewrite !length_app; lia). f_equal.
    rewrite take_app_add, <- !app_assoc, take_app_le by lia. do 3 f_equal.
    rewrite <- Nat.add_assoc, drop_app_add, drop_app_le by lia. done. }
  by rewrite W.
Qed.

(** ** test_udp() *)

Definition dns : list Z := concat (query true).

Lemma dns_order be : concat (query be) = dns.
Proof. by destruct be. Qed.

Lemma put_spec l pre old rest : length old = length (concat l) ->
  put (pre ++ old ++ rest) (length pre) l = Some (pre ++ concat l ++ rest, (length pre + length (concat l))%nat).
Proof.
  revert pre old. induction l as [|bs l IH]; intros pre old Ho; simpl in *.
  - destruct old; [|done]. by rewrite Nat.add_0_r.
  - rewrite length_app in Ho. destruct (split_length old _ _ Ho) as (o1 & o2 & -> & H1 & H2). rewrite <- app_assoc.
    rewrite (write_at_mid pre o1) by done. cbn [mbind option_bind]. rewrite <- length_app, (app_assoc pre), (IH _ _ H2).
    by rewrite <- !app_assoc, !length_app, Nat.add_assoc.
Qed.

Section Query.
Context (be net_len : bool) (local dest : list Z) (zerosum : Z) (l r : in_addr_port).
Hypothesis (Hlo : in_sockaddr local l) (Hde : in_sockaddr dest r) (Hl : ap_ok l) (Hr : ap_ok r).

(** The datagram with the query. *)
Definition the_query : list Z :=
  ip_header (net_len || be) l r 64 44 ++ udp_datagram l r 44 (sum_field be zerosum l r dns) dns.

Lemma dns_fits : udp_fits dns.
Proof.
  split; [|apply Nat.leb_le; vm_compute; done]. apply (bool_decide_unpack _). vm_compute. done.
Qed.

Lemma send_dns_query_eq mem : (64 <= length mem)%nat ->
  exists buf, send_dns_query be net_len local dest zerosum mem = Some (the_query, buf).
Proof.
  intros Hm. destruct (split_length mem 28 (36 + (length mem - 64))) as (hdr & m & -> & Hh & Hm'); [lia|].
  destruct (split_length m _ _ Hm') as (old & rest & -> & Ho & _). unfold send_dns_query.
  replace SIZE_UDPIP with (length hdr) by done. rewrite put_spec by (rewrite dns_order; done).
  cbn [mbind option_bind]. rewrite dns_order. replace (length hdr + length dns - length hdr)%nat with (length dns) by lia.
  rewrite (udp_write_eq _ _ _ _ _ l r) by (done || apply dns_fits). eexists. done.
Qed.

Definition silent (t : list (option (list Z))) : Prop := Forall (fun f => f = None) t.

Lemma next_pcap_silent t : silent t -> next_pcap t = None.
Proof. induction 1 as [|f t -> _ IH]; done. Qed.

Local Abbreviation test := (test_udp be net_len local dest zerosum).

(** The trace of [n] queries without an answer. *)
Fixpoint unanswered (n : nat) (timeout : Z) : list event :=
  match n with O => [] | S n' => [Sent the_query; Alarm timeout; Timeout] ++ unanswered n' (timeout * 2) end.

Lemma test_silent datalink t ts mem ms nsent timeout : silent t -> (64 <= length mem)%nat ->
  test datalink (t :: ts) (mem :: ms) nsent timeout =
  if nsent + 1 >=? 3 then Exit 1
  else andthen (emit [Sent the_query; Alarm timeout; Timeout]) (fun _ => test datalink ts ms (nsent + 1) (s32 (timeout * 2))).
Proof.
  intros Hs Hm. cbn [test_udp]. destruct (send_dns_query_eq mem Hm) as [b ->]. rewrite next_pcap_silent by done.
  destruct (_ >=? 3); [done|]. simpl. by destruct (test datalink ts ms _ _) as [[[] ev]| | | |].
Qed.

(** A frame: a link header of the right size, on Ethernet with the type of IP, and a
    datagram with a right IP header without options. *)
Definition good_frame (datalink : link) (f hdr dgram : list Z) : Prop :=
  exists pre b0 t, f = pre ++ hdr ++ dgram /\ link_len datalink = Some (length pre) /\
    (datalink = DLT_EN10MB -> read_at f 12 2 = Some ETHERTYPE_IP) /\
    hdr = b0 :: t /\ Z.shiftr b0 4 = IPVERSION /\ ip_hlen b0 = length hdr /\ length hdr = SIZE_IP /\
    hdr !! 9%nat = Some IPPROTO_UDP /\ Cksum.in_cksum be hdr (Z.of_nat (length hdr)) = Some 0 /\
    (SIZE_UDP <= length dgram)%nat /\ Z.of_nat (length f) < 2 ^ 31.

Definition verdict (dgram : list Z) : event :=
  if decide (read_at dgram 6 2 = Some [0; 0]) then ChecksumsOff else ChecksumsOn.

Lemma load16_zero x y : is_byte x -> is_byte y -> Cksum.load16 be x y = 0 <-> [x; y] = [0; 0].
Proof.
  unfold is_byte, Cksum.load16. intros Hx Hy. destruct be; (split; [intros; assert (x = 0) as -> by lia; assert (y = 0) as -> by lia; done|intros [= -> ->]; done]).
Qed.

Lemma test_answer datalink t ts mem ms nsent timeout f hdr dgram : (64 <= length mem)%nat -> Forall is_byte dgram ->
  next_pcap t = Some f -> good_frame datalink f hdr dgram ->
  test datalink (t :: ts) (mem :: ms) nsent timeout = Ret (tt, [Sent the_query; Alarm timeout; Alarm 0; verdict dgram]).
Proof.
  intros Hm Hb Hn (pre & b0 & t0 & -> & Hk & Het & Eh & Hv & Hh & Hs & Hp & Hc & Hd & Hlen). cbn [test_udp].
  destruct (send_dns_query_eq mem Hm) as [b ->]. rewrite Hn.
  destruct (udp_check_takes be pre hdr dgram b0 t0 Eh Hv Hh) as (hdr' & Ew & Ec); try done; [lia|].
  apply length_write_at in Ew. unfold SIZE_IP, SIZE_UDP in *.
  assert (R : udp_read be datalink (pre ++ hdr ++ dgram) = Ret (pre ++ hdr' ++ dgram, length pre)).
  { unfold udp_read. replace (Z.of_nat (length (pre ++ hdr ++ dgram)) - Z.of_nat (length pre)) with (Z.of_nat (length (hdr ++ dgram)))
      by (rewrite !length_app; lia).
    destruct datalink; simpl in Hk; try done; injection Hk as Hk; rewrite ?Het, ?decide_True by done; rewrite Hk;
      (replace (Z.of_nat (length (pre ++ hdr ++ dgram)) - Z.of_nat (length pre)) with (Z.of_nat (length (hdr ++ dgram)))
         by (rewrite !length_app; lia)); by rewrite Ec. }
  rewrite R. unfold report. cbn [fst snd].
  destruct (read_at_some dgram 6 2) as (s & Es & Ls); [lia|].
  assert (E : read_at (pre ++ hdr' ++ dgram) (length pre + 26) 2 = Some s).
  { clear -Es Ew Hs Hd. unfold read_at in *. case_decide as H; [|done]. injection Es as <-. rewrite decide_True by (rewrite !length_app; lia).
    rewrite drop_app_add. replace 26%nat with (length hdr' + 6)%nat by lia. by rewrite drop_app_add. }
  rewrite E. unfold verdict. pose proof (read_at_byte _ _ _ _ Es Hb) as Hsb. rewrite Es.
  two s. rewrite !Forall_cons in Hsb. destruct Hsb as (Hx & Hy & _). cbn [nth].
  pose proof (load16_zero _ _ Hx Hy) as Hz. simpl.
  destruct (_ =? 0) eqn:E0; bprop; case_decide as Hd0; try done; exfalso; [apply Hd0; f_equal; by apply Hz|].
  apply E0, Hz. congruence.
Qed.
End Query.

#[global] Arguments test_udp : simpl never.

(** ** The properties *)

(** Udp_write(), for [local] and [dest] with any addresses and ports, a buffer with
    room for the headers in front of the data, and at most 64 KiB of data: it stores
    nothing outside the headers and sends an IP header with these addresses, the UDP
    header with these ports, and the data.  With the option -0 the checksum field is
    zero.  Otherwise it is not, and the sum that RFC 768 has the receiver take, over its
    own pseudoheader and the datagram, is right on a host of either byte order. *)
Theorem udp_write_valid be net_len local dest zerosum l r hdr user rest :
  in_sockaddr local l -> in_sockaddr dest r -> ap_ok l -> ap_ok r -> length hdr = SIZE_UDPIP -> udp_fits user ->
  let n := Z.of_nat (length user) in
  exists sum d,
    udp_write be net_len local dest zerosum (hdr ++ user ++ rest) n = Some (d, d ++ rest) /\
    d = ip_header (net_len || be) l r (n + 28) (8 + n) ++ udp_datagram l r (8 + n) sum user /\
    length sum = 2%nat /\
    (zerosum <> 0 -> sum = [0; 0]) /\
    (zerosum = 0 -> sum <> [0; 0] /\
       forall be', let p := pseudo l r (8 + n) ++ udp_datagram l r (8 + n) sum user in
                   Cksum.in_cksum be' p (Z.of_nat (length p)) = Some 0).
Proof.
  intros Hlo Hde Hl Hr Hh Hu n. exists (sum_field be zerosum l r user). eexists. split; [by apply udp_write_eq|].
  split; [done|]. split; [apply length_sum_field|]. unfold sum_field. split; intros Hz.
  - by rewrite (proj2 (Z.eqb_neq _ _)).
  - rewrite (proj2 (Z.eqb_eq _ _)) by done. split; [|intros be'; by apply udp_sum_accepted].
    pose proof (udp_sum_range l r user Hl Hr Hu be) as Hs.
    destruct (Cksum.load16_bytes16 be (udp_sum be l r user) ltac:(lia)) as (x & y & -> & _ & _ & E).
    intros [= -> ->]. destruct be; cbn in E; lia.
Qed.

Definition ex_sa (port addr : list Z) : list Z := [2; 0] ++ port ++ addr ++ replicate 8 0.

Lemma udp_write_valid_witness :
  exists sum d,
    udp_write false true (ex_sa [4; 210] [192; 168; 1; 7]) (ex_sa [0; 53] [198; 41; 0; 4]) 0 (replicate 28 255 ++ [104; 105; 33] ++ [7]) 3 =
      Some (d, d ++ [7]) /\
    d = ip_header true (InAP [4; 210] [192; 168; 1; 7]) (InAP [0; 53] [198; 41; 0; 4]) 31 11 ++
        udp_datagram (InAP [4; 210] [192; 168; 1; 7]) (InAP [0; 53] [198; 41; 0; 4]) 11 sum [104; 105; 33] /\
    length sum = 2%nat /\ (0 <> 0 -> sum = [0; 0]) /\
    (0 = 0 -> sum <> [0; 0] /\
       forall be', let p := pseudo (InAP [4; 210] [192; 168; 1; 7]) (InAP [0; 53] [198; 41; 0; 4]) 11 ++
                            udp_datagram (InAP [4; 210] [192; 168; 1; 7]) (InAP [0; 53] [198; 41; 0; 4]) 11 sum [104; 105; 33] in
                   Cksum.in_cksum be' p (Z.of_nat (length p)) = Some 0).
Proof.
  apply (udp_write_valid false true _ _ 0 (InAP [4; 210] [192; 168; 1; 7]) (InAP [0; 53] [198; 41; 0; 4]) (replicate 28 255) [104; 105; 33] [7]).
  - exists [2; 0], (replicate 8 0). done.
  - exists [2; 0], (replicate 8 0). done.
  - split_and!; try done; apply (bool_decide_unpack _); vm_compute; done.
  - split_and!; try done; apply (bool_decide_unpack _); vm_compute; done.
  - done.
  - split; [apply (bool_decide_unpack _); vm_compute; done|apply Nat.leb_le; vm_compute; done].
Defined.

(** test_udp() sends the query at most three times and waits 3, 6 and 12 seconds: after
    three silent tries it ends the program; when an answer comes to the first, second or
    third, it says whether the checksum field of that answer is zero. *)
Theorem test_udp_spec be net_len local dest zerosum l r datalink ms :
  in_sockaddr local l -> in_sockaddr dest r -> ap_ok l -> ap_ok r ->
  Forall (fun m => 64 <= length m)%nat ms -> (3 <= length ms)%nat ->
  let test ts := test_udp be net_len local dest zerosum datalink ts ms 0 3 in
  (forall t1 t2 t3 ts, silent t1 -> silent t2 -> silent t3 -> test (t1 :: t2 :: t3 :: ts) = Exit 1) /\
  (forall before t ts f hdr dgram,
     (length before < 3)%nat -> Forall silent before -> Forall is_byte dgram ->
     next_pcap t = Some f -> good_frame be datalink f hdr dgram ->
     test (before ++ t :: ts) =
     Ret (tt, unanswered be net_len zerosum l r (length before) 3 ++
              [Sent (the_query be net_len zerosum l r); Alarm (3 * 2 ^ Z.of_nat (length before)); Alarm 0; verdict dgram])).
Proof.
  intros Hlo Hde Hl Hr Hm Hn. cbv zeta. destruct ms as [|m1 [|m2 [|m3 ms]]]; simpl in Hn; try lia.
  rewrite !Forall_cons in Hm. destruct Hm as (H1 & H2 & H3 & _). split.
  - intros t1 t2 t3 ts S1 S2 S3. do 3 (rewrite (test_silent _ _ _ _ _ l r) by done; simpl). done.
  - intros before t ts f hdr dgram Hb Hs Hd Hf Hg.
    destruct before as [|b1 [|b2 [|]]]; simpl in Hb; try lia; rewrite ?Forall_cons in Hs; destruct_and?; cbn [app length].
    + by rewrite (test_answer _ _ _ _ _ l r Hlo Hde Hl Hr _ _ _ _ _ _ _ f hdr dgram).
    + rewrite (test_silent _ _ _ _ _ l r) by done. simpl.
      by rewrite (test_answer _ _ _ _ _ l r Hlo Hde Hl Hr _ _ _ _ _ _ _ f hdr dgram).
    + do 2 (rewrite (test_silent _ _ _ _ _ l r) by done; simpl).
      by rewrite (test_answer _ _ _ _ _ l r Hlo Hde Hl Hr _ _ _ _ _ _ _ f hdr dgram).
Qed.

(** udp_read() looks behind the captured frame exactly when that is shorter than its
    link header, on every link: the length that udp_check() is given is then negative,
    and passes the comparison with a size_t. *)
Theorem udp_read_reads be datalink cap n : link_len datalink = Some n -> Z.of_nat (length cap) < 2 ^ 31 ->
  udp_read be datalink cap = Abort <-> (length cap < n)%nat.
Proof.
  intros Hn Hc.
  assert (C : forall off, (off <= 24)%nat ->
    match udp_check be cap off (Z.of_nat (length cap) - Z.of_nat off) with
    | Ret c => Ret (c, off) | Fail e => Fail e | Exit x => Exit x | Abort => Abort | Blocked => Blocked
    end = Abort <-> (length cap < off)%nat).
  { intros off Ho. rewrite <- (udp_check_reads be) by done. by destruct (udp_check _ _ _ _). }
  destruct datalink; simpl in Hn; try done; injection Hn as <-; simpl; try (apply C; lia).
  destruct (read_at cap 12 2) as [ty|] eqn:E.
  - unfold read_at in E. case_decide; [|done]. case_decide; [apply C; lia|]. split; [done|lia].
  - unfold read_at in E. case_decide; [done|]. split; [lia|done].
Qed.

(** With IP options test_udp() takes bytes of the options for the checksum: it says that
    checksums are off for a datagram whose field is 0xbeef. *)
Definition ex_options : list Z :=
  [71; 0; 0; 36; 0; 0; 0; 0; 64; 17; 97; 196; 10; 0; 0; 1; 10; 0; 0; 2; 1; 1; 1; 1; 1; 1; 0; 0] ++ [0; 53; 0; 0; 0; 8; 190; 239].

Example ui_sum_options :
  let r := udp_read false DLT_NULL ([2; 0; 0; 0] ++ ex_options) in
  match r with Ret x => report false x = emit [ChecksumsOff] /\ read_at (fst x) (4 + 28 + 6) 2 = Some [190; 239] | _ => False end.
Proof. vm_compute. done. Qed.
