(* ===== verification/IfiInfo.v ===== *)
(** * The interfaces of a host

    Model of get_ifi_info() (src/UNPLearning/unpv13e/lib/get_ifi_info.c) and of the
    author's src/UNPLearning/notes/interface/getinterface.c: the loop that guesses the
    size of the buffer for SIOCGIFCONF, and the walk through the structures ifreq in it,
    whose size depends on the address family.  The configuration is that of Linux on 64
    bits: no sa_len, no AF_LINK, sizeof(struct ifreq) = 40.  The buffer is bytes;
    [Abort] is an access outside it, or outside [ifrcopy]. *)

From S2P Require Import Prelude CString InetAddr SockAddr.

Definition IFNAMSIZ : nat := 16.
Definition SIZE_IFREQ : nat := 40.
Definition SIZE_SOCKADDR : nat := 16.
Definition SIZE_SOCKADDR_IN6 : nat := 28.
Definition AF_INET_ : Z := 2.
Definition AF_INET6_ : Z := 10.
Definition IFF_UP : Z := 1.
Definition IFF_BROADCAST : Z := 2.
Definition IFF_POINTOPOINT : Z := 16.
Definition IFI_ALIAS : Z := 1.
Definition IFI_NAME : nat := 16.

(** ** The buffer for SIOCGIFCONF *)

Section Conf.
(** The ioctl with a buffer of [len] bytes; the exit status on an error. *)
Context (conf : Z -> errno + list Z) (status : Z).

Fixpoint conf_loop (fuel : nat) (len lastlen : Z) : outcome (list Z) :=
  match fuel with
  | O => Blocked
  | S fuel' =>
      match conf len with
      | inl e =>
          if negb (bool_decide (e = EINVAL)) || negb (lastlen =? 0) then Exit status
          else conf_loop fuel' (s32 (len + 10 * Z.of_nat SIZE_IFREQ)) lastlen
      | inr buf =>
          let ifc_len := Z.of_nat (length buf) in
          if ifc_len =? lastlen then Ret buf
          else conf_loop fuel' (s32 (len + 10 * Z.of_nat SIZE_IFREQ)) ifc_len
      end
  end.

Definition get_conf (fuel : nat) : outcome (list Z) := conf_loop fuel (100 * Z.of_nat SIZE_IFREQ) 0.
End Conf.

(** ** The walk *)

(** strncmp(): [None] when it leaves a block. *)
Fixpoint strncmp (n : nat) (l1 l2 : list Z) : option Z :=
  match n with
  | O => Some 0
  | S n' =>
      match l1, l2 with
      | c1 :: l1', c2 :: l2' => if c1 =? c2 then if c1 =? 0 then Some 0 else strncmp n' l1' l2' else Some (c1 - c2)
      | _, _ => None
      end
  end.

Definition addr_len (family : Z) : nat := if family =? AF_INET6_ then SIZE_SOCKADDR_IN6 else SIZE_SOCKADDR.
(** max(sizeof(struct ifreq), sizeof(ifr->ifr_name) + len) *)
Definition ifreq_len (family : Z) : nat := Nat.max SIZE_IFREQ (IFNAMSIZ + addr_len family).

Record ifi_info := Ifi {
  ifi_name : list Z; ifi_mtu : Z; ifi_flags : Z; ifi_myflags : Z;
  ifi_addr : option (list Z); ifi_brdaddr : option (list Z); ifi_dstaddr : option (list Z) }.

Inductive request := SIOCGIFFLAGS | SIOCGIFMTU | SIOCGIFBRDADDR | SIOCGIFDSTADDR.

Local Notation "x ⇐ o ;; k" := (match o with Ret x => k | Fail e => Fail e | Exit c => Exit c | Abort => Abort | Blocked => Blocked end)
  (at level 100, o at next level, k at level 200, right associativity).

Section Walk.
(** Byte order; the ioctls on [ifrcopy], [None] for an error, on which Ioctl() ends the
    program; the arguments. *)
Context (be : bool) (ioctl : request -> list Z -> option (list Z)) (family doaliases : Z).

Definition Ioctl (r : request) (ifrcopy : list Z) : outcome (list Z) :=
  match ioctl r ifrcopy with Some c => Ret c | None => Exit 1 end.

Definition sa_family_at (buf : list Z) (ptr : nat) : outcome Z :=
  lift_o (load_bytes be <$> read_at buf (ptr + IFNAMSIZ) 2).

(** The address of [ifrcopy] that an ioctl stored. *)
Definition other_addr (r : request) (wanted : bool) (n : nat) (ifrcopy : list Z) : outcome (list Z * option (list Z)) :=
  if wanted then
    c ⇐ Ioctl r ifrcopy;;
    a ⇐ lift_o (read_at c IFNAMSIZ n);;
    Ret (c, Some a)
  else Ret (ifrcopy, None).

(** From ifrcopy = *ifr to the end of the loop; [None]: the interface is not up. *)
Definition make_info (buf : list Z) (ptr : nat) (myflags : Z) : outcome (option ifi_info) :=
  ifrcopy ⇐ lift_o (read_at buf ptr SIZE_IFREQ);;
  c ⇐ Ioctl SIOCGIFFLAGS ifrcopy;;
  fl ⇐ lift_o (read_at c IFNAMSIZ 2);;
  let flags := s16 (load_bytes be fl) in
  if Z.land flags IFF_UP =? 0 then Ret None else
  c ⇐ Ioctl SIOCGIFMTU c;;
  mtu ⇐ lift_o (read_at c IFNAMSIZ 4);;
  name ⇐ lift_o (read_at buf ptr (IFI_NAME - 1));;
  fam ⇐ sa_family_at buf ptr;;
  let info := Ifi (name ++ [0]) (s16 (load_bytes be mtu)) flags myflags in
  if fam =? AF_INET_ then
    a ⇐ lift_o (read_at buf (ptr + IFNAMSIZ) SIZE_SOCKADDR);;
    b ⇐ other_addr SIOCGIFBRDADDR (negb (Z.land flags IFF_BROADCAST =? 0)) SIZE_SOCKADDR c;;
    d ⇐ other_addr SIOCGIFDSTADDR (negb (Z.land flags IFF_POINTOPOINT =? 0)) SIZE_SOCKADDR (fst b);;
    Ret (Some (info (Some a) (snd b) (snd d)))
  else if fam =? AF_INET6_ then
    a ⇐ lift_o (read_at buf (ptr + IFNAMSIZ) SIZE_SOCKADDR_IN6);;
    d ⇐ other_addr SIOCGIFDSTADDR (negb (Z.land flags IFF_POINTOPOINT =? 0)) SIZE_SOCKADDR_IN6 c;;
    Ret (Some (info (Some a) None (snd d)))
  else Ret (Some (info None None None)).

(** if ( (cptr = strchr(ifr->ifr_name, ':')) != NULL) *cptr = 0; *)
Definition cut_colon (buf : list Z) (ptr : nat) : outcome (list Z) :=
  s ⇐ lift_o (c_string (drop ptr buf));;
  match strchr s COLON with
  | Some i => lift_o (write_at buf (ptr + Z.to_nat i) [0])
  | None => Ret buf
  end.

(** The loop over the buffer of [ifc_len] bytes, with the list made so far. *)
Fixpoint walk (fuel : nat) (buf : list Z) (ptr : nat) (lastname : list Z) (head : list ifi_info) : outcome (list ifi_info) :=
  if decide (length buf <= ptr)%nat then Ret head else
  match fuel with
  | O => Blocked
  | S fuel' =>
      fam ⇐ sa_family_at buf ptr;;
      let next := (ptr + ifreq_len fam)%nat in
      if negb (fam =? family) then walk fuel' buf next lastname head else
      buf ⇐ cut_colon buf ptr;;
      name ⇐ lift_o (read_at buf ptr IFNAMSIZ);;
      cmp ⇐ lift_o (strncmp IFNAMSIZ lastname name);;
      if (cmp =? 0) && (doaliases =? 0) then walk fuel' buf next lastname head else
      info ⇐ make_info buf ptr (if cmp =? 0 then IFI_ALIAS else 0);;
      walk fuel' buf next name (head ++ option_list info)
  end.
End Walk.

(** lastname[0] = 0; the rest of it is [garbage]. *)
Definition get_ifi_info (be : bool) (conf : Z -> errno + list Z) (ioctl : request -> list Z -> option (list Z))
    (garbage : list Z) (family doaliases : Z) (fuel : nat) : outcome (list ifi_info) :=
  buf ⇐ get_conf conf 1 fuel;;
  walk be ioctl family doaliases (length buf) buf 0 (0 :: garbage) [].

(** Get_ifi_info() *)
Definition Get_ifi_info (be : bool) (conf : Z -> errno + list Z) (ioctl : request -> list Z -> option (list Z))
    (garbage : list Z) (family doaliases : Z) (fuel : nat) : outcome (list ifi_info) :=
  l ⇐ get_ifi_info be conf ioctl garbage family doaliases fuel;;
  match l with [] => Exit 1 | _ => Ret l end.

(** ** The author's program *)

Inductive kind := HasIPv4 | HasIPv6 | Unknown.

(** What printf() prints for an entry; one format has a stray '!' behind the newline. *)
Definition line (name : list Z) (k : kind) : list Z :=
  name ++ match k with
          | HasIPv4 => cstr " have IPv4 address!" ++ [10]
          | HasIPv6 => cstr " have IPv6 address!" ++ [10] ++ cstr "!"
          | Unknown => cstr " address type is unkown" ++ [10]
          end.

Fixpoint show (be : bool) (fuel : nat) (buf : list Z) (ptr : nat) : outcome (list (list Z)) :=
  if decide (length buf <= ptr)%nat then Ret [] else
  match fuel with
  | O => Blocked
  | S fuel' =>
      fam ⇐ sa_family_at be buf ptr;;
      name ⇐ lift_o (c_string (drop ptr buf));;
      let k := if fam =? AF_INET_ then HasIPv4 else if fam =? AF_INET6_ then HasIPv6 else Unknown in
      l ⇐ show be fuel' buf (ptr + ifreq_len fam);;
      Ret (line name k :: l)
  end.

(** main(); [None] for the descriptor: socket() fails. *)
Definition getinterface (be : bool) (socket : bool) (conf : Z -> errno + list Z) (fuel : nat) : outcome (list (list Z)) :=
  if socket then
    buf ⇐ get_conf conf (-1) fuel;;
    show be (length buf) buf 0
  else Exit (-1).

(** ** The buffer is large enough *)

(** The entries that fit in [len] bytes, one after the other. *)
Fixpoint fit (len : Z) (es : list (list Z)) : list Z :=
  match es with
  | [] => []
  | e :: es' => if Z.of_nat (length e) <=? len then e ++ fit (len - Z.of_nat (length e)) es' else []
  end.

(** What is documented of SIOCGIFCONF: with too small a buffer a kernel gives the
    entries that fit, or it fails with EINVAL. *)
Inductive conf_ok (es : list (list Z)) (conf : Z -> errno + list Z) : Prop :=
| conf_truncates : (forall len, 0 <= len -> conf len = inr (fit len es)) -> conf_ok es conf
| conf_refuses :
    (forall len, conf len = if Z.of_nat (length (concat es)) <=? len then inr (concat es) else inl EINVAL) -> conf_ok es conf.

(** No entry is longer than what the buffer grows by. *)
Definition small (e : list Z) : Prop := (1 <= length e <= 400)%nat.

Lemma fit_all es : forall len, Z.of_nat (length (concat es)) <= len -> fit len es = concat es.
Proof.
  induction es as [|e es IH]; intros len H; simpl in *; [done|]. rewrite length_app in H.
  rewrite (proj2 (Z.leb_le _ _)) by lia. f_equal. apply IH. lia.
Qed.

Lemma fit_stop es : Forall small es -> forall len, 0 <= len -> length (fit (len + 400) es) = length (fit len es) ->
  fit (len + 400) es = concat es.
Proof.
  induction 1 as [|e es He Hes IH]; intros len Hl E; simpl in *; [done|]. unfold small in He.
  rewrite (proj2 (Z.leb_le _ (len + 400))) in * by lia.
  destruct (Z.of_nat (length e) <=? len) eqn:F; bprop; rewrite ?length_app in E; [|simpl in E; lia].
  f_equal. replace (len + 400 - Z.of_nat (length e)) with (len - Z.of_nat (length e) + 400) in * by lia. apply IH; lia.
Qed.

Lemma fit_none es len : Forall small es -> 400 <= len -> length (fit len es) = 0%nat -> es = [].
Proof.
  intros Hs Hl. destruct Hs as [|e es He Hs]; [done|]. unfold small in He. simpl.
  rewrite (proj2 (Z.leb_le _ _)) by lia. rewrite length_app. lia.
Qed.

Lemma conf_loop_more conf status k : forall fuel len lastlen,
  conf_loop conf status fuel len lastlen <> Blocked ->
  conf_loop conf status (fuel + k) len lastlen = conf_loop conf status fuel len lastlen.
Proof.
  induction fuel as [|fuel IH]; intros len lastlen H; simpl in *; [done|].
  destruct (conf len) as [e|b].
  - destruct (_ || _); [done|]. by apply IH.
  - destruct (_ =? _); [done|]. by apply IH.
Qed.

Definition total_len (es : list (list Z)) : Z := Z.of_nat (length (concat es)).
Definition conf_fuel (es : list (list Z)) : nat := Z.to_nat (total_len es / 400 + 3).

Lemma len_step len fuel : 0 <= len -> len + 400 * Z.of_nat (S fuel) < 2 ^ 31 -> s32 (len + 10 * Z.of_nat SIZE_IFREQ) = len + 400.
Proof. intros H1 H2. change (10 * Z.of_nat SIZE_IFREQ) with 400. apply swrap_small; lia. Qed.

Lemma truncating es conf status : Forall small es -> (forall len, 0 <= len -> conf len = inr (fit len es)) ->
  forall fuel len lastlen,
  400 <= len -> (length (fit len es) = Z.to_nat lastlen -> fit len es = concat es) -> 0 <= lastlen ->
  len + 400 * Z.of_nat fuel < 2 ^ 31 -> total_len es + 800 <= len + 400 * Z.of_nat fuel ->
  (fuel = 1%nat -> lastlen = total_len es) -> fuel <> 0%nat ->
  conf_loop conf status fuel len lastlen = Ret (concat es).
Proof.
  intros Hs Hc. induction fuel as [|fuel IH]; intros len lastlen Hl HJ H0 Hb Ht H1 Hf; [done|]. cbn [conf_loop].
  rewrite Hc by lia. cbn zeta. destruct (_ =? lastlen) eqn:E; bprop; [f_equal; apply HJ; lia|].
  rewrite (len_step _ fuel) by lia. unfold total_len in *. apply IH; try lia.
  - intros E2. apply fit_stop; [done|lia|]. lia.
  - intros ->. by rewrite fit_all by lia.
  - intros ->. apply E. rewrite H1 by done. by rewrite fit_all by lia.
Qed.

Lemma refusing es conf status :
  (forall len, conf len = if total_len es <=? len then inr (concat es) else inl EINVAL) ->
  forall fuel len lastlen,
  400 <= len -> (lastlen = 0 \/ lastlen = total_len es /\ total_len es <= len) ->
  len + 400 * Z.of_nat fuel < 2 ^ 31 -> total_len es + 800 <= len + 400 * Z.of_nat fuel ->
  (fuel = 1%nat -> lastlen = total_len es) -> fuel <> 0%nat ->
  conf_loop conf status fuel len lastlen = Ret (concat es).
Proof.
  intros Hc. induction fuel as [|fuel IH]; intros len lastlen Hl HJ Hb Ht H1 Hf; [done|]. cbn [conf_loop].
  rewrite Hc. destruct (_ <=? len) eqn:E; bprop.
  - cbn zeta. fold (total_len es). destruct (_ =? lastlen) eqn:E2; bprop; [done|].
    rewrite (len_step _ fuel) by lia. apply IH; lia.
  - assert (lastlen = 0) as -> by lia. rewrite bool_decide_eq_true_2 by done. cbn [negb orb Z.eqb].
    rewrite (len_step _ fuel) by lia. apply IH; try lia.
Qed.

(** Both kernels: the loop ends with all entries. *)
Lemma get_conf_complete es conf status fuel :
  conf_ok es conf -> Forall small es -> total_len es < 2 ^ 30 -> (conf_fuel es <= fuel)%nat ->
  get_conf conf status fuel = Ret (concat es).
Proof.
  intros Hc Hs Ht Hf. assert (E : get_conf conf status (conf_fuel es) = Ret (concat es)).
  { unfold get_conf. change (100 * Z.of_nat SIZE_IFREQ) with 4000.
    assert (0 <= total_len es) by (unfold total_len; lia).
    pose proof (Z.div_mod (total_len es) 400 ltac:(lia)). pose proof (Z.mod_pos_bound (total_len es) 400 ltac:(lia)).
    assert (Z.of_nat (conf_fuel es) = total_len es / 400 + 3) by (unfold conf_fuel; rewrite Z2Nat.id; [done|lia]).
    destruct Hc as [Hc|Hc]; [apply truncating|apply refusing]; try done; try lia.
    intros E. simpl in E. by rewrite (fit_none es 4000 Hs ltac:(lia) E). }
  replace fuel with (conf_fuel es + (fuel - conf_fuel es))%nat by lia. unfold get_conf in *.
  rewrite conf_loop_more by (by rewrite E). done.
Qed.

(** ** Entries of the buffer *)

(** An entry: the name, what stands behind it in ifr_name, the family, the rest. *)
Record ifreq := Ifr { e_name : list Z; e_pad : list Z; e_fam : Z; e_rest : list Z }.

Definition ifr_name (e : ifreq) : list Z := e_name e ++ 0 :: e_pad e.
Definition ifr_bytes (be : bool) (e : ifreq) : list Z := ifr_name e ++ store_bytes be 2 (e_fam e) ++ e_rest e.
(** The size of an entry in the kernel's answer: sizeof(struct ifreq), or more for the
    longer address. *)
Definition entry_size (fam : Z) : nat := if fam =? AF_INET6_ then 44 else 40.
Definition ifr_ok (e : ifreq) : Prop :=
  Forall (fun c => c <> 0) (e_name e) /\ length (ifr_name e) = IFNAMSIZ /\ 0 <= e_fam e < 65536 /\
  (IFNAMSIZ + 2 + length (e_rest e) = entry_size (e_fam e))%nat.

(** The colon of an alias replaced by a null byte. *)
Definition cut_ifr (e : ifreq) : ifreq :=
  match strchr (e_name e) COLON with
  | Some i => Ifr (take (Z.to_nat i) (e_name e)) (drop (S (Z.to_nat i)) (e_name e) ++ 0 :: e_pad e) (e_fam e) (e_rest e)
  | None => e
  end.

Lemma ifreq_len_size fam : ifreq_len fam = entry_size fam.
Proof. unfold ifreq_len, addr_len, entry_size. by destruct (_ =? _). Qed.

Lemma length_ifr be e : ifr_ok e -> length (ifr_bytes be e) = ifreq_len (e_fam e).
Proof. intros (_ & Hn & _ & Hr). rewrite ifreq_len_size. unfold ifr_bytes. rewrite !length_app, length_store_bytes, Hn. lia. Qed.

Lemma ifreq_len_range fam : (40 <= ifreq_len fam <= 44)%nat.
Proof. unfold ifreq_len, addr_len. destruct (_ =? _); vm_compute; lia. Qed.

Lemma ifr_small be e : ifr_ok e -> small (ifr_bytes be e).
Proof. intros H. unfold small. rewrite length_ifr by done. pose proof (ifreq_len_range (e_fam e)). lia. Qed.

Lemma cut_ifr_name e i : strchr (e_name e) COLON = Some i ->
  (Z.to_nat i < length (e_name e))%nat /\ ifr_name (cut_ifr e) = <[Z.to_nat i := 0]> (ifr_name e).
Proof.
  intros E. pose proof (strchr_Some _ _ _ E) as [Hi Hx]. split; [lia|]. unfold cut_ifr. rewrite E.
  unfold ifr_name. cbn [e_name e_pad]. rewrite insert_app_l by lia.
  rewrite insert_take_drop by lia. by rewrite <- app_assoc.
Qed.

Lemma cut_ifr_ok e : ifr_ok e -> ifr_ok (cut_ifr e) /\ e_fam (cut_ifr e) = e_fam e /\ e_rest (cut_ifr e) = e_rest e.
Proof.
  intros (H1 & H2 & H3 & H4). destruct (strchr (e_name e) COLON) as [i|] eqn:E.
  - destruct (cut_ifr_name e i E) as [Hi En]. unfold ifr_ok. rewrite En, length_insert. unfold cut_ifr. rewrite E.
    cbn [e_name e_fam e_rest]. split_and!; try done; try lia. by apply Forall_take.
  - unfold cut_ifr. by rewrite E.
Qed.

Lemma read_inside pre b r k n : (k + n <= length b)%nat -> read_at (pre ++ b ++ r) (length pre + k) n = read_at b k n.
Proof.
  intros H. unfold read_at. rewrite !decide_True by (rewrite ?length_app; lia).
  by rewrite drop_app_add, drop_app_le, take_app_le by (rewrite ?length_drop; lia).
Qed.

Lemma read_start pre b r n : (n <= length b)%nat -> read_at (pre ++ b ++ r) (length pre) n = read_at b 0 n.
Proof. intros H. rewrite <- (Nat.add_0_r (length pre)). by apply read_inside. Qed.

Lemma strncmp_strings n a b x y : Forall (fun c => c <> 0) a -> Forall (fun c => c <> 0) b ->
  (length a < n)%nat -> (length b < n)%nat ->
  exists c, strncmp n (a ++ 0 :: x) (b ++ 0 :: y) = Some c /\ (c = 0 <-> a = b).
Proof.
  intros Ha. revert n b. induction Ha as [|c a Hc Ha IH]; intros n b Hb Hn Hm; (destruct n as [|n]; [simpl in *; lia|]); cbn [strncmp app].
  - destruct Hb as [|d b Hd Hb]; cbn [app]; [by eexists|]. rewrite (proj2 (Z.eqb_neq 0 d)) by done.
    eexists. split; [done|]. split; [lia|done].
  - destruct Hb as [|d b Hd Hb]; cbn [app length] in *.
    + rewrite (proj2 (Z.eqb_neq c 0)) by done. eexists. split; [done|]. split; [lia|done].
    + destruct (c =? d) eqn:E; bprop.
      * subst d. rewrite (proj2 (Z.eqb_neq c 0)) by done. destruct (IH n b Hb) as (k & -> & Hk); [lia|lia|].
        exists k. split; [done|]. rewrite Hk. split; congruence.
      * eexists. split; [done|]. split; [lia|congruence].
Qed.

(** ** The list the walk makes *)

Section Spec.
Context (be : bool) (ioctl : request -> list Z -> option (list Z)) (family doaliases : Z).
Local Abbreviation bytes := (ifr_bytes be).

(** get_ifi_info(), entry by entry; [last]: the name of the interface before. *)
Fixpoint infos (last : list Z) (es : list ifreq) : outcome (list ifi_info) :=
  match es with
  | [] => Ret []
  | e :: es' =>
      if negb (e_fam e =? family) then infos last es' else
      let alias := bool_decide (e_name (cut_ifr e) = last) in
      if alias && (doaliases =? 0) then infos last es' else
      info ⇐ make_info be ioctl (bytes (cut_ifr e)) 0 (if alias then IFI_ALIAS else 0);;
      l ⇐ infos (e_name (cut_ifr e)) es';;
      Ret (option_list info ++ l)
  end.

Lemma make_info_inside pre e r myflags : ifr_ok e ->
  make_info be ioctl (pre ++ bytes e ++ r) (length pre) myflags = make_info be ioctl (bytes e) 0 myflags.
Proof.
  intros He. pose proof (length_ifr be e He) as Hl. pose proof (ifreq_len_range (e_fam e)) as Hr.
  unfold make_info, sa_family_at. rewrite !read_start by (unfold SIZE_IFREQ, IFI_NAME; lia).
  rewrite (read_inside _ _ _ IFNAMSIZ 2), (read_inside _ _ _ IFNAMSIZ SIZE_SOCKADDR)
    by (unfold IFNAMSIZ, SIZE_SOCKADDR; lia). rewrite !Nat.add_0_l.
  assert (F : read_at (bytes e) IFNAMSIZ 2 = Some (store_bytes be 2 (e_fam e))).
  { destruct He as (_ & Hn & _). apply (read_at_eq _ (ifr_name e) _ (e_rest e)); [done|done|apply length_store_bytes]. }
  rewrite F. cbn [lift_o fmap option_fmap option_map]. rewrite load_store_bytes, wrap_small by (destruct He as (_ & _ & H & _); lia).
  destruct (e_fam e =? AF_INET6_) eqn:E6; [|done].
  rewrite (read_inside _ _ _ IFNAMSIZ SIZE_SOCKADDR_IN6); [done|].
  rewrite Hl. unfold ifreq_len, addr_len. rewrite E6. vm_compute. lia.
Qed.

Lemma family_inside pre e r : ifr_ok e -> sa_family_at be (pre ++ bytes e ++ r) (length pre) = Ret (e_fam e).
Proof.
  intros He. pose proof (length_ifr be e He) as Hl. pose proof (ifreq_len_range (e_fam e)). unfold sa_family_at.
  rewrite read_inside by (unfold IFNAMSIZ; lia).
  rewrite (read_at_eq _ (ifr_name e) (store_bytes be 2 (e_fam e)) (e_rest e)); [|done|by destruct He as (_ & Hn & _)|apply length_store_bytes].
  cbn [lift_o fmap option_fmap option_map]. rewrite load_store_bytes, wrap_small by (destruct He as (_ & _ & Hf & _); lia). done.
Qed.

Lemma name_inside pre e r : ifr_ok e -> c_string (drop (length pre) (pre ++ bytes e ++ r)) = Some (e_name e).
Proof.
  intros (Hn & _). rewrite drop_app_length. unfold ifr_bytes, ifr_name. rewrite <- !app_assoc. by apply c_string_app.
Qed.

Lemma cut_inside pre e r : ifr_ok e -> cut_colon (pre ++ bytes e ++ r) (length pre) = Ret (pre ++ bytes (cut_ifr e) ++ r).
Proof.
  intros He. unfold cut_colon. rewrite name_inside by done. cbn [lift_o].
  destruct (strchr (e_name e) COLON) as [i|] eqn:E; [|unfold cut_ifr; by rewrite E].
  destruct (cut_ifr_name e i E) as [Hi En]. destruct (cut_ifr_ok e He) as (_ & Ef & Er).
  unfold ifr_bytes. rewrite En, Ef, Er. assert (Hx : (Z.to_nat i < length (ifr_name e))%nat) by (unfold ifr_name; rewrite length_app; lia).
  clear E En Hi. revert Hx. generalize (Z.to_nat i), (ifr_name e). intros k l Hk. rewrite <- !app_assoc.
  rewrite insert_take_drop by done. destruct (lookup_lt_is_Some_2 l k Hk) as [x Hx].
  rewrite <- (take_drop_middle l k x Hx) at 1.
  rewrite (write_at_eq _ (pre ++ take k l) [x] (drop (S k) l ++ store_bytes be 2 (e_fam e) ++ e_rest e ++ r)).
  - cbn [lift_o]. by rewrite <- !app_assoc.
  - by rewrite <- !app_assoc.
  - rewrite length_app, length_take. lia.
  - done.
Qed.

Lemma bytes_next pre e : ifr_ok e -> (length pre + ifreq_len (e_fam e))%nat = length (pre ++ bytes e).
Proof. intros He. by rewrite length_app, length_ifr. Qed.

Lemma bytes_next_cut pre e : ifr_ok e -> (length pre + ifreq_len (e_fam e))%nat = length (pre ++ bytes (cut_ifr e)).
Proof. intros He. destruct (cut_ifr_ok e He) as (Hc & <- & _). by apply bytes_next. Qed.

Lemma walk_spec es : Forall ifr_ok es -> forall fuel pre last g head,
  (length es <= fuel)%nat -> Forall (fun c => c <> 0) last -> (length last < IFNAMSIZ)%nat ->
  walk be ioctl family doaliases fuel (pre ++ concat (map bytes es)) (length pre) (last ++ 0 :: g) head =
  (l ⇐ infos last es;; Ret (head ++ l)).
Proof.
  induction 1 as [|e es He Hes IH]; intros fuel pre last g head Hf Hla Hln; simpl in Hf.
  - simpl. rewrite app_nil_r. destruct fuel; simpl; rewrite decide_True by lia; by rewrite app_nil_r.
  - destruct fuel as [|fuel]; [lia|]. cbn [walk map concat infos].
    pose proof (length_ifr be e He) as Hl. pose proof (ifreq_len_range (e_fam e)) as Hr.
    rewrite decide_False by (rewrite !length_app; lia). rewrite family_inside by done.
    destruct (negb _) eqn:Ef.
    { rewrite bytes_next, app_assoc by done. apply IH; done || lia. }
    rewrite cut_inside by done. destruct (cut_ifr_ok e He) as (Hc & Efam & _).
    pose proof Hc as (Hcn & Hcl & _). pose proof (length_ifr be _ Hc) as Hlc.
    rewrite read_start by (rewrite Hlc, Efam; unfold IFNAMSIZ; lia).
    assert (En : read_at (bytes (cut_ifr e)) 0 IFNAMSIZ = Some (ifr_name (cut_ifr e)))
      by (by apply (read_at_mid [] (ifr_name (cut_ifr e)) _)).
    rewrite En. cbn [lift_o].
    assert (Hlt : (length (e_name (cut_ifr e)) < IFNAMSIZ)%nat) by (unfold ifr_name in Hcl; rewrite length_app in Hcl; simpl in Hcl; lia).
    destruct (strncmp_strings IFNAMSIZ last (e_name (cut_ifr e)) g (e_pad (cut_ifr e)) Hla Hcn Hln Hlt) as (c & Ec & Hc0).
    fold (ifr_name (cut_ifr e)) in Ec. rewrite Ec. cbn [lift_o].
    assert (Eb : (c =? 0) = bool_decide (e_name (cut_ifr e) = last)).
    { destruct (c =? 0) eqn:E0; bprop; symmetry; [apply bool_decide_eq_true_2|apply bool_decide_eq_false_2; intros Hx; apply E0]; rewrite <- ?Hc0; first [done|by symmetry; apply Hc0|by apply Hc0]. }
    rewrite Eb, bytes_next_cut by done. destruct (bool_decide _ && _) eqn:Ea.
    { rewrite app_assoc. apply IH; done || lia. }
    rewrite make_info_inside by done. destruct (make_info _ _ _ _ _) as [info|?|?| |]; try done.
    unfold ifr_name. rewrite app_assoc, IH by (done || lia).
    destruct (infos _ es) as [l|?|?| |]; try done. by rewrite app_assoc.
Qed.

Lemma make_info_up buf ptr my i : make_info be ioctl buf ptr my = Ret (Some i) ->
  Z.land (ifi_flags i) IFF_UP <> 0 /\ ifi_myflags i = my.
Proof.
  unfold make_info, other_addr, Ioctl. intros E.
  repeat match type of E with
  | match ?o with Ret _ => _ | Fail _ => _ | Exit _ => _ | Abort => _ | Blocked => _ end = _ =>
      destruct o; try discriminate
  | (if ?b then Ret None else _) = _ => let E' := fresh "Eup" in destruct b eqn:E'; [discriminate|]; bprop
  | (if ?b then _ else _) = _ => destruct b
  end; injection E as <-; done.
Qed.

(** Every interface of the list is up, and an alias is there only on demand. *)
Lemma infos_up es : forall last l, infos last es = Ret l ->
  Forall (fun i => Z.land (ifi_flags i) IFF_UP <> 0 /\ (ifi_myflags i = IFI_ALIAS -> doaliases <> 0)) l.
Proof.
  induction es as [|e es IH]; intros last l E; cbn [infos] in E; [by injection E as <-|].
  destruct (negb _); [by eapply IH|]. cbv zeta in E. destruct (bool_decide _ && _) eqn:Ea; [by eapply IH|].
  destruct (make_info _ _ _ _ _) as [info|?|?| |] eqn:Em; try discriminate.
  destruct (infos _ es) as [l'|?|?| |] eqn:El; try discriminate. injection E as <-. apply IH in El.
  destruct info as [i|]; [|done]. constructor; [|done]. apply make_info_up in Em as [Hu Hm]. split; [done|].
  rewrite Hm. destruct (bool_decide _); simpl in Ea; [by apply Z.eqb_neq in Ea|done].
Qed.
End Spec.

Definition kind_of (fam : Z) : kind :=
  if fam =? AF_INET_ then HasIPv4 else if fam =? AF_INET6_ then HasIPv6 else Unknown.

Lemma show_spec be es : Forall ifr_ok es -> forall fuel pre, (length es <= fuel)%nat ->
  show be fuel (pre ++ concat (map (ifr_bytes be) es)) (length pre) = Ret (map (fun e => line (e_name e) (kind_of (e_fam e))) es).
Proof.
  induction 1 as [|e es He Hes IH]; intros fuel pre Hf; simpl in Hf.
  - simpl. rewrite app_nil_r. destruct fuel; simpl; by rewrite decide_True by lia.
  - destruct fuel as [|fuel]; [lia|]. cbn [show map concat].
    pose proof (length_ifr be e He) as Hl. pose proof (ifreq_len_range (e_fam e)) as Hr.
    rewrite decide_False by (rewrite !length_app; lia). rewrite family_inside, name_inside by done. cbn [lift_o].
    rewrite (bytes_next be), app_assoc, IH by (done || lia). done.
Qed.

Lemma entries_length be es : Forall ifr_ok es -> (length es <= length (concat (map (ifr_bytes be) es)))%nat.
Proof.
  induction 1 as [|e es He Hes IH]; simpl; [lia|]. rewrite length_app, length_ifr by done.
  pose proof (ifreq_len_range (e_fam e)). lia.
Qed.

(** ** The properties *)

(** C30: on a kernel that cuts the answer to SIOCGIFCONF at a whole entry as well as on one
    that refuses a small buffer, the loop that enlarges the buffer ends with all entries,
    and get_ifi_info() gives what looking at the entries one by one gives: those of the
    wanted family, colons cut, aliases marked or left out, interfaces that are down left
    out, in the kernel's order, and nothing is read outside the buffer to find them.  The
    author's program, with the same two loops, prints for each entry its name and the
    family of its address. *)
Theorem get_ifi_info_spec be conf ioctl garbage family doaliases es fuel :
  Forall ifr_ok es -> conf_ok (map (ifr_bytes be) es) conf ->
  total_len (map (ifr_bytes be) es) < 2 ^ 30 -> (conf_fuel (map (ifr_bytes be) es) <= fuel)%nat ->
  get_ifi_info be conf ioctl garbage family doaliases fuel = infos be ioctl family doaliases [] es /\
  (forall l, get_ifi_info be conf ioctl garbage family doaliases fuel = Ret l ->
     Forall (fun i => Z.land (ifi_flags i) IFF_UP <> 0 /\ (ifi_myflags i = IFI_ALIAS -> doaliases <> 0)) l) /\
  getinterface be true conf fuel = Ret (map (fun e => line (e_name e) (kind_of (e_fam e))) es).
Proof.
  intros Hes Hc Ht Hf.
  assert (Hs : Forall small (map (ifr_bytes be) es)).
  { apply Forall_map. eapply Forall_impl; [exact Hes|]. intros e. apply ifr_small. }
  pose proof (entries_length be es Hes) as Hn.
  assert (E : get_ifi_info be conf ioctl garbage family doaliases fuel = infos be ioctl family doaliases [] es).
  { unfold get_ifi_info. rewrite (get_conf_complete _ _ _ _ Hc Hs Ht Hf).
    pose proof (walk_spec be ioctl family doaliases es Hes (length (concat (map (ifr_bytes be) es))) [] [] garbage [] Hn) as W.
    cbn [app] in W. change (length []) with 0%nat in W. rewrite W by (done || (unfold IFNAMSIZ; simpl; lia)). by destruct (infos _ _ _ _ _ _). }
  split; [exact E|]. split; [intros l; rewrite E; apply infos_up|].
  unfold getinterface. rewrite (get_conf_complete _ _ _ _ Hc Hs Ht Hf). by apply (show_spec be es Hes _ []).
Qed.

(** Three entries: lo, eth0 and its alias eth0:1. *)
Definition ex_entry (name : list Z) (addr : list Z) : ifreq :=
  Ifr name (replicate (15 - length name) 0) AF_INET_ ([0; 0] ++ addr ++ replicate 16 0).
Definition ex_entries : list ifreq :=
  [ex_entry [108; 111] [127; 0; 0; 1]; ex_entry [101; 116; 104; 48] [192; 168; 1; 7];
   ex_entry [101; 116; 104; 48; 58; 49] [192; 168; 1; 8]].
(** A kernel that cuts; interfaces are up. *)
Definition ex_conf (len : Z) : errno + list Z := inr (fit len (map (ifr_bytes false) ex_entries)).
Definition ex_ioctl (r : request) (ifr : list Z) : option (list Z) :=
  match r with
  | SIOCGIFFLAGS => write_at ifr 16 [1; 0]
  | SIOCGIFMTU => write_at ifr 16 [220; 5; 0; 0]
  | _ => Some ifr
  end.

Lemma get_ifi_info_spec_witness :
  Forall ifr_ok ex_entries /\ conf_ok (map (ifr_bytes false) ex_entries) ex_conf /\
  get_ifi_info false ex_conf ex_ioctl [] AF_INET_ 0 3 = infos false ex_ioctl AF_INET_ 0 [] ex_entries.
Proof.
  assert (H : Forall ifr_ok ex_entries).
  { repeat constructor; simpl; try lia. all: by vm_compute. }
  assert (C : conf_ok (map (ifr_bytes false) ex_entries) ex_conf) by (by apply conf_truncates).
  split; [exact H|]. split; [exact C|].
  apply (get_ifi_info_spec false ex_conf ex_ioctl [] AF_INET_ 0 ex_entries 3); [exact H|exact C|vm_compute; reflexivity|].
  apply Nat.leb_le. vm_compute. reflexivity.
Defined.

(** The alias is marked, and not in the list without [doaliases]. *)
Example ex_infos :
  (forall l, get_ifi_info false ex_conf ex_ioctl [] AF_INET_ 1 3 = Ret l -> map ifi_myflags l = [0; 0; 1]) /\
  (forall l, get_ifi_info false ex_conf ex_ioctl [] AF_INET_ 0 3 = Ret l -> length l = 2%nat).
Proof. split; intros l; vm_compute; intros [= <-]; done. Qed.

(** A point-to-point interface with an IPv6 address: sockaddr_in6 does not fit in what
    is left of ifrcopy, and memcpy() reads behind it. *)
Example ipv6_dstaddr :
  let e := Ifr [116; 117; 110] (replicate 12 0) AF_INET6_ (replicate 26 0) in
  make_info false (fun r ifr => match r with SIOCGIFFLAGS => write_at ifr 16 [17; 0] | _ => Some ifr end) (ifr_bytes false e) 0 0 = Abort.
Proof. vm_compute. done. Qed.
