(* ===== verification/IpExchange.v ===== *)
(** * The address a server sees

    Model of the author's src/UNPLearning/notes/socket: ReIPServer.c sends each client
    the text of its address, its length first, and waits for the length to come back;
    GetIPClient.c prints it beside its own address.  A connection is read and written
    through the scripts of [RobustIO.v]; inet_ntop() of the system is a parameter. *)

From S2P Require Import Prelude CString InetAddr SockAddr RobustIO.

Import RobustIO.

Definition INET_ADDRSTRLEN : Z := 16.

(** The loops around read(): [done_] bytes of [want] are in [buf]. *)
Fixpoint read_loop (fuel : nat) (s : list arrival) (buf : list Z) (done_ want : Z) : outcome (list Z * list arrival) :=
  if want <=? done_ then Ret (buf, s) else
  match fuel with
  | O => Blocked
  | S fuel' =>
      match k_read (Z.to_nat (want - done_)) s with
      | (RWait, _) => Blocked
      | (RError _, _) => Exit (-1)
      | (Got l, s') =>
          match write_at buf (Z.to_nat done_) l with
          | None => Abort
          | Some buf' => read_loop fuel' s' buf' (done_ + Z.of_nat (length l)) want
          end
      end
  end.
Definition read_all (s : list arrival) (buf : list Z) (want : Z) : outcome (list Z * list arrival) :=
  read_loop (S (length s)) s buf 0 want.

(** The loops around write(). *)
Fixpoint write_loop (fuel : nat) (w : sink) (l : list Z) : outcome unit * sink :=
  match l with
  | [] => (Ret tt, w)
  | _ =>
      match fuel with
      | O => (Blocked, w)
      | S fuel' =>
          match k_write w l with
          | (None, w') => (Blocked, w')
          | (Some (inr _), w') => (Exit (-1), w')
          | (Some (inl k), w') => write_loop fuel' w' (drop k l)
          end
      end
  end.
Definition write_all (w : sink) (l : list Z) : outcome unit * sink := write_loop (S (length (answers w))) w l.

(** A char read from a byte. *)
Definition char_of (b : Z) : Z := swrap 8 b.

Section Ntop.
(** inet_ntop(AF_INET, ...) into a buffer of INET_ADDRSTRLEN bytes: the text. *)
Context (ntop : list Z -> option (list Z)).

(** One turn of the server's loop, for a client with address [clientAddr]: what the
    client is sent. *)
Definition serve_one (clientAddr : list Z) (s : list arrival) (w : sink) : outcome unit * sink :=
  match ntop clientAddr with
  | None => (Exit (-1), w)
  | Some text =>
      let len := char_of (Z.of_nat (length text) + 1) in
      match write_all w [u8 len] with
      | (Ret _, w) =>
          match read_all s [0] 1 with
          | Ret (buf, _) =>
              match buf with
              | [b] => if len =? char_of b then write_all w (text ++ [0]) else (Exit (-1), w)
              | _ => (Abort, w)
              end
          | Exit c => (Exit c, w)
          | Fail e => (Fail e, w)
          | Abort => (Abort, w)
          | Blocked => (Blocked, w)
          end
      | (o, w) => (o, w)
      end
  end.

(** The client from connect() on, [buffer] as it is on the stack: the two lines it
    prints, and what it sends. *)
Definition get_ip (buffer localAddr : list Z) (s : list arrival) (w : sink) : outcome (list Z * list Z) * sink :=
  match read_all s buffer 1 with
  | Ret (buffer, s) =>
      match head buffer with
      | None => (Abort, w)
      | Some b =>
          match write_all w [b] with
          | (Ret _, w) =>
              if char_of b >? INET_ADDRSTRLEN then (Exit (-1), w) else
              match read_all s buffer (char_of b) with
              | Ret (buffer, _) =>
                  match c_string buffer with
                  | None => (Abort, w)
                  | Some t =>
                      match ntop localAddr with
                      | None => (Exit (-1), w)
                      | Some t' => (Ret (t, t'), w)
                      end
                  end
              | Exit c => (Exit c, w) | Fail e => (Fail e, w) | Abort => (Abort, w) | Blocked => (Blocked, w)
              end
          | (Fail e, w) => (Fail e, w) | (Exit c, w) => (Exit c, w) | (Abort, w) => (Abort, w) | (Blocked, w) => (Blocked, w)
          end
      end
  | Exit c => (Exit c, w) | Fail e => (Fail e, w) | Abort => (Abort, w) | Blocked => (Blocked, w)
  end.
End Ntop.

(** ** Streams *)

(** The bytes [l] in any blocks. *)
Inductive stream : list arrival -> list Z -> Prop :=
| stream_nil : stream [] []
| stream_block b s l : b <> [] -> stream s l -> stream (Block b :: s) (b ++ l).

(** One read() of a stream. *)
Lemma stream_read s l n : stream s l -> l <> [] -> (0 < n)%nat ->
  exists g l' s', k_read n s = (Got g, s') /\ l = g ++ l' /\ g <> [] /\ (length g <= n)%nat /\ stream s' l' /\
    ((length s' < length s)%nat \/ length g = n /\ length s' = length s).
Proof.
  intros Hs Hl Hn. destruct Hs as [|b s l Hb Hs]; [done|]. cbn [k_read length].
  destruct (length b <=? n)%nat eqn:E.
  - exists b, l, s. unfold k_read. rewrite E. apply Nat.leb_le in E. do 5 (split; [done|]). left. lia.
  - exists (take n b), (drop n b ++ l), (Block (drop n b) :: s). unfold k_read. rewrite E. apply Nat.leb_gt in E.
    split_and!; try done.
    + by rewrite app_assoc, take_drop.
    + destruct b, n; simpl; try done; lia.
    + rewrite length_take. lia.
    + constructor; [|done]. intros H. apply (f_equal length) in H. rewrite length_drop in H. simpl in H. lia.
    + right. rewrite length_take. simpl. lia.
Qed.

Lemma read_loop_done fuel s buf done_ want : want <= done_ -> read_loop fuel s buf done_ want = Ret (buf, s).
Proof. intros H. destruct fuel; cbn [read_loop]; by rewrite (proj2 (Z.leb_le _ _)). Qed.

(** The loop takes exactly the bytes wanted, whatever the blocks. *)
Lemma read_loop_stream fuel : forall s l r pre buf want,
  stream s (l ++ r) -> (length s < fuel)%nat \/ l = [] -> want = Z.of_nat (length pre + length l) ->
  (length pre + length l <= length buf)%nat -> take (length pre) buf = pre ->
  exists s', stream s' r /\
    read_loop fuel s buf (Z.of_nat (length pre)) want = Ret (pre ++ l ++ drop (length pre + length l) buf, s').
Proof.
  induction fuel as [|fuel IH]; intros s l r pre buf want Hs Hf Hw Hb Hp.
  all: destruct (decide (l = [])) as [->|Hl].
  all: try (exists s; split; [exact Hs|]; cbn [length] in Hw; rewrite read_loop_done by lia; cbn [length app];
            rewrite Nat.add_0_r, <- Hp at 1; by rewrite take_drop).
  - destruct Hf as [|]; [lia|done].
  - destruct Hf as [Hf|]; [|done]. cbn [read_loop].
    assert (length l <> 0%nat) by (by destruct l). rewrite (proj2 (Z.leb_gt _ _)) by lia.
    replace (Z.to_nat (want - Z.of_nat (length pre))) with (length l) by lia.
    destruct (stream_read s (l ++ r) (length l) Hs) as (g & l' & s' & -> & El & Hg & Hgl & Hs' & Hlen); [by destruct l|lia|].
    assert (Hg0 : length g <> 0%nat) by (by destruct g).
    assert (exists k, l = g ++ k) as [k Ek].
    { exists (drop (length g) l). rewrite <- (take_drop (length g) l) at 1. f_equal.
      apply (f_equal (take (length g))) in El. rewrite take_app_le, take_app_length in El by lia. done. }
    assert (El' : l' = k ++ r) by (apply (app_inv_head g); rewrite <- El, Ek; by rewrite app_assoc). clear El.
    rewrite Nat2Z.id. rewrite Ek, length_app in *.
    rewrite (write_at_eq buf pre (take (length g) (drop (length pre) buf)) (drop (length pre + length g) buf)).
    + destruct (IH s' k r (pre ++ g) (pre ++ g ++ drop (length pre + length g) buf) want) as (s2 & Hs2 & E2).
      * by rewrite <- El'.
      * destruct Hlen as [|[H1 H2]]; [left; lia|right]. destruct k; [done|simpl in H1; lia].
      * rewrite length_app. lia.
      * rewrite !length_app, length_drop. lia.
      * rewrite app_assoc. apply take_app_length.
      * exists s2. split; [done|]. replace (Z.of_nat (length pre) + Z.of_nat (length g)) with (Z.of_nat (length (pre ++ g))) by (rewrite length_app; lia). rewrite E2.
        assert (D : drop (length (pre ++ g) + length k) (pre ++ g ++ drop (length pre + length g) buf) =
                    drop (length pre + (length g + length k)) buf) by (rewrite (app_assoc pre g), drop_app_add, drop_drop; f_equal; lia).
        rewrite D. by rewrite <- !app_assoc.
    + rewrite <- Hp at 1. rewrite <- drop_drop, take_drop, take_drop. done.
    + rewrite <- Hp. rewrite length_take. lia.
    + rewrite length_take, length_drop. lia.
Qed.

Lemma read_all_stream s l r buf : stream s (l ++ r) -> (length l <= length buf)%nat ->
  exists s', stream s' r /\ read_all s buf (Z.of_nat (length l)) = Ret (l ++ drop (length l) buf, s').
Proof.
  intros Hs Hb. apply (read_loop_stream (S (length s)) s l r [] buf); [done|left; lia|done|done|done].
Qed.

(** A connection that takes at least a byte in each of the next [n] calls of write(). *)
Definition accepting (n : nat) (w : sink) : Prop :=
  Forall (fun a => exists k, (0 < k)%nat /\ a = Took k) (answers w) /\ (n <= length (answers w))%nat.

Lemma write_loop_takes fuel : forall w l, accepting (length l) w -> (length (answers w) <= fuel)%nat ->
  exists w', write_loop fuel w l = (Ret tt, w') /\ accepted w' = accepted w ++ l /\
             forall n, accepting (length l + n) w -> accepting n w'.
Proof.
  induction fuel as [|fuel IH]; intros w l [Ha Hn] Hf.
  - destruct l; [|simpl in Hn; lia]. exists w. split; [done|]. split; [by rewrite app_nil_r|done].
  - destruct l as [|x l]; [exists w; split; [done|]; split; [by rewrite app_nil_r|done]|].
    destruct w as [acc ans]. cbn [accepted answers] in *. destruct ans as [|a r]; [simpl in Hn; lia|].
    apply Forall_cons in Ha as [(k & Hk & ->) Hr]. cbn [write_loop]. unfold k_write. cbn [answers accepted].
    set (k' := Nat.min k (length (x :: l))). assert (1 <= k' <= length (x :: l))%nat by (unfold k'; simpl; lia).
    destruct (IH (Sink (acc ++ take k' (x :: l)) r) (drop k' (x :: l))) as (w' & -> & Ea & Hacc).
    + split; [done|]. rewrite length_drop. cbn [answers]. simpl in Hn. simpl. lia.
    + cbn [answers]. simpl in Hf. lia.
    + exists w'. split; [done|]. split; [rewrite Ea; cbn [accepted]; by rewrite <- app_assoc, take_drop|].
      intros n [_ Hm]. apply Hacc. split; [done|]. rewrite length_drop. cbn [answers] in *. simpl in Hm |- *. lia.
Qed.

Lemma write_all_takes w l n : accepting (length l + n) w ->
  exists w', write_all w l = (Ret tt, w') /\ accepted w' = accepted w ++ l /\ accepting n w'.
Proof.
  intros [Ha Hn]. destruct (write_loop_takes (S (length (answers w))) w l) as (w' & E & Ew & Hacc); [by split; [|lia]|lia|].
  exists w'. split; [done|]. split; [done|]. by apply Hacc.
Qed.

(** At the end of the stream the loops call read() for ever. *)
Lemma read_eof k : forall buf want fuel, 0 < want -> (k < fuel)%nat ->
  read_loop fuel (replicate k (Block [])) buf 0 want = Blocked.
Proof.
  induction k as [|k IH]; intros buf want fuel Hw Hf; (destruct fuel as [|fuel]; [lia|]); cbn [read_loop replicate];
    rewrite (proj2 (Z.leb_gt _ _)) by lia; [done|]. unfold k_read. cbn [length Nat.leb].
  destruct (write_at buf (Z.to_nat 0) []) as [buf'|] eqn:E; [|unfold write_at in E; case_decide; [done|simpl in *; lia]].
  apply IH; lia.
Qed.

(** ** The properties *)

Definition ip4 (a : list Z) : Prop := length a = 4%nat /\ Forall is_byte a.

Lemma dotted_bytes a : ip4 a -> (7 <= length (dotted a) <= 15)%nat.
Proof. intros [Hl Hb]. pose proof (dotted_length a Hl Hb). unfold strlen in *. lia. Qed.

(** What travels: the length with its null byte, and the text with it. *)
Definition len_byte (a : list Z) : Z := Z.of_nat (length (dotted a)) + 1.
Definition reply (a : list Z) : list Z := len_byte a :: dotted a ++ [0].

(** However the connection cuts what is sent into pieces, the server sends the client
    the length and the text of the address it sees, and the client, which answers the
    length, prints this text and its own address; each ends its part of the exchange when
    the other has sent its own. *)
Theorem ip_exchange ntop a b buffer sc ss wc ws r r' :
  (forall x, ip4 x -> ntop x = Some (dotted x)) -> ip4 a -> ip4 b -> length buffer = Z.to_nat INET_ADDRSTRLEN ->
  accepting 17 ws -> accepting 1 wc -> accepted ws = [] -> accepted wc = [] ->
  stream ss (reply a ++ r) -> stream sc (len_byte a :: r') ->
  (exists ws', serve_one ntop a sc ws = (Ret tt, ws') /\ accepted ws' = reply a) /\
  (exists wc', get_ip ntop buffer b ss wc = (Ret (dotted a, dotted b), wc') /\ accepted wc' = [len_byte a]).
Proof.
  intros Hn Ha Hb Hbuf Hws Hwc Es Ec Hss Hsc. pose proof (dotted_bytes a Ha) as Hd. pose proof (dotted_no_null a) as Hnn.
  assert (Hc : char_of (len_byte a) = len_byte a) by (unfold char_of, len_byte; apply swrap_small; lia).
  assert (Hu : u8 (len_byte a) = len_byte a) by (unfold len_byte; apply wrap_small; lia).
  split.
  - unfold serve_one. rewrite Hn by done. cbv zeta. fold (len_byte a). rewrite Hc, Hu.
    destruct (write_all_takes ws [len_byte a] 16 Hws) as (w1 & -> & E1 & H1).
    destruct (read_all_stream sc [len_byte a] r' [0] Hsc) as (s' & _ & E2); [done|].
    change (Z.of_nat (length [len_byte a])) with 1 in E2. cbn [app length drop] in E2. rewrite E2.
    rewrite Hc, Z.eqb_refl.
    destruct (write_all_takes w1 (dotted a ++ [0]) 0) as (w2 & -> & E3 & _).
    + destruct H1 as [H1 H1']. split; [done|]. rewrite length_app. simpl. lia.
    + exists w2. split; [done|]. by rewrite E3, E1, Es.
  - unfold get_ip. destruct buffer as [|g0 g]; [done|]. change (Z.to_nat INET_ADDRSTRLEN) with 16%nat in Hbuf. simpl in Hbuf.
    destruct (read_all_stream ss [len_byte a] (dotted a ++ [0] ++ r) (g0 :: g)) as (s' & Hs' & E1); [|simpl; lia|].
    { unfold reply in Hss. simpl in Hss. by rewrite <- app_assoc in Hss. }
    change (Z.of_nat (length [len_byte a])) with 1 in E1. cbn [app length drop] in E1. rewrite E1. cbn [head]. rewrite drop_0.
    destruct (write_all_takes wc [len_byte a] 0 Hwc) as (w1 & -> & E2 & _).
    rewrite Hc. replace (_ >? _) with false by (symmetry; rewrite Z.gtb_ltb, Z.ltb_ge; unfold len_byte, INET_ADDRSTRLEN; lia).
    destruct (read_all_stream s' (dotted a ++ [0]) r (len_byte a :: g)) as (s2 & _ & E3).
    + by rewrite <- app_assoc.
    + rewrite length_app. simpl. lia.
    + replace (Z.of_nat (length (dotted a ++ [0]))) with (len_byte a) in E3 by (unfold len_byte; rewrite length_app; simpl; lia).
      rewrite E3, <- app_assoc. cbn [app]. rewrite c_string_app, Hn by done. exists w1. split; [done|]. by rewrite E2, Ec.
Qed.

Definition ex_ntop (a : list Z) : option (list Z) := Some (dotted a).
Definition ex_w (n : nat) : sink := Sink [] (replicate n (Took 1)).

(** 10.0.0.7 in two pieces, seen by a client with address 10.0.0.7. *)
Lemma ip_exchange_witness :
  (exists ws', serve_one ex_ntop [10; 0; 0; 7] [Block [9]] (ex_w 17) = (Ret tt, ws') /\ accepted ws' = reply [10; 0; 0; 7]) /\
  (exists wc', get_ip ex_ntop (replicate 16 255) [10; 0; 0; 7] [Block [9; 49; 48]; Block [46; 48; 46; 48; 46; 55; 0]] (ex_w 1) =
     (Ret (dotted [10; 0; 0; 7], dotted [10; 0; 0; 7]), wc') /\ accepted wc' = [len_byte [10; 0; 0; 7]]).
Proof.
  assert (A : ip4 [10; 0; 0; 7]) by (split; [done|repeat (constructor; [unfold is_byte; lia|]); constructor]).
  apply (ip_exchange ex_ntop [10; 0; 0; 7] [10; 0; 0; 7] (replicate 16 255) [Block [9]]
           [Block [9; 49; 48]; Block [46; 48; 46; 48; 46; 55; 0]] (ex_w 1) (ex_w 17) [] []); try done.
  - split; [|simpl; lia]. apply Forall_replicate. exists 1%nat. split; [lia|done].
  - split; [|simpl; lia]. apply Forall_replicate. exists 1%nat. split; [lia|done].
  - apply (stream_block [9; 49; 48] _ [46; 48; 46; 48; 46; 55; 0]); [done|]. by apply (stream_block [46; 48; 46; 48; 46; 55; 0] [] []); [|constructor].
  - by apply (stream_block [9] [] []); [|constructor].
Defined.

(** A server that sends 16 bytes without a null: the client prints what stands behind its
    buffer.  One that sends the byte 200, a negative char: the client reads nothing more
    and prints its stack. *)
Example client_no_null : fst (get_ip ex_ntop (replicate 16 0) [10; 0; 0; 7] [Block (16 :: replicate 16 65)] (ex_w 1)) = Abort.
Proof. reflexivity. Qed.
Example client_negative :
  fst (get_ip ex_ntop ([1; 83; 69; 67; 0] ++ replicate 11 0) [10; 0; 0; 7] [Block [200]] (ex_w 1)) = Ret ([200; 83; 69; 67], dotted [10; 0; 0; 7]).
Proof. reflexivity. Qed.
(** A client that answers another byte ends the server for everybody. *)
Example server_ended : fst (serve_one ex_ntop [10; 0; 0; 7] [Block [8]] (ex_w 17)) = Exit (-1).
Proof. reflexivity. Qed.
