(* ===== verification/MqNotify.v ===== *)
(** * Being notified of messages

    Model of the programs src/IPC/unpv22e/pxmsg/mqnotifysig1.c to mqnotifysig5.c and
    mqnotifythread1.c, which read a Posix message queue when mq_notify() tells them that
    a message has come.  The kernel's part is what is documented: a registration is used
    up by the first message that comes to an empty queue while nobody is blocked in
    mq_receive(), and it raises the signal.  Signals, messages and the statements of the
    program interleave as they like; a message is queued at any position, whatever its
    priority.  Select() begins again when a signal interrupts it. *)

From S2P Require Import Prelude.

Inductive variant := Sig1 | Sig2 | Sig3 | Sig4 | Sig5.

(** Before which statement the program is.  [PBlock] is line 36 of mqnotifysig2.c,
    [PTest] the test of line 37, [PSuspend] before sigsuspend() and [PSleep] inside it,
    [PReset] line 39; [PSigwait] is line 32 of
    mqnotifysig4.c, [PSelect] and [PRead] are lines 37 and 40 of mqnotifysig5.c, [PPause]
    is line 28 of mqnotifysig1.c, whose handler is [PNotify] and [PReceive]. *)
Inductive pc := PBlock | PTest | PSuspend | PSleep | PReset | PUnblock | PSigwait | PSelect | PRead | PPause | PNotify | PReceive | PQuit.

#[export] Instance variant_dec : EqDecision variant.
Proof. solve_decision. Defined.
#[export] Instance pc_dec : EqDecision pc.
Proof. solve_decision. Defined.

Record state := St {
  queue : list Z; registered : bool; pending : bool;      (* the kernel's *)
  mqflag : bool; pipefd : nat; at_ : pc;
  readed : list Z; arrived : list Z }.

Section Program.
Context (v : variant).

(** mq_receive() on a queue opened without O_NONBLOCK. *)
Definition blocking : bool := match v with Sig1 | Sig2 => true | _ => false end.

Definition start : pc := match v with Sig1 => PPause | Sig2 | Sig3 => PBlock | Sig4 => PSigwait | Sig5 => PSelect end.
(** After the first Mq_notify(). *)
Definition init (waiting : list Z) : state := St waiting true false false 0 start [] waiting.

Definition go (s : state) (p : pc) : state :=
  St (queue s) (registered s) (pending s) (mqflag s) (pipefd s) p (readed s) (arrived s).

(** Mq_notify(): EBUSY ends the program. *)
Definition Mq_notify (s : state) : option state :=
  if registered s then Some (go s PQuit)
  else Some (St (queue s) true (pending s) (mqflag s) (pipefd s) PReceive (readed s) (arrived s)).

(** Mq_receive(), then on to [p]: it waits for a message. *)
Definition Mq_receive (p : pc) (s : state) : option state :=
  match queue s with
  | m :: q => Some (St q (registered s) (pending s) (mqflag s) (pipefd s) p (readed s ++ [m]) (arrived s))
  | [] => None
  end.
(** One turn of while ( (n = mq_receive(...)) >= 0), then on to [p]. *)
Definition receive_loop (p : pc) (s : state) : option state :=
  match queue s with
  | m :: q => Some (St q (registered s) (pending s) (mqflag s) (pipefd s) PReceive (readed s ++ [m]) (arrived s))
  | [] => Some (go s p)
  end.

(** while (mqflag == 0) sigsuspend(&zeromask); mqflag = 0: the test and the call of
    sigsuspend() are two steps, which only the mask keeps together. *)
Definition test_flag (s : state) : state := go s (if mqflag s then PReset else PSuspend).
Definition reset_flag (s : state) : state :=
  St (queue s) (registered s) (pending s) false (pipefd s) PNotify (readed s) (arrived s).

(** One statement of the programs; [None]: the program waits, or has ended. *)
Definition mqnotifysig1 (s : state) : option state :=
  match at_ s with
  | PNotify => Mq_notify s
  | PReceive => Mq_receive PPause s
  | _ => None
  end.
Definition mqnotifysig2 (s : state) : option state :=
  match at_ s with
  | PBlock => Some (go s PTest)
  | PTest => Some (test_flag s)
  | PSuspend => Some (go s PSleep)
  | PReset => Some (reset_flag s)
  | PNotify => Mq_notify s
  | PReceive => Mq_receive PUnblock s
  | PUnblock => Some (go s PBlock)
  | _ => None
  end.
Definition mqnotifysig3 (s : state) : option state :=
  match at_ s with
  | PBlock => Some (go s PTest)
  | PTest => Some (test_flag s)
  | PSuspend => Some (go s PSleep)
  | PReset => Some (reset_flag s)
  | PNotify => Mq_notify s
  | PReceive => receive_loop PUnblock s
  | PUnblock => Some (go s PBlock)
  | _ => None
  end.
Definition mqnotifysig4 (s : state) : option state :=
  match at_ s with
  | PSigwait =>
      if pending s then Some (St (queue s) (registered s) false (mqflag s) (pipefd s) PNotify (readed s) (arrived s)) else None
  | PNotify => Mq_notify s
  | PReceive => receive_loop PSigwait s
  | _ => None
  end.
Definition mqnotifysig5 (s : state) : option state :=
  match at_ s with
  | PSelect => match pipefd s with O => None | _ => Some (go s PRead) end
  | PRead =>
      match pipefd s with
      | O => None
      | S k => Some (St (queue s) (registered s) (pending s) (mqflag s) k PNotify (readed s) (arrived s))
      end
  | PNotify => Mq_notify s
  | PReceive => receive_loop PSelect s
  | _ => None
  end.

Definition main_step : state -> option state :=
  match v with
  | Sig1 => mqnotifysig1 | Sig2 => mqnotifysig2 | Sig3 => mqnotifysig3 | Sig4 => mqnotifysig4 | Sig5 => mqnotifysig5
  end.

(** Where SIGUSR1 is not blocked. *)
Definition unmasked (p : pc) : bool :=
  match v with
  | Sig1 => match p with PPause => true | _ => false end
  | Sig2 | Sig3 => match p with PBlock | PSleep => true | _ => false end
  | Sig4 => false
  | Sig5 => match p with PQuit => false | _ => true end
  end.

(** The handlers: that of mqnotifysig1.c begins, the others run to the end. *)
Definition sig_usr1_read (s : state) : state :=
  St (queue s) (registered s) false (mqflag s) (pipefd s) PNotify (readed s) (arrived s).
Definition sig_usr1_flag (s : state) : state :=
  St (queue s) (registered s) false true (pipefd s) (at_ s) (readed s) (arrived s).
Definition sig_usr1_pipe (s : state) : state :=
  St (queue s) (registered s) false (mqflag s) (S (pipefd s)) (at_ s) (readed s) (arrived s).

(** The kernel delivers the signal: the handler runs, sigsuspend() returns. *)
Definition deliver (s : state) : option state :=
  if pending s && unmasked (at_ s) then
    Some match v with
    | Sig1 => sig_usr1_read s
    | Sig5 => sig_usr1_pipe s
    | _ => go (sig_usr1_flag s) (match at_ s with PSleep => PTest | p => p end)
    end
  else None.

(** A message comes: it goes to a blocked reader, or uses up the registration of an
    empty queue. *)
Definition waiting_reader (s : state) : bool :=
  blocking && match at_ s with PReceive => true | _ => false end && match queue s with [] => true | _ => false end.
Definition arrive (k : nat) (m : Z) (s : state) : state :=
  let fires := match queue s with [] => registered s && negb (waiting_reader s) | _ => false end in
  St (take k (queue s) ++ m :: drop k (queue s)) (registered s && negb fires) (pending s || fires)
     (mqflag s) (pipefd s) (at_ s) (readed s) (arrived s ++ [m]).

Inductive step : state -> state -> Prop :=
| step_main s s' : main_step s = Some s' -> step s s'
| step_signal s s' : deliver s = Some s' -> step s s'
| step_arrive k m s : step s (arrive k m s).

(** A run on a list of choices. *)
Inductive choice := CMain | CSignal | CArrive (k : nat) (m : Z).
Fixpoint run_on (l : list choice) (s : state) : option state :=
  match l with
  | [] => Some s
  | CMain :: l' => main_step s ≫= run_on l'
  | CSignal :: l' => deliver s ≫= run_on l'
  | CArrive k m :: l' => run_on l' (arrive k m s)
  end.
Definition quiet (c : choice) : Prop := match c with CArrive _ _ => False | _ => True end.

(** Neither the program nor a signal can go on. *)
Definition at_rest (s : state) : Prop := main_step s = None /\ deliver s = None.

Definition reached (waiting : list Z) : state -> Prop := reachable (eq (init waiting)) step.

(** ** One token: the registration, the signal, the flag, the byte in the pipe, or the
    program about to register again. *)

Definition b2n (b : bool) : nat := if b then 1 else 0.
Definition tokens (s : state) : nat :=
  (b2n (registered s) + b2n (pending s) + b2n (mqflag s) + pipefd s + match at_ s with PNotify => 1 | _ => 0 end)%nat.

(** The statements of the variant. *)
Definition mine (p : pc) : bool :=
  match v, p with
  | _, (PNotify | PReceive) => true
  | Sig1, PPause => true
  | (Sig2 | Sig3), (PBlock | PTest | PSuspend | PSleep | PReset | PUnblock) => true
  | Sig4, PSigwait => true
  | Sig5, (PSelect | PRead) => true
  | _, _ => false
  end.

Record inv (s : state) : Prop := Inv {
  i_token : tokens s = 1%nat;
  i_mine : mine (at_ s) = true;
  i_flag : mqflag s = true -> (v = Sig2 \/ v = Sig3) /\ at_ s <> PSuspend /\ at_ s <> PSleep;
  i_reset : at_ s = PReset -> mqflag s = true;
  i_pipe : (0 < pipefd s)%nat -> v = Sig5;
  i_read : at_ s = PRead -> (0 < pipefd s)%nat }.

End Program.

Lemma run_on_reached v w l s s' : reached v w s -> run_on v l s = Some s' -> reached v w s'.
Proof.
  revert s. induction l as [|[| |k m] l IH]; intros s H E; simpl in E.
  - by injection E as <-.
  - destruct (main_step v s) as [s1|] eqn:E1; [|done]. eapply IH; [|exact E]. eapply reach_step; [exact H|by apply step_main].
  - destruct (deliver v s) as [s1|] eqn:E1; [|done]. eapply IH; [|exact E]. eapply reach_step; [exact H|by apply step_signal].
  - eapply IH; [|exact E]. eapply reach_step; [exact H|apply step_arrive].
Qed.

Lemma mn_init v w : inv v (init v w).
Proof. destruct v; split; unfold tokens; simpl; intros; try done; lia. Qed.

Ltac steps E := unfold main_step, mqnotifysig1, mqnotifysig2, mqnotifysig3, mqnotifysig4, mqnotifysig5, test_flag, reset_flag, Mq_notify, Mq_receive, receive_loop, go in E.
Ltac handlers E := unfold deliver, sig_usr1_read, sig_usr1_flag, sig_usr1_pipe, go in E.

(** Case analysis on the variant, the program counter and the flags. *)
Ltac cases_of v s := destruct s as [q rg pd fl pp p rd ar]; unfold tokens in *; simpl in *;
  destruct v, p; simpl in *; try discriminate; destruct rg, pd, fl; simpl in *; try lia.

(** What the invariant excludes, and the fields of the new state. *)
Ltac settle F P R := try (by specialize (P ltac:(lia))); try (match goal with Z : ?x = ?x -> _ |- _ => by specialize (Z eq_refl) end); try (by destruct (F eq_refl) as [[?|?] [? ?]]);
  split; unfold tokens; simpl in *; intros; try done; try lia; try (by auto); try (split; [by auto|done]).

Lemma mn_main v s s' : inv v s -> main_step v s = Some s' -> inv v s'.
Proof.
  intros [T M F Z P R] E. steps E. cases_of v s;
    destruct q as [|m q], pp as [|k]; simpl in E, T; try discriminate; try lia; try (injection E as <-); settle F P R.
Qed.

Lemma inv_deliver v s s' : inv v s -> deliver v s = Some s' -> inv v s'.
Proof.
  intros [T M F Z P R] E. handlers E. cases_of v s; try discriminate; injection E as <-; settle F P R.
Qed.

Lemma inv_arrive v k m s : inv v s -> inv v (arrive v k m s).
Proof.
  intros [T M F Z P R]. unfold arrive, waiting_reader, blocking. cases_of v s; destruct q as [|x q]; simpl in *; settle F P R.
Qed.

Lemma mn_inv v w s : reached v w s -> inv v s.
Proof.
  apply reachable_inv; [intros ? <-; apply mn_init|]. intros t t' I H. destruct H as [x y E|x y E|k m x]; [by eapply mn_main|by eapply inv_deliver|].
  by apply inv_arrive.
Qed.

(** ** Nothing is left unread, when the queue was empty at the start *)

Definition drains (v : variant) : Prop := v = Sig3 \/ v = Sig4 \/ v = Sig5.

(** While messages are in the queue, nobody relies on a registration. *)
Definition noticed (s : state) : Prop := queue s = [] \/ registered s = false \/ at_ s = PReceive.

Lemma mn_noticed v s : drains v -> reached v [] s -> noticed s.
Proof.
  intros D. unfold reached. apply reachable_inv; [intros ? <-; by left|]. unfold noticed. intros t t' N H.
  destruct H as [x y E|x y E|k m x].
  - steps E. destruct x as [q rg pd fl pp p rd ar]; simpl in *.
    destruct D as [->|[->| ->]]; destruct p, q, rg, fl, pd, pp; simpl in *; try discriminate; try (injection E as <-); simpl; naive_solver.
  - handlers E. destruct (_ && _); [|done]. injection E as <-.
    destruct D as [->|[->| ->]]; simpl; try done; destruct (at_ x); naive_solver.
  - unfold arrive, waiting_reader, blocking. destruct x as [q rg pd fl pp p rd ar]; simpl in *. right.
    destruct D as [->|[->| ->]]; destruct p, q, rg; simpl in *; naive_solver.
Qed.

(** What has been read and what waits is what came. *)
Lemma account v w s : reached v w s -> readed s ++ queue s ≡ₚ arrived s.
Proof.
  unfold reached. apply (reachable_inv (eq (init v w)) (step v) (fun s => readed s ++ queue s ≡ₚ arrived s)); [by intros ? <-|].
  intros t t' P H. destruct H as [x y E|x y E|k m x].
  - steps E. destruct x as [q rg pd fl pp p rd ar]; simpl in *.
    destruct p; simpl in *; repeat case_match; simplify_eq/=; try done; by rewrite <- app_assoc.
  - handlers E. destruct (_ && _); [|done]. injection E as <-. by destruct v.
  - simpl. rewrite <- P, app_assoc, <- Permutation_middle, <- app_assoc, take_drop. apply Permutation_cons_append.
Qed.

(** ** Between two messages the program comes to rest *)

Definition weight (v : variant) (p : pc) : nat :=
  match p with PNotify => 6 | PReceive => 5 | PUnblock => 4 | PBlock => 3 | PTest => 2 | PSuspend | PReset => 1 | _ => 0 end.
Definition work (v : variant) (s : state) : nat :=
  10 * length (queue s) + weight v (at_ s) + 12 * b2n (pending s) + 8 * b2n (mqflag s) + 9 * pipefd s
  + match at_ s with PSelect => 1 | _ => 0 end.

Lemma main_work v s s' : inv v s -> main_step v s = Some s' -> (work v s' < work v s)%nat.
Proof.
  intros [_ _ _ Z _ _] E. steps E. unfold work. destruct s as [q rg pd fl pp p rd ar]; simpl in *.
  destruct v, p; try discriminate; try (destruct rg, pd, fl, q, pp); simpl in E; try discriminate; injection E as <-; simpl in *; try (by specialize (Z eq_refl)); lia.
Qed.

Lemma signal_work v s s' : deliver v s = Some s' -> (work v s' < work v s)%nat.
Proof.
  intros E. handlers E. unfold work. destruct s as [q rg pd fl pp p rd ar]; simpl in *. destruct pd; [|done].
  destruct v, p; simpl in E; try done; injection E as <-; destruct fl; simpl; lia.
Qed.

Lemma mn_quiet v l s s' : inv v s -> Forall quiet l -> run_on v l s = Some s' -> (length l + work v s' <= work v s)%nat.
Proof.
  revert s. induction l as [|c l IH]; intros s I Hl E; [simpl in *; injection E as ->; simpl; lia|].
  apply Forall_cons in Hl as [Hc Hl]. destruct c; simpl in *; [| |done].
  - destruct (main_step v s) as [s1|] eqn:E1; [|done]. pose proof (main_work _ _ _ I E1). specialize (IH _ (mn_main _ _ _ I E1) Hl E). lia.
  - destruct (deliver v s) as [s1|] eqn:E1; [|done]. pose proof (signal_work _ _ _ E1). specialize (IH _ (inv_deliver _ _ _ I E1) Hl E). lia.
Qed.

(** At rest the program waits for the next message, and is registered for it. *)
Lemma rest_registered v s : inv v s -> drains v -> at_rest v s -> registered s = true /\ at_ s <> PReceive.
Proof.
  intros [T M F Z P R] D [E1 E2]. steps E1. handlers E2. cases_of v s; destruct q, pp; simpl in *; try done;
    try (by destruct D as [|[|]]); try lia; try (by destruct (F eq_refl) as [[?|?] [? ?]]); try (by specialize (P ltac:(lia))).
Qed.

(** ** The first two programs read one message for each signal *)

(** Asleep, registered, and with a message that nobody will hear of. *)
Definition stuck (s : state) : Prop :=
  queue s <> [] /\ registered s = true /\ pending s = false /\ mqflag s = false /\ pipefd s = 0%nat /\
  (at_ s = PSleep \/ at_ s = PPause \/ at_ s = PSelect \/ at_ s = PSigwait).

Lemma stuck_step v s s' : stuck s -> step v s s' -> stuck s' /\ readed s' = readed s.
Proof.
  intros (Hq & Hr & Hp & Hf & Hpp & Ha) H. destruct H as [x y E|x y E|k m x].
  - steps E. destruct v, Ha as [Ha|[Ha|[Ha|Ha]]]; rewrite Ha, ?Hpp, ?Hp in E; done.
  - handlers E. by rewrite Hp in E.
  - unfold arrive, stuck. simpl. destruct (queue x) eqn:E; [done|]. rewrite Hr, Hp. simpl. split; [|done].
    split_and!; try done. rewrite <- E. by destruct (take k (queue x)).
Qed.

Lemma stuck_for_ever v s s' : stuck s -> rtc (step v) s s' -> stuck s' /\ readed s' = readed s.
Proof.
  intros Hs H. induction H as [|x y z Hxy _ IH]; [done|]. destruct (stuck_step _ _ _ Hs Hxy) as [Hs' E].
  destruct (IH Hs') as [? E']. split; [done|congruence].
Qed.

(** Two messages and one signal; a message that was there before. *)
Definition two_messages (v : variant) : list choice :=
  match v with
  | Sig1 => [CArrive 0 1; CArrive 1 2; CSignal; CMain; CMain]
  | _ => replicate 3 CMain ++ [CArrive 0 1; CArrive 1 2; CSignal] ++ replicate 8 CMain
  end.
Definition first_sleep (v : variant) : list choice :=
  match v with Sig2 | Sig3 => [CMain; CMain; CMain] | _ => [] end.

Lemma stuck_reached v w : ~ drains v \/ w <> [] -> exists s, reached v w s /\ stuck s.
Proof.
  intros H. destruct w as [|m w].
  - exists (default (init v []) (run_on v (two_messages v) (init v []))).
    assert (Hv : v = Sig1 \/ v = Sig2) by (unfold drains in H; destruct v; naive_solver).
    split.
    + eapply (run_on_reached v [] (two_messages v) (init v [])); [by apply reach_init|].
      destruct Hv as [->| ->]; vm_compute; reflexivity.
    + destruct Hv as [->| ->]; unfold stuck; vm_compute; split_and!; try done; naive_solver.
  - exists (default (init v []) (run_on v (first_sleep v) (init v (m :: w)))). split.
    + eapply (run_on_reached v (m :: w) (first_sleep v) (init v (m :: w))); [by apply reach_init|].
      destruct v; reflexivity.
    + destruct v; unfold stuck; simpl; split_and!; try done; naive_solver.
Qed.

(** ** mqnotifythread1.c *)

Module Threads.

(** Before Mq_notify(), in the loop around mq_receive(), behind it. *)
Inductive tpc := TNotify | TReceive | TDone | TQuit.
Record tstate := TSt { tqueue : list Z; tregistered : bool; threads : list tpc; tread : list Z; tarrived : list Z }.

Definition tinit (waiting : list Z) : tstate := TSt waiting true [] [] waiting.

(** A statement of thread [i]. *)
Definition notify_thread (i : nat) (s : tstate) : option tstate :=
  match threads s !! i with
  | Some TNotify =>
      Some (if tregistered s then TSt (tqueue s) true (<[i := TQuit]> (threads s)) (tread s) (tarrived s)
            else TSt (tqueue s) true (<[i := TReceive]> (threads s)) (tread s) (tarrived s))
  | Some TReceive =>
      match tqueue s with
      | m :: q => Some (TSt q (tregistered s) (threads s) (tread s ++ [m]) (tarrived s))
      | [] => Some (TSt [] (tregistered s) (<[i := TDone]> (threads s)) (tread s) (tarrived s))
      end
  | _ => None
  end.

(** A message comes; for the first in an empty queue the system starts a thread. *)
Definition tarrive (k : nat) (m : Z) (s : tstate) : tstate :=
  let fires := match tqueue s with [] => tregistered s | _ => false end in
  TSt (take k (tqueue s) ++ m :: drop k (tqueue s)) (tregistered s && negb fires)
    (threads s ++ if fires then [TNotify] else []) (tread s) (tarrived s ++ [m]).

Inductive tstep : tstate -> tstate -> Prop :=
| tstep_thread i s s' : notify_thread i s = Some s' -> tstep s s'
| tstep_arrive k m s : tstep s (tarrive k m s).

Definition treached (waiting : list Z) : tstate -> Prop := reachable (eq (tinit waiting)) tstep.

Definition starting (p : tpc) : bool := match p with TNotify => true | _ => false end.
Definition reading (p : tpc) : bool := match p with TReceive => true | _ => false end.

Record tinv (s : tstate) : Prop := TInv {
  ti_token : (if tregistered s then 1 else 0) + cnt starting (threads s) = 1;
  ti_quit : Forall (fun p => p <> TQuit) (threads s);
  ti_perm : tread s ++ tqueue s ≡ₚ tarrived s;
  ti_noticed : tqueue s = [] \/ tregistered s = false \/ 0 < cnt reading (threads s) }.

Lemma tinv_thread i s s' : tinv s -> notify_thread i s = Some s' -> tinv s'.
Proof.
  intros [T Q P N] E. unfold notify_thread in E. destruct (threads s !! i) as [p|] eqn:Et; [|done].
  destruct p; try done.
  - pose proof (cnt_lookup starting _ _ _ Et eq_refl). destruct (tregistered s) eqn:Er; [lia|]. injection E as <-.
    split; simpl; rewrite ?(cnt_insert _ _ _ _ _ Et); simpl; try done; try lia.
    + by apply Forall_insert.
    + right; right. pose proof (cnt_nonneg reading (threads s)). lia.
  - destruct (tqueue s) as [|m q] eqn:Eq; injection E as <-; split; simpl; rewrite ?(cnt_insert _ _ _ _ _ Et); simpl; try done; try lia.
    + by apply Forall_insert.
    + by left.
    + by rewrite <- app_assoc.
    + right; right. by eapply cnt_lookup.
Qed.

Lemma tinv_arrive k m s : tinv s -> tinv (tarrive k m s).
Proof.
  intros [T Q P N]. unfold tarrive. split; simpl.
  - rewrite cnt_app. destruct (tqueue s), (tregistered s); simpl in *; rewrite ?cnt_cons, ?cnt_nil; simpl; lia.
  - apply Forall_app. split; [done|]. destruct (tqueue s), (tregistered s); simpl; repeat constructor; done.
  - rewrite <- P, app_assoc, <- Permutation_middle, <- app_assoc, take_drop. apply Permutation_cons_append.
  - right. rewrite cnt_app. pose proof (cnt_nonneg reading (threads s)).
    destruct (tqueue s) as [|x q], (tregistered s); simpl in *; rewrite ?cnt_cons, ?cnt_nil; simpl; destruct_or?; try done; try (by left); right; lia.
Qed.

Lemma tinv_reach s : treached [] s -> tinv s.
Proof.
  apply reachable_inv.
  - intros ? <-. split; simpl; try done. by left.
  - intros t t' I H. destruct H; [by eapply tinv_thread|by apply tinv_arrive].
Qed.

(** No call of Mq_notify() fails, and when no thread can go on all messages are read. *)
Theorem notify_threads s : treached [] s ->
  Forall (fun p => p <> TQuit) (threads s) /\
  ((forall i, notify_thread i s = None) -> tregistered s = true /\ tread s ≡ₚ tarrived s).
Proof.
  intros R. destruct (tinv_reach s R) as [T Q P N]. split; [done|]. intros Hn.
  assert (Hz : forall f, (forall p, f p = true -> p = TNotify \/ p = TReceive) -> cnt f (threads s) = 0).
  { intros f Hf. pose proof (cnt_nonneg f (threads s)). destruct (decide (0 < cnt f (threads s))) as [Hc|]; [|lia].
    apply cnt_pos in Hc as (i & p & Hi & Hp). specialize (Hn i). unfold notify_thread in Hn. rewrite Hi in Hn.
    destruct (Hf p Hp) as [->| ->]; simplify_eq/=. by destruct (tqueue s). }
  rewrite Hz in T by (intros []; naive_solver). rewrite Hz in N by (intros []; naive_solver).
  destruct (tregistered s); [|lia]. split; [done|]. destruct N as [N|[|]]; [|done|lia]. by rewrite <- P, N, app_nil_r.
Qed.
End Threads.

(** ** The properties *)

(** C24: the five programs with a signal never call Mq_notify() twice for one registration,
    lose or double no message, and run for a bounded number of statements between two
    messages.  The three that read until the queue is empty have then read everything
    that came, when the queue was empty at the start.  Otherwise - the first two programs,
    which read one message for each signal, or a queue that is not empty at the start -
    there is a state in which the program sleeps with a message in the queue, and in which
    it stays whatever messages come. *)
Theorem mq_notified v w s : reached v w s ->
  at_ s <> PQuit /\ readed s ++ queue s ≡ₚ arrived s /\
  (forall l s', Forall quiet l -> run_on v l s = Some s' ->
     (length l <= work v s)%nat /\
     (at_rest v s' -> drains v -> w = [] -> registered s' = true /\ queue s' = [] /\ readed s' ≡ₚ arrived s')) /\
  (~ drains v \/ w <> [] ->
     exists s1, reached v w s1 /\ queue s1 <> [] /\ forall s2, rtc (step v) s1 s2 -> queue s2 <> [] /\ readed s2 = readed s1).
Proof.
  intros R. pose proof (mn_inv _ _ _ R) as I. split_and!.
  - pose proof (i_mine _ _ I) as M. intros E. rewrite E in M. by destruct v.
  - by eapply account.
  - intros l s' Hl E. split; [pose proof (mn_quiet _ _ _ _ I Hl E); lia|]. intros Hr D ->.
    pose proof (run_on_reached _ _ _ _ _ R E) as R'. destruct (rest_registered v s' (mn_inv _ _ _ R') D Hr) as [Hreg Hne].
    destruct (mn_noticed v s' D R') as [Hq|[|]]; [|congruence|done].
    split_and!; try done. pose proof (account _ _ _ R') as P. by rewrite Hq, app_nil_r in P.
  - intros H. destruct (stuck_reached v w H) as (s1 & R1 & S1). exists s1. split; [done|]. split; [by apply S1|].
    intros s2 H2. destruct (stuck_for_ever _ _ _ S1 H2) as [S2 ?]. split; [by apply S2|done].
Qed.

(** mqnotifysig3.c, awake for the first of two messages. *)
Definition ex_run : list choice := [CMain; CMain; CMain; CArrive 0 11; CSignal; CMain; CMain; CArrive 1 22].
Definition ex_state : state := default (init Sig3 []) (run_on Sig3 ex_run (init Sig3 [])).

Lemma mq_notified_witness :
  reached Sig3 [] ex_state /\ queue ex_state = [11; 22] /\ at_ ex_state = PNotify /\
  at_ ex_state <> PQuit /\ readed ex_state ++ queue ex_state ≡ₚ arrived ex_state.
Proof.
  assert (H : reached Sig3 [] ex_state).
  { apply (run_on_reached Sig3 [] ex_run (init Sig3 [])); [by apply reach_init|]. vm_compute. reflexivity. }
  split; [exact H|]. split; [vm_compute; reflexivity|]. split; [vm_compute; reflexivity|].
  destruct (mq_notified Sig3 [] ex_state H) as (H1 & H2 & _). exact (conj H1 H2).
Defined.

(** Both are read, the second without a signal of its own. *)
Example mq_both : let s := run_on Sig3 (replicate 8 CMain) ex_state in
  readed <$> s = Some [11; 22] /\ at_ <$> s = Some PSleep.
Proof. split; vm_compute; reflexivity. Qed.
