(* ===== verification/Counters.v ===== *)
(** * Processes that count together

    Model of the programs in which two or more processes increment a counter under a
    semaphore: the author's src/IPC/ShareMemory, and the programs of the book they follow,
    unpv22e/shm/incr1.c, incr2.c, incr2private.c, incr3.c, incr_map_anon.c, incr_dev_zero.c
    and pxshm/client1.c.  They differ in where the counter lives - one cell that all
    processes share, or a copy for each, as after fork() or with MAP_PRIVATE - and in
    whether the value is printed before or after it is incremented.  A step is one
    semaphore operation, or a load, a store or the printf() between two of them.  A counter
    past INT_MAX, which C leaves undefined, wraps around here, as the machine does. *)

From S2P Require Import Prelude PxSem ProdCons.

(** printf("...", count++), or printf("...", *addr); *addr += 1; *)
Inductive body := PostIncrement | PrintThenAdd.
#[export] Instance body_dec : EqDecision body.
Proof. solve_decision. Defined.

Inductive pc := Wait | Load | Store | Print | Post | Exit.
#[export] Instance pc_dec : EqDecision pc.
Proof. solve_decision. Defined.

Record proc := Proc { at_ : pc; todo : nat; reg : Z }.

Section Program.
Context `{Semaphore T} (how : body) (shared : bool).

Record state := St { mutex : T; cells : list Z; procs : list proc; out : list (nat * Z) }.

(** The cell of process [i]. *)
Definition cell_of (i : nat) : nat := if shared then 0 else i.

(** The next step of the loop of process [i]; [None]: it waits or has ended. *)
Definition loop (s : state) (i : nat) : option state :=
  p ← procs s !! i;
  let set m c p' o := Some (St m c (<[i := p']> (procs s)) o) in
  match at_ p with
  | Wait =>
      match todo p with
      | O => set (mutex s) (cells s) (Proc Exit 0 (reg p)) (out s)
      | _ => m ← down (mutex s); set m (cells s) (Proc Load (todo p) (reg p)) (out s)
      end
  | Load =>
      v ← cells s !! cell_of i;
      set (mutex s) (cells s) (Proc (match how with PostIncrement => Store | PrintThenAdd => Print end) (todo p) v) (out s)
  | Store =>
      match how with
      | PostIncrement => set (mutex s) (<[cell_of i := s32 (reg p + 1)]> (cells s)) (Proc Print (todo p) (reg p)) (out s)
      | PrintThenAdd =>
          v ← cells s !! cell_of i;
          set (mutex s) (<[cell_of i := s32 (v + 1)]> (cells s)) (Proc Post (todo p) (reg p)) (out s)
      end
  | Print =>
      set (mutex s) (cells s) (Proc (match how with PostIncrement => Post | PrintThenAdd => Store end) (todo p) (reg p))
        (out s ++ [(i, reg p)])
  | Post => set (post (mutex s)) (cells s) (Proc Wait (Nat.pred (todo p)) (reg p)) (out s)
  | Exit => None
  end.

Definition step (s s' : state) : Prop := exists i, loop s i = Some s'.

(** The processes after fork(), each with its number of rounds, and the counters at 0. *)
Definition start (loops : list nat) (m : T) : state :=
  St m (replicate (if shared then 1 else length loops) 0) (map (fun n => Proc Wait n 0) loops) [].

(** ** The accounts *)

Definition holds (p : proc) : bool := match at_ p with Wait | Exit => false | _ => true end.
(** What is in the cell, less the number of values printed of it. *)
Definition ahead (p : proc) : Z :=
  match how, at_ p with PostIncrement, Print => 1 | PrintThenAdd, Store => -1 | _, _ => 0 end.
(** The value printed in this round. *)
Definition printed (p : proc) : Z :=
  match how, at_ p with _, Post => 1 | PrintThenAdd, Store => 1 | _, _ => 0 end.
(** [reg] is the next value to print. *)
Definition loaded (p : proc) : bool :=
  match how, at_ p with PostIncrement, (Store | Print) => true | PrintThenAdd, Print => true | _, _ => false end.

(** What is printed from cell [c], and by process [i]. *)
Definition from_cell (c : nat) (o : list (nat * Z)) : list Z := map snd (filter (fun x => cell_of (fst x) = c) o).
Definition by_proc (i : nat) (o : list (nat * Z)) : Z := Z.of_nat (length (filter (fun x => fst x = i) o)).
Definition count (c : nat) (o : list (nat * Z)) : Z := Z.of_nat (length (from_cell c o)).

(** What the holder [h] of the semaphore owes cell [c]. *)
Definition owed (h : option nat) (ps : list proc) (c : nat) : Z :=
  match h with
  | Some i => if decide (cell_of i = c) then from_option ahead 0 (ps !! i) else 0
  | None => 0
  end.

Record inv (loops : list nat) (h : option nat) (s : state) : Prop := Inv {
  i_ok : sem_ok (mutex s) /\ 1 <= limit (mutex s);
  i_mutex : value (mutex s) = (if h is Some _ then 0 else 1);
  i_holder : forall i p, procs s !! i = Some p -> holds p = true <-> h = Some i;
  i_mine : forall i, h = Some i -> (i < length (procs s))%nat;
  i_pids : Forall (fun x => (fst x < length loops)%nat) (out s);
  i_len : length (procs s) = length loops /\ length (cells s) = if shared then 1%nat else length loops;
  i_cell : forall c, (c < length (cells s))%nat -> cells s !! c = Some (s32 (count c (out s) + owed h (procs s) c));
  i_reg : forall i p, procs s !! i = Some p -> loaded p = true -> reg p = s32 (count (cell_of i) (out s));
  i_vals : forall c, from_cell c (out s) = map s32 (seqZ 0 (count c (out s)));
  i_todo : forall i p, procs s !! i = Some p ->
           exists n, loops !! i = Some n /\ by_proc i (out s) = Z.of_nat n - Z.of_nat (todo p) + printed p /\
                     (holds p = true -> (0 < todo p)%nat) /\ (at_ p = Exit -> todo p = 0%nat) }.

Lemma count_snoc c o i v : count c (o ++ [(i, v)]) = count c o + (if decide (cell_of i = c) then 1 else 0).
Proof.
  unfold count, from_cell. rewrite !length_map, filter_app, length_app. rewrite filter_cons. simpl.
  case_decide; simpl; lia.
Qed.

Lemma from_cell_snoc c o i v : from_cell c (o ++ [(i, v)]) = from_cell c o ++ (if decide (cell_of i = c) then [v] else []).
Proof. unfold from_cell. rewrite filter_app, map_app. f_equal. rewrite filter_cons. simpl. by case_decide. Qed.

Lemma by_proc_snoc j o i v : by_proc j (o ++ [(i, v)]) = by_proc j o + (if decide (i = j) then 1 else 0).
Proof. unfold by_proc. rewrite filter_app, length_app, filter_cons. simpl. case_decide; simpl; lia. Qed.

Lemma cell_lt loops h s i p : inv loops h s -> procs s !! i = Some p -> (cell_of i < length (cells s))%nat.
Proof.
  intros I Hp. apply lookup_lt_Some in Hp. destruct (i_len _ _ _ I) as [E1 E2]. rewrite E2. unfold cell_of. destruct shared; lia.
Qed.

Lemma ct_start loops m : sem_ok m -> 1 <= limit m -> value m = 1 -> inv loops None (start loops m).
Proof.
  intros Ho Hm Hv. split; simpl; try done.
  - intros i p Hp. rewrite list_lookup_fmap in Hp. destruct (loops !! i); simplify_eq/=. done.
  - rewrite length_map, length_replicate. done.
  - intros c Hc. rewrite length_replicate in Hc. by rewrite lookup_replicate_2.
  - intros i p Hp Hl. rewrite list_lookup_fmap in Hp. destruct (loops !! i); simplify_eq/=. by destruct how.
  - intros i p Hp. rewrite list_lookup_fmap in Hp. destruct (loops !! i) as [n|]; simplify_eq/=. exists n.
    unfold by_proc, printed. simpl. split_and!; try done. destruct how; lia.
Qed.

(** The invariant after a step of process [i], from what the step changes. *)
Lemma ct_update loops h h' s i p p' m c o :
  inv loops h s -> procs s !! i = Some p ->
  sem_ok m /\ 1 <= limit m -> value m = (if h' is Some _ then 0 else 1) ->
  (holds p' = true <-> h' = Some i) -> (forall j, j <> i -> h' = Some j <-> h = Some j) ->
  length c = length (cells s) ->
  (forall k, (k < length (cells s))%nat -> c !! k = Some (s32 (count k o + owed h' (<[i := p']> (procs s)) k))) ->
  (loaded p' = true -> reg p' = s32 (count (cell_of i) o)) ->
  o = out s \/ h = Some i -> Forall (fun x => (fst x < length loops)%nat) o ->
  (forall k, from_cell k o = map s32 (seqZ 0 (count k o))) ->
  (forall j, j <> i -> by_proc j o = by_proc j (out s)) ->
  (forall n, loops !! i = Some n -> by_proc i o = Z.of_nat n - Z.of_nat (todo p') + printed p') ->
  (holds p' = true -> (0 < todo p')%nat) -> (at_ p' = Exit -> todo p' = 0%nat) ->
  inv loops h' (St m c (<[i := p']> (procs s)) o).
Proof.
  intros [Ho Hx Hh Hmi Hpd [L1 L2] Hc Hr Hv Ht] Hp Hm Hval Hi Hj Hlen Hcell Hreg Hout Hpid Hvals Hby Hbyi Hpos Hexit.
  assert (Hl : (i < length (procs s))%nat) by (by eapply lookup_lt_Some).
  split; simpl; try done.
  - intros j q Hq. destruct (decide (j = i)) as [->|Hne].
    + rewrite list_lookup_insert_eq in Hq by done. by injection Hq as <-.
    + rewrite list_lookup_insert_ne in Hq by done. rewrite Hj by done. by apply Hh.
  - intros j Hj'. rewrite length_insert. destruct (decide (j = i)) as [->|Hne]; [done|]. apply Hmi. by apply Hj.
  - rewrite length_insert, Hlen. done.
  - rewrite Hlen. exact Hcell.
  - intros j q Hq Hld. destruct (decide (j = i)) as [->|Hne].
    + rewrite list_lookup_insert_eq in Hq by done. injection Hq as <-. by apply Hreg.
    + rewrite list_lookup_insert_ne in Hq by done. destruct Hout as [->|Hi']; [by apply Hr|].
      assert (holds q = true) as Hq' by (unfold loaded, holds in *; by destruct how, (at_ q)).
      apply (Hh j q Hq) in Hq'. congruence.
  - intros j q Hq. destruct (decide (j = i)) as [->|Hne].
    + rewrite list_lookup_insert_eq in Hq by done. injection Hq as <-.
      destruct (Ht i p Hp) as (n & Hn & _). exists n. auto.
    + rewrite list_lookup_insert_ne in Hq by done. destruct (Ht j q Hq) as (n & Hn & Hb & ? & ?). exists n. rewrite Hby by done. auto.
Qed.

(** Every step keeps the invariant, with the semaphore held by the process or free. *)
Lemma inv_loop loops h s i s' : inv loops h s -> loop s i = Some s' -> exists h', inv loops h' s'.
Proof.
  intros I E. pose proof I as [[Ho Hm] Hx Hh Hmi Hpd [L1 L2] Hc Hr Hv Ht]. unfold loop in E.
  destruct (procs s !! i) as [p|] eqn:Ep; [|done]. simpl in E. pose proof (cell_lt _ _ _ _ _ I Ep) as Hlt.
  assert (Hl : (i < length (procs s))%nat) by (by eapply lookup_lt_Some).
  pose proof (Hh i p Ep) as Hhi. destruct (Ht i p Ep) as (n & Hn & Hby & Htd & Hex).
  (* holding the semaphore, what the cells are *)
  assert (Hown : h = Some i -> forall k, (k < length (cells s))%nat ->
            cells s !! k = Some (s32 (count k (out s) + (if decide (cell_of i = k) then ahead p else 0)))).
  { intros -> k Hk. rewrite (Hc k Hk). unfold owed. by rewrite Ep. }
  assert (Howed : forall p' k, owed (Some i) (<[i := p']> (procs s)) k = if decide (cell_of i = k) then ahead p' else 0).
  { intros p' k. unfold owed. rewrite list_lookup_insert_eq by done. done. }
  destruct p as [a td rg]. unfold holds in Hhi, Htd. pose proof (Hr i _ Ep) as Hrg. cbn [at_ todo reg] in *. destruct a.
  - (* Wait *)
    assert (Hne : h <> Some i) by (intros ->; by specialize (proj2 Hhi eq_refl)).
    destruct td as [|td].
    + injection E as <-. exists h. eapply ct_update; try done; try by left.
      * intros k Hk. rewrite (Hc k Hk). do 3 f_equal. unfold owed. destruct h as [j|]; [|done].
        rewrite list_lookup_insert_ne by congruence. done.
      * intros n' Hn'. rewrite Hn in Hn'. injection Hn' as <-. rewrite Hby. unfold printed. simpl. by destruct how.
    + destruct (down (mutex s)) as [m|] eqn:Ed; [|done]. simpl in E. injection E as <-.
      destruct (down_spec _ _ Ho Ed) as (Hvm & Hom & Hlm). pose proof (value_range m Hom).
      assert (h = None) as -> by (destruct h; [lia|done]). exists (Some i).
      eapply ct_update; try done; try by left.
      * split; [done|lia].
      * lia.
      * intros j Hj. split; congruence.
      * intros k Hk. rewrite (Hc k Hk), Howed. unfold owed, ahead. simpl. destruct how; case_decide; do 2 f_equal; lia.
      * intros n' Hn'. rewrite Hn in Hn'. injection Hn' as <-. rewrite Hby. unfold printed. simpl. by destruct how.
      * intros _. simpl. lia.
  - (* Load *)
    assert (h = Some i) as -> by (by apply Hhi). specialize (Hown eq_refl).
    rewrite (Hown _ Hlt), decide_True in E by done. simpl in E. injection E as <-. exists (Some i).
    assert (A0 : ahead (Proc Load td rg) = 0) by (unfold ahead; by destruct how). rewrite A0, Z.add_0_r in *.
    eapply ct_update; try done; try by left.
    * unfold holds. simpl. by destruct how.
    * intros k Hk. rewrite (Hown k Hk), Howed. unfold ahead. simpl. destruct how; case_decide; done.
    * intros n' Hn'. rewrite Hn in Hn'. injection Hn' as <-. rewrite Hby. unfold printed. simpl. by destruct how.
    * simpl. intros _. by apply Htd.
    * simpl. by destruct how.
  - (* Store *)
    assert (h = Some i) as -> by (by apply Hhi). specialize (Hown eq_refl). exists (Some i).
    assert (Hst : forall x, x = s32 (count (cell_of i) (out s) + (match how with PostIncrement => 1 | PrintThenAdd => 0 end)) ->
      forall k, (k < length (cells s))%nat -> <[cell_of i := x]> (cells s) !! k =
        Some (s32 (count k (out s) + if decide (cell_of i = k) then match how with PostIncrement => 1 | PrintThenAdd => 0 end else 0))).
    { intros x -> k Hk. destruct (decide (cell_of i = k)) as [<-|Hk'].
      - by rewrite list_lookup_insert_eq.
      - rewrite list_lookup_insert_ne by done. rewrite (Hown k Hk), decide_False by done. done. }
    destruct how eqn:Eh.
    + injection E as <-. eapply ct_update; try done; try by left.
      * by rewrite length_insert.
      * intros k Hk. rewrite Howed, Hst; [unfold ahead; by rewrite Eh| |done].
        rewrite Hrg, swrap_add by first [done | unfold loaded; by rewrite Eh]. done.
      * intros _. apply Hrg. unfold loaded. by rewrite Eh.
      * intros n' Hn'. rewrite Hn in Hn'. injection Hn' as <-. rewrite Hby. unfold printed. by rewrite Eh.
    + rewrite (Hown _ Hlt), decide_True in E by done. simpl in E. injection E as <-. eapply ct_update; try done; try by left.
      * by rewrite length_insert.
      * intros k Hk. rewrite Howed, Hst; [unfold ahead; by rewrite Eh| |done].
        rewrite swrap_add by done. f_equal. unfold ahead. rewrite Eh. simpl. lia.
      * unfold loaded. by rewrite Eh.
      * intros n' Hn'. rewrite Hn in Hn'. injection Hn' as <-. rewrite Hby. unfold printed. by rewrite Eh.
  - (* Print *)
    assert (h = Some i) as -> by (by apply Hhi). specialize (Hown eq_refl). injection E as <-. exists (Some i).
    eapply ct_update; try done; try by right.
    + unfold holds. simpl. by destruct how.
    + intros k Hk. rewrite Howed, (Hown k Hk), count_snoc. unfold ahead. simpl. destruct how; case_decide; do 2 f_equal; lia.
    + unfold loaded. simpl. by destruct how.
    + apply Forall_app_2; [done|]. apply Forall_singleton. simpl. lia.
    + intros k. rewrite from_cell_snoc, count_snoc. case_decide as Hk; [|by rewrite app_nil_r, Z.add_0_r].
      rewrite Hv, seqZ_app, map_app by (unfold count; lia). simpl. f_equal. rewrite <- Hk, Hrg; [by rewrite Z.add_0_l|].
      unfold loaded. simpl. by destruct how.
    + intros j Hj. rewrite by_proc_snoc, decide_False by done. lia.
    + intros n' Hn'. rewrite Hn in Hn'. injection Hn' as <-. rewrite by_proc_snoc, decide_True, Hby by done.
      unfold printed. simpl. destruct how; lia.
    + simpl. intros _. by apply Htd.
    + simpl. by destruct how.
  - (* Post *)
    assert (h = Some i) as -> by (by apply Hhi). specialize (Hown eq_refl). injection E as <-. exists None.
    destruct (sem_post_spec (mutex s) Ho) as (P1 & P2 & P3); [lia|].
    eapply ct_update; try done; try by left.
    + split; [done|lia].
    + lia.
    + intros j Hj. split; [done|congruence].
    + intros k Hk. rewrite (Hown k Hk). unfold owed, ahead. simpl. destruct how; case_decide; do 2 f_equal; lia.
    + intros n' Hn'. rewrite Hn in Hn'. injection Hn' as <-. rewrite Hby. specialize (Htd eq_refl).
      unfold printed. simpl. destruct how; lia.
  - done.
Qed.

Lemma ct_reach loops m n s : sem_ok m -> 1 <= limit m -> value m = 1 -> nsteps step n (start loops m) s -> exists h, inv loops h s.
Proof.
  intros Ho Hl Hv Hn. pose proof (ct_start loops m Ho Hl Hv) as I. revert Hn I. generalize (start loops m), (@None nat).
  intros s0 h Hn. revert h. induction Hn as [|n x y z [i E] _ IH]; intros h I; [by exists h|].
  destruct (inv_loop _ _ _ _ _ I E) as [h' I']. by eapply IH.
Qed.

(** ** Progress and the number of steps *)

(** The steps that process [p] still takes: five for a round, one to leave. *)
Definition left_ (p : proc) : Z :=
  match at_ p with
  | Exit => 0
  | Wait => 5 * Z.of_nat (todo p) + 1
  | Load => 5 * Z.of_nat (todo p)
  | Store => 5 * Z.of_nat (todo p) - match how with PostIncrement => 1 | PrintThenAdd => 2 end
  | Print => 5 * Z.of_nat (todo p) - match how with PostIncrement => 2 | PrintThenAdd => 1 end
  | Post => 5 * Z.of_nat (todo p) - 3
  end.

Lemma left_nonneg loops h s i p : inv loops h s -> procs s !! i = Some p -> 0 <= left_ p.
Proof.
  intros I Hp. destruct (i_todo _ _ _ I i p Hp) as (n & _ & _ & Ht & _). unfold holds, left_ in *.
  destruct (at_ p); try specialize (Ht eq_refl); destruct how; lia.
Qed.

Lemma left_loop loops h s i s' : inv loops h s -> loop s i = Some s' -> sumz left_ (procs s') = sumz left_ (procs s) - 1.
Proof.
  intros I E. unfold loop in E. destruct (procs s !! i) as [p|] eqn:Ep; [|done]. simpl in E.
  destruct (i_todo _ _ _ I i p Ep) as (n & _ & _ & Ht & _). unfold holds in Ht.
  assert (D : exists m c p' o, s' = St m c (<[i := p']> (procs s)) o /\ left_ p' = left_ p - 1).
  { destruct p as [[] td rg]; cbn [at_ todo reg] in *; try specialize (Ht eq_refl); unfold left_; cbn [at_ todo].
    - destruct td; [injection E as <-|destruct (down (mutex s)); [injection E as <-|done]]; eexists _, _, _, _;
        (split; [reflexivity|simpl; lia]).
    - destruct (cells s !! cell_of i); [|done]. injection E as <-. eexists _, _, _, _. split; [reflexivity|]. simpl.
      destruct how; lia.
    - destruct how; [|destruct (cells s !! cell_of i); [|done]]; injection E as <-; eexists _, _, _, _;
        (split; [reflexivity|simpl; lia]).
    - injection E as <-. eexists _, _, _, _. split; [reflexivity|]. simpl. destruct how; lia.
    - injection E as <-. eexists _, _, _, _. split; [reflexivity|]. simpl. lia.
    - done. }
  destruct D as (m & c & p' & o & -> & D). simpl. rewrite (sumz_insert _ _ _ _ _ Ep), D. lia.
Qed.

(** A process can go on, unless all have ended. *)
Lemma inv_progress loops h s : inv loops h s -> (exists s', step s s') \/ forall i p, procs s !! i = Some p -> at_ p = Exit.
Proof.
  intros I. destruct h as [i|].
  - left. destruct (lookup_lt_is_Some_2 (procs s) i) as [p Hp]; [by apply (i_mine _ _ _ I)|].
    pose proof (proj2 (i_holder _ _ _ I i p Hp) eq_refl) as Hh. unfold step. exists (default s (loop s i)), i.
    unfold loop. rewrite Hp. simpl. unfold holds in Hh.
    destruct (lookup_lt_is_Some_2 (cells s) (cell_of i)) as [v Hv]; [by eapply cell_lt|]. rewrite Hv. simpl.
    by destruct (at_ p), how.
  - destruct (decide (Forall (fun p => at_ p = Exit) (procs s))) as [F|F].
    + right. intros i p Hp. by apply (Forall_lookup_1 _ _ _ _ F Hp).
    + left. apply not_Forall_Exists in F; [|intros p; apply _]. apply Exists_exists in F. destruct F as (p & Hp & He).
      apply list_elem_of_lookup in Hp. destruct Hp as [i Hp]. exists (default s (loop s i)), i.
      assert (at_ p = Wait) as Hw. { pose proof (i_holder _ _ _ I i p Hp) as [Hh _]. unfold holds in Hh.
        change (at_ p <> Exit) in He. destruct (at_ p); try done; by specialize (Hh eq_refl). }
      unfold loop. rewrite Hp. simpl. rewrite Hw. destruct (todo p); [done|].
      destruct (down (mutex s)) as [m|] eqn:Ed; [done|]. destruct (i_ok _ _ _ I) as [Ho _]. apply (down_wait _ Ho) in Ed.
      rewrite (i_mutex _ _ _ I) in Ed. done.
Qed.

Lemma sumz_one i a n : sumz (fun j => if decide (i = j) then 1 else 0) (seq a n) = if decide (a <= i < a + n)%nat then 1 else 0.
Proof.
  revert a. induction n as [|n IH]; intros a; [simpl; case_decide; [lia|done]|]. cbn [seq]. rewrite sumz_cons, IH.
  repeat case_decide; lia.
Qed.

Lemma by_proc_cons j i v o : by_proc j ((i, v) :: o) = (if decide (i = j) then 1 else 0) + by_proc j o.
Proof. unfold by_proc. rewrite filter_cons. simpl. case_decide; simpl; lia. Qed.

Lemma sumz_by_proc n o : Forall (fun x => (fst x < n)%nat) o -> sumz (fun i => by_proc i o) (seq 0 n) = Z.of_nat (length o).
Proof.
  intros F. induction F as [|[i v] o Hi _ IH]; [by apply sumz_zero|].
  transitivity (sumz (fun j => (if decide (i = j) then 1 else 0) + by_proc j o) (seq 0 n)).
  { generalize (seq 0 n) as l. induction l as [|j l IHl]; [done|]. rewrite !sumz_cons, IHl. by rewrite by_proc_cons. }
  rewrite sumz_add, IH, sumz_one. simpl in *. rewrite decide_True by lia. lia.
Qed.

Lemma sumz_seq (f : nat -> Z) (l : list nat) :
  (forall i n, l !! i = Some n -> f i = Z.of_nat n) -> sumz f (seq 0 (length l)) = sumz Z.of_nat l.
Proof.
  intros Hf. induction l as [|n l IH] using rev_ind; [done|]. rewrite length_app, seq_app, !sumz_app. f_equal.
  - apply IH. intros i m Hi. apply Hf. by apply lookup_app_l_Some.
  - unfold sumz. simpl. rewrite !Z.add_0_r. apply Hf. by apply list_lookup_middle.
Qed.

(** When all have ended, what each printed and what is in the cells. *)
Lemma inv_end loops h s : inv loops h s -> (forall i p, procs s !! i = Some p -> at_ p = Exit) ->
  (forall i n, loops !! i = Some n -> by_proc i (out s) = Z.of_nat n) /\
  cells s = if shared then [s32 (sumz Z.of_nat loops)] else map (fun n => s32 (Z.of_nat n)) loops.
Proof.
  intros I Hend. pose proof (i_len _ _ _ I) as [L1 L2].
  assert (Hby : forall i n, loops !! i = Some n -> by_proc i (out s) = Z.of_nat n).
  { intros i n Hn. destruct (lookup_lt_is_Some_2 (procs s) i) as [p Hp]; [rewrite L1; by eapply lookup_lt_Some|].
    destruct (i_todo _ _ _ I i p Hp) as (n' & Hn' & Hb & _ & Ht). rewrite Hn in Hn'. injection Hn' as <-.
    rewrite Hb, (Ht (Hend i p Hp)). unfold printed. rewrite (Hend i p Hp). destruct how; lia. }
  split; [exact Hby|].
  assert (Hcell : forall c, (c < length (cells s))%nat -> cells s !! c = Some (s32 (count c (out s)))).
  { intros c Hc. rewrite (i_cell _ _ _ I c Hc). do 2 f_equal. unfold owed. destruct h as [i|]; [|lia].
    case_decide; [|lia]. destruct (procs s !! i) as [p|] eqn:Hp; [|simpl; lia]. simpl. unfold ahead.
    rewrite (Hend i p Hp). destruct how; lia. }
  assert (Hcount : forall c, count c (out s) = if shared then (if decide (c = 0%nat) then Z.of_nat (length (out s)) else 0) else by_proc c (out s)).
  { intros c. unfold count, from_cell, by_proc, cell_of. rewrite length_map. destruct shared; [|done].
    case_decide as Hc.
    - subst c. f_equal. clear. generalize (out s) as o. induction o as [|x o IH]; [done|]. rewrite filter_cons, decide_True by done.
      cbn [length]. by rewrite IH.
    - rewrite filter_none; [done|]. apply Forall_forall. intros x _ E. by apply Hc. }
  apply list_eq. intros c. destruct (decide (c < length (cells s))%nat) as [Hc|Hc].
  - rewrite (Hcell c Hc), Hcount. rewrite L2 in Hc. destruct shared.
    + assert (c = 0)%nat as -> by lia. simpl. do 2 f_equal. rewrite <- (sumz_by_proc _ _ (i_pids _ _ _ I)).
      by apply sumz_seq.
    + destruct (lookup_lt_is_Some_2 loops c Hc) as [n Hn]. rewrite list_lookup_fmap, Hn. simpl. do 2 f_equal. by apply Hby.
  - rewrite !lookup_ge_None_2; [done| |lia]. rewrite L2 in Hc. destruct shared; simpl; [lia|rewrite length_map; lia].
Qed.
End Program.

(** ** The programs *)

(** A program: its body, whether the processes share the counter, and the rounds of each process. *)
Record program := Program { how : body; shared : bool; loops : list nat }.

(** [for (i = 0; i < n; i++)] *)
Definition rounds (n : Z) : nat := Z.to_nat n.

(** [count] is a variable of the program, which fork() copies. *)
Definition incr1 (nloop : Z) : program := Program PostIncrement false [rounds nloop; rounds nloop].
(** MAP_SHARED of a file, of /dev/zero, and with MAP_ANON. *)
Definition incr2 (nloop : Z) : program := Program PostIncrement true [rounds nloop; rounds nloop].
Definition incr_dev_zero (nloop : Z) : program := Program PostIncrement true [rounds nloop; rounds nloop].
Definition incr_map_anon (nloop : Z) : program := Program PostIncrement true [rounds nloop; rounds nloop].
(** MAP_PRIVATE: a process that writes gets its own copy. *)
Definition incr2private (nloop : Z) : program := Program PostIncrement false [rounds nloop; rounds nloop].
(** The semaphore is in the mapped file as well. *)
Definition incr3 (nloop : Z) : program := Program PostIncrement true [rounds nloop; rounds nloop].
Definition AddOnePosixMemSem : program := Program PostIncrement true [rounds 30; rounds 30].
Definition AddOnePosixNameSem : program := Program PrintThenAdd true [rounds 30; rounds 30].
(** The clients of one server; each is given its number of rounds, or counts to 300. *)
Definition client1 (nloops : list Z) : program := Program PostIncrement true (map rounds nloops).
Definition AddOneShareMemoryObjectClient (clients : nat) : program := Program PrintThenAdd true (replicate clients (rounds 300)).

(** All steps of a program: five in a round, and one to leave. *)
Definition all_steps (P : program) : Z := 5 * sumz Z.of_nat (loops P) + Z.of_nat (length (loops P)).

Lemma left_start `{Semaphore T} how shared loops (m : T) :
  sumz (left_ how) (procs (start shared loops m)) = 5 * sumz Z.of_nat loops + Z.of_nat (length loops).
Proof.
  unfold start. simpl. induction loops as [|n l IH]; [done|]. simpl map. rewrite !sumz_cons, IH. unfold left_. simpl. lia.
Qed.

Lemma left_steps `{Semaphore T} how shared loops (m : T) n s :
  sem_ok m -> 1 <= limit m -> value m = 1 -> nsteps (step how shared) n (start shared loops m) s ->
  sumz (left_ how) (procs s) + Z.of_nat n = 5 * sumz Z.of_nat loops + Z.of_nat (length loops).
Proof.
  intros Ho Hl Hv Hn. rewrite <- (left_start how shared loops m).
  pose proof (ct_start how shared loops m Ho Hl Hv) as I. revert Hn I. generalize (start shared loops m), (@None nat).
  intros s0 h Hn. revert h. induction Hn as [|n x y z [i E] _ IH]; intros h I; [lia|].
  destruct (inv_loop _ _ _ _ _ _ _ I E) as [h' I']. specialize (IH h' I'). pose proof (left_loop _ _ _ _ _ _ _ I E). lia.
Qed.

Lemma left_all `{Semaphore T} how shared loops h (s : state) : inv (T:=T) how shared loops h s -> 0 <= sumz (left_ how) (procs s).
Proof.
  intros I. assert (F : forall i p, procs s !! i = Some p -> 0 <= left_ how p) by (intros i p; by eapply left_nonneg).
  clear I. revert F. generalize (procs s) as ps. induction ps as [|p ps IH]; intros F; [done|]. rewrite sumz_cons.
  pose proof (F 0%nat p eq_refl). assert (0 <= sumz (left_ how) ps); [|lia]. apply IH. intros i. apply (F (S i)).
Qed.

(** C20: incr1.c to incr_dev_zero.c, client1.c and the author's AddOne programs, in every
    interleaving and with every correct semaphore: the values printed of a counter are
    0, 1, 2, ... (as ints) in this order, none twice and none left out; a run has at most
    five steps for each round and one for each process; and while it has fewer, some
    process can go on (no deadlock).  When it has that many all processes have ended, each has printed as many
    values as it has rounds, and the counters hold the total of all rounds, or, when each
    process has its own (incr1.c, incr2private.c), the rounds of each. *)
Theorem counted `{Semaphore T} (P : program) (m : T) n s :
  sem_ok m -> 1 <= limit m -> value m = 1 -> nsteps (step (how P) (shared P)) n (start (shared P) (loops P) m) s ->
  (forall c, from_cell (shared P) c (out s) = map s32 (seqZ 0 (count (shared P) c (out s)))) /\
  Z.of_nat n <= all_steps P /\
  (Z.of_nat n < all_steps P -> exists s', step (how P) (shared P) s s') /\
  (Z.of_nat n = all_steps P ->
     (forall i p, procs s !! i = Some p -> at_ p = Exit) /\
     (forall i k, loops P !! i = Some k -> by_proc i (out s) = Z.of_nat k) /\
     cells s = if shared P then [s32 (sumz Z.of_nat (loops P))] else map (fun k => s32 (Z.of_nat k)) (loops P)).
Proof.
  intros Ho Hl Hv Hn. destruct (ct_reach _ _ _ _ _ _ Ho Hl Hv Hn) as [h I]. pose proof (left_steps _ _ _ _ _ _ Ho Hl Hv Hn) as L.
  pose proof (left_all _ _ _ _ _ I) as L0. unfold all_steps. split; [apply (i_vals _ _ _ _ _ I)|]. split; [lia|].
  destruct (inv_progress _ _ _ _ _ I) as [[s' Hs]|Hend].
  - split; [by exists s'|]. intros E. exfalso. destruct Hs as [i Hs]. pose proof (left_loop _ _ _ _ _ _ _ I Hs).
    destruct (inv_loop _ _ _ _ _ _ _ I Hs) as [h' I']. pose proof (left_all _ _ _ _ _ I'). lia.
  - split; [|intros _; split; [done|by apply (inv_end _ _ _ _ _ I)]]. intros Hlt. exfalso.
    assert (sumz (left_ (how P)) (procs s) = 0); [|lia]. apply sumz_zero. intros i p Hp. unfold left_. by rewrite (Hend i p Hp).
Qed.

Definition sem1 : SemSv.vsem := SemSv.VSem (SemSv.Handle 1 SemSv.SEM_MAGIC) 1.

(** The processes in the order of [turns]. *)
Definition run_in (P : program) (turns : list nat) : option (state (T := SemSv.vsem)) :=
  foldl (fun s i => s ≫= fun s => loop (how P) (shared P) s i) (Some (start (shared P) (loops P) sem1)) turns.

(** Two processes that count one round each: with incr1.c both print 0. *)
Example incr1_incr2 : let turns := [1; 1; 1; 1; 1; 1; 0; 0; 0; 0; 0; 0]%nat in
  (out <$> run_in (incr1 1) turns) = Some [(1%nat, 0); (0%nat, 0)] /\
  (out <$> run_in (incr2 1) turns) = Some [(1%nat, 0); (0%nat, 1)].
Proof. vm_compute. auto. Qed.

Lemma counted_witness :
  exists s : state (T := SemSv.vsem),
    nsteps (step (how AddOnePosixNameSem) (shared AddOnePosixNameSem)) 1
      (start (shared AddOnePosixNameSem) (loops AddOnePosixNameSem) sem1) s /\ 1 <= all_steps AddOnePosixNameSem.
Proof.
  assert (Hrun : exists s : state (T := SemSv.vsem),
    nsteps (step (how AddOnePosixNameSem) (shared AddOnePosixNameSem)) 1
      (start (shared AddOnePosixNameSem) (loops AddOnePosixNameSem) sem1) s).
  { eexists. apply nsteps_once. exists 0%nat. vm_compute. reflexivity. }
  destruct Hrun as [s Hs]. exists s. split; [exact Hs|].
  refine (proj1 (proj2 (counted AddOnePosixNameSem sem1 1 s _ _ _ Hs))); [|by vm_compute|reflexivity].
  repeat split; cbn; unfold SemSv.SEMVMX; lia.
Defined.
