(* ===== verification/SemPair.v ===== *)
(** * The order of two sem_wait() calls

    Model of one producer and one consumer over a ring of integers: the author's
    src/IPC/Semaphore/SemProdCons1.c and the book's unpv22e/pxsem/prodcons1.c and
    prodcons2.c, whose consumer waits for an item before it takes the mutex, and
    unpv22e/pxsem/deadlock.c, whose consumer takes the mutex first.  The semaphores are
    any implementation of the class of PxSem.v, the ring is that of ProdCons.v.  What
    deadlock.c prints before and after each wait is left out. *)

From S2P Require Import Prelude PxSem ProdCons.

(** The consumers: of prodcons1.c, prodcons2.c and SemProdCons1.c, and of deadlock.c. *)
Inductive order := StoredFirst | MutexFirst.
#[export] Instance order_dec : EqDecision order.
Proof. solve_decision. Defined.

Inductive ppc := PEmpty | PMutex | PStore | PPostMutex | PPostStored | PDone | PCrash.
Inductive cpc := CFirst | CSecond | CBody | CPostMutex | CPostEmpty | CDone | CCrash.

Section Program.
Context `{Semaphore T} (o : order) (NBUFF nitems : Z).

Record state := St {
  pi : Z; ci : Z; mutex : T; nempty : T; nstored : T;
  buff : list Z; out : list (Z * Z); pp : ppc; cp : cpc }.

(** The next step of produce(); [None]: it waits or has ended. *)
Definition produce (s : state) : option state :=
  match pp s with
  | PEmpty =>
      if pi s <? nitems then
        x ← down (nempty s); Some (St (pi s) (ci s) (mutex s) x (nstored s) (buff s) (out s) PMutex (cp s))
      else Some (St (pi s) (ci s) (mutex s) (nempty s) (nstored s) (buff s) (out s) PDone (cp s))
  | PMutex => x ← down (mutex s); Some (St (pi s) (ci s) x (nempty s) (nstored s) (buff s) (out s) PStore (cp s))
  | PStore =>
      match astore (buff s) (slot NBUFF (pi s)) (pi s) with
      | Some b => Some (St (pi s) (ci s) (mutex s) (nempty s) (nstored s) b (out s) PPostMutex (cp s))
      | None => Some (St (pi s) (ci s) (mutex s) (nempty s) (nstored s) (buff s) (out s) PCrash (cp s))
      end
  | PPostMutex => Some (St (pi s) (ci s) (post (mutex s)) (nempty s) (nstored s) (buff s) (out s) PPostStored (cp s))
  | PPostStored => Some (St (pi s + 1) (ci s) (mutex s) (nempty s) (post (nstored s)) (buff s) (out s) PEmpty (cp s))
  | PDone | PCrash => None
  end.

(** What consume() prints of the value [v] in the slot of item [i]. *)
Definition prints (i v : Z) : list (Z * Z) :=
  match o with
  | StoredFirst => if negb (v =? i) then [(i, v)] else []
  | MutexFirst => [(i, v)]
  end.

(** The next step of consume(). *)
Definition wait_stored (s : state) (c : cpc) : option state :=
  x ← down (nstored s); Some (St (pi s) (ci s) (mutex s) (nempty s) x (buff s) (out s) (pp s) c).
Definition wait_mutex (s : state) (c : cpc) : option state :=
  x ← down (mutex s); Some (St (pi s) (ci s) x (nempty s) (nstored s) (buff s) (out s) (pp s) c).
Definition consume (s : state) : option state :=
  match cp s with
  | CFirst =>
      if ci s <? nitems then match o with StoredFirst => wait_stored s CSecond | MutexFirst => wait_mutex s CSecond end
      else Some (St (pi s) (ci s) (mutex s) (nempty s) (nstored s) (buff s) (out s) (pp s) CDone)
  | CSecond => match o with StoredFirst => wait_mutex s CBody | MutexFirst => wait_stored s CBody end
  | CBody =>
      match aload (buff s) (slot NBUFF (ci s)) with
      | Some v => Some (St (pi s) (ci s) (mutex s) (nempty s) (nstored s) (buff s) (out s ++ prints (ci s) v) (pp s) CPostMutex)
      | None => Some (St (pi s) (ci s) (mutex s) (nempty s) (nstored s) (buff s) (out s) (pp s) CCrash)
      end
  | CPostMutex => Some (St (pi s) (ci s) (post (mutex s)) (nempty s) (nstored s) (buff s) (out s) (pp s) CPostEmpty)
  | CPostEmpty => Some (St (pi s) (ci s + 1) (mutex s) (post (nempty s)) (nstored s) (buff s) (out s) (pp s) CFirst)
  | CDone | CCrash => None
  end.

Definition step (s s' : state) : Prop := produce s = Some s' \/ consume s = Some s'.

Definition main (b : list Z) (mu empty store : T) : state := St 0 0 mu empty store b [] PEmpty CFirst.

(** ** The accounts *)

Definition p_mutex (p : ppc) : Z := match p with PStore | PPostMutex => 1 | _ => 0 end.
Definition c_mutex (c : cpc) : Z :=
  match c with CBody | CPostMutex => 1 | CSecond => match o with MutexFirst => 1 | _ => 0 end | _ => 0 end.
Definition p_empty (p : ppc) : Z := match p with PMutex | PStore => 1 | _ => 0 end.
Definition c_empty (c : cpc) : Z := match c with CPostMutex | CPostEmpty => 1 | _ => 0 end.
Definition p_stored (p : ppc) : Z := match p with PPostMutex | PPostStored => 1 | _ => 0 end.
Definition c_stored (c : cpc) : Z :=
  match c with CBody => 1 | CSecond => match o with StoredFirst => 1 | _ => 0 end | _ => 0 end.

(** The items stored, and fetched, so far. *)
Definition put (s : state) : Z := pi s + p_stored (pp s).
Definition got (s : state) : Z := ci s + c_empty (cp s).

(** Where the loops are: inside, there is an item to go. *)
Definition p_at (i : Z) (p : ppc) : Prop :=
  match p with PEmpty => True | PDone => nitems <= i | PCrash => False | _ => i < nitems end.
Definition c_at (i : Z) (c : cpc) : Prop :=
  match c with CFirst => True | CDone => nitems <= i | CCrash => False | _ => i < nitems end.

Record inv (s : state) : Prop := Inv {
  ok_mutex : sem_ok (mutex s) /\ 1 <= limit (mutex s);
  ok_empty : sem_ok (nempty s) /\ NBUFF <= limit (nempty s);
  ok_stored : sem_ok (nstored s) /\ NBUFF <= limit (nstored s);
  mutex_one : value (mutex s) + p_mutex (pp s) + c_mutex (cp s) = 1;
  empty_sum : value (nempty s) + p_empty (pp s) + c_empty (cp s) + (put s - got s) = NBUFF;
  stored_sum : value (nstored s) + p_stored (pp s) + c_stored (cp s) = put s - got s;
  range : 0 <= pi s <= Z.max 0 nitems /\ 0 <= ci s <= Z.max 0 nitems;
  p_loop : p_at (pi s) (pp s);
  c_loop : c_at (ci s) (cp s);
  contents : ring NBUFF id (got s) (put s) (buff s);
  printed : out s = match o with StoredFirst => [] | MutexFirst => map (fun k => (k, k)) (seqZ 0 (got s)) end }.

End Program.

Section Proofs.
Context `{Semaphore T} (NBUFF nitems : Z) (HN : 0 < NBUFF).

Abbreviation inv o := (inv (T := T) o NBUFF nitems).

Lemma pr_range o p c : 0 <= p_mutex p <= 1 /\ 0 <= p_empty p <= 1 /\ 0 <= p_stored p <= 1 /\
  0 <= c_mutex o c <= 1 /\ 0 <= c_empty c <= 1 /\ 0 <= c_stored o c <= 1.
Proof. destruct p, c; cbn; repeat case_match; lia. Qed.

(** Closes the accounts after a step on a semaphore. *)
Ltac settle := cbn in *; semaphores; split; unfold put, got in *; cbn in *; split_and?;
  first [done | lia | by auto | intros; first [done | lia] | idtac].

Lemma pr_produce o s s' : inv o s -> produce NBUFF nitems s = Some s' -> inv o s'.
Proof.
  intros [[Om Lm] [Oe Le] [Os Ls] Vm Ve Vs [R1 R2] P C Hr Ho] Hx.
  pose proof (value_range _ Om). pose proof (value_range _ Oe). pose proof (value_range _ Os).
  destruct s as [p c mu em st b ou x y]. unfold produce in Hx. cbn in *. pose proof (pr_range o x y).
  assert (c_empty y = 1 -> c < nitems) by (by destruct y).
  destruct x; try done; cbn in Hx.
  - destruct (p <? nitems) eqn:E; bprop; [destruct (down em) eqn:?; [|done]|]; injection Hx as <-; settle.
  - destruct (down mu) eqn:?; [|done]. injection Hx as <-. settle.
  - unfold put, got in *. cbn in *.
    rewrite Z.add_0_r in *.
    assert (Hp : ring NBUFF id (c + c_empty y) (p + 1) (<[slot NBUFF p := p]> b)) by (apply ring_push; auto; lia).
    rewrite astore_ok in Hx by (destruct Hr; apply slot_lt; lia). injection Hx as <-. settle.
  - injection Hx as <-. settle.
  - injection Hx as <-. settle. by rewrite Z.add_0_r.
Qed.

Lemma pr_consume o s s' : inv o s -> consume o NBUFF nitems s = Some s' -> inv o s'.
Proof.
  intros [[Om Lm] [Oe Le] [Os Ls] Vm Ve Vs [R1 R2] P C Hr Ho] Hx.
  pose proof (value_range _ Om). pose proof (value_range _ Oe). pose proof (value_range _ Os).
  destruct s as [p c mu em st b ou x y]. unfold consume, wait_stored, wait_mutex in Hx. cbn in *. pose proof (pr_range o x y).
  destruct y; try done; cbn in Hx.
  - destruct (c <? nitems) eqn:E; bprop; [|injection Hx as <-; settle].
    destruct o; [destruct (down st) eqn:?; [|done]|destruct (down mu) eqn:?; [|done]]; injection Hx as <-; settle.
  - destruct o; [destruct (down mu) eqn:?; [|done]|destruct (down st) eqn:?; [|done]];
      injection Hx as <-; settle.
  - unfold put, got in *. cbn in *. rewrite Z.add_0_r in *. unfold aload in Hx.
    rewrite (proj2 Hr) in Hx by lia. injection Hx as <-. settle; [by apply ring_pop|].
    unfold prints, id. rewrite Z.eqb_refl. cbn. rewrite Ho. destruct o; [done|]. rewrite seqZ_app, map_app by lia. done.
  - injection Hx as <-. settle.
  - injection Hx as <-. settle; by rewrite Z.add_0_r.
Qed.

Lemma pr_step o s s' : inv o s -> step o NBUFF nitems s s' -> inv o s'.
Proof. intros I [E|E]; [by eapply pr_produce|by eapply pr_consume]. Qed.

Lemma pr_main o b mu empty store : length b = Z.to_nat NBUFF -> MultiProdCons.ready NBUFF mu empty store ->
  inv o (main b mu empty store).
Proof.
  intros Hb ((Om & Vm) & (Oe & Ve) & (Os & Vs & Ls)). pose proof (value_range _ Om). pose proof (value_range _ Oe).
  split; unfold put, got; cbn; try done; try lia; try (split; [done|lia]).
  - destruct o; reflexivity.
Qed.

(** ** The steps *)

(** Five for each item and one at the end, on both sides. *)
Definition work (s : state (T := T)) : Z :=
  let N := Z.max 0 nitems in
  match pp s with
  | PEmpty => 5 * (N - pi s) + 1 | PMutex => 5 * (N - pi s) | PStore => 5 * (N - pi s) - 1
  | PPostMutex => 5 * (N - pi s) - 2 | PPostStored => 5 * (N - pi s) - 3 | PDone | PCrash => 0
  end +
  match cp s with
  | CFirst => 5 * (N - ci s) + 1 | CSecond => 5 * (N - ci s) | CBody => 5 * (N - ci s) - 1
  | CPostMutex => 5 * (N - ci s) - 2 | CPostEmpty => 5 * (N - ci s) - 3 | CDone | CCrash => 0
  end.

Lemma work_nonneg o s : inv o s -> 0 <= work s.
Proof. intros [_ _ _ _ _ _ [R1 R2] P C _ _]. unfold work, p_at, c_at in *. destruct (pp s), (cp s); lia. Qed.

Lemma pr_work o s s' : inv o s -> step o NBUFF nitems s s' -> work s' = work s - 1.
Proof.
  intros I Hs. pose proof (pr_step _ _ _ I Hs) as [_ _ _ _ _ _ _ P' C' _ _]. destruct I as [_ _ _ _ _ _ [R1 R2] P C _ _].
  destruct s as [p c mu em st b ou x y], Hs as [Hx|Hx]; unfold produce, consume, wait_stored, wait_mutex in Hx; cbn in *; unfold work.
  - destruct x; try done; cbn in Hx;
      repeat match type of Hx with
      | context [down ?z] => destruct (down z); cbn in Hx; [|done]
      | context [if ?b then _ else _] => destruct b eqn:?; bprop
      | context [match ?b with _ => _ end] => destruct b eqn:?
      end; injection Hx as <-; cbn in *; try done; lia.
  - destruct y; try done; cbn in Hx;
      repeat match type of Hx with
      | context [down ?z] => destruct (down z); cbn in Hx; [|done]
      | context [if ?b then _ else _] => destruct b eqn:?; bprop
      | context [match ?b with _ => _ end] => destruct b eqn:?
      end; injection Hx as <-; cbn in *; try done; lia.
Qed.

Lemma pr_run o n s s' : nsteps (step o NBUFF nitems) n s s' -> inv o s -> inv o s' /\ work s' + Z.of_nat n = work s.
Proof.
  induction 1 as [s|n s1 s2 s3 Hs Hn IH]; intros I; [split; [done|lia]|].
  destruct (IH (pr_step _ _ _ I Hs)) as [I' W]. pose proof (pr_work _ _ _ I Hs). split; [done|lia].
Qed.

(** ** Where the two can stop *)

Definition stopped o (s : state) : Prop := forall s', ~ step o NBUFF nitems s s'.

(** The consumer holds the mutex and waits for an item, the producer waits for the mutex. *)
Definition deadlocked (s : state (T := T)) : Prop :=
  pp s = PMutex /\ cp s = CSecond /\ value (mutex s) = 0 /\ value (nstored s) = 0 /\ pi s < nitems.

Lemma pr_or_stopped o s : (exists s', step o NBUFF nitems s s') \/ stopped o s.
Proof.
  destruct (produce NBUFF nitems s) as [s'|] eqn:E; [left; exists s'; by left|].
  destruct (consume o NBUFF nitems s) as [s'|] eqn:F; [left; exists s'; by right|].
  right. intros s' [?|?]; congruence.
Qed.

Lemma produce_waits o s : inv o s -> produce NBUFF nitems s = None ->
  pp s = PEmpty /\ value (nempty s) = 0 /\ pi s < nitems \/ pp s = PMutex /\ value (mutex s) = 0 \/ pp s = PDone.
Proof.
  intros I E. pose proof (p_loop _ _ _ _ I) as P. destruct (ok_mutex _ _ _ _ I), (ok_empty _ _ _ _ I). unfold produce, p_at in *.
  destruct (pp s); try done; auto.
  - destruct (_ <? _) eqn:L; [|done]. bprop. destruct (down _) eqn:D; [done|]. apply down_wait in D; auto.
  - destruct (down _) eqn:D; [done|]. apply down_wait in D; auto.
  - by destruct (astore _ _ _).
Qed.

Lemma consume_waits o s : inv o s -> consume o NBUFF nitems s = None ->
  cp s = CDone \/
  match o with
  | StoredFirst => cp s = CFirst /\ value (nstored s) = 0 /\ ci s < nitems \/ cp s = CSecond /\ value (mutex s) = 0
  | MutexFirst => cp s = CFirst /\ value (mutex s) = 0 /\ ci s < nitems \/ cp s = CSecond /\ value (nstored s) = 0
  end.
Proof.
  intros I E. pose proof (c_loop _ _ _ _ I) as C. destruct (ok_mutex _ _ _ _ I), (ok_stored _ _ _ _ I).
  unfold consume, wait_stored, wait_mutex, c_at in *.
  destruct (cp s); try done; auto.
  - destruct (_ <? _) eqn:L; [|done]. bprop. right. destruct o; destruct (down _) eqn:D; try done; apply down_wait in D; auto.
  - right. destruct o; destruct (down _) eqn:D; try done; apply down_wait in D; auto.
  - by destruct (aload _ _).
Qed.

Lemma pr_stopped o s : inv o s -> stopped o s ->
  (pp s = PDone /\ cp s = CDone) \/ (o = MutexFirst /\ deadlocked s).
Proof.
  intros I Hs.
  assert (Hp : produce NBUFF nitems s = None) by (destruct (produce NBUFF nitems s) eqn:E; [destruct (Hs s0); by left|done]).
  assert (Hc : consume o NBUFF nitems s = None) by (destruct (consume o NBUFF nitems s) eqn:E; [destruct (Hs s0); by right|done]).
  apply produce_waits with (o := o) in Hp; [|done]. apply consume_waits in Hc; [|done]. clear Hs.
  destruct I as [[Om Lm] [Oe Le] [Os Ls] Vm Ve Vs [R1 R2] P C _ _].
  pose proof (value_range _ Om). pose proof (value_range _ Oe). pose proof (value_range _ Os).
  destruct s as [p c mu em st b ou x y]. unfold put, got, deadlocked in *. cbn in *.
  destruct Hp as [(-> & ? & ?)|[(-> & ?)| ->]], Hc as [->|Hc]; cbn in *; try lia; auto; destruct o;
    destruct Hc as [(-> & ? & ?)|(-> & ?)]; cbn in *; try lia; right; repeat split; lia.
Qed.

(** In deadlock.c two steps are enough. *)
Lemma deadlock_start b mu empty store : 0 < nitems -> length b = Z.to_nat NBUFF -> MultiProdCons.ready NBUFF mu empty store ->
  exists s, nsteps (step MutexFirst NBUFF nitems) 2 (main b mu empty store) s /\ deadlocked s /\ stopped MutexFirst s.
Proof.
  intros Hn Hb Hr. pose proof (pr_main MutexFirst b mu empty store Hb Hr) as I. destruct Hr as ((Om & Vm) & (Oe & Ve) & (Os & Vs & Ls)).
  destruct (down mu) as [mu'|] eqn:Dm; [|apply down_wait in Dm; [lia|done]].
  destruct (down empty) as [em'|] eqn:De; [|apply down_wait in De; [lia|done]].
  set (s1 := St 0 0 mu' empty store b [] PEmpty CSecond). set (s2 := St 0 0 mu' em' store b [] PMutex CSecond).
  assert (H1 : step MutexFirst NBUFF nitems (main b mu empty store) s1).
  { right. unfold consume, wait_mutex. cbn. rewrite (proj2 (Z.ltb_lt _ _) Hn), Dm. done. }
  assert (H2 : step MutexFirst NBUFF nitems s1 s2).
  { left. unfold produce. cbn. rewrite (proj2 (Z.ltb_lt _ _) Hn), De. done. }
  destruct (down_spec _ _ Om Dm) as (Vm' & Om' & _). exists s2.
  split; [by eapply nsteps_l; [exact H1|eapply nsteps_l; [exact H2|apply nsteps_O]]|].
  split; [by repeat split; cbn; lia|]. intros s' [E|E].
  - unfold produce in E. cbn in E. rewrite (proj2 (down_wait _ Om')) in E by lia. done.
  - unfold consume, wait_stored in E. cbn in E. rewrite (proj2 (down_wait _ Os) Vs) in E. done.
Qed.

End Proofs.

(** The steps of each program; the book's take the number of items from the command line. *)
Definition SemProdCons1 `{Semaphore T} : state -> state -> Prop := step (T := T) StoredFirst 20 1000.
Definition prodcons1 `{Semaphore T} (nitems : Z) : state -> state -> Prop := step (T := T) StoredFirst 10 nitems.
Definition prodcons2 `{Semaphore T} (nitems : Z) : state -> state -> Prop := step (T := T) StoredFirst 10 nitems.
Definition deadlock `{Semaphore T} (nitems : Z) : state -> state -> Prop := step (T := T) MutexFirst 2 nitems.

(** C7: one producer and one consumer over any correct semaphores, in every interleaving.
    No access leaves the ring, and a run has at most [10 nitems + 2] steps.  With the order
    of prodcons1.c, prodcons2.c and SemProdCons1.c nothing is printed, and two threads of
    which neither can go on have passed all items on.  With that of deadlock.c what is
    printed are the items in their order as well, but the threads can also stop for ever, the consumer with the
    mutex and without an item, the producer with an empty slot and without the mutex; when
    there is an item to pass on, two steps lead there. *)
Theorem pair_correct `{Semaphore T} o NBUFF nitems b (mu empty store : T) n s :
  0 < NBUFF -> length b = Z.to_nat NBUFF -> MultiProdCons.ready NBUFF mu empty store ->
  nsteps (step o NBUFF nitems) n (main b mu empty store) s ->
  pp s <> PCrash /\ cp s <> CCrash /\ Z.of_nat n <= 10 * Z.max 0 nitems + 2 /\
  out s = match o with StoredFirst => [] | MutexFirst => map (fun k => (k, k)) (seqZ 0 (got s)) end /\
  ((exists s', step o NBUFF nitems s s') \/
   (pp s = PDone /\ cp s = CDone /\ pi s = Z.max 0 nitems /\ ci s = Z.max 0 nitems) \/
   (o = MutexFirst /\ deadlocked nitems s)) /\
  (0 < nitems -> exists d, nsteps (step MutexFirst NBUFF nitems) 2 (main b mu empty store) d /\
     deadlocked nitems d /\ stopped NBUFF nitems MutexFirst d).
Proof.
  intros HN Hb Hr Hrun. destruct (pr_run NBUFF nitems HN o n _ s Hrun) as [I W]; [by apply pr_main|].
  pose proof (work_nonneg _ _ _ _ I) as W0. unfold work in W at 2. cbn in W.
  pose proof (p_loop _ _ _ _ I) as P. pose proof (c_loop _ _ _ _ I) as C. pose proof (range _ _ _ _ I).
  split; [by intros E; rewrite E in P|]. split; [by intros E; rewrite E in C|]. split; [lia|].
  split; [apply (printed _ _ _ _ I)|]. split; [|intros ?; by apply deadlock_start].
  destruct (pr_or_stopped NBUFF nitems o s) as [?|Hs]; [by left|right].
  destruct (pr_stopped NBUFF nitems HN o s I Hs) as [[E1 E2]|?]; [left|by right].
  rewrite E1 in P. rewrite E2 in C. cbn in *. split_and!; try done; lia.
Qed.

(** The semaphores of main(), with [n] empty slots. *)
Definition sem_at (i n : Z) : SemSv.vsem := SemSv.VSem (SemSv.Handle i SemSv.SEM_MAGIC) n.
Definition main_sv (b : list Z) : state := main b (sem_at 1 1) (sem_at 2 (Z.of_nat (length b))) (sem_at 3 0).

Lemma pair_correct_witness :
  exists s : state (T := SemSv.vsem),
    nsteps (deadlock 5) 1 (main_sv [0; 0]) s /\ Z.of_nat 1 <= 10 * Z.max 0 5 + 2.
Proof.
  assert (Hrun : exists s : state (T := SemSv.vsem), nsteps (deadlock 5) 1 (main_sv [0; 0]) s).
  { eexists. apply nsteps_once. right. vm_compute. reflexivity. }
  destruct Hrun as [s Hs]. exists s. split; [exact Hs|].
  refine (proj1 (proj2 (proj2 (pair_correct MutexFirst 2 5 [0; 0] _ _ _ 1 s _ _ _ Hs)))); [lia|reflexivity|].
  repeat split; cbn; unfold SemSv.SEMVMX; lia.
Defined.

(** A run in the order of [turns]; [true] is the producer. *)
Definition run_pair (o : order) (nitems : Z) (turns : list bool) : option (state (T := SemSv.vsem)) :=
  foldl (fun s (t : bool) => s ≫= fun s => if t then produce 2 nitems s else consume o 2 nitems s) (Some (main_sv [0; 0])) turns.

(** deadlock.c ends well when the producer is always ahead. *)
Example deadlock_lucky :
  let turns := concat (replicate 3 (replicate 5 true ++ replicate 5 false)) ++ [true; false] in
  (fun s => (out s, pp s, cp s)) <$> run_pair MutexFirst 3 turns = Some ([(0, 0); (1, 1); (2, 2)], PDone, CDone).
Proof. vm_compute. reflexivity. Qed.
