(* ===== verification/SemMany.v ===== *)
(** * Many producers and consumers of the book

    Model of unpv22e/pxsem/prodcons3.c (many producers, one consumer that counts the items
    itself) and prodcons4.c (many of both: a producer that finds all items stored posts
    nstored, and each consumer that finds all items fetched passes that on).  The
    semaphores and the ring are those of ProdCons.v, the steps as there. *)

From S2P Require Import Prelude PxSem ProdCons.

Inductive variant := Prodcons3 | Prodcons4.

(** Before which semaphore operation or access a thread is. *)
Inductive pc :=
| PEmpty | PMutex | PBody | PPostMutex | PPostStored | PExitStored | PExitEmpty | PExitMutex | PDone
| CStored | CMutex | CBody | CPostMutex | CPostEmpty | CExitStored | CExitMutex | CDone
| Crash.

Record thread := Thread { tpc : pc; count : Z }.

Section Program.
Context `{Semaphore T} (v : variant) (NBUFF nitems : Z).

(** In prodcons3.c, which has one consumer, [nget] is that thread's variable [i], and
    [ngetval] is not there. *)
Record shared := Shared {
  nput : Z; nputval : Z; nget : Z; ngetval : Z;
  mutex : T; nempty : T; nstored : T; buff : list Z; errors : list (Z * Z) }.

Definition set_mutex (s : shared) (x : T) : shared :=
  Shared (nput s) (nputval s) (nget s) (ngetval s) x (nempty s) (nstored s) (buff s) (errors s).
Definition set_empty (s : shared) (x : T) : shared :=
  Shared (nput s) (nputval s) (nget s) (ngetval s) (mutex s) x (nstored s) (buff s) (errors s).
Definition set_stored (s : shared) (x : T) : shared :=
  Shared (nput s) (nputval s) (nget s) (ngetval s) (mutex s) (nempty s) x (buff s) (errors s).

(** The next step of produce(); [None]: the thread waits or has ended. *)
Definition produce (s : shared) (t : thread) : option (shared * thread) :=
  let go s' p := Some (s', Thread p (count t)) in
  match tpc t with
  | PEmpty => x ← down (nempty s); go (set_empty s x) PMutex
  | PMutex => x ← down (mutex s); go (set_mutex s x) PBody
  | PBody =>
      if nput s >=? nitems then go s (match v with Prodcons3 => PExitEmpty | Prodcons4 => PExitStored end)
      else match astore (buff s) (slot NBUFF (nput s)) (nputval s) with
      | Some b => go (Shared (nput s + 1) (nputval s + 1) (nget s) (ngetval s) (mutex s) (nempty s) (nstored s) b (errors s)) PPostMutex
      | None => go s Crash
      end
  | PPostMutex => go (set_mutex s (post (mutex s))) PPostStored
  | PPostStored => Some (set_stored s (post (nstored s)), Thread PEmpty (count t + 1))
  | PExitStored => go (set_stored s (post (nstored s))) PExitEmpty
  | PExitEmpty => go (set_empty s (post (nempty s))) PExitMutex
  | PExitMutex => go (set_mutex s (post (mutex s))) PDone
  | _ => None
  end.

(** The value consume() expects. *)
Definition expected (s : shared) : Z := match v with Prodcons3 => nget s | Prodcons4 => ngetval s end.
(** if (shared.buff[i] != shared.ngetval) printf("error: ..."); *)
Definition fetch (s : shared) (t : thread) : option (shared * thread) :=
  match aload (buff s) (slot NBUFF (nget s)) with
  | None => Some (s, Thread Crash (count t))
  | Some x =>
      let e := if x =? expected s then [] else [(nget s, x)] in
      Some (Shared (nput s) (nputval s) (nget s + 1) (match v with Prodcons3 => ngetval s | Prodcons4 => ngetval s + 1 end)
              (mutex s) (nempty s) (nstored s) (buff s) (errors s ++ e), Thread CPostMutex (count t))
  end.

(** The next step of consume(). *)
Definition consume (s : shared) (t : thread) : option (shared * thread) :=
  let go s' p := Some (s', Thread p (count t)) in
  match tpc t with
  | CStored =>
      if (match v with Prodcons3 => nget s >=? nitems | Prodcons4 => false end) then go s CDone
      else x ← down (nstored s); go (set_stored s x) CMutex
  | CMutex => x ← down (mutex s); go (set_mutex s x) CBody
  | CBody => if (match v with Prodcons3 => false | Prodcons4 => nget s >=? nitems end) then go s CExitStored else fetch s t
  | CPostMutex => go (set_mutex s (post (mutex s))) CPostEmpty
  | CPostEmpty =>
      Some (set_empty s (post (nempty s)), Thread CStored (match v with Prodcons3 => count t | Prodcons4 => count t + 1 end))
  | CExitStored => go (set_stored s (post (nstored s))) CExitMutex
  | CExitMutex => go (set_mutex s (post (mutex s))) CDone
  | _ => None
  end.

Definition is_producer (p : pc) : bool :=
  match p with
  | PEmpty | PMutex | PBody | PPostMutex | PPostStored | PExitStored | PExitEmpty | PExitMutex | PDone => true
  | _ => false
  end.

Definition advance (s : shared) (t : thread) : option (shared * thread) :=
  if is_producer (tpc t) then produce s t else consume s t.

Record state := St { sh : shared; ths : list thread }.

Definition exec (s : state) (i : nat) : option state :=
  t ← ths s !! i;
  '(sh', t') ← advance (sh s) t;
  Some (St sh' (<[i := t']> (ths s))).

Definition step (s s' : state) : Prop := exists i, exec s i = Some s'.

Definition main (np nc : nat) (b : list Z) (mu empty store : T) : state :=
  St (Shared 0 0 0 0 mu empty store b []) (replicate np (Thread PEmpty 0) ++ replicate nc (Thread CStored 0)).

(** ** The accounts *)

Definition holds_mutex (t : thread) : Z :=
  match tpc t with
  | PBody | PPostMutex | PExitStored | PExitEmpty | PExitMutex | CBody | CPostMutex | CExitStored | CExitMutex => 1
  | _ => 0
  end.
Definition owes_empty (t : thread) : Z :=
  match tpc t with PMutex | PBody | PExitStored | PExitEmpty | CPostMutex | CPostEmpty => 1 | _ => 0 end.
(** Less the posts of the producers that have ended. *)
Definition owes_stored (t : thread) : Z :=
  match tpc t with
  | PPostMutex | PPostStored | CMutex | CBody | CExitStored => 1
  | PExitEmpty | PExitMutex | PDone => match v with Prodcons3 => 0 | Prodcons4 => -1 end
  | _ => 0
  end.
Definition produced (t : thread) : Z :=
  match tpc t with PPostMutex | PPostStored => count t + 1 | p => if is_producer p then count t else 0 end.
Definition consumed (t : thread) : Z :=
  match tpc t with
  | CPostMutex | CPostEmpty => match v with Prodcons3 => count t | Prodcons4 => count t + 1 end
  | p => if is_producer p then 0 else count t
  end.
(** The items of which prodcons3.c keeps no count. *)
Definition uncounted (c : Z) : Z := match v with Prodcons3 => c | Prodcons4 => 0 end.

(** What the position of a thread says about the indexes [p] and [c]. *)
Definition fits (p c : Z) (t : thread) : Prop :=
  match tpc t with
  | PExitStored => nitems <= p /\ v = Prodcons4
  | PExitEmpty | PExitMutex | PDone => nitems <= p
  | CExitStored | CExitMutex => nitems <= c /\ v = Prodcons4
  | CDone => nitems <= c
  | Crash => False
  | _ => True
  end.

Definition producer_one (t : thread) : Z := b2z (is_producer (tpc t)).

Definition shared_ok (np : Z) (s : shared) : Prop :=
  (sem_ok (mutex s) /\ 1 <= limit (mutex s)) /\
  (sem_ok (nempty s) /\ NBUFF <= limit (nempty s)) /\
  (sem_ok (nstored s) /\ NBUFF + np <= limit (nstored s)) /\
  (0 <= nget s <= nput s /\ nput s <= Z.max 0 nitems) /\
  (nputval s = nput s /\ expected s = nget s /\ errors s = []) /\
  ring NBUFF id (nget s) (nput s) (buff s).

Record inv (np : Z) (s : state) : Prop := Inv {
  i_shared : shared_ok np (sh s);
  i_mutex : value (mutex (sh s)) + sumz holds_mutex (ths s) = 1;
  i_empty : value (nempty (sh s)) + sumz owes_empty (ths s) + (nput (sh s) - nget (sh s)) = NBUFF;
  i_stored : value (nstored (sh s)) + sumz owes_stored (ths s) = nput (sh s) - nget (sh s);
  i_fits : Forall (fits (nput (sh s)) (nget (sh s))) (ths s);
  i_counts : sumz produced (ths s) = nput (sh s) /\ sumz consumed (ths s) + uncounted (nget (sh s)) = nget (sh s);
  i_producers : sumz producer_one (ths s) = np }.

End Program.

Section Proofs.
Context `{Semaphore T} (NBUFF nitems np : Z) (HN : 0 < NBUFF).
Implicit Types (v : variant).

(** What a thread sees of the invariant, and what its step must respect. *)
Definition local v (s : shared (T := T)) (t : thread) : Prop :=
  value (mutex s) + holds_mutex t <= 1 /\
  value (nempty s) + owes_empty t + (nput s - nget s) <= NBUFF /\
  value (nstored s) + owes_stored v t + producer_one t <= nput s - nget s + np /\
  (value (nstored s) + owes_stored v t <= nput s - nget s \/ (v = Prodcons4 /\ nitems <= nput s)) /\
  fits v nitems (nput s) (nget s) t.

Definition respects v (s : shared (T := T)) (t : thread) (s' : shared (T := T)) (t' : thread) : Prop :=
  shared_ok v NBUFF nitems np s' /\ fits v nitems (nput s') (nget s') t' /\
  nput s <= nput s' /\ nget s <= nget s' /\
  value (mutex s') + holds_mutex t' = value (mutex s) + holds_mutex t /\
  value (nempty s') + owes_empty t' + (nput s' - nget s') = value (nempty s) + owes_empty t + (nput s - nget s) /\
  value (nstored s') + owes_stored v t' - (nput s' - nget s') = value (nstored s) + owes_stored v t - (nput s - nget s) /\
  produced t' - produced t = nput s' - nput s /\
  consumed v t' + uncounted v (nget s') - (consumed v t + uncounted v (nget s)) = nget s' - nget s /\
  producer_one t' = producer_one t.

(** Closes a step on a semaphore. *)
Ltac conjuncts := semaphores; repeat match goal with |- _ /\ _ => split end; first [lia | done].
Ltac by_position v Hf := try match type of Hf with _ /\ _ => destruct Hf as [? ->] end; try (try destruct v; simplify_eq; cbn; conjuncts).

Ltac open_local s t Hx :=
  destruct t as [p n]; destruct s as [pI pV cI cV mu em st b er]; unfold expected in *; cbn in *;
  unfold fits, producer_one in *; cbn in *;
  repeat match type of Hx with context [down ?x] => destruct (down x) eqn:?; [|done]; cbn in Hx end.

Lemma produce_respects v s t s' t' : is_producer (tpc t) = true ->
  shared_ok v NBUFF nitems np s -> local v s t -> produce v NBUFF nitems s t = Some (s', t') -> respects v s t s' t'.
Proof.
  intros Hp ([Om Lm] & [Oe Le] & [Os Ls] & Hc & (Ep & Eg & Er) & Hr) (Vm & Ve & Vs & Vd & Hf) Hx.
  pose proof (value_range _ Om). pose proof (value_range _ Oe). pose proof (value_range _ Os).
  unfold produce, respects, shared_ok in *. destruct (tpc t) eqn:E; try done; open_local s t Hx; subst p.
  all: unfold holds_mutex, owes_empty, owes_stored, produced, consumed, uncounted in *; cbn in *.
  all: by_position v Hf.
  destruct (pI >=? nitems) eqn:E; [destruct v; simplify_eq; cbn; conjuncts|].
  rewrite astore_ok in Hx by (destruct Hr; apply slot_lt; lia). injection Hx as <- <-; cbn.
  assert (ring NBUFF id cI (pI + 1) (<[slot NBUFF pI := pV]> b)) by (apply ring_push; auto; lia).
  destruct v; conjuncts.
Qed.

Lemma consume_respects v s t s' t' : is_producer (tpc t) = false ->
  shared_ok v NBUFF nitems np s -> local v s t -> consume v NBUFF nitems s t = Some (s', t') -> respects v s t s' t'.
Proof.
  intros Hp ([Om Lm] & [Oe Le] & [Os Ls] & Hc & (Ep & Eg & Er) & Hr) (Vm & Ve & Vs & Vd & Hf) Hx.
  pose proof (value_range _ Om). pose proof (value_range _ Oe). pose proof (value_range _ Os).
  unfold consume, fetch, respects, shared_ok in *. destruct (tpc t) eqn:E; try done; open_local s t Hx; subst p.
  all: unfold holds_mutex, owes_empty, owes_stored, produced, consumed, uncounted in *; cbn in *.
  all: by_position v Hf.
  - destruct v; cbn in Hx; [destruct (cI >=? nitems) eqn:?; bprop|];
      try (destruct (down st) eqn:?; [|done]; cbn in Hx); simplify_eq; cbn; conjuncts.
  - assert (Hlt : match v with Prodcons3 => True | Prodcons4 => (cI >=? nitems) = false end -> cI < pI)
      by (destruct v, Vd as [?|[? ?]]; try done; lia).
    pose proof (ring_pop _ _ _ _ _ Hr). unfold aload, id in Hx. destruct v; cbn in Hx; [|destruct (cI >=? nitems) eqn:E].
    + rewrite (proj2 Hr) in Hx by lia. simplify_eq. rewrite Z.eqb_refl. cbn. conjuncts.
    + simplify_eq; cbn; conjuncts.
    + rewrite (proj2 Hr) in Hx by lia. simplify_eq. rewrite Z.eqb_refl. cbn. conjuncts.
Qed.

Abbreviation inv v := (inv (T := T) v NBUFF nitems np).
Abbreviation step v := (step (T := T) v NBUFF nitems).

Lemma owed_range v t : 0 <= holds_mutex t /\ 0 <= owes_empty t /\ 0 <= owes_stored v t + producer_one t.
Proof. destruct t as [[] n], v; cbv; repeat split; done. Qed.

(** Posts beyond the items exist only when all items are stored. *)
Lemma extra_posts v (s : state) t i : inv v s -> ths s !! i = Some t ->
  value (nstored (sh s)) + owes_stored v t <= nput (sh s) - nget (sh s) \/ (v = Prodcons4 /\ nitems <= nput (sh s)).
Proof.
  intros I Ht. destruct (decide (Forall (fun t => 0 <= owes_stored v t) (ths s))) as [F|F].
  - left. pose proof (i_stored _ _ _ _ _ I).
    pose proof (sumz_at _ _ _ _ (fun j b => Forall_lookup_1 _ _ j b F) Ht) as Hle. cbv beta in Hle. lia.
  - apply not_Forall_Exists in F; [|intros x; apply _]. apply Exists_exists in F as (x & Hx & Hn).
    change (~ 0 <= owes_stored v x) in Hn. pose proof (proj1 (Forall_forall _ _) (i_fits _ _ _ _ _ I) x Hx) as Hf.
    right. unfold owes_stored, fits in *. destruct (tpc x), v; try lia; done.
Qed.

Lemma many_local v (s : state) i t : inv v s -> ths s !! i = Some t -> local v (sh s) t.
Proof.
  intros I Ht. pose proof (extra_posts v s t i I Ht). destruct I as [(? & ? & ? & ? & _) Vm Ve Vs Hf _ Hp].
  pose proof (sumz_lookup holds_mutex _ _ _ (fun t => proj1 (owed_range v t)) Ht).
  pose proof (sumz_lookup owes_empty _ _ _ (fun t => proj1 (proj2 (owed_range v t))) Ht).
  pose proof (sumz_lookup (fun t => owes_stored v t + producer_one t) _ _ _ (fun t => proj2 (proj2 (owed_range v t))) Ht).
  assert (E : sumz (fun t => owes_stored v t + producer_one t) (ths s) = sumz (owes_stored v) (ths s) + sumz producer_one (ths s)).
  { clear. induction (ths s) as [|x l IH]; [done|]. rewrite !sumz_cons, IH. lia. }
  pose proof (Forall_lookup_1 _ _ _ _ Hf Ht). cbv beta in *. unfold local. split_and!; try done; lia.
Qed.

Lemma fits_mono v p c p' c' t : p <= p' -> c <= c' -> fits v nitems p c t -> fits v nitems p' c' t.
Proof. unfold fits. destruct (tpc t); intros; try done; try lia; naive_solver lia. Qed.

Lemma many_step v (s s' : state) : inv v s -> step v s s' -> inv v s' /\ length (ths s') = length (ths s).
Proof.
  intros I [i Hx]. unfold exec in Hx. destruct (ths s !! i) as [t|] eqn:Ht; [|done].
  cbn in Hx. destruct (advance v NBUFF nitems (sh s) t) as [[sh' t']|] eqn:Ha; [|done]. injection Hx as <-.
  assert (R : respects v (sh s) t sh' t').
  { pose proof (many_local _ _ _ _ I Ht). pose proof (i_shared _ _ _ _ _ I). unfold advance in Ha.
    destruct (is_producer (tpc t)) eqn:E; [by apply produce_respects|by apply consume_respects]. }
  destruct R as (? & ? & ? & ? & ? & ? & ? & ? & ? & ?). destruct I as [_ ? ? ? Hpl [? ?] ?]. cbn [sh ths]. split; [|apply length_insert].
  split; cbn [sh ths]; rewrite ?(sumz_insert _ _ _ _ _ Ht); try done; try lia.
  apply Forall_insert; [|done]. eapply Forall_impl; [exact Hpl|]. intros. by eapply fits_mono.
Qed.

(** ** Nobody waits for ever *)

Definition finished (t : thread) : bool := match tpc t with PDone | CDone => true | _ => false end.

(** Where a thread that cannot go on is. *)
Lemma waits v (s : state) i t : inv v s -> ths s !! i = Some t -> advance v NBUFF nitems (sh s) t = None ->
  finished t = true \/ (tpc t = PEmpty /\ value (nempty (sh s)) = 0) \/
  (tpc t = CStored /\ value (nstored (sh s)) = 0 /\ (v = Prodcons3 -> nget (sh s) < nitems)) \/
  ((tpc t = PMutex \/ tpc t = CMutex) /\ value (mutex (sh s)) = 0).
Proof.
  intros I Ht Ha. destruct (i_shared _ _ _ _ _ I) as ([Om _] & [Oe _] & [Os _] & _).
  pose proof (Forall_lookup_1 _ _ _ _ (i_fits _ _ _ _ _ I) Ht) as Hf. unfold advance, fits, finished in *. destruct t as [p n]. cbn in *.
  destruct p; cbn in Ha; unfold fetch in Ha; try done; auto.
  - destruct (down _) eqn:E; [done|]. apply down_wait in E; auto 10.
  - destruct (down _) eqn:E; [done|]. apply down_wait in E; auto 10.
  - destruct (_ >=? _); [done|]. by destruct (astore _ _ _).
  - right; right; left. destruct v; [destruct (nget (sh s) >=? nitems) eqn:?; [done|]|];
      (destruct (down _) eqn:E; [done|]); apply down_wait in E; try done; split_and!; try done; lia.
  - destruct (down _) eqn:E; [done|]. apply down_wait in E; auto 10.
  - destruct v; [|destruct (_ >=? _); [done|]]; by destruct (aload _ _).
Qed.

Lemma step_or_stuck v (s : state) : (exists s', step v s s') \/ (forall i t, ths s !! i = Some t -> advance v NBUFF nitems (sh s) t = None).
Proof.
  destruct (decide (Exists (fun t => is_Some (advance v NBUFF nitems (sh s) t)) (ths s))) as [E|E].
  - left. apply Exists_exists in E as (t & Ht & [[sh' t'] Ha]). apply list_elem_of_lookup in Ht as [i Hi].
    eexists _, i. unfold exec. rewrite Hi. cbn. rewrite Ha. reflexivity.
  - right. intros i t Ht. destruct (advance v NBUFF nitems (sh s) t) eqn:Ha; [|done]. destruct E.
    apply Exists_exists. exists t. split; [by eapply list_elem_of_lookup_2|by eexists].
Qed.

(** The holder of the mutex can always go on. *)
Lemma mutex_free v (s : state) : inv v s -> (forall i t, ths s !! i = Some t -> advance v NBUFF nitems (sh s) t = None) ->
  value (mutex (sh s)) = 1.
Proof.
  intros I Hs. pose proof (i_mutex _ _ _ _ _ I) as Hm. rewrite (sumz_zero holds_mutex) in Hm; [lia|].
  intros i t Ht. unfold holds_mutex.
  destruct (waits v s i t I Ht (Hs i t Ht)) as [Hf|[[-> _]|[[-> _]|[[-> | ->] _]]]]; try done.
  unfold finished in Hf. by destruct (tpc t).
Qed.

Lemma kind_at (l : list thread) (b : bool) : (if b then 0 < sumz producer_one l else sumz producer_one l < Z.of_nat (length l)) ->
  exists i t, l !! i = Some t /\ is_producer (tpc t) = b.
Proof.
  induction l as [|t l IH]; intros Hl; [by destruct b|]. rewrite sumz_cons in Hl. change (producer_one t) with (b2z (is_producer (tpc t))) in Hl. simpl length in Hl.
  destruct (is_producer (tpc t)) eqn:E, b; cbn [b2z] in *; try (by exists 0%nat, t);
    (destruct IH as (i & u & Hi & Hu); [lia|by exists (S i), u]).
Qed.

Lemma many_stuck v (s : state) : inv v s -> 0 < np < Z.of_nat (length (ths s)) ->
  (forall i t, ths s !! i = Some t -> advance v NBUFF nitems (sh s) t = None) ->
  Forall (fun t => finished t = true) (ths s) /\ nput (sh s) = Z.max 0 nitems /\ nget (sh s) = Z.max 0 nitems.
Proof.
  intros I Hnp Hs. pose proof (mutex_free v s I Hs) as Hm.
  assert (W : forall i t, ths s !! i = Some t -> finished t = true \/ (tpc t = PEmpty /\ value (nempty (sh s)) = 0) \/
            (tpc t = CStored /\ value (nstored (sh s)) = 0 /\ (v = Prodcons3 -> nget (sh s) < nitems))).
  { intros i t Ht. destruct (waits v s i t I Ht (Hs i t Ht)) as [?|[?|[?|[_ ?]]]]; auto. lia. }
  destruct (kind_at (ths s) true) as (i & t & Ht & Kt); [rewrite (i_producers _ _ _ _ _ I); lia|].
  destruct (kind_at (ths s) false) as (j & u & Hu & Ku); [rewrite (i_producers _ _ _ _ _ I); lia|].
  destruct (i_shared _ _ _ _ _ I) as (_ & _ & _ & Hr & _). pose proof (i_empty _ _ _ _ _ I) as He. pose proof (i_stored _ _ _ _ _ I) as Hst.
  pose proof (fun k x Hx => Forall_lookup_1 _ _ k x (i_fits _ _ _ _ _ I) Hx) as Hf.
  rewrite (sumz_zero owes_empty) in He.
  2: { intros k x Hx. unfold owes_empty. destruct (W k x Hx) as [Fx|[[-> _]|[-> _]]]; try done. unfold finished in Fx. by destruct (tpc x). }
  assert (Ho : forall k x, ths s !! k = Some x -> owes_stored v x <= 0).
  { intros k x Hx. unfold owes_stored. destruct (W k x Hx) as [Fx|[[-> _]|[-> _]]]; try done. unfold finished in Fx. by destruct (tpc x), v. }
  assert (Hat : forall k x, ths s !! k = Some x -> sumz (owes_stored v) (ths s) <= owes_stored v x).
  { intros k x Hx. pose proof (sumz_at (fun x => - owes_stored v x) _ k x (fun j b Hj => proj2 (Z.opp_nonneg_nonpos _) (Ho j b Hj)) Hx) as Hle.
    rewrite sumz_opp in Hle. cbv beta in Hle. lia. }
  (* the producers have ended *)
  assert (Hp : nitems <= nput (sh s) /\ tpc t = PDone).
  { destruct (W i t Ht) as [Fx|[[E Ve]|[E _]]]; [|exfalso|by rewrite E in Kt].
    - pose proof (Hf i t Ht) as Ft. unfold finished, fits in *. by destruct (tpc t).
    - pose proof (Hat i t Ht) as Hle. unfold owes_stored at 2 in Hle. rewrite E in Hle.
      destruct (W j u Hu) as [Fx|[[E' _]|[E' [Vs _]]]]; [|by rewrite E' in Ku|lia].
      pose proof (Hf j u Hu) as Fu. unfold finished, fits in *. destruct (tpc u); try done. lia. }
  destruct Hp as [Hp Et].
  assert (Hc : nitems <= nget (sh s)).
  { destruct (W j u Hu) as [Fx|[[E' _]|[E' [Vs Hv]]]]; [|by rewrite E' in Ku|].
    - pose proof (Hf j u Hu) as Fu. unfold finished, fits in *. by destruct (tpc u).
    - pose proof (Hat i t Ht) as Hle. unfold owes_stored at 2 in Hle. rewrite Et in Hle. destruct v; [specialize (Hv eq_refl)|]; lia. }
  split; [|lia]. apply Forall_lookup_2. intros k x Hx. destruct (W k x Hx) as [?|[[E Ve]|[E [Vs Hv]]]]; [done|lia|].
  pose proof (Hat i t Ht) as Hle. unfold owes_stored at 2 in Hle. rewrite Et in Hle. destruct v; [specialize (Hv eq_refl)|]; lia.
Qed.

(** ** The number of steps *)

Definition rank (t : thread) : Z :=
  match tpc t with
  | PEmpty => 6 | PMutex => 5 | PBody => 4 | PExitStored => 3 | PExitEmpty => 2 | PExitMutex => 1
  | PPostMutex => 8 | PPostStored => 7
  | CStored => 5 | CMutex => 4 | CBody => 3 | CExitStored => 2 | CExitMutex => 1 | CPostMutex => 7 | CPostEmpty => 6
  | PDone | CDone | Crash => 0
  end.

Definition work (s : state (T := T)) : Z :=
  sumz rank (ths s) + 5 * (Z.max 0 nitems - nput (sh s)) + 5 * (Z.max 0 nitems - nget (sh s)).

Lemma many_work_nonneg v s : inv v s -> 0 <= work s.
Proof.
  intros I. destruct (i_shared _ _ _ _ _ I) as (_ & _ & _ & Hr & _). unfold work.
  assert (0 <= sumz rank (ths s)); [|lia]. apply sumz_nonneg. intros j [[] ?] _; done.
Qed.

Lemma many_rank v s t s' t' : advance (T := T) v NBUFF nitems s t = Some (s', t') ->
  rank t' - 5 * nput s' - 5 * nget s' < rank t - 5 * nput s - 5 * nget s.
Proof.
  destruct t as [p n]. unfold advance, produce, consume, fetch, rank. cbn [tpc count].
  destruct p; cbn; intros Ha; try done;
    repeat match type of Ha with
    | context [down ?x] => destruct (down x); cbn in Ha; [|done]
    | context [match v with _ => _ end] => destruct v
    | context [match ?x with _ => _ end] => destruct x
    end; simplify_eq; cbn; lia.
Qed.

Lemma many_work_step v s s' : step v s s' -> work s' < work s.
Proof.
  intros [i Hx]. unfold exec in Hx. destruct (ths s !! i) as [t|] eqn:Ht; [|done]. cbn in Hx.
  destruct (advance v NBUFF nitems (sh s) t) as [[sh' t']|] eqn:Ha; [|done]. injection Hx as <-.
  apply many_rank in Ha. unfold work. cbn [sh ths]. rewrite (sumz_insert _ _ _ _ _ Ht). lia.
Qed.

Lemma many_run v n s s' : nsteps (step v) n s s' -> inv v s ->
  inv v s' /\ length (ths s') = length (ths s) /\ work s' + Z.of_nat n <= work s.
Proof.
  induction 1 as [s|n s1 s2 s3 Hs Hn IH]; intros I; [split_and!; try done; lia|].
  destruct (many_step _ _ _ I Hs) as [I2 L2]. destruct (IH I2) as (I' & L & W). pose proof (many_work_step _ _ _ Hs). split_and!; try done; lia.
Qed.

End Proofs.

(** The semaphores as main() initialises them, with room for the posts of [np] producers. *)
Definition ready `{Semaphore T} (NBUFF np : Z) (mu empty store : T) : Prop :=
  (sem_ok mu /\ value mu = 1) /\ (sem_ok empty /\ value empty = NBUFF) /\
  (sem_ok store /\ value store = 0 /\ NBUFF + np <= limit store).

Lemma many_main `{Semaphore T} v NBUFF nitems np nc b (mu empty store : T) : 0 < NBUFF ->
  length b = Z.to_nat NBUFF -> ready NBUFF (Z.of_nat np) mu empty store ->
  inv v NBUFF nitems (Z.of_nat np) (main np nc b mu empty store).
Proof.
  intros HN Hb ((Om & Vm) & (Oe & Ve) & (Os & Vs & Ls)). pose proof (value_range _ Om). pose proof (value_range _ Oe).
  split; cbn; rewrite ?sumz_app, ?sumz_replicate; unfold holds_mutex, owes_empty, owes_stored, produced, consumed, uncounted, producer_one; cbn;
    try lia; try (split; try destruct v; lia).
  - repeat split; cbn; try done; try lia; by destruct v.
  - apply Forall_app. split; by apply Forall_replicate.
Qed.

(** The counters of the producers, or of the consumers, added up. *)
Definition total (producers : bool) (l : list thread) : Z :=
  sumz (fun t => if Bool.eqb (is_producer (tpc t)) producers then count t else 0) l.

Lemma many_totals v (l : list thread) : Forall (fun t => finished t = true) l ->
  sumz produced l = total true l /\ sumz (consumed v) l = total false l.
Proof.
  unfold total. induction 1 as [|[p k] l Hp Hf [IH1 IH2]]; [done|]. rewrite !sumz_cons, IH1, IH2. by destruct p.
Qed.

(** The programs, with what the command line gives; [main] makes [threads n] of them. *)
Definition prodcons3 `{Semaphore T} (nitems : Z) : state -> state -> Prop := step (T := T) Prodcons3 10 nitems.
Definition prodcons4 `{Semaphore T} (nitems : Z) : state -> state -> Prop := step (T := T) Prodcons4 10 nitems.
Definition threads (n : Z) : nat := Z.to_nat (Z.min n 100).

(** C8: prodcons3.c and prodcons4.c with any number of producers and of consumers (one in
    prodcons3.c), over any correct semaphores, in every interleaving: no error is printed
    and no access leaves the ring; nobody waits for ever; and the program ends, within a
    number of steps known in advance, with all threads finished, the producers' counters
    adding up to the number of items and, in prodcons4.c, the consumers' as well. *)
Theorem many_correct `{Semaphore T} v NBUFF nitems np nc b (mu empty store : T) n s :
  0 < NBUFF -> (0 < np)%nat -> (0 < nc)%nat -> length b = Z.to_nat NBUFF -> ready NBUFF (Z.of_nat np) mu empty store ->
  nsteps (step v NBUFF nitems) n (main np nc b mu empty store) s ->
  errors (sh s) = [] /\ Forall (fun t => tpc t <> Crash) (ths s) /\
  Z.of_nat n <= 6 * Z.of_nat np + 5 * Z.of_nat nc + 10 * Z.max 0 nitems /\
  ((exists s', step v NBUFF nitems s s') \/
   (Forall (fun t => finished t = true) (ths s) /\ total true (ths s) = Z.max 0 nitems /\
    nget (sh s) = Z.max 0 nitems /\ (v = Prodcons4 -> total false (ths s) = Z.max 0 nitems))).
Proof.
  intros HN Hnp Hnc Hb Hr Hrun.
  destruct (many_run NBUFF nitems (Z.of_nat np) HN v n _ s Hrun) as (I & L & W); [by apply many_main|].
  pose proof (many_work_nonneg _ _ _ _ _ I). destruct (i_shared _ _ _ _ _ I) as (_ & _ & _ & _ & (_ & _ & He) & _).
  split; [done|]. split.
  { eapply Forall_impl; [apply (i_fits _ _ _ _ _ I)|]. intros t Ht E. unfold fits in Ht. by rewrite E in Ht. }
  split. { unfold work in W at 2. cbn in W. rewrite sumz_app, !sumz_replicate in W. cbn [rank tpc] in W. lia. }
  destruct (step_or_stuck NBUFF nitems v s) as [?|Hs]; [by left|right].
  cbn in L. rewrite length_app, !length_replicate in L.
  destruct (many_stuck NBUFF nitems (Z.of_nat np) HN v s I) as (F & Ep & Eg); [lia|done|].
  destruct (many_totals v _ F) as [T1 T2]. destruct (i_counts _ _ _ _ _ I) as [C1 C2]. split_and!; try done; try lia.
  intros ->. cbn in C2. lia.
Qed.

(** The semaphores of main(), [n] being the number of empty slots. *)
Definition sem_at (i n : Z) : SemSv.vsem := SemSv.VSem (SemSv.Handle i SemSv.SEM_MAGIC) n.
Definition main_sv (np nc : nat) (b : list Z) : state :=
  main np nc b (sem_at 1 1) (sem_at 2 (Z.of_nat (length b))) (sem_at 3 0).

Lemma many_correct_witness :
  exists s : state (T := SemSv.vsem), nsteps (prodcons4 7) 1 (main_sv (threads 2) (threads 3) (replicate 10 0)) s /\ errors (sh s) = [].
Proof.
  assert (Hrun : exists s : state (T := SemSv.vsem), nsteps (prodcons4 7) 1 (main_sv (threads 2) (threads 3) (replicate 10 0)) s).
  { eexists. apply nsteps_once. exists 0%nat. vm_compute. reflexivity. }
  destruct Hrun as [s Hs]. exists s. split; [exact Hs|].
  refine (proj1 (many_correct Prodcons4 10 7 2 3 (replicate 10 0) _ _ _ 1 s _ _ _ _ _ Hs)); [lia|lia|lia|reflexivity|].
  repeat split; cbn; unfold SemSv.SEMVMX; lia.
Defined.

(** A producer and a consumer of prodcons4.c, one item: the consumer ends because the producer posts nstored once more. *)
Example prodcons4_end :
  let run := foldl (fun s i => s ≫= fun s => exec Prodcons4 2 1 s i) (Some (main_sv 1 1 [0; 0])) in
  (fun s => (map tpc (ths s), map count (ths s))) <$>
    run (replicate 5 0 ++ replicate 5 1 ++ replicate 6 0 ++ replicate 5 1)%nat = Some ([PDone; CDone], [1; 1]).
Proof. vm_compute. reflexivity. Qed.
