(* ===== verification/SharedRing.v ===== *)
(** * Messages through shared memory

    Model of unpv22e/pxshm/server2.c, client2.c and cliserv2.h: clients put messages into
    a ring of 16 slots in shared memory and a server prints them; a client that finds
    the ring full counts an overflow instead.  Any number of clients and the server
    advance by one semaphore operation, or by the accesses between two of them, in any
    interleaving, after the server has set up the memory.  The semaphores are any
    implementation of the class of PxSem.v; a message is the pair of the client and its
    loop variable, which the text names, and [msgdata] is seen in pieces of MESGSIZE. *)

From S2P Require Import Prelude PxSem ProdCons.

Definition MESGSIZE : Z := 256.
Definition NMESG : Z := 16.

Definition msg : Type := nat * Z.

(** Before which statement a client, and the server, is. *)
Inductive cpc := CTry | COverWait | COverInc | COverPost | CMutex | CPut | CPostMutex | CCopy | CPostStored | CDone.
Inductive spc := SStored | SMutex | SPrint | SPostMutex | SPostEmpty | SOverWait | SOverRead | SOverPost | STest.

#[export] Instance spc_dec : EqDecision spc.
Proof. solve_decision. Defined.

(** A client: [c_i] is its loop variable, [c_puts] and [c_over] count what it has done so far. *)
Record client := Client { c_at : cpc; nloop : Z; c_i : Z; offset : Z; c_puts : Z; c_over : Z }.

Section Program.
Context `{Semaphore T}.

(** [struct shmstruct]; [None] is a piece of [msgdata] that holds the empty string. *)
Record shm := Shm {
  mutex : T; nempty : T; nstored : T; noverflowmutex : T;
  nput : Z; noverflow : Z; msgoff : list Z; msgdata : list (option msg) }.

(** [out] is what the server prints, [puts] the messages in the order in which they were given their slots. *)
Record state := St {
  ptr : shm; clients : list client;
  s_at : spc; index : Z; temp : Z; lastnoverflow : Z;
  out : list (option msg); reports : list Z; puts : list msg }.

Definition set_mutex (m : shm) (x : T) : shm :=
  Shm x (nempty m) (nstored m) (noverflowmutex m) (nput m) (noverflow m) (msgoff m) (msgdata m).
Definition set_empty (m : shm) (x : T) : shm :=
  Shm (mutex m) x (nstored m) (noverflowmutex m) (nput m) (noverflow m) (msgoff m) (msgdata m).
Definition set_stored (m : shm) (x : T) : shm :=
  Shm (mutex m) (nempty m) x (noverflowmutex m) (nput m) (noverflow m) (msgoff m) (msgdata m).
Definition set_overmutex (m : shm) (x : T) : shm :=
  Shm (mutex m) (nempty m) (nstored m) x (nput m) (noverflow m) (msgoff m) (msgdata m).

(** The memory as the server sets it up; Ftruncate() fills with zeros. *)
Definition setup (mu empty stored omu : T) : shm :=
  Shm mu empty stored omu 0 0 (map (fun i => i * MESGSIZE) (seqZ 0 NMESG)) (replicate (Z.to_nat NMESG) None).
Definition main (loops : list Z) (mu empty stored omu : T) : state :=
  St (setup mu empty stored omu) (map (fun n => Client CTry n 0 0 0 0) loops) SStored 0 0 0 [] [] [].

(** if (++i >= NMESG) i = 0; *)
Definition circular (i : Z) : Z := if i + 1 >=? NMESG then 0 else i + 1.
Definition piece (off : Z) : nat := Z.to_nat (off / MESGSIZE).

(** The next step of client [n]: the memory, the client, and the message that gets a slot. *)
Definition client_step (n : nat) (m : shm) (c : client) : option (shm * client * list msg) :=
  let go m' p := Some (m', Client p (nloop c) (c_i c) (offset c) (c_puts c) (c_over c), []) in
  match c_at c with
  | CTry =>
      if c_i c <? nloop c then
        match down (nempty m) with
        | Some x => go (set_empty m x) CMutex
        | None => go m COverWait
        end
      else go m CDone
  | COverWait => x ← down (noverflowmutex m); go (set_overmutex m x) COverInc
  | COverInc =>
      Some (Shm (mutex m) (nempty m) (nstored m) (noverflowmutex m) (nput m) (swrap 64 (noverflow m + 1)) (msgoff m) (msgdata m),
            Client COverPost (nloop c) (c_i c) (offset c) (c_puts c) (c_over c + 1), [])
  | COverPost =>
      Some (set_overmutex m (post (noverflowmutex m)), Client CTry (nloop c) (c_i c + 1) (offset c) (c_puts c) (c_over c), [])
  | CMutex => x ← down (mutex m); go (set_mutex m x) CPut
  | CPut =>
      off ← msgoff m !! Z.to_nat (nput m);
      Some (Shm (mutex m) (nempty m) (nstored m) (noverflowmutex m) (circular (nput m)) (noverflow m) (msgoff m) (msgdata m),
            Client CPostMutex (nloop c) (c_i c) off (c_puts c + 1) (c_over c), [(n, c_i c)])
  | CPostMutex => go (set_mutex m (post (mutex m))) CCopy
  | CCopy =>
      _ ← msgdata m !! piece (offset c);
      go (Shm (mutex m) (nempty m) (nstored m) (noverflowmutex m) (nput m) (noverflow m) (msgoff m)
            (<[piece (offset c) := Some (n, c_i c)]> (msgdata m))) CPostStored
  | CPostStored => Some (set_stored m (post (nstored m)), Client CTry (nloop c) (c_i c + 1) (offset c) (c_puts c) (c_over c), [])
  | CDone => None
  end.

Definition client2 (n : nat) (s : state) : option state :=
  c ← clients s !! n;
  '(m, c', l) ← client_step n (ptr s) c;
  Some (St m (<[n := c']> (clients s)) (s_at s) (index s) (temp s) (lastnoverflow s) (out s) (reports s) (puts s ++ l)).

(** The next step of the server. *)
Definition server2 (s : state) : option state :=
  let m := ptr s in
  let go m' p := Some (St m' (clients s) p (index s) (temp s) (lastnoverflow s) (out s) (reports s) (puts s)) in
  match s_at s with
  | SStored => x ← down (nstored m); go (set_stored m x) SMutex
  | SMutex => x ← down (mutex m); go (set_mutex m x) SPrint
  | SPrint =>
      off ← msgoff m !! Z.to_nat (index s);
      x ← msgdata m !! piece off;
      Some (St m (clients s) SPostMutex (circular (index s)) (temp s) (lastnoverflow s) (out s ++ [x]) (reports s) (puts s))
  | SPostMutex => go (set_mutex m (post (mutex m))) SPostEmpty
  | SPostEmpty => go (set_empty m (post (nempty m))) SOverWait
  | SOverWait => x ← down (noverflowmutex m); go (set_overmutex m x) SOverRead
  | SOverRead => Some (St m (clients s) SOverPost (index s) (s32 (noverflow m)) (lastnoverflow s) (out s) (reports s) (puts s))
  | SOverPost => go (set_overmutex m (post (noverflowmutex m))) STest
  | STest =>
      if negb (temp s =? lastnoverflow s)
      then Some (St m (clients s) SStored (index s) (temp s) (temp s) (out s) (reports s ++ [temp s]) (puts s))
      else go m SStored
  end.

Definition step (s s' : state) : Prop := server2 s = Some s' \/ exists n, client2 n s = Some s'.

(** ** The accounts *)

Definition c_mutex (c : client) : Z := match c_at c with CPut | CPostMutex => 1 | _ => 0 end.
Definition c_empty (c : client) : Z := match c_at c with CMutex | CPut => 1 | _ => 0 end.
Definition c_stored (c : client) : Z := match c_at c with CPostMutex | CCopy | CPostStored => 1 | _ => 0 end.
Definition c_overmutex (c : client) : Z := match c_at c with COverInc | COverPost => 1 | _ => 0 end.
Definition s_mutex (p : spc) : Z := match p with SPrint | SPostMutex => 1 | _ => 0 end.
Definition s_empty (p : spc) : Z := match p with SPostMutex | SPostEmpty => 1 | _ => 0 end.
Definition s_stored (p : spc) : Z := match p with SMutex | SPrint => 1 | _ => 0 end.
Definition s_overmutex (p : spc) : Z := match p with SOverRead | SOverPost => 1 | _ => 0 end.

(** The rounds of a client so far are messages put and overflows; one may be under way. *)
Definition under_way (c : client) : Z := match c_at c with CPostMutex | CCopy | CPostStored | COverPost => 1 | _ => 0 end.
Definition c_ok (c : client) : Prop :=
  c_i c + under_way c = c_puts c + c_over c /\ 0 <= c_i c <= Z.max 0 (nloop c) /\
  match c_at c with CTry => True | CDone => nloop c <= c_i c | _ => c_i c < nloop c end /\
  (c_stored c = 1 -> 0 <= offset c < NMESG * MESGSIZE /\ Z.rem (offset c) MESGSIZE = 0).

Definition nputs (s : state) : Z := Z.of_nat (length (puts s)).
Definition nout (s : state) : Z := Z.of_nat (length (out s)).

Definition shm_ok (m : shm) : Prop :=
  (sem_ok (mutex m) /\ 1 <= limit (mutex m)) /\ (sem_ok (nempty m) /\ NMESG <= limit (nempty m)) /\
  (sem_ok (nstored m) /\ NMESG <= limit (nstored m)) /\ (sem_ok (noverflowmutex m) /\ 1 <= limit (noverflowmutex m)) /\
  msgoff m = map (fun i => i * MESGSIZE) (seqZ 0 NMESG) /\ length (msgdata m) = Z.to_nat NMESG.

Record inv (s : state) : Prop := Inv {
  i_shm : shm_ok (ptr s);
  i_mutex : value (mutex (ptr s)) + sumz c_mutex (clients s) + s_mutex (s_at s) = 1;
  i_empty : value (nempty (ptr s)) + sumz c_empty (clients s) + s_empty (s_at s) + (nputs s - nout s) = NMESG;
  i_stored : value (nstored (ptr s)) + sumz c_stored (clients s) + s_stored (s_at s) = nputs s - nout s;
  i_overmutex : value (noverflowmutex (ptr s)) + sumz c_overmutex (clients s) + s_overmutex (s_at s) = 1;
  i_indexes : nput (ptr s) = nputs s mod NMESG /\ index s = nout s mod NMESG;
  i_clients : Forall c_ok (clients s);
  i_puts : sumz c_puts (clients s) = nputs s;
  i_over : noverflow (ptr s) = swrap 64 (sumz c_over (clients s)) }.

End Program.

Lemma msgoff_lookup k : 0 <= k < NMESG -> map (fun i => i * MESGSIZE) (seqZ 0 NMESG) !! Z.to_nat k = Some (k * MESGSIZE).
Proof.
  intros Hk. rewrite list_lookup_fmap, (proj2 (lookup_seqZ 0 NMESG (Z.to_nat k) k)); [done|]. split; lia.
Qed.

Lemma piece_offset k : 0 <= k -> piece (k * MESGSIZE) = Z.to_nat k.
Proof. intros Hk. unfold piece. by rewrite Z.div_mul. Qed.

Lemma circular_mod k : 0 <= k -> circular (k mod NMESG) = (k + 1) mod NMESG.
Proof.
  intros Hk. unfold circular, NMESG. pose proof (Z.mod_pos_bound k 16 ltac:(lia)).
  destruct (k mod 16 + 1 >=? 16) eqn:E.
  - assert (E1 : k mod 16 = 15) by lia. rewrite Z.add_mod, E1 by lia. done.
  - rewrite Z.add_mod, (Z.mod_small 1 16), (Z.mod_small (k mod 16 + 1)) by lia. done.
Qed.

Section Proofs.
Context `{Semaphore T}.
Implicit Types (s : state (T := T)) (m : shm (T := T)).

Lemma account_range c : 0 <= c_mutex c /\ 0 <= c_empty c /\ 0 <= c_stored c /\ 0 <= c_overmutex c.
Proof. destruct c as [[]]; done. Qed.

Lemma s_range p : 0 <= s_mutex p <= 1 /\ 0 <= s_empty p <= 1 /\ 0 <= s_stored p <= 1 /\ 0 <= s_overmutex p <= 1.
Proof. by destruct p. Qed.

(** What client [n] sees of the invariant. *)
Lemma seen s n c : inv s -> clients s !! n = Some c ->
  value (mutex (ptr s)) + c_mutex c <= 1 /\ value (nempty (ptr s)) + c_empty c + (nputs s - nout s) <= NMESG /\
  value (nstored (ptr s)) + c_stored c <= nputs s - nout s /\ value (noverflowmutex (ptr s)) + c_overmutex c <= 1 /\
  0 <= nputs s - nout s /\ c_ok c.
Proof.
  intros [(? & ? & [? _] & _) Vm Ve Vs Vo _ Hc _ _] Hn. pose proof (s_range (s_at s)).
  pose proof (sumz_lookup c_mutex _ _ _ (fun c => proj1 (account_range c)) Hn).
  pose proof (sumz_lookup c_empty _ _ _ (fun c => proj1 (proj2 (account_range c))) Hn).
  pose proof (sumz_lookup c_stored _ _ _ (fun c => proj1 (proj2 (proj2 (account_range c)))) Hn).
  pose proof (sumz_lookup c_overmutex _ _ _ (fun c => proj2 (proj2 (proj2 (account_range c)))) Hn).
  pose proof (Forall_lookup_1 _ _ _ _ Hc Hn). pose proof (value_range (nstored (ptr s)) ltac:(done)).
  pose proof (account_range c). split_and!; try done; lia.
Qed.

(** A step of a client that gives no message a slot, from what it does to the semaphores. *)
Lemma inv_client s n c m c' l :
  inv s -> clients s !! n = Some c -> shm_ok m -> c_ok c' ->
  value (mutex m) + c_mutex c' = value (mutex (ptr s)) + c_mutex c ->
  value (nempty m) + c_empty c' + Z.of_nat (length l) = value (nempty (ptr s)) + c_empty c ->
  value (nstored m) + c_stored c' = value (nstored (ptr s)) + c_stored c + Z.of_nat (length l) ->
  value (noverflowmutex m) + c_overmutex c' = value (noverflowmutex (ptr s)) + c_overmutex c ->
  nput m = (nputs s + Z.of_nat (length l)) mod NMESG -> c_puts c' = c_puts c + Z.of_nat (length l) ->
  noverflow m = swrap 64 (sumz c_over (clients s) - c_over c + c_over c') ->
  inv (St m (<[n := c']> (clients s)) (s_at s) (index s) (temp s) (lastnoverflow s) (out s) (reports s) (puts s ++ l)).
Proof.
  intros [_ Vm Ve Vs Vo [_ Hi] Hc Hp _] Hn Hm Hc' Em Ee Es Eo En Ep Ev. unfold nputs, nout in *.
  split; cbn; rewrite ?(sumz_insert _ _ _ _ _ Hn); unfold nputs, nout; cbn; rewrite ?length_app, ?Nat2Z.inj_add; try done; try lia.
  by apply Forall_insert.
Qed.

(** What a step of a client does, from what it sees. *)
Definition sees (k : Z) m (c : client) : Prop :=
  shm_ok m /\ value (mutex m) + c_mutex c <= 1 /\ value (nempty m) + c_empty c <= NMESG /\
  value (nstored m) + c_stored c <= NMESG - value (nempty m) - c_empty c /\ value (noverflowmutex m) + c_overmutex c <= 1 /\
  c_ok c /\ nput m = k mod NMESG /\ 0 <= k.

Definition does (k : Z) m (c : client) m' (c' : client) (l : list msg) : Prop :=
  shm_ok m' /\ c_ok c' /\
  value (mutex m') + c_mutex c' = value (mutex m) + c_mutex c /\
  value (nempty m') + c_empty c' + Z.of_nat (length l) = value (nempty m) + c_empty c /\
  value (nstored m') + c_stored c' = value (nstored m) + c_stored c + Z.of_nat (length l) /\
  value (noverflowmutex m') + c_overmutex c' = value (noverflowmutex m) + c_overmutex c /\
  nput m' = (k + Z.of_nat (length l)) mod NMESG /\ c_puts c' = c_puts c + Z.of_nat (length l) /\
  ((c_over c' = c_over c /\ noverflow m' = noverflow m) \/
   (c_over c' = c_over c + 1 /\ noverflow m' = swrap 64 (noverflow m + 1))).

Ltac conjuncts :=
  semaphores; repeat match goal with |- _ /\ _ => split end;
  first [done | lia | intros; first [done | lia] | by left | by right | by rewrite Z.add_0_r | idtac].

Lemma client_does n k m c m' c' l : sees k m c -> client_step n m c = Some (m', c', l) -> does k m c m' c' l.
Proof.
  intros (([Om Lm] & [Oe Le] & [Os Ls] & [Oo Lo] & Hoff & Hdat) & Vm & Ve & Vs & Vo & (Hb & Hr & Hp & Hf) & Hn & Hk) E.
  pose proof (value_range _ Om). pose proof (value_range _ Oe). pose proof (value_range _ Os). pose proof (value_range _ Oo).
  pose proof (Z.mod_pos_bound k NMESG ltac:(done)) as Hmod.
  unfold does, c_ok, shm_ok, client_step in *. destruct c as [p nl ci off cp co], m as [mu em st om np nv mo md].
  unfold c_mutex, c_empty, c_stored, c_overmutex, under_way in *. cbn in *. subst np mo.
  destruct p; try done.
  - destruct (ci <? nl) eqn:L; bprop; [destruct (down em) eqn:?|]; simplify_eq; cbn; conjuncts.
  - destruct (down om) eqn:?; [|done]. cbn in E. simplify_eq; cbn; conjuncts.
  - simplify_eq; cbn; conjuncts.
  - simplify_eq; cbn; conjuncts.
  - destruct (down mu) eqn:?; [|done]. cbn in E. simplify_eq; cbn; conjuncts.
  - rewrite msgoff_lookup in E by done. cbn in E. injection E as <- <- <-; cbn. rewrite circular_mod by done. conjuncts.
    intros _. unfold MESGSIZE, NMESG in *. split; [lia|]. by apply Z.rem_mul.
  - simplify_eq; cbn; conjuncts.
  - destruct (md !! piece off); [|done]. cbn in E. simplify_eq; cbn; conjuncts. by rewrite length_insert.
  - simplify_eq; cbn; conjuncts.
Qed.

Lemma sees_of s n c : inv s -> clients s !! n = Some c -> sees (nputs s) (ptr s) c.
Proof.
  intros I Hn. destruct (seen s n c I Hn) as (Vm & Ve & Vs & Vo & Hpos & Ho). destruct I as [Hm _ _ _ _ [Hi _] _ _ _].
  unfold sees. split_and!; try done; unfold nputs in *; lia.
Qed.

Lemma sr_client s n s' : inv s -> client2 n s = Some s' -> inv s'.
Proof.
  intros I E. unfold client2 in E. destruct (clients s !! n) as [c|] eqn:Hn; [|done]. cbn in E.
  destruct (client_step n (ptr s) c) as [[[m c'] l]|] eqn:Ec; [|done]. cbn in E. injection E as <-.
  destruct (client_does _ _ _ _ _ _ _ (sees_of s n c I Hn) Ec) as (? & ? & ? & ? & ? & ? & ? & ? & Hov).
  apply (inv_client s n c); try done. pose proof (i_over _ I) as Hi. destruct Hov as [[-> ->]|[-> ->]]; rewrite Hi; [f_equal; lia|].
  rewrite swrap_add by lia. f_equal. lia.
Qed.

(** A step of the server, from what it does to the semaphores. *)
Lemma inv_server s m p i t l o r :
  inv s -> shm_ok m -> (length o <= length (puts s))%nat ->
  value (mutex m) + s_mutex p = value (mutex (ptr s)) + s_mutex (s_at s) ->
  value (nempty m) + s_empty p = value (nempty (ptr s)) + s_empty (s_at s) + (Z.of_nat (length o) - nout s) ->
  value (nstored m) + s_stored p = value (nstored (ptr s)) + s_stored (s_at s) - (Z.of_nat (length o) - nout s) ->
  value (noverflowmutex m) + s_overmutex p = value (noverflowmutex (ptr s)) + s_overmutex (s_at s) ->
  nput m = nput (ptr s) -> noverflow m = noverflow (ptr s) -> i = Z.of_nat (length o) mod NMESG ->
  inv (St m (clients s) p i t l o r (puts s)).
Proof.
  intros [_ Vm Ve Vs Vo [Hn _] Hc Hp Hv] Hm Hle Em Ee Es Eo En Ev Ei. unfold nputs, nout in *.
  split; cbn; unfold nputs, nout; cbn; try done; lia.
Qed.

Lemma sums_nonneg s : 0 <= sumz c_mutex (clients s) /\ 0 <= sumz c_empty (clients s) /\ 0 <= sumz c_stored (clients s) /\
  0 <= sumz c_overmutex (clients s).
Proof. split_and!; apply sumz_nonneg; intros j c _; apply (account_range c). Qed.

Lemma sr_server s s' : inv s -> server2 s = Some s' -> inv s'.
Proof.
  intros I E. pose proof (sums_nonneg s) as Hs. pose proof I as [([Om Lm] & [Oe Le] & [Os Ls] & [Oo Lo] & Hoff & Hdat) Vm Ve Vs Vo [Hi1 Hi2] _ _ _].
  pose proof (value_range _ Om). pose proof (value_range _ Oe). pose proof (value_range _ Os). pose proof (value_range _ Oo).
  assert (Hle : (length (out s) <= length (puts s))%nat) by (unfold nputs, nout in *; destruct (s_at s); cbn in *; lia).
  unfold server2 in E. destruct (s_at s) eqn:Ep; cbn in *.
  - destruct (down _) eqn:?; [|done]. cbn in E. injection E as <-. semaphores. apply inv_server; cbn; rewrite ?Ep; unfold shm_ok, nout in *; cbn; conjuncts.
  - destruct (down _) eqn:?; [|done]. cbn in E. injection E as <-. semaphores. apply inv_server; cbn; rewrite ?Ep; unfold shm_ok, nout in *; cbn; conjuncts.
  - rewrite Hoff, Hi2 in E. assert (0 <= nout s) by (unfold nout; lia). pose proof (Z.mod_pos_bound (nout s) NMESG ltac:(done)).
    rewrite msgoff_lookup in E by done. cbn in E. destruct (msgdata _ !! _); [|done]. cbn in E. injection E as <-.
    apply inv_server; cbn; rewrite ?Ep; try done; unfold shm_ok, nputs, nout in *; rewrite ?length_app; cbn in *; try rewrite circular_mod by lia; try conjuncts.
  - injection E as <-. apply inv_server; cbn; rewrite ?Ep; unfold shm_ok, nout in *; cbn; conjuncts.
  - injection E as <-. apply inv_server; cbn; rewrite ?Ep; unfold shm_ok, nout in *; cbn; conjuncts.
  - destruct (down _) eqn:?; [|done]. cbn in E. injection E as <-. semaphores. apply inv_server; cbn; rewrite ?Ep; unfold shm_ok, nout in *; cbn; conjuncts.
  - injection E as <-. apply inv_server; cbn; rewrite ?Ep; unfold shm_ok, nout in *; cbn; conjuncts.
  - injection E as <-. apply inv_server; cbn; rewrite ?Ep; unfold shm_ok, nout in *; cbn; conjuncts.
  - destruct (negb _); injection E as <-; apply inv_server; cbn; rewrite ?Ep; unfold shm_ok, nout in *; cbn; conjuncts.
Qed.

Lemma sr_step s s' : inv s -> step s s' -> inv s'.
Proof. intros I [E|[n E]]; [by eapply sr_server|by eapply sr_client]. Qed.

(** The semaphores as the server initialises them. *)
Definition ready (mu empty stored omu : T) : Prop :=
  (sem_ok mu /\ value mu = 1) /\ (sem_ok empty /\ value empty = NMESG) /\
  (sem_ok stored /\ value stored = 0 /\ NMESG <= limit stored) /\ (sem_ok omu /\ value omu = 1).

Lemma sr_main loops mu empty stored omu : ready mu empty stored omu -> inv (main loops mu empty stored omu).
Proof.
  intros ((Om & Vm) & (Oe & Ve) & (Os & Vs & Ls) & (Oo & Vo)).
  pose proof (value_range _ Om). pose proof (value_range _ Oe). pose proof (value_range _ Oo).
  assert (Z0 : forall f, (forall n, f (Client CTry n 0 0 0 0) = 0) -> sumz f (map (fun n => Client CTry n 0 0 0 0) loops) = 0).
  { intros f Hf. apply sumz_zero. intros j c Hj. rewrite list_lookup_fmap in Hj. destruct (loops !! j); simplify_eq/=. apply Hf. }
  split; unfold shm_ok, nputs, nout; cbn; rewrite ?Z0 by done; try done; try lia.
  - split_and!; try done; lia.
  - apply Forall_forall. intros c Hc. apply list_elem_of_fmap in Hc as (n & -> & _). split_and!; cbn; try done; lia.
Qed.

(** ** Nobody waits for ever *)

(** All clients have ended, and the server waits for a message. *)
Definition at_rest s : Prop := s_at s = SStored /\ value (nstored (ptr s)) = 0 /\ Forall (fun c => c_at c = CDone) (clients s).

Lemma piece_lt m off : shm_ok m -> 0 <= off < NMESG * MESGSIZE -> is_Some (msgdata m !! piece off).
Proof.
  intros (_ & _ & _ & _ & _ & Hl) Ho. apply lookup_lt_is_Some_2. rewrite Hl. unfold piece, NMESG, MESGSIZE in *.
  pose proof (Z.div_lt_upper_bound off 256 16 ltac:(lia) ltac:(lia)). pose proof (Z.div_pos off 256 ltac:(lia) ltac:(lia)). lia.
Qed.

Lemma client_waits s n c : inv s -> clients s !! n = Some c -> client2 n s = None ->
  c_at c = CDone \/ c_at c = CMutex /\ value (mutex (ptr s)) = 0 \/ c_at c = COverWait /\ value (noverflowmutex (ptr s)) = 0.
Proof.
  intros I Hn E. destruct (seen s n c I Hn) as (_ & _ & _ & _ & _ & _ & _ & _ & Hf). pose proof (i_shm _ I) as Hm.
  pose proof Hm as ([Om _] & _ & _ & [Oo _] & Hoff & _). destruct (i_indexes _ I) as [Hi _].
  unfold client2 in E. rewrite Hn in E. cbn in E. unfold client_step, c_stored in *. destruct c as [p nl ci off cp co]. cbn in *.
  destruct p; cbn in E; try done; auto.
  - destruct (_ <? _); [|done]. by destruct (down _).
  - destruct (down _) eqn:D; [done|]. apply down_wait in D; auto.
  - destruct (down _) eqn:D; [done|]. apply down_wait in D; auto.
  - rewrite Hoff, Hi, msgoff_lookup in E by (by apply Z.mod_pos_bound). done.
  - destruct (piece_lt (ptr s) off Hm) as [x Hx]; [by apply Hf|]. by rewrite Hx in E.
Qed.

Lemma server_waits s : inv s -> server2 s = None ->
  s_at s = SStored /\ value (nstored (ptr s)) = 0 \/ s_at s = SMutex /\ value (mutex (ptr s)) = 0 \/
  s_at s = SOverWait /\ value (noverflowmutex (ptr s)) = 0.
Proof.
  intros I E. pose proof (i_shm _ I) as Hm. pose proof Hm as ([Om _] & _ & [Os _] & [Oo _] & Hoff & _). destruct (i_indexes _ I) as [_ Hi].
  unfold server2 in E. destruct (s_at s); try done.
  - destruct (down _) eqn:D; [done|]. apply down_wait in D; auto.
  - destruct (down _) eqn:D; [done|]. apply down_wait in D; auto.
  - pose proof (Z.mod_pos_bound (nout s) NMESG ltac:(done)). rewrite Hoff, Hi, msgoff_lookup in E by done. cbn in E.
    destruct (piece_lt (ptr s) (nout s mod NMESG * MESGSIZE) Hm) as [x Hx]; [unfold NMESG, MESGSIZE in *; lia|]. by rewrite Hx in E.
  - destruct (down _) eqn:D; [done|]. apply down_wait in D; auto.
  - by destruct (negb _).
Qed.

Lemma sr_progress s : inv s -> (exists s', step s s') \/ at_rest s.
Proof.
  intros I. destruct (server2 s) as [s'|] eqn:Es; [left; exists s'; by left|].
  destruct (decide (Exists (fun n => is_Some (client2 n s)) (seq 0 (length (clients s))))) as [E|E].
  { left. apply Exists_exists in E as (n & _ & [s' Hs]). exists s'. right. by exists n. }
  right. assert (Hn : forall n c, clients s !! n = Some c -> client2 n s = None).
  { intros n c Hn. destruct (client2 n s) eqn:Ec; [|done]. destruct E. apply Exists_exists. exists n. split; [|by eexists].
    apply elem_of_seq. apply lookup_lt_Some in Hn. lia. }
  apply server_waits in Es; [|done].
  assert (W : forall n c, clients s !! n = Some c -> c_at c = CDone \/ c_at c = CMutex /\ value (mutex (ptr s)) = 0 \/
            c_at c = COverWait /\ value (noverflowmutex (ptr s)) = 0) by (intros n c Hc; eapply client_waits; eauto).
  pose proof (i_mutex _ I) as Vm. pose proof (i_overmutex _ I) as Vo.
  rewrite (sumz_zero c_mutex) in Vm by (intros j c Hj; unfold c_mutex; by destruct (W j c Hj) as [->|[[-> _]|[-> _]]]).
  rewrite (sumz_zero c_overmutex) in Vo by (intros j c Hj; unfold c_overmutex; by destruct (W j c Hj) as [->|[[-> _]|[-> _]]]).
  destruct Es as [[Ea Ev]|[[Ea Ev]|[Ea Ev]]]; rewrite Ea in *; cbn in *; try lia. split; [done|]. split; [done|].
  apply Forall_lookup_2. intros n c Hc. destruct (W n c Hc) as [?|[[_ ?]|[_ ?]]]; [done|lia|lia].
Qed.

(** ** The number of steps *)

(** Six steps for a message, and nine of the server. *)
Definition c_rank (c : client) : Z :=
  let r := 15 * (Z.max 0 (nloop c) - c_i c) in
  match c_at c with
  | CTry => r + 1 | CMutex | COverWait => r | CPut | COverInc => r - 1 | COverPost => r - 2
  | CPostMutex => r - 11 | CCopy => r - 12 | CPostStored => r - 13 | CDone => 0
  end.
Definition s_rank (p : spc) : Z :=
  match p with
  | SStored => 0 | SMutex => 8 | SPrint => 7 | SPostMutex => 6 | SPostEmpty => 5 | SOverWait => 4 | SOverRead => 3 | SOverPost => 2 | STest => 1
  end.
Definition work s : Z := sumz c_rank (clients s) + s_rank (s_at s) + 9 * (nputs s - nout s - s_stored (s_at s)).

Lemma sr_work_nonneg s : inv s -> 0 <= work s.
Proof.
  intros I. pose proof (sums_nonneg s). destruct (i_shm _ I) as (_ & _ & [Os _] & _). pose proof (value_range _ Os). pose proof (i_stored _ I).
  unfold work. assert (0 <= s_rank (s_at s)) by (by destruct (s_at s)). assert (0 <= sumz c_rank (clients s)); [|lia].
  apply sumz_nonneg. intros j c Hj. destruct (Forall_lookup_1 _ _ _ _ (i_clients _ I) Hj) as (_ & Hr & Hp & _).
  unfold c_rank. destruct (c_at c); lia.
Qed.

Lemma client_rank n m c m' c' l : c_ok c -> client_step (T := T) n m c = Some (m', c', l) ->
  c_rank c' + 9 * Z.of_nat (length l) < c_rank c /\ nloop c' = nloop c.
Proof.
  intros (_ & Hr & Hp & _) E. unfold client_step, c_rank in *. destruct c as [p nl ci off cp co]. cbn in *.
  destruct p; try done; repeat match type of E with
    | context [if ?b then _ else _] => destruct b eqn:?; bprop
    | context [match ?o with _ => _ end] => destruct o; cbn in E; try done
    | context [?o ≫= _] => destruct o; cbn in E; try done
    end; simplify_eq; cbn; lia.
Qed.

Lemma sr_work s s' : inv s -> step s s' -> work s' < work s /\ map nloop (clients s') = map nloop (clients s).
Proof.
  intros I [E|[n E]].
  - unfold server2 in E. unfold work, nputs, nout. destruct (s_at s); cbn in E;
      repeat match type of E with
      | context [if ?b then _ else _] => destruct b
      | context [?o ≫= _] => destruct o; cbn in E; try done
      end; injection E as <-; cbn; rewrite ?length_app; cbn; split; done || lia.
  - unfold client2 in E. destruct (clients s !! n) as [c|] eqn:Hn; [|done]. cbn in E.
    destruct (client_step n (ptr s) c) as [[[m c'] l]|] eqn:Ec; [|done]. cbn in E. injection E as <-.
    destruct (seen s n c I Hn) as (_ & _ & _ & _ & _ & Ho). destruct (client_rank _ _ _ _ _ _ Ho Ec) as [Hr Hl].
    unfold work, nputs, nout. cbn. rewrite (sumz_insert _ _ _ _ _ Hn), length_app. split; [lia|].
    rewrite list_fmap_insert. apply list_insert_id. by rewrite list_lookup_fmap, Hn, Hl.
Qed.

Lemma sr_run n s s' : nsteps step n s s' -> inv s ->
  inv s' /\ work s' + Z.of_nat n <= work s /\ map nloop (clients s') = map nloop (clients s).
Proof.
  induction 1 as [s|n s1 s2 s3 Hs Hn IH]; intros I; [split_and!; try done; lia|].
  destruct (IH (sr_step _ _ I Hs)) as (I' & W & L). destruct (sr_work _ _ I Hs). split_and!; try done; [lia|congruence].
Qed.

(** ** No message gets two slots *)

Definition puts_ok s : Prop :=
  NoDup (puts s) /\ forall n i, (n, i) ∈ puts s -> exists c, clients s !! n = Some c /\ i < c_i c + c_stored c.

Lemma puts_step s s' : step s s' -> puts_ok s -> puts_ok s'.
Proof.
  intros [E|[n E]] [Hd Hp].
  - assert (puts s' = puts s /\ clients s' = clients s) as [E1 E2]; [|by unfold puts_ok; rewrite E1, E2].
    unfold server2 in E. destruct (s_at s); cbn in E;
      repeat match type of E with
      | context [if ?b then _ else _] => destruct b
      | context [?o ≫= _] => destruct o; cbn in E; try done
      end; by injection E as <-.
  - unfold client2 in E. destruct (clients s !! n) as [c|] eqn:Hn; [|done]. cbn in E.
    destruct (client_step n (ptr s) c) as [[[m c'] l]|] eqn:Ec; [|done]. cbn in E. injection E as <-.
    assert (D : (l = [] /\ c_i c + c_stored c <= c_i c' + c_stored c') \/ (l = [(n, c_i c)] /\ c_stored c = 0 /\ c_i c' = c_i c /\ c_stored c' = 1)).
    { unfold client_step, c_stored in *. destruct c as [p nl ci off cp co]. cbn in *. destruct p; try done;
        repeat match type of Ec with
        | context [if ?b then _ else _] => destruct b
        | context [match ?o with _ => _ end] => destruct o; cbn in Ec; try done
        | context [?o ≫= _] => destruct o; cbn in Ec; try done
        end; simplify_eq; cbn; try (left; split; [done|lia]); by right. }
    assert (Hl : (n < length (clients s))%nat) by (by eapply lookup_lt_Some).
    assert (Hk : c_i c + c_stored c <= c_i c' + c_stored c') by (destruct D as [[_ ?]|(_ & ? & ? & ?)]; lia).
    assert (Hold : forall n' i, (n', i) ∈ puts s -> exists c0, <[n := c']> (clients s) !! n' = Some c0 /\ i < c_i c0 + c_stored c0).
    { intros n' i Hin. destruct (Hp n' i Hin) as (c0 & Hc0 & Hi). destruct (decide (n' = n)) as [->|Hne].
      - exists c'. rewrite list_lookup_insert_eq by done. rewrite Hn in Hc0. injection Hc0 as <-. split; [done|lia].
      - exists c0. by rewrite list_lookup_insert_ne. }
    split; cbn.
    + destruct D as [[-> _]|(-> & Hz & _ & _)]; [by rewrite app_nil_r|]. apply NoDup_app. split_and!; [done| |by apply NoDup_singleton].
      intros x Hx ->%list_elem_of_singleton. destruct (Hp _ _ Hx) as (c0 & Hc0 & Hi). rewrite Hn in Hc0. injection Hc0 as <-. lia.
    + intros n' i Hin. apply elem_of_app in Hin as [Hin|Hin]; [by apply Hold|]. destruct D as [[-> _]|(-> & Hz & Ei & Es)]; [by apply elem_of_nil in Hin|].
      apply list_elem_of_singleton in Hin. injection Hin as -> ->. exists c'. rewrite list_lookup_insert_eq by done. split; [done|lia].
Qed.

Lemma puts_run n s s' : nsteps step n s s' -> puts_ok s -> puts_ok s'.
Proof. induction 1 as [|n x y z Hxy _ IH]; intros P; [done|]. by apply IH, (puts_step x). Qed.

(** ** One client *)

(** The messages that are in their slots. *)
Definition copied (c : client) : Z := match c_at c with CPostMutex | CCopy => 1 | _ => 0 end.
Definition nth_put (l : list msg) (k : Z) : option msg := l !! Z.to_nat k.

Record fifo s (c : client) : Prop := Fifo {
  f_one : clients s = [c];
  f_ring : ring NMESG (nth_put (puts s)) (nout s) (nputs s - copied c) (msgdata (ptr s));
  f_copy : copied c = 1 -> 1 <= nputs s /\ nth_put (puts s) (nputs s - 1) = Some (0%nat, c_i c) /\ piece (offset c) = slot NMESG (nputs s - 1);
  f_out : out s = map Some (take (length (out s)) (puts s)) }.

Lemma ring_ext {A} n (f g : Z -> A) a b l : (forall k, a <= k < b -> f k = g k) -> ring n f a b l -> ring n g a b l.
Proof. intros Hfg [Hl Hr]. split; [done|]. intros k Hk. rewrite Hr by done. f_equal. by apply Hfg. Qed.

Lemma slot_mod k : 0 <= k -> slot NMESG k = Z.to_nat (k mod NMESG).
Proof. intros Hk. unfold slot. by rewrite Z.rem_mod_nonneg. Qed.

Lemma fifo_client s c s' : inv s -> fifo s c -> client2 0 s = Some s' -> exists c', fifo s' c'.
Proof.
  intros I [F1 F2 F3 F4] E. unfold client2 in E. rewrite F1 in E. cbn in E.
  destruct (client_step 0 (ptr s) c) as [[[m c'] l]|] eqn:Ec; [|done]. cbn in E. injection E as <-. exists c'.
  assert (Hn : clients s !! 0%nat = Some c) by (by rewrite F1).
  destruct (seen s 0 c I Hn) as (Vm & Ve & Vs & Vo & Hpos & _). pose proof (i_shm _ I) as (_ & [Oe _] & [Os _] & _ & Hoff & Hdat).
  pose proof (value_range _ Oe). pose proof (value_range _ Os). destruct (i_indexes _ I) as [Hi _].
  assert (Hnn : 0 <= nout s /\ 0 <= nputs s) by (unfold nout, nputs; lia).
  unfold client_step, copied in *. destruct c as [p nl ci off cp co]. unfold c_stored, c_empty in *. cbn in *.
  destruct p; try done.
  - destruct (_ <? _); [destruct (down _)|]; simplify_eq; split; unfold copied, nputs, nout in *; cbn in *; rewrite ?app_nil_r; done.
  - destruct (down _); [|done]. cbn in Ec. simplify_eq; split; unfold copied, nputs, nout in *; cbn in *; rewrite ?app_nil_r; done.
  - simplify_eq; split; unfold copied, nputs, nout in *; cbn in *; rewrite ?app_nil_r; done.
  - simplify_eq; split; unfold copied, nputs, nout in *; cbn in *; rewrite ?app_nil_r; done.
  - destruct (down _); [|done]. cbn in Ec. simplify_eq; split; unfold copied, nputs, nout in *; cbn in *; rewrite ?app_nil_r; done.
  - rewrite Hoff, Hi, msgoff_lookup in Ec by (by apply Z.mod_pos_bound). cbn in Ec. simplify_eq.
    split; unfold copied, nth_put, nputs, nout in *; cbn in *; rewrite ?length_app; cbn; try done.
    + replace (Z.of_nat (length (puts s) + 1) - 1) with (Z.of_nat (length (puts s)) - 0) by lia. revert F2. apply ring_ext.
      intros k Hk. rewrite lookup_app_l by lia. done.
    + intros _. split; [lia|]. replace (Z.to_nat (Z.of_nat (length (puts s) + 1) - 1)) with (length (puts s)) by lia.
      split; [by apply list_lookup_middle|]. replace (Z.of_nat (length (puts s) + 1) - 1) with (Z.of_nat (length (puts s))) by lia.
      rewrite slot_mod, piece_offset; [done|apply Z.mod_pos_bound; done|lia].
    + rewrite F4 at 1. rewrite take_app_le; [done|]. lia.
  - simplify_eq; split; unfold copied, nputs, nout in *; cbn in *; rewrite ?app_nil_r; done.
  - destruct (msgdata (ptr s) !! piece off); [|done]. cbn in Ec. simplify_eq. destruct (F3 eq_refl) as (P1 & P2 & P3).
    split; unfold copied, nputs, nout in *; cbn in *; rewrite ?app_nil_r; try done.
    rewrite P3, Z.sub_0_r. set (k := Z.of_nat (length (puts s)) - 1) in *. replace (Z.of_nat (length (puts s))) with (k + 1) by lia.
    apply (ring_push NMESG (nth_put (puts s)) eq_refl _ k); [done|lia|lia|done].
  - simplify_eq; split; unfold copied, nputs, nout in *; cbn in *; rewrite ?app_nil_r; done.
Qed.

Lemma fifo_server s c s' : inv s -> fifo s c -> server2 s = Some s' -> fifo s' c.
Proof.
  intros I [F1 F2 F3 F4] E.
  destruct (decide (s_at s = SPrint)) as [Ea|Ea].
  - unfold server2 in E. rewrite Ea in E. pose proof (i_shm _ I) as (_ & _ & [Os _] & _ & Hoff & Hdat). destruct (i_indexes _ I) as [_ Hi].
    assert (Hnn : 0 <= nout s /\ 0 <= nputs s) by (unfold nout, nputs; lia).
    rewrite Hoff, Hi, msgoff_lookup in E by (by apply Z.mod_pos_bound). cbn in E. rewrite piece_offset in E by (by apply Z.mod_pos_bound).
    pose proof (value_range _ Os). pose proof (i_stored _ I) as Vs. rewrite F1, Ea in Vs. unfold sumz in Vs. cbn in Vs.
    assert (Hc : nout s < nputs s - copied c) by (unfold copied, c_stored in *; destruct (c_at c); lia).
    rewrite <- slot_mod in E by lia. rewrite (proj2 F2) in E by lia. cbn in E. injection E as <-.
    destruct (lookup_lt_is_Some_2 (puts s) (length (out s))) as [x Hx]; [unfold nout, nputs, copied in *; destruct (c_at c); lia|].
    assert (Hx' : nth_put (puts s) (nout s) = Some x) by (unfold nth_put, nout; by rewrite Nat2Z.id).
    split; unfold nputs, nout in *; cbn in *; try done.
    + rewrite length_app, Nat2Z.inj_add. cbn. by apply ring_pop.
    + rewrite length_app, Hx'. cbn. rewrite Nat.add_1_r, (take_S_r _ _ _ Hx), map_app. cbn. by rewrite <- F4.
  - assert (clients s' = clients s /\ puts s' = puts s /\ out s' = out s /\ msgdata (ptr s') = msgdata (ptr s)) as (E1 & E2 & E3 & E4).
    { unfold server2 in E. destruct (s_at s); try done; cbn in E;
        repeat match type of E with
        | context [if ?b then _ else _] => destruct b
        | context [?o ≫= _] => destruct o; cbn in E; try done
        end; by injection E as <-. }
    split; unfold nputs, nout in *; rewrite ?E1, ?E2, ?E3, ?E4; done.
Qed.

Lemma fifo_step s c s' : inv s -> fifo s c -> step s s' -> exists c', fifo s' c'.
Proof.
  intros I F [E|[[|n] E]]; [exists c; by eapply fifo_server|by eapply fifo_client|].
  unfold client2 in E. rewrite (f_one _ _ F) in E. by rewrite lookup_nil in E || done.
Qed.

Lemma fifo_run n s s' : nsteps step n s s' -> forall c, inv s -> fifo s c -> exists c', fifo s' c'.
Proof.
  induction 1 as [|n x y z Hxy _ IH]; intros c I F; [by exists c|].
  destruct (fifo_step _ _ _ I F Hxy) as [c' F']. apply (IH c'); [by apply (sr_step x)|done].
Qed.
End Proofs.

(** ** Two clients *)

Definition sem_at (i n : Z) : SemSv.vsem := SemSv.VSem (SemSv.Handle i SemSv.SEM_MAGIC) n.
Definition main_sv (loops : list Z) : state := main loops (sem_at 1 1) (sem_at 2 NMESG) (sem_at 3 0) (sem_at 4 1).

(** Client 0 has slot 0 and copies its message when the server has printed the slot. *)
Definition race : list (option nat) :=
  replicate 4 (Some 0%nat) ++ replicate 7 (Some 1%nat) ++ replicate 9 None ++ replicate 3 (Some 0%nat) ++ replicate 9 None.
(** Client 0 has slot 0; when the ring has gone round client 1 gets it as well. *)
Definition same_slot : list (option nat) :=
  replicate 4 (Some 0%nat) ++ replicate 90 (Some 1%nat) ++ replicate 9 None ++ replicate 4 (Some 1%nat).
Definition run_on (l : list (option nat)) (s : state) : option (state (T := SemSv.vsem)) :=
  foldl (fun s t => s ≫= fun s => match t with Some n => client2 n s | None => server2 s end) (Some s) l.

Lemma run_on_steps l s s' : run_on l s = Some s' -> rtc step s s'.
Proof.
  unfold run_on. revert s. induction l as [|t l IH]; intros s E; [injection E as ->; apply rtc_refl|]. cbn in E.
  destruct (match t with Some n => client2 n s | None => server2 s end) as [s1|] eqn:E1.
  - apply rtc_l with s1; [destruct t; [right; by eexists|by left]|by apply IH].
  - exfalso. clear -E. induction l as [|u l IH]; done || apply IH, E.
Qed.

(** C10: any number of clients of server2.c, in every interleaving and with every correct
    semaphore.  A run has at most 15 steps for each round of a client and one for each
    client, and then the clients have ended and the server waits; nobody waits for ever
    before.  Each message is put once; the server prints a slot for each message, and
    in the end the messages and [noverflow] (a long) add up to the rounds.  With one client
    it prints the messages in their order.  With two, strcpy() coming after the mutex is
    posted, it can print a slot before the client has copied its message there, and then
    never prints that message; and a slot so freed is given to the second client while
    the first has still to copy into it. *)
Theorem shared_ring `{Semaphore T} loops (mu empty stored omu : T) n s :
  ready mu empty stored omu -> nsteps step n (main loops mu empty stored omu) s ->
  Z.of_nat n <= 15 * sumz (Z.max 0) loops + Z.of_nat (length loops) /\
  ((exists s', step s s') \/ at_rest s) /\
  NoDup (puts s) /\ nout s <= nputs s /\
  (at_rest s -> nout s = nputs s /\ noverflow (ptr s) = swrap 64 (sumz (Z.max 0) loops - nputs s)) /\
  (length loops = 1%nat -> out s = map Some (take (length (out s)) (puts s))) /\
  (exists r, rtc step (main_sv [1; 1]) r /\ at_rest r /\ puts r = [(0%nat, 0); (1%nat, 0)] /\ out r = [None; Some (1%nat, 0)]) /\
  (exists r c1 c2, rtc step (main_sv [1; 20]) r /\ clients r = [c1; c2] /\ c_at c1 = CCopy /\ c_at c2 = CCopy /\ offset c1 = offset c2).
Proof.
  intros Hr Hrun. pose proof (sr_main loops mu empty stored omu Hr) as I0. destruct (sr_run _ _ _ Hrun I0) as (I & W & L).
  pose proof (sr_work_nonneg _ I) as W0.
  assert (Hl : map nloop (clients s) = loops) by (rewrite L; cbn; rewrite map_map; apply map_id).
  split. { unfold work in W at 2. unfold nputs, nout in W. cbn in W.
    assert (E : sumz c_rank (map (fun n => Client CTry n 0 0 0 0) loops) = 15 * sumz (Z.max 0) loops + Z.of_nat (length loops)).
    { clear. induction loops as [|k l IH]; [done|]. cbn [map]. rewrite !sumz_cons, IH. unfold c_rank. cbn. lia. }
    lia. }
  split; [by apply sr_progress|].
  split. { apply (puts_run _ _ _ Hrun). split; [apply NoDup_nil_2|]. intros k i Hin. by apply elem_of_nil in Hin. }
  pose proof (i_stored _ I) as Vs. pose proof (sums_nonneg s). pose proof (s_range (s_at s)).
  destruct (i_shm _ I) as (_ & _ & [Os _] & _). pose proof (value_range _ Os). split; [lia|]. split.
  { intros (Ea & Ev & Hd). rewrite Ea, Ev in Vs.
    rewrite (sumz_zero c_stored) in Vs by (intros j c Hj; unfold c_stored; by rewrite (Forall_lookup_1 _ _ _ _ Hd Hj)).
    split; [cbn in Vs; lia|]. rewrite (i_over _ I). f_equal. rewrite <- (i_puts _ I), <- Hl. pose proof (i_clients _ I) as Hc.
    clear -Hd Hc. induction (clients s) as [|c l IH]; [done|]. apply Forall_cons in Hd as [Hd1 Hd2]. apply Forall_cons in Hc as [Hc1 Hc2].
    cbn [map]. rewrite !sumz_cons, (IH Hd2 Hc2). destruct Hc1 as (H1 & H2 & H3 & _). unfold under_way in H1. rewrite Hd1 in *.
    generalize (sumz (Z.max 0) (map nloop l)), (sumz c_puts l). intros; lia. }
  split.
  - intros Hone. destruct loops as [|k [|? ?]]; try done. destruct (fifo_run _ _ _ Hrun (Client CTry k 0 0 0 0) I0) as [c F]; [|apply (f_out _ _ F)].
    split; try done. split; [done|]. unfold nout, nputs. cbn. intros; lia.
  - split; [|do 3 eexists; split; [apply (run_on_steps same_slot); vm_compute; reflexivity|by vm_compute]].
    exists (default (main_sv [1; 1]) (run_on race (main_sv [1; 1]))). split; [apply (run_on_steps race); vm_compute; reflexivity|].
    split; [|vm_compute; auto]. split; [vm_compute; reflexivity|]. split; [vm_compute; reflexivity|]. vm_compute. repeat constructor.
Qed.

Lemma shared_ring_witness :
  exists s : state (T := SemSv.vsem), nsteps step 1 (main_sv [3; 2]) s /\ Z.of_nat 1 <= 15 * sumz (Z.max 0) [3; 2] + 2.
Proof.
  assert (Hrun : exists s : state (T := SemSv.vsem), nsteps step 1 (main_sv [3; 2]) s).
  { eexists. apply nsteps_once. right. exists 1%nat. vm_compute. reflexivity. }
  destruct Hrun as [s Hs]. exists s. split; [exact Hs|].
  refine (proj1 (shared_ring [3; 2] _ _ _ _ 1 s _ Hs)). repeat split; cbn; unfold SemSv.SEMVMX, NMESG; lia.
Defined.
