(* ===== verification/SvMpx.v ===== *)
(** * One message queue between many clients and a server

    Model of unpv22e/svmsgmpx1q (client.c, server.c, mesg_send.c, mesg_recv.c): the
    clients send their process ID and a path as messages of type 1, the server answers
    with the contents of the file in messages whose type is that process ID and an empty
    message at the end, all over one System V queue.  The queue is what is documented:
    msgrcv() takes the first message of the type, msgsnd() waits while the message does
    not fit: the bytes of the queue with it, and the number of its messages, are at most
    [msg_qbytes].  Clients and the server advance by one call of
    msgsnd() or msgrcv() at a time, in any interleaving. *)

From S2P Require Import Prelude CString RobustIO FileServer.

Definition MAXMESGDATA : nat := 4080.

(** ** The texts *)

Definition BLANK : Z := 32.

(** The client's message from its standard input: fgets() behind the process ID and a
    blank, and a newline at the end deleted. *)
Definition chomp (t : list Z) : list Z :=
  match reverse t with c :: l => if c =? RobustIO.newline then reverse l else t | [] => t end.
Definition request (pid : Z) (stdin : list Z) : list Z :=
  let start := sprintf_d pid ++ [BLANK] in
  chomp (start ++ c_string (default [] (fgets (MAXMESGDATA - length start) stdin))).

(** atol(), and the assignment to a [pid_t]. *)
Fixpoint skip_white (s : list Z) : list Z :=
  match s with
  | c :: s' => if (c =? 32) || ((9 <=? c) && (c <=? 13)) then skip_white s' else s
  | [] => []
  end.
Fixpoint leading_digits (s : list Z) : list Z :=
  match s with
  | c :: s' => match strchr digits c with Some d => d :: leading_digits s' | None => [] end
  | [] => []
  end.
Definition atol (s : list Z) : Z :=
  match skip_white s with
  | 45 :: s' => Z.max (- horner 10 (leading_digits s') 0) (- 2 ^ 63)
  | 43 :: s' => Z.min (horner 10 (leading_digits s') 0) (2 ^ 63 - 1)
  | s' => Z.min (horner 10 (leading_digits s') 0) (2 ^ 63 - 1)
  end.

(** The process ID and the path of a request; [None]: no blank in it. *)
Definition decode (data : list Z) : option (Z * list Z) :=
  let s := c_string data in
  i ← strchr s BLANK;
  Some (s32 (atol (take (Z.to_nat i) s)), drop (S (Z.to_nat i)) s).

(** while (Fgets(mesg.mesg_data, MAXMESGDATA, fp) != NULL): strlen() of each line. *)
Fixpoint lines (fuel : nat) (content : list Z) : list (list Z) :=
  match fuel with
  | O => []
  | S fuel' =>
      match fgets MAXMESGDATA content with
      | None => []
      | Some l => c_string l :: lines fuel' (drop (length l) content)
      end
  end.

(** The answer to a request of [n] bytes, with the empty message at the end; [room] of
    snprintf() is what is left of the buffer. *)
Definition answer (fs : files) (n : nat) (path : list Z) : list (list Z) :=
  match fs path with
  | inr reason => [c_string (path ++ take (MAXMESGDATA - n - 1) (cstr ": can't open, " ++ c_string reason ++ [10]))]
  | inl content => lines (length content) content
  end ++ [[]].

(** *** A client's request is understood *)

Lemma c_string_no_nul l : Forall (fun c => c <> 0) (c_string l).
Proof. induction l as [|c l IH]; [done|]. cbn. destruct (c =? 0) eqn:E; [done|]. bprop. by constructor. Qed.

Lemma c_string_before l1 l2 : Forall (fun c => c <> 0) l1 -> c_string (l1 ++ l2) = l1 ++ c_string l2.
Proof. induction 1 as [|c l Hc _ IH]; [done|]. cbn. rewrite (proj2 (Z.eqb_neq _ _)) by done. by rewrite IH. Qed.

Lemma chomp_no_nul t : Forall (fun c => c <> 0) t -> Forall (fun c => c <> 0) (chomp t).
Proof.
  intros Ht. unfold chomp. destruct (reverse t) as [|c l] eqn:E; [done|]. case_match; [|done].
  rewrite <- (reverse_involutive t), E, reverse_cons in Ht. by apply Forall_app in Ht as [Ht _].
Qed.

(** The newline is never that of the beginning. *)
Lemma chomp_app t1 c t2 : c <> RobustIO.newline -> chomp ((t1 ++ [c]) ++ t2) = t1 ++ [c] ++ chomp t2.
Proof.
  intros Hc. unfold chomp. rewrite reverse_app. destruct (reverse t2) as [|x l] eqn:E.
  - rewrite reverse_app. cbn. rewrite (proj2 (Z.eqb_neq _ _)) by done.
    apply (f_equal reverse) in E. rewrite reverse_involutive in E. subst t2. cbn. by rewrite !app_nil_r.
  - cbn [app]. destruct (x =? RobustIO.newline); [|by rewrite <- app_assoc].
    rewrite reverse_app, !reverse_involutive. by rewrite <- app_assoc.
Qed.

(** What a client asks for. *)
Definition path_of (pid : Z) (stdin : list Z) : list Z :=
  chomp (c_string (default [] (fgets (MAXMESGDATA - length (sprintf_d pid ++ [BLANK])) stdin))).

Lemma digit_char_range d : 0 <= d < 10 -> 48 <= digit_char d <= 57.
Proof. intros Hd. unfold digit_char. case_match; bprop; lia. Qed.

Lemma sprintf_pid pid : 0 < pid < 2 ^ 31 ->
  exists ds, sprintf_d pid = map digit_char ds /\ Forall (fun d => 0 <= d < 10) ds /\ ds <> [] /\ horner 10 ds 0 = pid.
Proof.
  intros Hp. unfold sprintf_d. rewrite (proj2 (Z.ltb_ge _ _)) by lia. exists (digits_of 10 10 pid).
  split; [apply sprintf_u_digits|]. split; [apply digits_of_range; lia|]. split; [by apply digits_of_nonnil; lia|].
  apply horner_digits; [lia|]. change (10 ^ Z.of_nat 10) with 10000000000. lia.
Qed.

Lemma leading_digits_chars ds t : Forall (fun d => 0 <= d < 10) ds -> leading_digits (map digit_char ds ++ t) = ds ++ leading_digits t.
Proof. induction 1 as [|d ds Hd _ IH]; [done|]. cbn. by rewrite strchr_digit_char, IH. Qed.

Lemma atol_sprintf pid : 0 < pid < 2 ^ 31 -> s32 (atol (sprintf_d pid)) = pid.
Proof.
  intros Hp. destruct (sprintf_pid pid Hp) as (ds & -> & Hds & Hne & Hv). unfold atol.
  assert (E : skip_white (map digit_char ds) = map digit_char ds).
  { destruct Hds as [|d ds Hd _]; [done|]. cbn. pose proof (digit_char_range d Hd). rewrite (proj2 (Z.eqb_neq _ _)), (proj2 (Z.leb_gt (digit_char d) 13)) by lia.
    by rewrite andb_false_r. }
  rewrite E. pose proof (leading_digits_chars ds [] Hds) as Hl. rewrite app_nil_r, app_nil_r in Hl.
  assert (Hr : s32 (Z.min (horner 10 (leading_digits (map digit_char ds)) 0) (2 ^ 63 - 1)) = pid).
  { rewrite Hl, Hv, Z.min_l by lia. apply swrap_small; lia. }
  destruct Hds as [|d ds Hd _]; [done|]. cbn in *. pose proof (digit_char_range d Hd).
  destruct (digit_char d) as [|p|p] eqn:Ed; try lia.
  do 6 (destruct p as [p|p|]; try exact Hr; try lia).
Qed.

Lemma strchr_cons x l c : strchr (x :: l) c = if x =? c then Some 0 else Z.succ <$> strchr l c.
Proof. reflexivity. Qed.

Lemma strchr_app t c u : Forall (fun x => x <> c) t -> strchr (t ++ c :: u) c = Some (Z.of_nat (length t)).
Proof.
  induction 1 as [|x t Hx _ IH]; cbn [app]; rewrite strchr_cons; [by rewrite Z.eqb_refl|].
  rewrite (proj2 (Z.eqb_neq _ _)) by done. rewrite IH. cbn. f_equal. lia.
Qed.

Lemma decode_request pid stdin : 0 < pid < 2 ^ 31 -> decode (request pid stdin) = Some (pid, path_of pid stdin).
Proof.
  intros Hp. unfold decode, request, path_of. set (t := default [] _). rewrite chomp_app by done.
  destruct (sprintf_pid pid Hp) as (ds & E & Hds & _).
  assert (Hc : Forall (fun c => 48 <= c <= 57) (sprintf_d pid)).
  { rewrite E. apply Forall_map. eapply Forall_impl; [exact Hds|]. intros d Hd. by apply digit_char_range. }
  rewrite c_string_before by (eapply Forall_impl; [exact Hc|]; cbv beta; intros; lia).
  rewrite c_string_id by (cbn; constructor; [done|apply chomp_no_nul, c_string_no_nul]).
  cbn [app]. rewrite strchr_app by (eapply Forall_impl; [exact Hc|]; unfold BLANK; cbv beta; intros; lia). cbn [mbind option_bind].
  rewrite Nat2Z.id, take_app_length, atol_sprintf by done. do 2 f_equal.
  rewrite (cons_middle BLANK), app_assoc, drop_app_length'; [done|]. rewrite length_app. cbn. lia.
Qed.

(** *** The answer is the file *)

Lemma line_of_prefix m d l : RobustIO.line_of m d = Some l -> l <> [] /\ d = l ++ drop (length l) d.
Proof.
  revert d l. induction m as [|m IH]; intros d l E; [done|]. destruct d as [|c d]; [done|]. cbn in E.
  destruct (c =? RobustIO.newline); [by injection E as <-|].
  destruct (RobustIO.line_of m d) as [l'|] eqn:El; [|done]. injection E as <-. destruct (IH d l' El) as [_ Hd]. split; [done|].
  cbn. by rewrite <- Hd.
Qed.

Lemma fgets_prefix size d l : (2 <= size)%nat -> fgets size d = Some l -> l <> [] /\ d = l ++ drop (length l) d.
Proof.
  intros Hs E. unfold fgets in E. destruct d as [|c d]; [done|]. injection E as <-.
  destruct (RobustIO.line_of (size - 1) (c :: d)) as [l|] eqn:El; cbn [default from_option id]; [by eapply line_of_prefix|].
  split; [by destruct size as [|[|?]]; try (exfalso; lia)|].
  destruct (decide (size - 1 <= length (c :: d))%nat) as [Hle|Hle].
  - rewrite length_take, Nat.min_l by done. by rewrite take_drop.
  - rewrite (take_ge (c :: d)) by lia. by rewrite drop_all, app_nil_r.
Qed.

Lemma lines_file fuel content : (length content <= fuel)%nat -> Forall (fun c => c <> 0) content ->
  concat (lines fuel content) = content /\ Forall (fun l => l <> []) (lines fuel content).
Proof.
  revert content. induction fuel as [|fuel IH]; intros content Hf Hz; [by destruct content; [|cbn in Hf; lia]|].
  cbn [lines]. destruct (fgets MAXMESGDATA content) as [l|] eqn:E; [|by destruct content].
  destruct (fgets_prefix MAXMESGDATA content l ltac:(unfold MAXMESGDATA; lia) E) as [Hl Hd].
  pose proof Hz as Hz'. rewrite Hd in Hz'. apply Forall_app in Hz' as [Hzl Hzr].
  destruct (IH (drop (length l) content)) as [I1 I2]; [|done|].
  { rewrite length_drop. destruct l; [done|]. cbn. lia. }
  cbn [concat]. rewrite I1, c_string_id by done. split; [done|]. by constructor.
Qed.

(** What a client is to receive, without the empty message at the end. *)
Definition wanted (fs : files) (pid : Z) (stdin : list Z) (body : list (list Z)) : Prop :=
  let path := path_of pid stdin in
  Forall (fun d => d <> []) body /\
  match fs path with
  | inl content => concat body = content
  | inr reason => exists k, concat body = c_string (path ++ take k (cstr ": can't open, " ++ c_string reason ++ [10]))
  end.

Lemma answer_wanted fs pid stdin : 0 < pid < 2 ^ 31 ->
  (forall content, fs (path_of pid stdin) = inl content -> Forall (fun c => c <> 0) content) ->
  exists body, answer fs (length (request pid stdin)) (path_of pid stdin) = body ++ [[]] /\ wanted fs pid stdin body.
Proof.
  intros Hp Hz. unfold answer, wanted. destruct (fs (path_of pid stdin)) as [content|reason] eqn:E.
  - eexists. split; [reflexivity|]. destruct (lines_file (length content) content) as [H1 H2]; [done|by apply Hz|]. done.
  - eexists. split; [reflexivity|]. split; [|cbn; rewrite app_nil_r; by eexists]. constructor; [|done].
    destruct (path_of pid stdin) as [|c path] eqn:Ep.
    + assert (Hl : (length (request pid stdin) <= 11)%nat).
      { unfold request. rewrite chomp_app by done. fold (path_of pid stdin). rewrite Ep, app_nil_r, length_app. cbn [length].
        destruct (sprintf_pid pid Hp) as (ds & _). unfold sprintf_d. rewrite (proj2 (Z.ltb_ge _ _)) by lia.
        rewrite sprintf_u_digits, length_map. pose proof (digits_of_length 10 10 pid). lia. }
      replace (MAXMESGDATA - length (request pid stdin) - 1)%nat with (S (MAXMESGDATA - length (request pid stdin) - 2))
        by (unfold MAXMESGDATA in *; lia). done.
    + assert (c <> 0). { pose proof (chomp_no_nul _ (c_string_no_nul (default [] (fgets (MAXMESGDATA - length (sprintf_d pid ++ [BLANK])) stdin)))) as Hc.
        fold (path_of pid stdin) in Hc. rewrite Ep in Hc. by apply Forall_cons in Hc as [? _]. }
      cbn. by rewrite (proj2 (Z.eqb_neq _ _)).
Qed.

(** ** The processes *)

Definition qmsg : Type := Z * list Z.

(** The first message of type [t], and the queue without it. *)
Fixpoint msgrcv (t : Z) (q : list qmsg) : option (list Z * list qmsg) :=
  match q with
  | [] => None
  | (t', d) :: q' => if t' =? t then Some (d, q') else '(d', q'') ← msgrcv t q'; Some (d', (t', d) :: q'')
  end.

Inductive cpc := CSend | CRecv | CDone.
(** A client and the messages it has received; it writes their data. *)
Record client := Client { c_at : cpc; received : list (list Z) }.
Inductive server := SRecv | SSend (pid : Z) (todo : list (list Z)) | SExit.

Section Program.
(** The files, [msg_qbytes], and the process ID and standard input of each client. *)
Context (fs : files) (qbytes : Z) (people : list (Z * list Z)).

Record state := St { queue : list qmsg; clients : list client; serv : server }.

Definition main : state := St [] (replicate (length people) (Client CSend [])) SRecv.

Definition bytes (q : list qmsg) : Z := sumz (fun m => Z.of_nat (length (snd m))) q.
Definition fits (m : qmsg) (q : list qmsg) : bool :=
  (bytes q + Z.of_nat (length (snd m)) <=? qbytes) && (Z.of_nat (length q) + 1 <=? qbytes).

Definition msgsnd (m : qmsg) (q : list qmsg) : option (list qmsg) := if fits m q then Some (q ++ [m]) else None.

Definition client_step (i : nat) (s : state) : option state :=
  '(pid, stdin) ← people !! i;
  c ← clients s !! i;
  match c_at c with
  | CSend =>
      q ← msgsnd (1, request pid stdin) (queue s);
      Some (St q (<[i := Client CRecv (received c)]> (clients s)) (serv s))
  | CRecv =>
      '(d, q) ← msgrcv pid (queue s);
      let next := match d with [] => CDone | _ => CRecv end in
      Some (St q (<[i := Client next (received c ++ [d])]> (clients s)) (serv s))
  | CDone => None
  end.

Definition server_step (s : state) : option state :=
  match serv s with
  | SRecv =>
      '(d, q) ← msgrcv 1 (queue s);
      match d with
      | [] => Some (St q (clients s) SRecv)
      | _ =>
          match decode d with
          | None => Some (St q (clients s) SRecv)
          | Some (pid, path) => Some (St q (clients s) (SSend pid (answer fs (length d) path)))
          end
      end
  | SSend pid [] => Some (St (queue s) (clients s) SRecv)
  | SSend pid (m :: l) =>
      if pid >? 0 then
        q ← msgsnd (pid, m) (queue s);
        Some (St q (clients s) (match l with [] => SRecv | _ => SSend pid l end))
      else Some (St (queue s) (clients s) SExit)
  | SExit => None
  end.

Definition step (s s' : state) : Prop := server_step s = Some s' \/ exists i, client_step i s = Some s'.

(** ** The accounts *)

(** The data of the messages of a type, in the queue and still to send. *)
Definition queued (t : Z) (q : list qmsg) : list (list Z) := map snd (filter (fun m => fst m = t) q).
Definition to_send (t : Z) (v : server) : list (list Z) :=
  match v with SSend pid l => if decide (pid = t) then l else [] | _ => [] end.
Definition flow (t : Z) (s : state) : list (list Z) := queued t (queue s) ++ to_send t (serv s).

(** A request of the process [pid]. *)
Definition asks (pid : Z) (m : qmsg) : bool :=
  (fst m =? 1) && match decode (snd m) with Some (p, _) => p =? pid | None => false end.

Definition reply (pid : Z) (stdin : list Z) : list (list Z) := answer fs (length (request pid stdin)) (path_of pid stdin).

Definition c_ok (pid : Z) (stdin : list Z) (s : state) (c : client) : Prop :=
  match c_at c with
  | CSend => cnt (asks pid) (queue s) = 0 /\ flow pid s = [] /\ received c = []
  | CRecv =>
      (cnt (asks pid) (queue s) = 1 /\ flow pid s = [] /\ received c = []) \/
      (cnt (asks pid) (queue s) = 0 /\ flow pid s <> [] /\ received c ++ flow pid s = reply pid stdin)
  | CDone => cnt (asks pid) (queue s) = 0 /\ flow pid s = [] /\ received c = reply pid stdin
  end.

Definition m_ok (m : qmsg) : Prop :=
  exists i pid stdin, people !! i = Some (pid, stdin) /\ (m = (1, request pid stdin) \/ fst m = pid).

Definition within (q : list qmsg) : Prop := bytes q <= qbytes /\ Z.of_nat (length q) <= qbytes.

Record inv (s : state) : Prop := Inv {
  i_len : length (clients s) = length people;
  i_clients : forall i pid stdin c, people !! i = Some (pid, stdin) -> clients s !! i = Some c -> c_ok pid stdin s c;
  i_queue : Forall m_ok (queue s);
  i_room : within (queue s);
  i_serv : match serv s with
           | SRecv => True | SExit => False
           | SSend pid l => l <> [] /\ exists i stdin, people !! i = Some (pid, stdin)
           end }.

(** Process IDs are positive, not that of init, and different; a file to send has no null byte. *)
Definition people_ok : Prop :=
  NoDup (map fst people) /\
  Forall (fun '(pid, stdin) => 1 < pid < 2 ^ 31 /\
    forall content, fs (path_of pid stdin) = inl content -> Forall (fun c => c <> 0) content) people.

(** *** When the processes can wait for one another *)

Definition request_at (j : nat) : qmsg :=
  match people !! j with Some (pid, stdin) => (1, request pid stdin) | None => (1, []) end.

(** Requests of clients other than [i], one each, that the queue can hold. *)
Definition crowd (i : nat) (q : list qmsg) : Prop :=
  exists js, NoDup js /\ Forall (fun j => j <> i /\ (j < length people)%nat) js /\ q = map request_at js /\ within q.

(** A request that does not fit in the empty queue, or an answer to the client [i] that
    does not fit behind requests of others. *)
Definition jam : Prop :=
  exists i pid stdin, people !! i = Some (pid, stdin) /\
    (fits (1, request pid stdin) [] = false \/
     exists m q, m ∈ reply pid stdin /\ crowd i q /\ fits (pid, m) q = false).

End Program.

#[local] Arguments queued : simpl never.
#[local] Arguments request : simpl never.
#[local] Arguments decode : simpl never.
#[local] Arguments answer : simpl never.

(** *** The queue *)

Lemma queued_app t q q' : queued t (q ++ q') = queued t q ++ queued t q'.
Proof. unfold queued. by rewrite filter_app, map_app. Qed.

Lemma queued_one t t' d : queued t [(t', d)] = if decide (t' = t) then [d] else [].
Proof. unfold queued. rewrite filter_cons. cbn. by case_decide. Qed.

Lemma queued_cons t t' d q : queued t ((t', d) :: q) = (if decide (t' = t) then [d] else []) ++ queued t q.
Proof. change ((t', d) :: q) with ([(t', d)] ++ q). by rewrite queued_app, queued_one. Qed.

(** What msgrcv() takes out. *)
Lemma msgrcv_some t q d q' : msgrcv t q = Some (d, q') ->
  exists q1 q2, q = q1 ++ (t, d) :: q2 /\ q' = q1 ++ q2 /\ queued t q1 = [].
Proof.
  revert d q'. induction q as [|[t' x] q IH]; intros d q' E; [done|]. cbn in E. destruct (t' =? t) eqn:Et; bprop.
  - injection E as <- <-. subst t'. by exists [], q.
  - destruct (msgrcv t q) as [[d1 q1]|]; [|done]. cbn in E. injection E as <- <-.
    destruct (IH d1 q1 eq_refl) as (a & b & -> & -> & Ha). exists ((t', x) :: a), b. split_and!; try done.
    unfold queued. rewrite filter_cons. cbn. by rewrite decide_False.
Qed.

Lemma msgrcv_none t q : msgrcv t q = None -> queued t q = [].
Proof.
  induction q as [|[t' x] q IH]; intros E; [done|]. cbn in E. destruct (t' =? t) eqn:Et; [done|]. bprop.
  unfold queued. rewrite filter_cons. cbn. rewrite decide_False by done. apply IH. by destruct (msgrcv t q) as [[]|].
Qed.

Lemma cnt_one f (m : qmsg) : cnt f [m] = b2z (f m).
Proof. rewrite cnt_cons, cnt_nil. lia. Qed.

(** *** The limit *)

Lemma bytes_app q1 q2 : bytes (q1 ++ q2) = bytes q1 + bytes q2.
Proof. apply sumz_app. Qed.
Lemma bytes_cons m q : bytes (m :: q) = Z.of_nat (length (snd m)) + bytes q.
Proof. unfold bytes. by rewrite sumz_cons. Qed.
Lemma bytes_nonneg q : 0 <= bytes q.
Proof. apply sumz_nonneg. intros j b _. apply Nat2Z.is_nonneg. Qed.

Lemma within_snd qbytes m q q' : msgsnd qbytes m q = Some q' -> q' = q ++ [m] /\ within qbytes q'.
Proof.
  unfold msgsnd, fits, within. destruct (_ && _) eqn:E; [|done]. intros [= <-]. split; [done|]. apply andb_true_iff in E as [E1 E2]. bprop.
  rewrite bytes_app, bytes_cons, length_app. change (bytes []) with 0. cbn [length]. lia.
Qed.

Lemma within_sub qbytes q1 q2 m : within qbytes (q1 ++ m :: q2) -> within qbytes (q1 ++ q2).
Proof. unfold within. rewrite !bytes_app, bytes_cons, !length_app. cbn. lia. Qed.

Section Proofs.
Context (fs : files) (qbytes : Z) (people : list (Z * list Z)) (Hqb : 0 <= qbytes) (HP : people_ok fs people).

Lemma person i pid stdin : people !! i = Some (pid, stdin) ->
  1 < pid < 2 ^ 31 /\ exists body, reply fs pid stdin = body ++ [[]] /\ wanted fs pid stdin body.
Proof.
  intros Hi. pose proof (Forall_lookup_1 _ _ _ _ (proj2 HP) Hi) as [Hp Hf]. split; [done|].
  apply answer_wanted; [lia|done].
Qed.

Lemma person_inj i j pid stdin stdin' : people !! i = Some (pid, stdin) -> people !! j = Some (pid, stdin') -> i = j.
Proof.
  intros Hi Hj. eapply NoDup_lookup; [apply (proj1 HP)| |]; rewrite list_lookup_fmap; [by rewrite Hi|by rewrite Hj].
Qed.

Lemma asks_request pid pid' stdin i : people !! i = Some (pid', stdin) -> asks pid (1, request pid' stdin) = (pid' =? pid).
Proof. intros Hi. destruct (person _ _ _ Hi) as [Hp _]. unfold asks. cbn. by rewrite decode_request by lia. Qed.

Lemma asks_reply pid t d : t <> 1 -> asks pid (t, d) = false.
Proof. intros Ht. unfold asks. cbn. by rewrite (proj2 (Z.eqb_neq _ _)). Qed.

(** A change that another client does not see. *)
Lemma c_ok_ext s s' pid stdin c :
  cnt (asks pid) (queue s') = cnt (asks pid) (queue s) -> flow pid s' = flow pid s -> c_ok fs pid stdin s c -> c_ok fs pid stdin s' c.
Proof. intros E1 E2. unfold c_ok. by rewrite E1, E2. Qed.

Lemma sm_main : inv fs qbytes people (main people).
Proof.
  split; cbn; try done; [by rewrite length_replicate|]. intros i pid stdin c _ Hc. apply lookup_replicate in Hc as [-> _]. done.
Qed.

Lemma sm_one s i pid stdin c' q v :
  inv fs qbytes people s -> people !! i = Some (pid, stdin) ->
  c_ok fs pid stdin (St q (<[i := c']> (clients s)) v) c' ->
  (forall pid', pid' <> pid -> 1 < pid' -> cnt (asks pid') q = cnt (asks pid') (queue s) /\ queued pid' q ++ to_send pid' v = flow pid' s) ->
  Forall (m_ok people) q -> within qbytes q ->
  match v with SRecv => True | SExit => False | SSend pid l => l <> [] /\ exists i stdin, people !! i = Some (pid, stdin) end ->
  inv fs qbytes people (St q (<[i := c']> (clients s)) v).
Proof.
  intros I Hi Hc Ho Hq Hr Hv. split; cbn; try done; [rewrite length_insert; apply (i_len _ _ _ _ I)|].
  intros j pj lj cj Hj Hcj. destruct (decide (j = i)) as [->|Hne].
  - rewrite Hi in Hj. injection Hj as <- <-. rewrite list_lookup_insert_eq in Hcj; [by injection Hcj as <-|].
    apply lookup_lt_Some in Hcj. by rewrite length_insert in Hcj.
  - rewrite list_lookup_insert_ne in Hcj by done. destruct (person _ _ _ Hj) as [Hp _].
    assert (pj <> pid) by (intros ->; by destruct Hne; eapply person_inj).
    destruct (Ho pj) as [E1 E2]; [done|lia|]. eapply c_ok_ext; [exact E1|exact E2|]. by eapply (i_clients _ _ _ _ I).
Qed.

Lemma sm_client i s s' : inv fs qbytes people s -> client_step qbytes people i s = Some s' -> inv fs qbytes people s'.
Proof.
  intros I E. unfold client_step in E. destruct (people !! i) as [[pid stdin]|] eqn:Hi; [|done]. cbn in E.
  destruct (clients s !! i) as [c|] eqn:Hc; [|done]. cbn in E. destruct (person _ _ _ Hi) as [Hp (body & Hbody & Hw & _)].
  pose proof (i_clients _ _ _ _ I _ _ _ _ Hi Hc) as Ho. pose proof (i_queue _ _ _ _ I) as Hq. unfold c_ok in Ho.
  destruct c as [p got]. cbn in *. destruct p; [| |done].
  - destruct (msgsnd _ _ _) as [q'|] eqn:Em; [|done]. cbn in E. injection E as <-. apply within_snd in Em as [-> Hwi].
    destruct Ho as (Hz & Hf & ->).
    apply (sm_one s i pid stdin); try done.
    + left. unfold flow in *. cbn. rewrite cnt_app, cnt_one, (asks_request _ _ _ _ Hi), Z.eqb_refl, queued_app, queued_one, decide_False by lia.
      rewrite app_nil_r, Hz. done.
    + intros pid' Hne Hp'. unfold flow. rewrite cnt_app, cnt_one, (asks_request _ _ _ _ Hi), (proj2 (Z.eqb_neq _ _)) by done.
      rewrite queued_app, queued_one, decide_False, app_nil_r by lia. cbn. split; [lia|done].
    + apply Forall_app. split; [done|]. apply Forall_singleton. exists i, pid, stdin. split; [done|by left].
    + apply (i_serv _ _ _ _ I).
  - destruct (msgrcv pid (queue s)) as [[d q]|] eqn:Er; [|done]. cbn in E. injection E as <-.
    apply msgrcv_some in Er as (q1 & q2 & Eq & -> & H1). pose proof (i_room _ _ _ _ I) as Hroom.
    assert (Ef : flow pid s = d :: queued pid (q1 ++ q2) ++ to_send pid (serv s)).
    { unfold flow. rewrite Eq, !queued_app, queued_cons, decide_True by done. by rewrite H1. }
    assert (Ec : forall p', cnt (asks p') (queue s) = cnt (asks p') (q1 ++ q2)).
    { intros p'. rewrite Eq, !cnt_app, cnt_cons, asks_reply by lia. cbn. lia. }
    destruct Ho as [(_ & Hf & _)|(Hz & _ & Hrep)]; [by rewrite Hf in Ef|].
    assert (Hrep' : (got ++ [d]) ++ queued pid (q1 ++ q2) ++ to_send pid (serv s) = body ++ [[]]).
    { rewrite <- Hbody, <- Hrep, Ef, <- app_assoc. done. }
    apply (sm_one s i pid stdin); try done.
    + unfold c_ok, flow. cbn [c_at received queue serv clients]. rewrite Hbody. rewrite <- Ec.
      destruct (queued pid (q1 ++ q2) ++ to_send pid (serv s)) as [|x fl].
      * rewrite app_nil_r in Hrep'. apply app_inj_tail in Hrep' as [-> ->]. done.
      * destruct (exists_last (l := x :: fl)) as (fl' & y & Ey); [done|]. rewrite Ey, app_assoc in Hrep'.
        apply app_inj_tail in Hrep' as [Hb ->]. rewrite <- Hb in Hw. rewrite <- app_assoc in Hw.
        apply Forall_app in Hw as [_ Hw]. apply Forall_cons in Hw as [Hd _]. destruct d as [|z d]; [done|]. right.
        split; [done|]. split; [done|]. by rewrite Ey, <- Hb, app_assoc.
    + intros pid' Hne Hp'. rewrite Ec. split; [done|]. unfold flow. f_equal.
      rewrite Eq, !queued_app, queued_cons, decide_False by done. done.
    + rewrite Eq in Hq. apply Forall_app in Hq as [Hq1 Hq2]. apply Forall_cons in Hq2 as [_ Hq2]. by apply Forall_app.
    + rewrite Eq in Hroom. by eapply within_sub.
    + apply (i_serv _ _ _ _ I).
Qed.

(** The server's steps leave the clients as they are. *)
Lemma sm_serv s q v :
  inv fs qbytes people s -> Forall (m_ok people) q -> within qbytes q ->
  match v with SRecv => True | SExit => False | SSend pid l => l <> [] /\ exists i stdin, people !! i = Some (pid, stdin) end ->
  (forall i pid stdin c, people !! i = Some (pid, stdin) -> clients s !! i = Some c -> c_ok fs pid stdin s c ->
     c_ok fs pid stdin (St q (clients s) v) c) ->
  inv fs qbytes people (St q (clients s) v).
Proof.
  intros I Hq Hr Hv Hc. split; cbn; try done; [apply (i_len _ _ _ _ I)|]. intros i pid stdin c Hi Hci. apply Hc with i; try done.
  by eapply (i_clients _ _ _ _ I).
Qed.

Lemma sm_server s s' : inv fs qbytes people s -> server_step fs qbytes s = Some s' -> inv fs qbytes people s'.
Proof.
  intros I E. pose proof (i_queue _ _ _ _ I) as Hq. pose proof (i_room _ _ _ _ I) as Hr. pose proof (i_serv _ _ _ _ I) as Hv.
  unfold server_step in E. destruct (serv s) as [|pid [|m l]|] eqn:Es; [| |destruct Hv as [_ (i & stdin & Hi)]|done].
  - destruct (msgrcv 1 (queue s)) as [[d q]|] eqn:Er; [|done]. cbn in E. apply msgrcv_some in Er as (q1 & q2 & Eq & -> & H1).
    rewrite Eq in Hq. pose proof Hq as Hq'. apply Forall_app in Hq' as [Hq1 Hq2]. apply Forall_cons in Hq2 as [Hm Hq2].
    destruct Hm as (i & pid & stdin & Hi & Hm). destruct (person _ _ _ Hi) as [Hp (body & Hbody & _)].
    destruct Hm as [Hm|Hm]; [|cbn in Hm; lia]. injection Hm as ->.
    assert (Hd : decode (request pid stdin) = Some (pid, path_of pid stdin)) by (apply decode_request; lia).
    assert (E' : Some (St (q1 ++ q2) (clients s) (SSend pid (reply fs pid stdin))) = Some s').
    { rewrite <- E. unfold reply. destruct (request pid stdin); [done|]. by rewrite Hd. }
    clear E. injection E' as <-.
    apply sm_serv; try done.
    + by apply Forall_app.
    + rewrite Eq in Hr. by eapply within_sub.
    + split; [|by exists i, stdin]. rewrite Hbody. by destruct body.
    + intros j pj lj c Hj Hcj Hok.
      assert (Ec : cnt (asks pj) (queue s) = b2z (pid =? pj) + cnt (asks pj) (q1 ++ q2)).
      { rewrite Eq, !cnt_app, cnt_cons, (asks_request _ _ _ _ Hi). lia. }
      destruct (person _ _ _ Hj) as [Hpj _].
      assert (Ef : flow pj (St (q1 ++ q2) (clients s) (SSend pid (reply fs pid stdin))) = flow pj s ++ (if decide (pid = pj) then reply fs pid stdin else [])).
      { unfold flow. cbn [queue serv]. rewrite Es, Eq, !queued_app, queued_cons, decide_False by lia. cbn. by rewrite app_nil_r. }
      pose proof (cnt_nonneg (asks pj) (q1 ++ q2)). unfold c_ok in *. rewrite Ef. cbn [queue]. rewrite Ec in Hok.
      destruct (decide (pid = pj)) as [->|Hne].
      * assert (i = j) as <- by (by eapply person_inj). rewrite Hi in Hj. injection Hj as <-. rewrite Z.eqb_refl in *. cbn [b2z] in *.
        destruct (c_at c); [lia| |lia]. destruct Hok as [(Hz & -> & ->)|[Hz _]]; [|lia]. right. rewrite Hbody. cbn.
        split; [lia|]. split; [by destruct body|done].
      * rewrite (proj2 (Z.eqb_neq _ _)) in * by done. cbn [b2z] in *. by rewrite app_nil_r.
  - by destruct Hv.
  - destruct (person _ _ _ Hi) as [Hp _]. destruct (pid >? 0) eqn:Epos; [|bprop; lia].
    destruct (msgsnd _ _ _) as [q'|] eqn:Em; [|done]. cbn in E. injection E as <-. apply within_snd in Em as [-> Hwi]. apply sm_serv; try done.
    + apply Forall_app. split; [done|]. apply Forall_singleton. exists i, pid, stdin. split; [done|by right].
    + destruct l; [done|]. split; [done|by exists i, stdin].
    + intros j pj lj c Hj Hcj Hok. eapply c_ok_ext; [| |exact Hok].
      * cbn. rewrite cnt_app, cnt_one, asks_reply by lia. cbn. lia.
      * unfold flow. cbn [queue serv]. rewrite Es, queued_app, queued_one, <- app_assoc. f_equal. cbn [to_send].
        case_decide as Hd; (destruct l; cbn; [done|]); [by rewrite decide_True|by rewrite decide_False].
Qed.

(** ** Who can go on *)

Definition all_done (s : state) : Prop := Forall (fun c => c_at c = CDone) (clients s) /\ serv s = SRecv /\ queue s = [].
Definition stuck (s : state) : Prop := forall s', ~ step fs qbytes people s s'.

Lemma queued_in t d q : (t, d) ∈ q -> queued t q <> [].
Proof.
  intros Hin E. apply list_elem_of_split in Hin as (q1 & q2 & ->). rewrite queued_app, queued_cons, decide_True in E by done.
  by apply app_nil in E as [_ E].
Qed.

(** A client that waits for its answer, and gets none. *)
Lemma mpx_waits i pid stdin c s : inv fs qbytes people s -> people !! i = Some (pid, stdin) -> clients s !! i = Some c ->
  client_step qbytes people i s = None ->
  c_at c = CDone \/ (c_at c = CSend /\ fits qbytes (1, request pid stdin) (queue s) = false) \/ (c_at c = CRecv /\ queued pid (queue s) = []).
Proof.
  intros I Hi Hc E. unfold client_step in E. rewrite Hi in E. cbn in E. rewrite Hc in E. cbn in E.
  destruct (c_at c); [right; left|right; right|by left].
  - unfold msgsnd in E. by destruct (fits _ _ _).
  - destruct (msgrcv pid (queue s)) as [[d q]|] eqn:Er; [done|]. split; [done|by apply msgrcv_none].
Qed.

(** Every message in the queue is a request, or its client can take it. *)
Lemma only_requests s : inv fs qbytes people s -> (forall i, client_step qbytes people i s = None) ->
  Forall (fun m => exists i pid stdin, people !! i = Some (pid, stdin) /\ m = (1, request pid stdin)) (queue s).
Proof.
  intros I Hc. apply Forall_forall. intros [t d] Hin.
  destruct (proj1 (Forall_forall _ _) (i_queue _ _ _ _ I) _ Hin) as (i & pid & stdin & Hi & [->|Ht]); [by exists i, pid, stdin|].
  exfalso. cbn in Ht. subst t. destruct (lookup_lt_is_Some_2 (clients s) i) as [c Hci]; [rewrite (i_len _ _ _ _ I); by eapply lookup_lt_Some|].
  pose proof (queued_in _ _ _ Hin) as Hne. pose proof (i_clients _ _ _ _ I _ _ _ _ Hi Hci) as Ho. unfold c_ok, flow in Ho.
  destruct (mpx_waits _ _ _ _ _ I Hi Hci (Hc i)) as [E|[[E _]|[_ E]]]; [rewrite E in Ho| rewrite E in Ho|done].
  - destruct Ho as (_ & Hf & _). by apply app_nil in Hf as [Hf _].
  - destruct Ho as (_ & Hf & _). by apply app_nil in Hf as [Hf _].
Qed.

(** The requests in the queue, by client. *)
Lemma crowd_list q : Forall (fun m => exists i pid stdin, people !! i = Some (pid, stdin) /\ m = (1, request pid stdin)) q ->
  (forall j p l, people !! j = Some (p, l) -> cnt (asks p) q <= 1) ->
  exists js, NoDup js /\ q = map (request_at people) js /\
    Forall (fun j => (j < length people)%nat /\ forall p l, people !! j = Some (p, l) -> 0 < cnt (asks p) q) js.
Proof.
  induction 1 as [|m q (i & pid & stdin & Hi & ->) _ IH]; intros Hone; [exists []; split_and!; try done; apply NoDup_nil_2|].
  assert (Hc : forall j p l, people !! j = Some (p, l) -> cnt (asks p) ((1, request pid stdin) :: q) = b2z (pid =? p) + cnt (asks p) q).
  { intros j p l Hj. rewrite cnt_cons. by rewrite (asks_request _ _ _ _ Hi). }
  destruct IH as (js & Hd & -> & Hj).
  { intros j p l Hj. specialize (Hone j p l Hj). rewrite (Hc j p l Hj) in Hone. destruct (pid =? p); cbn in Hone; lia. }
  exists (i :: js). split_and!.
  - apply NoDup_cons. split; [|done]. intros Hin. pose proof (proj1 (Forall_forall _ _) Hj i Hin) as [_ Hp]. specialize (Hp pid stdin Hi).
    specialize (Hone i pid stdin Hi). rewrite (Hc i pid stdin Hi), Z.eqb_refl in Hone. cbn in Hone. lia.
  - cbn. unfold request_at at 2. by rewrite Hi.
  - constructor.
    + split; [by eapply lookup_lt_Some|]. intros p l Hp. rewrite (Hc i p l Hp). rewrite Hi in Hp. injection Hp as -> ->. rewrite Z.eqb_refl.
      pose proof (cnt_nonneg (asks p) (map (request_at people) js)). cbn. lia.
    + eapply Forall_impl; [exact Hj|]. intros j [Hl Hp]. split; [done|]. intros p l Hjp. rewrite (Hc j p l Hjp). specialize (Hp p l Hjp).
      destruct (pid =? p); cbn; lia.
Qed.

Lemma mpx_step_or_stuck s : (exists s', step fs qbytes people s s') \/
  (server_step fs qbytes s = None /\ forall i, client_step qbytes people i s = None).
Proof.
  destruct (server_step fs qbytes s) as [s'|] eqn:Es; [left; exists s'; by left|].
  destruct (decide (Exists (fun i => is_Some (client_step qbytes people i s)) (seq 0 (length people)))) as [E|E].
  { left. apply Exists_exists in E as (i & _ & [s' Hs]). exists s'. right. by exists i. }
  right. split; [done|]. intros i. destruct (client_step qbytes people i s) eqn:Ec; [|done]. destruct E. apply Exists_exists. exists i.
  split; [|by eexists]. apply elem_of_seq. unfold client_step in Ec. destruct (people !! i) eqn:Hi; [|done]. apply lookup_lt_Some in Hi. lia.
Qed.

(** The client the server answers: its request has been taken, and the answer has the
    messages the server still has to send. *)
Lemma mpx_answered s i pid stdin l : inv fs qbytes people s -> people !! i = Some (pid, stdin) -> serv s = SSend pid l -> l <> [] ->
  cnt (asks pid) (queue s) = 0 /\ forall m, m ∈ l -> m ∈ reply fs pid stdin.
Proof.
  intros I Hi Ev Hl. destruct (lookup_lt_is_Some_2 (clients s) i) as [c Hci]; [rewrite (i_len _ _ _ _ I); by eapply lookup_lt_Some|].
  pose proof (i_clients _ _ _ _ I _ _ _ _ Hi Hci) as Ho. unfold c_ok, flow in Ho. rewrite Ev in Ho. cbn in Ho. rewrite decide_True in Ho by done.
  assert (Hf : queued pid (queue s) ++ l <> []) by (intros E; by apply app_nil in E as [_ ->]).
  destruct (c_at c); destruct_or?; destruct_and?; try done. split; [done|]. intros m Hm.
  match goal with E : _ ++ _ = reply _ _ _ |- _ => rewrite <- E end. rewrite !elem_of_app. auto.
Qed.

Lemma sm_progress s : inv fs qbytes people s -> ~ jam fs qbytes people -> (exists s', step fs qbytes people s s') \/ all_done s.
Proof.
  intros I Hj. destruct (mpx_step_or_stuck s) as [?|[Es Hc]]; [by left|right].
  pose proof (only_requests s I Hc) as Hq. pose proof (i_serv _ _ _ _ I) as Hv.
  unfold server_step in Es. destruct (serv s) as [|pid [|m l]|] eqn:Ev; [|done| |done].
  - (* the server waits: no requests *)
    destruct (msgrcv 1 (queue s)) as [[d q]|] eqn:Er.
    { cbn in Es. exfalso. destruct d; [done|]. by destruct (decode _) as [[]|]. }
    apply msgrcv_none in Er. assert (Hnil : queue s = []).
    { destruct (queue s) as [|m q]; [done|]. apply Forall_cons in Hq as [(i & pid & stdin & _ & ->) _]. by rewrite queued_cons, decide_True in Er. }
    split; [|done]. apply Forall_lookup_2. intros i c Hci.
    destruct (lookup_lt_is_Some_2 people i) as [[pid stdin] Hi]; [rewrite <- (i_len _ _ _ _ I); by eapply lookup_lt_Some|].
    destruct (mpx_waits _ _ _ _ _ I Hi Hci (Hc i)) as [?|[[E Hl]|[E _]]]; [done| |].
    + destruct Hj. exists i, pid, stdin. split; [done|]. left. by rewrite Hnil in Hl.
    + exfalso. pose proof (i_clients _ _ _ _ I _ _ _ _ Hi Hci) as Ho. unfold c_ok, flow in Ho. rewrite E, Hnil, Ev in Ho. cbn in Ho.
      destruct Ho as [[Hz _]|(_ & Hz & _)]; [by rewrite cnt_nil in Hz|done].
  - (* the server has a message for a client: it does not fit behind the requests *)
    destruct Hv as [_ (i & stdin & Hi)]. destruct (person _ _ _ Hi) as [Hp _]. destruct (pid >? 0) eqn:Epos; [|bprop; lia].
    unfold msgsnd in Es. destruct (fits _ _ _) eqn:Hfit; [done|]. destruct Hj. exists i, pid, stdin. split; [done|]. right.
    destruct (mpx_answered s i pid stdin _ I Hi Ev) as [Hz Hm]; [done|]. exists m, (queue s). split; [apply Hm; left|]. split; [|done].
    destruct (crowd_list (queue s) Hq) as (js & Hd & E & Hjs).
    { intros j p l' Hj. destruct (lookup_lt_is_Some_2 (clients s) j) as [c Hcj]; [rewrite (i_len _ _ _ _ I); by eapply lookup_lt_Some|].
      pose proof (i_clients _ _ _ _ I _ _ _ _ Hj Hcj) as Ho. unfold c_ok in Ho. destruct (c_at c); destruct_or?; destruct_and?; lia. }
    exists js. split; [done|]. split; [|split; [done|apply (i_room _ _ _ _ I)]]. eapply Forall_impl; [exact Hjs|].
    intros j [Hl Hp']. split; [|done]. intros ->. specialize (Hp' pid stdin Hi). lia.
Qed.

(** ** The number of steps *)

(** What is left of a client's exchange before it has sent its request; a message that
    the server still has to send; a request, a reply in the queue. *)
Definition c_left (x : (Z * list Z) * client) : Z :=
  let '((pid, stdin), c) := x in
  match c_at c with CSend => 2 + 2 * Z.of_nat (length (reply fs pid stdin)) | _ => 0 end.
Definition m_left (m : qmsg) : Z :=
  1 + (if fst m =? 1 then match decode (snd m) with Some (_, path) => 2 * Z.of_nat (length (answer fs (length (snd m)) path)) | None => 0 end else 0).
Definition left_over (s : state) : Z :=
  sumz c_left (zip people (clients s)) + sumz m_left (queue s) +
  match serv s with SSend _ l => 2 * Z.of_nat (length l) | _ => 0 end.

(** All messages of the clients' exchanges. *)
Definition total : Z := sumz (fun '(pid, stdin) => 2 + 2 * Z.of_nat (length (reply fs pid stdin))) people.

Lemma left_main : left_over (main people) = total.
Proof.
  unfold left_over, total, main. cbn. unfold sumz at 2. cbn. rewrite !Z.add_0_r. clear. induction people as [|[p l] ps IH]; [done|].
  cbn. rewrite !sumz_cons, IH. done.
Qed.

Lemma m_left_request i pid stdin : people !! i = Some (pid, stdin) ->
  m_left (1, request pid stdin) = 1 + 2 * Z.of_nat (length (reply fs pid stdin)).
Proof. intros Hi. destruct (person _ _ _ Hi) as [Hp _]. unfold m_left, reply. cbn. by rewrite decode_request by lia. Qed.

Lemma m_left_reply t d : t <> 1 -> m_left (t, d) = 1.
Proof. intros Ht. unfold m_left. cbn. by rewrite (proj2 (Z.eqb_neq _ _)). Qed.

Lemma left_step s s' : inv fs qbytes people s -> step fs qbytes people s s' -> left_over s' = left_over s - 1.
Proof.
  intros I [E|[i E]].
  - unfold server_step in E. pose proof (i_queue _ _ _ _ I) as Hq. pose proof (i_serv _ _ _ _ I) as Hv. unfold left_over.
    destruct (serv s) as [|pid [|m l]|] eqn:Es; [|by destruct Hv| |done].
    + destruct (msgrcv 1 (queue s)) as [[d q]|] eqn:Er; [|done]. cbn in E. apply msgrcv_some in Er as (q1 & q2 & Eq & -> & _).
      rewrite Eq in Hq. apply Forall_app in Hq as [_ Hq]. apply Forall_cons in Hq as [(i & pid & stdin & Hi & Hm) _].
      destruct (person _ _ _ Hi) as [Hp _]. destruct Hm as [Hm|Hm]; [|cbn in Hm; lia]. injection Hm as ->.
      assert (E' : Some (St (q1 ++ q2) (clients s) (SSend pid (reply fs pid stdin))) = Some s').
      { rewrite <- E. unfold reply. assert (Hd := decode_request pid stdin ltac:(lia)). destruct (request pid stdin); [done|]. by rewrite Hd. }
      clear E. injection E' as <-. cbn [clients queue serv]. rewrite Eq, !sumz_app, sumz_cons, (m_left_request i) by done. lia.
    + destruct Hv as [_ (i & stdin & Hi)]. destruct (person _ _ _ Hi) as [Hp _]. destruct (pid >? 0) eqn:?; [|bprop; lia].
      destruct (msgsnd _ _ _) as [q'|] eqn:Em; [|done]. cbn in E. injection E as <-. apply within_snd in Em as [-> _]. cbn [clients queue serv].
      rewrite sumz_app, sumz_cons, m_left_reply by lia. unfold sumz at 3. cbn [foldr]. destruct l; cbn [length]; lia.
  - unfold client_step in E. destruct (people !! i) as [[pid stdin]|] eqn:Hi; [|done]. cbn in E.
    destruct (clients s !! i) as [c|] eqn:Hc; [|done]. cbn in E. destruct (person _ _ _ Hi) as [Hp _].
    assert (Hz : zip people (clients s) !! i = Some ((pid, stdin), c)) by (by rewrite lookup_zip_with, Hi, Hc).
    assert (Hins : forall c', sumz c_left (zip people (<[i := c']> (clients s))) = sumz c_left (zip people (clients s)) - c_left ((pid, stdin), c) + c_left ((pid, stdin), c')).
    { intros c'. rewrite <- (sumz_insert c_left _ _ _ _ Hz). f_equal. rewrite (insert_zip_with pair people). by rewrite (list_insert_id people). }
    unfold left_over. destruct c as [p got]. cbn in E. destruct p; [| |done].
    + destruct (msgsnd _ _ _) as [q'|] eqn:Em; [|done]. cbn in E. injection E as <-. apply within_snd in Em as [-> _]. cbn [clients queue serv]. rewrite Hins.
      rewrite sumz_app, sumz_cons, (m_left_request i) by done. unfold sumz at 3, c_left at 2 3. cbn [foldr c_at]. lia.
    + destruct (msgrcv pid (queue s)) as [[d q]|] eqn:Er; [|done]. cbn in E. apply msgrcv_some in Er as (q1 & q2 & Eq & -> & _).
      injection E as <-. cbn [clients queue serv]. rewrite Hins, Eq, !sumz_app, sumz_cons, m_left_reply by lia.
      unfold c_left at 2 3. cbn [c_at]. destruct d; lia.
Qed.

Lemma sm_step s s' : inv fs qbytes people s -> step fs qbytes people s s' -> inv fs qbytes people s'.
Proof. intros I [E|[i E]]; [by eapply sm_server|by eapply sm_client]. Qed.

Lemma sm_run n s s' : nsteps (step fs qbytes people) n s s' -> inv fs qbytes people s ->
  inv fs qbytes people s' /\ left_over s' + Z.of_nat n = left_over s.
Proof.
  induction 1 as [|n x y z Hxy _ IH]; intros I; [split; [done|lia]|].
  destruct (IH (sm_step _ _ I Hxy)) as [I' W]. pose proof (left_step _ _ I Hxy). split; [done|lia].
Qed.

Lemma mpx_left_nonneg s : 0 <= left_over s.
Proof.
  unfold left_over. assert (0 <= sumz c_left (zip people (clients s))).
  { apply sumz_nonneg. intros j [[p l] c] _. unfold c_left. destruct (c_at c); lia. }
  assert (0 <= sumz m_left (queue s)).
  { apply sumz_nonneg. intros j [t d] _. unfold m_left. destruct (fst (t, d) =? 1); [|lia]. destruct (decode _) as [[]|]; lia. }
  destruct (serv s); lia.
Qed.

Lemma left_done s : all_done s -> left_over s = 0.
Proof.
  intros (Hc & Hv & Hq). unfold left_over. rewrite Hv, Hq, sumz_zero; [done|]. intros j [[p l] c] Hj. rewrite lookup_zip_with in Hj.
  destruct (people !! j), (clients s !! j) as [c'|] eqn:Ec; simplify_eq/=. unfold c_left. by rewrite (Forall_lookup_1 _ _ _ _ Hc Ec).
Qed.

(** ** A queue that is too small *)

Lemma sm_inv_rtc s s' : rtc (step fs qbytes people) s s' -> inv fs qbytes people s -> inv fs qbytes people s'.
Proof. induction 1 as [|x y z Hxy _ IH]; intros I; [done|]. by eapply IH, sm_step. Qed.

(** Every run can be continued until nobody can go on. *)
Lemma until_stuck s : inv fs qbytes people s -> exists d, rtc (step fs qbytes people) s d /\ stuck d.
Proof.
  remember (Z.to_nat (left_over s)) as n eqn:En. revert s En. induction n as [n IH] using lt_wf_ind. intros s -> I.
  destruct (mpx_step_or_stuck s) as [[s1 H1]|[Es Hc]].
  - pose proof (left_step _ _ I H1). pose proof (mpx_left_nonneg s1). destruct (IH (Z.to_nat (left_over s1)) ltac:(lia) s1 eq_refl (sm_step _ _ I H1)) as (d & Hd & Hst). exists d. split; [by eapply rtc_l|done].
  - exists s. split; [apply rtc_refl|]. intros s' [E|[i E]]; [congruence|]. by rewrite Hc in E.
Qed.

(** A state in which somebody waits for ever. *)
Lemma trapped (P : state -> Prop) s : (forall x y, inv fs qbytes people x -> P x -> step fs qbytes people x y -> P y) -> (forall x, P x -> ~ all_done x) ->
  rtc (step fs qbytes people) (main people) s -> P s ->
  exists d, rtc (step fs qbytes people) (main people) d /\ stuck d /\ ~ all_done d.
Proof.
  intros Hstep Hno Hs HPs. pose proof (sm_inv_rtc _ _ Hs sm_main) as I. destruct (until_stuck s I) as (d & Hd & Hst).
  exists d. split; [by etransitivity|]. split; [done|]. apply Hno. clear Hst Hs. induction Hd as [|x y z Hxy _ IH]; [done|].
  apply IH; [by eapply Hstep|by eapply sm_step].
Qed.

Lemma fits_app m q q' : fits qbytes m (q ++ q') = true -> fits qbytes m q = true.
Proof.
  unfold fits. rewrite !andb_true_iff, !Z.leb_le, bytes_app, length_app. pose proof (bytes_nonneg q'). lia.
Qed.

Lemma fits_within m q q' : within qbytes (q ++ m :: q') -> fits qbytes m q = true.
Proof.
  unfold within, fits. rewrite andb_true_iff, !Z.leb_le, bytes_app, bytes_cons, length_app. pose proof (bytes_nonneg q'). cbn. lia.
Qed.

Lemma client_send i pid stdin s : people !! i = Some (pid, stdin) -> clients s !! i = Some (Client CSend []) ->
  fits qbytes (1, request pid stdin) (queue s) = true ->
  step fs qbytes people s (St (queue s ++ [(1, request pid stdin)]) (<[i := Client CRecv []]> (clients s)) (serv s)).
Proof. intros Hi Hc Hf. right. exists i. unfold client_step, msgsnd. rewrite Hi. cbn. rewrite Hc. cbn. by rewrite Hf. Qed.

(** Clients that have not sent their requests do so, as far as these fit. *)
Lemma crowd_comes js : forall s, NoDup js -> Forall (fun j => (j < length people)%nat /\ clients s !! j = Some (Client CSend [])) js ->
  within qbytes (queue s ++ map (request_at people) js) ->
  exists s', rtc (step fs qbytes people) s s' /\ queue s' = queue s ++ map (request_at people) js /\ serv s' = serv s.
Proof.
  induction js as [|j js IH]; intros s Hd Hj Hw; [exists s; rewrite app_nil_r; split; [apply rtc_refl|done]|].
  apply NoDup_cons in Hd as [Hn Hd]. apply Forall_cons in Hj as [[Hl Hc] Hj]. cbn [map] in *.
  destruct (lookup_lt_is_Some_2 people j Hl) as [[pid stdin] Hp].
  assert (Er : request_at people j = (1, request pid stdin)) by (unfold request_at; by rewrite Hp). rewrite Er in *.
  pose proof (client_send j pid stdin s Hp Hc (fits_within _ _ _ Hw)) as H1.
  destruct (IH (St (queue s ++ [(1, request pid stdin)]) (<[j := Client CRecv []]> (clients s)) (serv s)) Hd) as (s' & Hs' & Hq & Hv).
  - apply Forall_forall. intros k Hk. destruct (proj1 (Forall_forall _ _) Hj k Hk) as [Hkl Hkc]. split; [done|].
    cbn. rewrite list_lookup_insert_ne; [done|]. by intros ->.
  - cbn. by rewrite <- app_assoc.
  - exists s'. split; [by eapply rtc_l|]. split; [|done]. rewrite Hq. cbn. by rewrite <- app_assoc.
Qed.

(** The server and the client [i] alone, until the message [m] is the next. *)
Lemma serve_until i pid stdin m l pre : forall got, people !! i = Some (pid, stdin) -> Forall (fun d => d <> []) pre ->
  let at_ got m' l' := St [] (<[i := Client CRecv got]> (replicate (length people) (Client CSend []))) (SSend pid (m' :: l')) in
  forall s, s = St [] (<[i := Client CRecv got]> (replicate (length people) (Client CSend []))) (SSend pid (pre ++ m :: l)) ->
  exists got' m' l', rtc (step fs qbytes people) s (at_ got' m' l') /\ (m' = m \/ fits qbytes (pid, m') [] = false).
Proof.
  intros got Hi Hpre at_. revert got. induction Hpre as [|x pre Hx _ IH]; intros got s ->.
  { exists got, m, l. split; [apply rtc_refl|by left]. }
  destruct (fits qbytes (pid, x) []) eqn:Hf.
  2: { exists got, x, (pre ++ m :: l). split; [apply rtc_refl|by right]. }
  destruct (person _ _ _ Hi) as [Hp _]. pose proof (lookup_lt_Some _ _ _ Hi) as Hl.
  edestruct (IH (got ++ [x])) as (g & m' & l' & Hr & Hm); [reflexivity|]. exists g, m', l'. split; [|done].
  eapply rtc_l; [left|eapply rtc_l; [right; exists i|exact Hr]].
  - unfold server_step. cbn. rewrite (proj2 (Z.gtb_lt _ _)) by lia. unfold msgsnd. rewrite Hf. cbn.
    replace (match pre ++ m :: l with [] => SRecv | _ => SSend pid (pre ++ m :: l) end) with (SSend pid (pre ++ m :: l)) by (by destruct pre).
    reflexivity.
  - unfold client_step. rewrite Hi. cbn. rewrite list_lookup_insert_eq by (by rewrite length_replicate). cbn. rewrite Z.eqb_refl. cbn.
    rewrite list_insert_insert_eq. by destruct x.
Qed.

Lemma msgrcv_other t q : Forall (fun m => fst m = 1) q -> t <> 1 -> msgrcv t q = None.
Proof.
  intros Hq Ht. induction Hq as [|[t' d] q Hm _ IH]; [done|]. cbn in *. rewrite (proj2 (Z.eqb_neq _ _)) by congruence. by rewrite IH.
Qed.

(** The server waits with a message that does not fit behind the requests, or a client
    with a request that does not fit in the empty queue. *)
Definition server_waits (s : state) : Prop :=
  exists pid m l, serv s = SSend pid (m :: l) /\ Forall (fun x => fst x = 1) (queue s) /\ fits qbytes (pid, m) (queue s) = false.
Definition client_waits (i : nat) (s : state) : Prop := exists got, clients s !! i = Some (Client CSend got).

Lemma server_waits_step x y : inv fs qbytes people x -> server_waits x -> step fs qbytes people x y -> server_waits y.
Proof.
  intros I (pid & m & l & Hv & Hq & Hf) [E|[i E]].
  - exfalso. pose proof (i_serv _ _ _ _ I) as Hs. unfold server_step in E. rewrite Hv in E, Hs. destruct Hs as [_ (i & stdin & Hi)].
    destruct (person _ _ _ Hi) as [Hp _]. destruct (pid >? 0) eqn:?; [|bprop; lia]. unfold msgsnd in E. by rewrite Hf in E.
  - unfold client_step in E. destruct (people !! i) as [[p w]|] eqn:Hi; [|done]. cbn in E. destruct (person _ _ _ Hi) as [Hp _].
    destruct (clients x !! i) as [c|]; [|done]. cbn in E. destruct (c_at c); [| |done].
    + destruct (msgsnd _ _ _) as [q|] eqn:Em; [|done]. cbn in E. injection E as <-. apply within_snd in Em as [-> _].
      exists pid, m, l. cbn. split; [done|]. split; [by apply Forall_app; split; [|apply Forall_singleton]|].
      destruct (fits qbytes (pid, m) (queue x ++ _)) eqn:F; [|done]. apply fits_app in F. congruence.
    + rewrite msgrcv_other in E; [done|done|lia].
Qed.

Lemma client_waits_step i pid stdin x y : people !! i = Some (pid, stdin) -> fits qbytes (1, request pid stdin) [] = false ->
  client_waits i x -> step fs qbytes people x y -> client_waits i y.
Proof.
  intros Hi Hf [got Hc] [E|[j E]].
  - exists got. unfold server_step in E. destruct (serv x) as [|p [|m l]|]; [|by injection E as <-| |done].
    + destruct (msgrcv 1 (queue x)) as [[[|z d] q]|]; cbn in E; [by injection E as <-| |done].
      destruct (decode (z :: d)) as [[]|]; by injection E as <-.
    + destruct (p >? 0); [destruct (msgsnd _ _ _); [|done]|]; by injection E as <-.
  - exists got. unfold client_step in E. destruct (people !! j) as [[p w]|] eqn:Hj; [|done]. cbn in E.
    destruct (clients x !! j) as [c|] eqn:Hcj; [|done]. cbn in E. destruct (decide (j = i)) as [->|Hne].
    + rewrite Hi in Hj. injection Hj as <- <-. rewrite Hc in Hcj. injection Hcj as <-. cbn in E. unfold msgsnd in E.
      destruct (fits _ _ (queue x)) eqn:F; [|done]. apply (fits_app _ [] (queue x)) in F. congruence.
    + destruct (c_at c); [destruct (msgsnd _ _ _); [|done]|destruct (msgrcv _ _) as [[]|]; [|done]|done];
        cbn in E; injection E as <-; cbn; by rewrite list_lookup_insert_ne.
Qed.

Lemma jammed : jam fs qbytes people -> exists d, rtc (step fs qbytes people) (main people) d /\ stuck d /\ ~ all_done d.
Proof.
  intros (i & pid & stdin & Hi & Hj). pose proof (lookup_lt_Some _ _ _ Hi) as Hl. destruct (person _ _ _ Hi) as [Hp (body & Hb & Hw & _)].
  destruct (fits qbytes (1, request pid stdin) []) eqn:Hreq.
  2: { apply (trapped (client_waits i) (main people)); [by intros x y _; apply (client_waits_step i pid stdin)| |apply rtc_refl|].
       - intros x [got Hc] (Hd & _). by pose proof (Forall_lookup_1 _ _ _ _ Hd Hc).
       - exists []. cbn. by rewrite lookup_replicate_2. }
  destruct Hj as [?|(m & q & Hm & (js & Hd & Hjs & -> & Hwi) & Hf)]; [done|].
  apply list_elem_of_split in Hm as (pre & l & Hrep).
  assert (Hpre : Forall (fun d => d <> []) pre).
  { rewrite Hb in Hrep. destruct l as [|z l _] using rev_ind; [apply app_inj_tail in Hrep as [E _]; by rewrite <- E|].
    rewrite app_comm_cons, app_assoc in Hrep. apply app_inj_tail in Hrep as [-> _]. by apply Forall_app in Hw as [Hw _]. }
  edestruct (serve_until i pid stdin m l pre [] Hi Hpre) as (got & m' & l' & Hrun & Hm'); [reflexivity|].
  set (s1 := St [] _ (SSend pid (m' :: l'))) in Hrun.
  destruct (crowd_comes js s1 Hd) as (s2 & Hs2 & Hq & Hv).
  { eapply Forall_impl; [exact Hjs|]. intros j [Hne Hjl]. split; [done|]. cbn. rewrite list_lookup_insert_ne by done. by rewrite lookup_replicate_2. }
  { done. }
  apply (trapped server_waits s2); [by apply server_waits_step| | |].
  - intros x (p & m0 & l0 & E & _) (_ & E' & _). congruence.
  - etransitivity; [|exact Hs2]. etransitivity; [|exact Hrun]. eapply rtc_l; [apply (client_send i pid stdin); try done; cbn; by rewrite lookup_replicate_2|].
    apply rtc_once. left. unfold server_step. cbn. assert (Hdec := decode_request pid stdin ltac:(lia)).
    unfold reply in Hrep. rewrite <- Hrep. destruct (request pid stdin); [done|]. by rewrite Hdec.
  - exists pid, m', l'. split; [by rewrite Hv|]. rewrite Hq. cbn [queue]. rewrite app_nil_l. split.
    + apply Forall_map, Forall_forall. intros j _. unfold request_at. by destruct (people !! j) as [[]|].
    + destruct Hm' as [->|Hf0]; [done|]. apply not_true_iff_false. intros F. apply (fits_app _ []) in F. congruence.
Qed.

(** *** A queue that is large enough *)

Lemma length_c_string l : (length (c_string l) <= length l)%nat.
Proof. induction l as [|c l IH]; [done|]. cbn. destruct (c =? 0); cbn; lia. Qed.

Lemma length_line_of n d l : RobustIO.line_of n d = Some l -> (length l <= n)%nat.
Proof.
  revert d l. induction n as [|n IH]; intros d l E; [done|]. destruct d as [|c d]; [done|]. cbn in E.
  destruct (c =? RobustIO.newline); [injection E as <-; cbn; lia|].
  destruct (RobustIO.line_of n d) as [l'|] eqn:El; [|done]. injection E as <-. apply IH in El. cbn. lia.
Qed.

Lemma length_fgets size d l : fgets size d = Some l -> (length l <= size - 1)%nat.
Proof.
  unfold fgets. destruct d as [|c d]; [done|]. intros [= <-].
  destruct (RobustIO.line_of (size - 1) (c :: d)) as [l|] eqn:E; cbn [default from_option id]; [by apply length_line_of in E|].
  rewrite length_take. lia.
Qed.

Lemma length_lines fuel content : Forall (fun l => (length l <= 4079)%nat) (lines fuel content).
Proof.
  revert content. induction fuel as [|fuel IH]; intros content; [done|]. cbn [lines].
  destruct (fgets MAXMESGDATA content) as [l|] eqn:E; [|done]. apply length_fgets in E. constructor; [|done].
  pose proof (length_c_string l). unfold MAXMESGDATA in E. lia.
Qed.

Lemma length_chomp t : (length (chomp t) <= length t)%nat.
Proof.
  unfold chomp. destruct (reverse t) as [|c l] eqn:E; [done|]. case_match; [|done].
  rewrite <- (reverse_involutive t), E, reverse_cons, length_app. lia.
Qed.

Lemma length_reply i pid stdin m : people !! i = Some (pid, stdin) -> m ∈ reply fs pid stdin -> (length m <= 4079)%nat.
Proof.
  intros Hi Hm. unfold reply, answer in Hm. apply elem_of_app in Hm as [Hm|Hm]; [|apply list_elem_of_singleton in Hm as ->; cbn; lia].
  destruct (fs (path_of pid stdin)) as [content|reason].
  - by apply (proj1 (Forall_forall _ _) (length_lines (length content) content)).
  - apply list_elem_of_singleton in Hm as ->. etransitivity; [apply length_c_string|]. rewrite length_app, length_take.
    set (k := length (request pid stdin)).
    assert (Hk : k = (length (sprintf_d pid ++ [BLANK]) + length (path_of pid stdin))%nat).
    { unfold k, request. by rewrite chomp_app, <- length_app, <- app_assoc. }
    assert (Hpl : (length (path_of pid stdin) <= MAXMESGDATA - length (sprintf_d pid ++ [BLANK]) - 1)%nat).
    { unfold path_of. etransitivity; [apply length_chomp|]. etransitivity; [apply length_c_string|].
      destruct (fgets _ stdin) as [l|] eqn:E; [by apply length_fgets in E|cbn; lia]. }
    unfold MAXMESGDATA in *. lia.
Qed.

Lemma bytes_submseteq q q' : q ⊆+ q' -> bytes q <= bytes q'.
Proof.
  intros (q0 & E)%submseteq_Permutation. pose proof (bytes_nonneg q0). assert (bytes q' = bytes (q ++ q0)); [|rewrite bytes_app in *; lia].
  clear -E. induction E; rewrite ?bytes_cons; lia.
Qed.

Lemma queue_le_bytes q : Forall (fun m => snd m <> []) q -> Z.of_nat (length q) <= bytes q.
Proof. induction 1 as [|[t [|z d]] q Hm _ IH]; [done|done|]. rewrite bytes_cons. cbn [length snd]. lia. Qed.

Lemma request_nonempty j : (j < length people)%nat -> snd (request_at people j) <> [].
Proof.
  intros Hj. unfold request_at. destruct (lookup_lt_is_Some_2 people j Hj) as [[pid stdin] Hi]. rewrite Hi. cbn.
  destruct (person _ _ _ Hi) as [Hp _]. intros E. pose proof (decode_request pid stdin ltac:(lia)) as D. rewrite E in D. done.
Qed.

Lemma enough_room : bytes (map (request_at people) (seq 0 (length people))) + 4079 <= qbytes -> ~ jam fs qbytes people.
Proof.
  intros Hb (i & pid & stdin & Hi & Hj).
  assert (Hsub : forall js, NoDup js -> Forall (fun j => (j < length people)%nat) js ->
    bytes (map (request_at people) js) <= bytes (map (request_at people) (seq 0 (length people))) /\
    Z.of_nat (length js) <= bytes (map (request_at people) js)).
  { intros js Hd Hjs. split.
    - apply bytes_submseteq, fmap_submseteq, NoDup_submseteq; [done|]. intros j Hin. apply elem_of_seq.
      pose proof (proj1 (Forall_forall _ _) Hjs j Hin). cbn in *. lia.
    - rewrite <- (length_map (request_at people)). apply queue_le_bytes, Forall_map. eapply Forall_impl; [exact Hjs|]. apply request_nonempty. }
  assert (Hfit : forall js m, NoDup js -> Forall (fun j => (j < length people)%nat) js -> (length m <= 4079)%nat ->
    fits qbytes (pid, m) (map (request_at people) js) = true).
  { intros js m Hd Hjs Hm. destruct (Hsub js Hd Hjs). unfold fits. cbn [snd]. rewrite length_map, andb_true_iff, !Z.leb_le. lia. }
  destruct Hj as [Hf|(m & q & Hm & (js & Hd & Hjs & -> & _) & Hf)].
  - destruct (Hsub [i]) as [H1 H2]; [apply NoDup_singleton|apply Forall_singleton; by eapply lookup_lt_Some|].
    assert (E : request_at people i = (1, request pid stdin)) by (unfold request_at; by rewrite Hi).
    revert Hf. apply not_false_iff_true. cbn [map] in H1. rewrite E in H1. rewrite bytes_cons in H1. change (bytes []) with 0 in H1. cbn [snd] in H1.
    unfold fits. cbn [snd]. change (bytes []) with 0. cbn [length] in *. rewrite andb_true_iff, !Z.leb_le. lia.
  - rewrite (Hfit js m) in Hf; [done|done| |by eapply length_reply]. eapply Forall_impl; [exact Hjs|]. by intros j [_ ?].
Qed.
End Proofs.

(** C32: clients with different process IDs and files without null bytes, in every
    interleaving.  A client that has ended has received the contents of the file it
    asked for, cut into lines and nothing between them, or its path and the reason of the
    failure, and then the empty message.  A run has at most two steps for each message
    (and exactly these when all is done).  Somebody can go on until all clients have
    been served, unless the queue can jam: some message of an answer does not fit in
    msg_qbytes behind requests of other clients that do, or a request does not fit in
    the empty queue; and then all of them and the server can wait for one another for
    ever.  The queue cannot jam when all requests and a message of 4079 bytes fit
    in it together. *)
Theorem one_queue fs qbytes people n s :
  0 <= qbytes -> people_ok fs people -> nsteps (step fs qbytes people) n (main people) s ->
  (forall i pid stdin c, people !! i = Some (pid, stdin) -> clients s !! i = Some c -> c_at c = CDone ->
     exists body, received c = body ++ [[]] /\ wanted fs pid stdin body) /\
  Z.of_nat n <= total fs people /\
  (~ jam fs qbytes people -> (exists s', step fs qbytes people s s') \/ (all_done s /\ Z.of_nat n = total fs people)) /\
  (jam fs qbytes people -> exists d, rtc (step fs qbytes people) (main people) d /\ stuck fs qbytes people d /\ ~ all_done d) /\
  (bytes (map (request_at people) (seq 0 (length people))) + 4079 <= qbytes -> ~ jam fs qbytes people).
Proof.
  intros Hqb HP Hrun. destruct (sm_run fs qbytes people HP n _ s Hrun) as [I W]; [by apply sm_main|]. rewrite left_main in W.
  pose proof (mpx_left_nonneg fs people s). split_and!; [|lia| |by apply jammed|by apply enough_room].
  - intros i pid stdin c Hi Hc Hd. destruct (person fs people HP _ _ _ Hi) as [_ (body & Hb & Hw)]. exists body. split; [|done].
    pose proof (i_clients _ _ _ _ I _ _ _ _ Hi Hc) as Ho. unfold c_ok in Ho. rewrite Hd in Ho. by destruct Ho as (_ & _ & ->).
  - intros Hj. destruct (sm_progress fs qbytes people HP s I Hj) as [?|Hd]; [by left|right]. split; [done|].
    pose proof (left_done fs people s Hd). lia.
Qed.

(** One file, and two clients of which the second asks for another. *)
Definition ex_fs (content : list Z) : files := fun path => if decide (path = cstr "a") then inl content else inr (cstr "No such file").
Definition ex_people : list (Z * list Z) := [(2, cstr "a" ++ [10]); (3, cstr "b" ++ [10])].

(** A run in the order of [turns]; [None] is the server. *)
Definition run_mpx (content : list Z) (turns : list (option nat)) : option state :=
  foldl (fun s t => s ≫= fun s => match t with Some i => client_step 16384 ex_people i s | None => server_step (ex_fs content) 16384 s end)
    (Some (main ex_people)) turns.

Definition ex_turns : list (option nat) := [Some 0; None; None; None; Some 0; Some 0]%nat.

Lemma one_queue_witness :
  exists s, nsteps (step (ex_fs (cstr "xy")) 16384 ex_people) 1 (main ex_people) s /\ 1 <= total (ex_fs (cstr "xy")) ex_people.
Proof.
  assert (Hrun : exists s, nsteps (step (ex_fs (cstr "xy")) 16384 ex_people) 1 (main ex_people) s).
  { eexists. apply nsteps_once. right. exists 1%nat. vm_compute. reflexivity. }
  destruct Hrun as [s Hs]. exists s. split; [exact Hs|].
  refine (proj1 (proj2 (one_queue _ 16384 ex_people 1 s _ _ Hs))); [done|]. split; [by vm_compute; repeat constructor; set_solver|].
  apply Forall_cons; split; [split; [lia|]|apply Forall_cons; split; [split; [lia|]|apply Forall_nil_2]];
    intros content E; vm_compute in E; [|done]. injection E as <-. repeat constructor; done.
Defined.

Example mpx_served : (fun s => (map received (clients s), queue s)) <$> run_mpx (cstr "xy") ex_turns = Some ([[cstr "xy"; []]; []], []).
Proof. vm_compute. reflexivity. Qed.

(** A line that starts with a null byte ends the client; the rest stays in the queue. *)
Example mpx_null : let turns := [Some 0; None; None; None; None; None; Some 0; Some 0]%nat in
  (fun s => (map received (clients s), queue s)) <$> run_mpx [65; 10; 0; 10; 66; 10] turns =
    Some ([[[65; 10]; []]; []], [(2, [66; 10]); (2, [])]).
Proof. vm_compute. reflexivity. Qed.

(** With 16384 bytes, what a queue has by default on many systems, five clients that ask
    for long paths are enough: four requests of 4079 bytes and the message that the
    fifth path cannot be opened. *)
Definition ex_long (pid : Z) : Z * list Z := (pid, replicate 4077 98 ++ [10]).

Example mpx_jam : jam (ex_fs []) 16384 (map ex_long [2; 3; 4; 5; 6]).
Proof.
  exists 0%nat, 2, (replicate 4077 98 ++ [10]). split; [reflexivity|]. right.
  exists (nth 0 (reply (ex_fs []) 2 (replicate 4077 98 ++ [10])) []), (map (request_at (map ex_long [2; 3; 4; 5; 6])) [1; 2; 3; 4]%nat).
  split; [|split].
  - apply list_elem_of_lookup_2 with 0%nat. vm_compute. reflexivity.
  - exists [1; 2; 3; 4]%nat. split; [apply (bool_decide_unpack _); vm_compute; exact I|]. split; [repeat constructor; lia|].
    split; [reflexivity|]. split; vm_compute; discriminate.
  - vm_compute. reflexivity.
Qed.
