(* ===== verification/MutexBook.v ===== *)
(** * The programs of the chapter on mutexes

    Model of unpv22e/mutex/prodcons1.c to prodcons7.c: producers that fill an array and a
    consumer that checks it.  prodcons1.c has no lock; in prodcons2.c the consumer starts
    when the producers have ended; in prodcons3.c and prodcons4.c it polls; in
    prodcons5.c it waits on a condition variable under the producers' mutex, and in
    prodcons6.c and prodcons7.c under one of its own.  A thread advances by one call on a
    mutex or on the condition variable, or by the accesses to shared variables between two
    of them, at a time; in prodcons1.c by one access. *)

From S2P Require Import Prelude.

(** ** Locks: prodcons2.c to prodcons7.c *)

Inductive variant := P2 | P3 | P4 | P5 | P6 | P7.

Inductive ppc :=
| PLock | PBody | PReady | PSignal | PUnlock | PLock2 | PTest2 | PReady2 | PUnlock2 | PCount | PExit | PDone | PCrash.
Inductive cpc :=
| CStart | CLoop | CLock | CPoll | CUnlockNo | CUnlockYes | CTest | CWait | CWake | CTake | CUnlock | CCheck | CDone | CCrash.

#[export] Instance cpc_eq_dec : EqDecision cpc.
Proof. solve_decision. Defined.

Record thread := Thread { tpc : ppc; count : Z }.

(** [put_mutex] is the only mutex of the first four programs, [ready_mutex] the second
    one of the last two; [idle] counts the turns in which the consumer finds nothing and
    its spurious wake-ups. *)
Record shared := Shared {
  put_mutex : bool; nput : Z; nval : Z; buff : list Z;
  ready_mutex : bool; nready : Z; nsignals : Z;
  c_at : cpc; ci : Z; errors : list (Z * Z); idle : Z }.

Section Program.
Context (v : variant) (nitems : Z).

Definition set_put (s : shared) (b : bool) : shared :=
  Shared b (nput s) (nval s) (buff s) (ready_mutex s) (nready s) (nsignals s) (c_at s) (ci s) (errors s) (idle s).
Definition set_ready (s : shared) (b : bool) : shared :=
  Shared (put_mutex s) (nput s) (nval s) (buff s) b (nready s) (nsignals s) (c_at s) (ci s) (errors s) (idle s).
Definition set_nready (s : shared) (n : Z) : shared :=
  Shared (put_mutex s) (nput s) (nval s) (buff s) (ready_mutex s) n (nsignals s) (c_at s) (ci s) (errors s) (idle s).
Definition set_at (s : shared) (c : cpc) : shared :=
  Shared (put_mutex s) (nput s) (nval s) (buff s) (ready_mutex s) (nready s) (nsignals s) c (ci s) (errors s) (idle s).

(** pthread_cond_signal(): only the consumer waits. *)
Definition cond_signal (s : shared) : shared := match c_at s with CWait => set_at s CWake | _ => s end.
Definition count_signal (s : shared) : shared :=
  match v with
  | P7 => Shared (put_mutex s) (nput s) (nval s) (buff s) (ready_mutex s) (nready s) (nsignals s + 1) (c_at s) (ci s) (errors s) (idle s)
  | _ => s
  end.

(** The next step of produce(); [None]: it waits for a mutex or has ended. *)
Definition produce (s : shared) (t : thread) : option (shared * thread) :=
  let go s' p := Some (s', Thread p (count t)) in
  match tpc t with
  | PLock => if put_mutex s then None else go (set_put s true) PBody
  | PBody =>
      if nput s >=? nitems then go s PExit
      else match astore (buff s) (Z.to_nat (nput s)) (nval s) with
      | Some b => go (Shared (put_mutex s) (nput s + 1) (nval s + 1) b (ready_mutex s) (nready s) (nsignals s) (c_at s) (ci s) (errors s) (idle s))
                    (match v with P5 => PReady | _ => PUnlock end)
      | None => go s PCrash
      end
  | PReady => go (set_nready s (nready s + 1)) PSignal
  | PSignal => go (cond_signal s) PUnlock
  | PUnlock => go (set_put s false) (match v with P6 | P7 => PLock2 | _ => PCount end)
  | PLock2 => if ready_mutex s then None else go (set_ready s true) PTest2
  | PTest2 => go (if nready s =? 0 then count_signal (cond_signal s) else s) PReady2
  | PReady2 => go (set_nready s (nready s + 1)) PUnlock2
  | PUnlock2 => go (set_ready s false) PCount
  | PCount => Some (s, Thread PLock (count t + 1))
  | PExit => go (set_put s false) PDone
  | PDone | PCrash => None
  end.

(** The consumer's mutex. *)
Definition c_locked (s : shared) : bool := match v with P6 | P7 => ready_mutex s | _ => put_mutex s end.
Definition c_set (s : shared) (b : bool) : shared := match v with P6 | P7 => set_ready s b | _ => set_put s b end.

(** The next step of main() before it creates the consumer (prodcons2.c), and of consume();
    [ended]: all producers have. *)
Definition consume (ended : bool) (s : shared) : option shared :=
  match c_at s with
  | CStart => if ended then Some (set_at s CLoop) else None
  | CLoop => Some (set_at s (if ci s <? nitems then (match v with P2 => CCheck | _ => CLock end) else CDone))
  | CLock | CWake =>
      if c_locked s then None else Some (set_at (c_set s true) (match v with P3 | P4 => CPoll | _ => CTest end))
  | CPoll => Some (set_at s (if ci s <? nput s then CUnlockYes else CUnlockNo))
  | CUnlockNo =>
      let s' := c_set s false in
      Some (Shared (put_mutex s') (nput s) (nval s) (buff s) (ready_mutex s') (nready s) (nsignals s) CLock (ci s) (errors s) (idle s + 1))
  | CUnlockYes => Some (set_at (c_set s false) CCheck)
  | CTest => Some (if nready s =? 0 then set_at (c_set s false) CWait else set_at s CTake)
  | CTake => Some (set_at (set_nready s (nready s - 1)) CUnlock)
  | CUnlock => Some (set_at (c_set s false) CCheck)
  | CCheck =>
      match aload (buff s) (Z.to_nat (ci s)) with
      | None => Some (set_at s CCrash)
      | Some x =>
          Some (Shared (put_mutex s) (nput s) (nval s) (buff s) (ready_mutex s) (nready s) (nsignals s) CLoop (ci s + 1)
                  (errors s ++ if x =? ci s then [] else [(ci s, x)]) (idle s))
      end
  | CWait | CDone | CCrash => None
  end.

Record state := St { sh : shared; ths : list thread }.

Definition ended (t : thread) : bool := match tpc t with PDone => true | _ => false end.

Inductive event := EProducer (i : nat) | EConsumer | ESpurious.

Definition exec (s : state) (e : event) : option state :=
  match e with
  | EProducer i =>
      t ← ths s !! i;
      '(sh', t') ← produce (sh s) t;
      Some (St sh' (<[i := t']> (ths s)))
  | EConsumer => sh' ← consume (forallb ended (ths s)) (sh s); Some (St sh' (ths s))
  | ESpurious =>
      match c_at (sh s) with
      | CWait =>
          let x := sh s in
          Some (St (Shared (put_mutex x) (nput x) (nval x) (buff x) (ready_mutex x) (nready x) (nsignals x) CWake (ci x) (errors x) (idle x + 1)) (ths s))
      | _ => None
      end
  end.

Fixpoint run (s : state) (es : list event) : option state :=
  match es with [] => Some s | e :: es' => s' ← exec s e; run s' es' end.

(** main(): the threads created; the array has [size] elements. *)
Definition main (size np : nat) : state :=
  St (Shared false 0 0 (replicate size 0) false 0 0 (match v with P2 => CStart | _ => CLoop end) 0 [] 0) (replicate np (Thread PLock 0)).

(** ** The accounts *)

Definition holds_put (t : thread) : Z := match tpc t with PBody | PReady | PSignal | PUnlock | PExit => 1 | _ => 0 end.
Definition holds_ready (t : thread) : Z := match tpc t with PTest2 | PReady2 | PUnlock2 => 1 | _ => 0 end.
Definition c_holds (c : cpc) : Z := match c with CPoll | CUnlockNo | CUnlockYes | CTest | CTake | CUnlock => 1 | _ => 0 end.
(** An item that is stored and not counted in [nready], for the programs that count. *)
Definition pending (t : thread) : Z :=
  match v, tpc t with
  | P5, PReady => 1
  | (P6 | P7), (PUnlock | PLock2 | PTest2 | PReady2) => 1
  | _, _ => 0
  end.
Definition signals (t : thread) : Z := match tpc t with PSignal => 1 | _ => 0 end.
Definition adds (t : thread) : Z := match tpc t with PReady2 => 1 | _ => 0 end.
Definition produced (t : thread) : Z :=
  match tpc t with PReady | PSignal | PUnlock | PLock2 | PTest2 | PReady2 | PUnlock2 | PCount => count t + 1 | _ => count t end.
(** The items the consumer has taken. *)
Definition taken (s : shared) : Z := ci s + match c_at s with CUnlock | CCheck => 1 | _ => 0 end.

(** Where the threads of each program can be. *)
Definition p_fits (idx : Z) (t : thread) : Prop :=
  match tpc t with
  | PExit | PDone => nitems <= idx
  | PReady | PSignal => v = P5
  | PLock2 | PTest2 | PReady2 | PUnlock2 => v = P6 \/ v = P7
  | PCrash => False
  | _ => True
  end.
Definition c_fits (s : shared) : Prop :=
  match c_at s with
  | CStart => v = P2 /\ ci s = 0
  | CLoop => True
  | CLock => ci s < nitems /\ v <> P2
  | CPoll | CUnlockNo => ci s < nitems /\ (v = P3 \/ v = P4)
  | CUnlockYes => ci s < nput s /\ (v = P3 \/ v = P4)
  | CTest | CWait | CWake | CTake | CUnlock => ci s < nitems /\ (v = P5 \/ v = P6 \/ v = P7)
  | CCheck => ci s < nitems /\ ci s < nput s
  | CDone => nitems <= ci s
  | CCrash => False
  end.

Definition c_put (c : cpc) : Z := match v with P6 | P7 => 0 | _ => c_holds c end.
Definition c_ready (c : cpc) : Z := match v with P6 | P7 => c_holds c | _ => 0 end.

Record inv (s : state) : Prop := Inv {
  i_put : b2z (put_mutex (sh s)) = sumz holds_put (ths s) + c_put (c_at (sh s));
  i_ready : b2z (ready_mutex (sh s)) = sumz holds_ready (ths s) + c_ready (c_at (sh s));
  i_items : v = P5 \/ v = P6 \/ v = P7 -> nput (sh s) = taken (sh s) + nready (sh s) + sumz pending (ths s);
  i_bounds : 0 <= ci (sh s) <= Z.max 0 nitems /\ 0 <= nready (sh s) /\ 0 <= nput (sh s) <= Z.max 0 nitems;
  i_filled : nval (sh s) = nput (sh s) /\ nitems <= Z.of_nat (length (buff (sh s))) /\ errors (sh s) = [] /\
    (forall k, 0 <= k < nput (sh s) -> buff (sh s) !! Z.to_nat k = Some k);
  i_threads : Forall (p_fits (nput (sh s))) (ths s);
  i_consumer : c_fits (sh s);
  i_joined : v = P2 -> c_at (sh s) <> CStart -> nitems <= nput (sh s);
  i_take : c_at (sh s) = CTake -> 0 < nready (sh s);
  (* no wake-up is lost *)
  i_wait : c_at (sh s) = CWait ->
    (0 < nready (sh s) -> 0 < sumz signals (ths s)) /\ sumz adds (ths s) = 0;
  i_counts : sumz produced (ths s) = nput (sh s) }.

End Program.

Section Proofs.
Context (nitems : Z).
Implicit Types (v : variant) (t : thread).
Abbreviation inv v := (inv v nitems).

Lemma book_p_range v t : 0 <= holds_put t <= 1 /\ 0 <= holds_ready t <= 1 /\ 0 <= pending v t <= 1 /\ 0 <= signals t <= 1 /\ 0 <= adds t <= holds_ready t.
Proof. destruct t as [[] n], v; cbn; lia. Qed.

Lemma book_c_range v c : 0 <= c_put v c <= 1 /\ 0 <= c_ready v c <= 1.
Proof. destruct c, v; cbn; lia. Qed.

Lemma p_fits_mono v idx idx' t : idx <= idx' -> p_fits v nitems idx t -> p_fits v nitems idx' t.
Proof. unfold p_fits. destruct (tpc t); intros; try done; lia. Qed.

(** The invariant after a step of producer [i]. *)
Lemma mb_update v s i t x t' :
  inv v s -> ths s !! i = Some t ->
  b2z (put_mutex x) - holds_put t' - c_put v (c_at x) = b2z (put_mutex (sh s)) - holds_put t - c_put v (c_at (sh s)) ->
  b2z (ready_mutex x) - holds_ready t' - c_ready v (c_at x) = b2z (ready_mutex (sh s)) - holds_ready t - c_ready v (c_at (sh s)) ->
  (v = P5 \/ v = P6 \/ v = P7 -> nput x - taken x - nready x - pending v t' = nput (sh s) - taken (sh s) - nready (sh s) - pending v t) ->
  ci x = ci (sh s) /\ 0 <= nready x /\ nput (sh s) <= nput x <= Z.max 0 nitems ->
  nval x = nput x /\ nitems <= Z.of_nat (length (buff x)) /\ errors x = [] /\ (forall k, 0 <= k < nput x -> buff x !! Z.to_nat k = Some k) ->
  p_fits v nitems (nput x) t' -> c_fits v nitems x -> (c_at x = CStart <-> c_at (sh s) = CStart) ->
  (c_at x = CTake -> 0 < nready x) ->
  (c_at x = CWait -> c_at (sh s) = CWait /\ (0 < nready x -> 0 < nready (sh s) /\ signals t = 0 \/ signals t' = 1) /\ adds t' = adds t) ->
  produced t' - produced t = nput x - nput (sh s) ->
  inv v (St x (<[i := t']> (ths s))).
Proof.
  intros [Vp Vr Vi Vb Vf Vt Vc Vj Vk Vw Vn] Ht Ep Er Ei (Eci & Eb1 & Eb2) Ef Et Ec Es Ek Ew En.
  split; cbn; rewrite ?(sumz_insert _ _ _ _ _ Ht); try done; try lia.
  - intros Hv. specialize (Vi Hv). specialize (Ei Hv). lia.
  - apply Forall_insert; [|done]. eapply Forall_impl; [exact Vt|]. intros ?. apply p_fits_mono. lia.
  - intros Hv Hs. specialize (Vj Hv). assert (c_at (sh s) <> CStart) by tauto. specialize (Vj H). lia.
  - intros Hw. destruct (Ew Hw) as (Hw0 & Hn & Ha). destruct (Vw Hw0) as [W1 W2]. pose proof (book_p_range v t'). split; [|lia].
    intros Hr. pose proof (sumz_lookup signals _ _ _ (fun y => proj1 (proj1 (proj2 (proj2 (proj2 (book_p_range v y)))))) Ht).
    destruct (Hn Hr) as [[Hr0 Hz]|Hz]; [specialize (W1 Hr0); lia|lia].
Qed.

(** What a producer sees. *)
Lemma mb_seen v s i t : inv v s -> ths s !! i = Some t ->
  holds_put t + c_put v (c_at (sh s)) <= b2z (put_mutex (sh s)) /\ holds_ready t + c_ready v (c_at (sh s)) <= b2z (ready_mutex (sh s)) /\
  p_fits v nitems (nput (sh s)) t /\ (c_at (sh s) = CWait -> adds t = 0).
Proof.
  intros I Ht. pose proof (i_put _ _ _ I). pose proof (i_ready _ _ _ I).
  pose proof (sumz_lookup holds_put _ _ _ (fun y => proj1 (proj1 (book_p_range v y))) Ht).
  pose proof (sumz_lookup holds_ready _ _ _ (fun y => proj1 (proj1 (proj2 (book_p_range v y)))) Ht).
  split; [lia|]. split; [lia|]. split; [by apply (Forall_lookup_1 _ _ _ _ (i_threads _ _ _ I) Ht)|].
  intros Hw. destruct (i_wait _ _ _ I Hw) as [_ Ha].
  assert (Hn : forall y, 0 <= adds y) by (intros y; pose proof (book_p_range v y); lia).
  pose proof (sumz_lookup adds _ _ _ Hn Ht). specialize (Hn t). lia.
Qed.

(** Where a producer outside prodcons5.c signals, the consumer waits for the first item. *)
Lemma mb_wait0 v s : inv v s -> c_at (sh s) = CWait -> v <> P5 -> nready (sh s) = 0.
Proof.
  intros I Hw Hv. destruct (i_wait _ _ _ I Hw) as [W _]. pose proof (i_bounds _ _ _ I) as (_ & Hn & _).
  rewrite (sumz_zero signals) in W; [lia|]. intros j t Ht. pose proof (Forall_lookup_1 _ _ _ _ (i_threads _ _ _ I) Ht) as Hf.
  unfold p_fits, signals in *. by destruct (tpc t).
Qed.

Lemma mb_store (b : list Z) (n k x : Z) : 0 <= n < Z.of_nat (length b) -> x = n -> 0 <= k < n + 1 ->
  (forall j, 0 <= j < n -> b !! Z.to_nat j = Some j) -> <[Z.to_nat n := x]> b !! Z.to_nat k = Some k.
Proof.
  intros Hn -> Hk Hb. destruct (decide (k = n)) as [->|Hne].
  - apply list_lookup_insert_eq. lia.
  - rewrite list_lookup_insert_ne by lia. apply Hb. lia.
Qed.

Lemma cond_signal_idle s : c_at s <> CWait -> cond_signal s = s.
Proof. unfold cond_signal. by destruct (c_at s). Qed.

Lemma cond_signal_wait s : c_at s = CWait -> cond_signal s = set_at s CWake.
Proof. unfold cond_signal. by intros ->. Qed.

Ltac solve_update :=
  cbn in *; unfold holds_put, holds_ready, pending, signals, adds, produced, taken, p_fits, c_fits in *; cbn in *;
  repeat match goal with E : put_mutex _ = _ |- _ => progress rewrite E in * | E : ready_mutex _ = _ |- _ => progress rewrite E in * end; cbn [b2z] in *;
  repeat match goal with |- _ /\ _ => split end; intros; try done; try lia; try tauto; try (match goal with v : variant |- _ => destruct v end; cbn in *; try done; lia);
  try solve [destruct_or?; done];
  try (rewrite length_insert; done);
  try match goal with |- <[Z.to_nat _ := _]> _ !! Z.to_nat _ = _ => eapply mb_store; [..|done]; lia end;
  try match goal with Hk : forall k, _ -> buff _ !! _ = Some _ |- buff _ !! _ = Some _ => apply Hk; lia end.

Lemma mb_producer v s i s' : inv v s -> exec v nitems s (EProducer i) = Some s' -> inv v s'.
Proof.
  intros I E. cbn in E. destruct (ths s !! i) as [t|] eqn:Ht; [|done]. cbn in E.
  destruct (produce v nitems (sh s) t) as [[x t']|] eqn:Ex; [|done]. cbn in E. injection E as <-.
  destruct (mb_seen _ _ _ _ I Ht) as (Hp & Hr & Hf & Ha). pose proof (i_bounds _ _ _ I) as Vb. destruct (i_filled _ _ _ I) as (Ev & Hl & He & Hb).
  pose proof (i_consumer _ _ _ I) as Vc. pose proof (i_take _ _ _ I) as Vk.
  destruct t as [p n]. unfold p_fits in Hf. unfold produce in Ex. cbn [tpc count] in *.
  assert (Hmono : forall k, nput (sh s) <= k -> c_fits v nitems (sh s) ->
            match c_at (sh s) with CUnlockYes => ci (sh s) < k /\ (v = P3 \/ v = P4) | CCheck => ci (sh s) < nitems /\ ci (sh s) < k | _ => True end)
    by (intros k Hle; unfold c_fits; destruct (c_at (sh s)); intros; try done; destruct_and?; split; try done; lia).
  assert (Hz : 0 <= b2z (put_mutex (sh s)) <= 1 /\ 0 <= b2z (ready_mutex (sh s)) <= 1) by (split; apply b2z_range).
  destruct (book_c_range v (c_at (sh s))) as [Hc1 Hc2].
  assert (Hsame : c_fits v nitems (sh s) -> forall x', c_at x' = c_at (sh s) -> ci x' = ci (sh s) -> nput (sh s) <= nput x' -> c_fits v nitems x')
    by (intros Hc x' E1 E2 E3; unfold c_fits in *; rewrite E1, E2; destruct (c_at (sh s)); try done; destruct_and?; split; try done; lia).
  specialize (Hsame Vc).
  destruct p; try done.
  - destruct (put_mutex (sh s)) eqn:Em; [done|]. injection Ex as <- <-. apply (mb_update v s i _ _ _ I Ht); solve_update.
  - destruct (nput (sh s) >=? nitems) eqn:En; [injection Ex as <- <-; apply (mb_update v s i _ _ _ I Ht); solve_update|].
    rewrite astore_ok in Ex by lia. injection Ex as <- <-.
    apply (mb_update v s i _ _ _ I Ht); try (by apply Hsame; cbn; [done..|lia]); destruct v; solve_update.
  - injection Ex as <- <-. subst v. apply (mb_update P5 s i _ _ _ I Ht); try (by apply Hsame; cbn; [done..|lia]); solve_update.
  - injection Ex as <- <-. subst v. destruct (decide (c_at (sh s) = CWait)) as [Ec|Ec].
    + rewrite (cond_signal_wait _ Ec). apply (mb_update P5 s i _ _ _ I Ht); unfold c_fits in Vc; rewrite ?Ec in *; solve_update; rewrite ?Ec; solve_update.
    + rewrite (cond_signal_idle _ Ec). apply (mb_update P5 s i _ _ _ I Ht); solve_update.
  - injection Ex as <- <-. apply (mb_update v s i _ _ _ I Ht); destruct v; solve_update.
  - destruct (ready_mutex (sh s)) eqn:Em; [done|]. injection Ex as <- <-. apply (mb_update v s i _ _ _ I Ht); solve_update.
  - injection Ex as <- <-. assert (Hw : c_at (sh s) = CWait -> nready (sh s) = 0) by (intros Hw; apply (mb_wait0 v s I Hw); destruct Hf; by subst v).
    destruct (nready (sh s) =? 0) eqn:En; bprop.
    + destruct (decide (c_at (sh s) = CWait)) as [Ec|Ec].
      * rewrite (cond_signal_wait _ Ec). apply (mb_update v s i _ _ _ I Ht); destruct Hf; subst v; unfold c_fits in Vc; rewrite ?Ec in *; solve_update; rewrite ?Ec; solve_update.
      * rewrite (cond_signal_idle _ Ec). apply (mb_update v s i _ _ _ I Ht); destruct Hf; subst v; solve_update.
    + apply (mb_update v s i _ _ _ I Ht); solve_update; naive_solver lia.
  - injection Ex as <- <-. apply (mb_update v s i _ _ _ I Ht); destruct v; solve_update; exfalso; by specialize (Ha ltac:(done)).
  - injection Ex as <- <-. apply (mb_update v s i _ _ _ I Ht); solve_update.
  - injection Ex as <- <-. apply (mb_update v s i _ _ _ I Ht); solve_update.
  - injection Ex as <- <-. apply (mb_update v s i _ _ _ I Ht); solve_update.
Qed.

(** The invariant after a step of the consumer. *)
Lemma mb_move v s x :
  inv v s ->
  b2z (put_mutex x) - c_put v (c_at x) = b2z (put_mutex (sh s)) - c_put v (c_at (sh s)) ->
  b2z (ready_mutex x) - c_ready v (c_at x) = b2z (ready_mutex (sh s)) - c_ready v (c_at (sh s)) ->
  (v = P5 \/ v = P6 \/ v = P7 -> taken x + nready x = taken (sh s) + nready (sh s)) ->
  nput x = nput (sh s) /\ nval x = nval (sh s) /\ buff x = buff (sh s) /\ errors x = [] ->
  0 <= ci x <= Z.max 0 nitems /\ 0 <= nready x ->
  c_fits v nitems x -> (v = P2 -> c_at x <> CStart -> nitems <= nput (sh s)) ->
  (c_at x = CTake -> 0 < nready x) ->
  (c_at x = CWait -> nready x = 0 /\ sumz adds (ths s) = 0) ->
  inv v (St x (ths s)).
Proof.
  intros [Vp Vr Vi Vb Vf Vt Vc Vj Vk Vw Vn] Ep Er Ei (Enp & Env & Enb & Ene) Eb Ec Ej Ek Ew. destruct Vf as (F1 & F2 & F3 & F4).
  split; cbn; rewrite ?Enp, ?Env, ?Enb; try done; try lia.
  - intros Hv. specialize (Vi Hv). specialize (Ei Hv). lia.
  - intros Hw. destruct (Ew Hw). split; [lia|done].
Qed.

(** While the consumer holds the producers' or its own mutex in the test, no producer is about to count. *)
Lemma mb_adds v s : inv v s -> c_at (sh s) = CTest -> sumz adds (ths s) = 0.
Proof.
  intros I Hc. apply sumz_zero. intros j t Ht. destruct (mb_seen _ _ _ _ I Ht) as (_ & Hr & Hf & _).
  pose proof (b2z_range (ready_mutex (sh s))). pose proof (i_consumer _ _ _ I) as Vc. unfold c_fits in Vc. rewrite Hc in *.
  unfold p_fits, holds_ready, c_ready, c_holds, adds in *. destruct (tpc t); try done. destruct Hf; subst v; lia.
Qed.

Ltac by_move Ec := unfold taken, c_set; rewrite ?Ec; solve_update; rewrite ?Ec; solve_update.

(** The producers that have ended have filled the array. *)
Lemma mb_ended v s : inv v s -> (0 < length (ths s))%nat -> forallb ended (ths s) = true -> nitems <= nput (sh s).
Proof.
  intros I Hlen Hd. destruct (lookup_lt_is_Some_2 _ _ Hlen) as [t Ht]. pose proof (Forall_lookup_1 _ _ _ _ (i_threads _ _ _ I) Ht) as Hf.
  destruct (ths s) as [|u l]; [done|]. injection Ht as ->. cbn in Hd. apply andb_prop in Hd as [Hd _].
  unfold ended, p_fits in *. by destruct (tpc t).
Qed.

Lemma mb_consumer v s s' : (0 < length (ths s))%nat -> inv v s -> exec v nitems s EConsumer = Some s' -> inv v s'.
Proof.
  intros Hlen I E. cbn in E. destruct (consume v nitems (forallb ended (ths s)) (sh s)) as [x|] eqn:Ex; [|done]. cbn in E. injection E as <-.
  pose proof (i_bounds _ _ _ I) as Vb. destruct (i_filled _ _ _ I) as (Ev & Hl & He & Hb).
  pose proof (i_consumer _ _ _ I) as Vc. pose proof (i_take _ _ _ I) as Vk. pose proof (i_joined _ _ _ I) as Vj.
  pose proof (mb_adds v s I) as Va. pose proof (i_items _ _ _ I) as Vi.
  assert (0 <= sumz (pending v) (ths s)) by (apply sumz_nonneg; intros j t _; pose proof (book_p_range v t); lia).
  assert (Hput : c_put v (c_at (sh s)) <= b2z (put_mutex (sh s)) /\ c_ready v (c_at (sh s)) <= b2z (ready_mutex (sh s))).
  { pose proof (i_put _ _ _ I). pose proof (i_ready _ _ _ I).
    assert (0 <= sumz holds_put (ths s)) by (apply sumz_nonneg; intros j t _; pose proof (book_p_range v t); lia).
    assert (0 <= sumz holds_ready (ths s)) by (apply sumz_nonneg; intros j t _; pose proof (book_p_range v t); lia). lia. }
  pose proof (b2z_range (put_mutex (sh s))). pose proof (b2z_range (ready_mutex (sh s))).
  unfold consume in Ex. unfold c_fits in Vc. destruct (c_at (sh s)) eqn:Ec; try done.
  - destruct (forallb ended (ths s)) eqn:Ef; [|done]. injection Ex as <-. destruct Vc as [-> E0]. pose proof (mb_ended _ _ I Hlen Ef).
    apply mb_move; by_move Ec.
  - injection Ex as <-. destruct (ci (sh s) <? nitems) eqn:El; bprop; apply mb_move; destruct v; try specialize (Vj eq_refl ltac:(done)); by_move Ec.
  - unfold c_locked, c_set in *. destruct Vc as [? Hv]. destruct v; [done|..];
      (match type of Ex with context [if ?b then _ else _] => destruct b eqn:El end; [done|]; injection Ex as <-; apply mb_move; by_move Ec).
  - injection Ex as <-. destruct (_ <? _) eqn:El; bprop; destruct Vc as [? [-> | ->]]; apply mb_move; by_move Ec.
  - injection Ex as <-. destruct Vc as [? [-> | ->]]; apply mb_move; by_move Ec.
  - injection Ex as <-. destruct Vc as [? [-> | ->]]; apply mb_move; by_move Ec.
  - injection Ex as <-. specialize (Va eq_refl). destruct (_ =? _) eqn:El; bprop; destruct Vc as [? [-> | [-> | ->]]]; apply mb_move; by_move Ec.
  - unfold c_locked, c_set in *. destruct Vc as [? [-> | [-> | ->]]];
      (match type of Ex with context [if ?b then _ else _] => destruct b eqn:El end; [done|]; injection Ex as <-; apply mb_move; by_move Ec).
  - injection Ex as <-. specialize (Vk eq_refl). destruct Vc as [? [-> | [-> | ->]]]; apply mb_move; by_move Ec.
  - injection Ex as <-. unfold taken in Vi. rewrite Ec in Vi. destruct Vc as [? Hv]. specialize (Vi Hv). destruct Hv as [-> | [-> | ->]]; apply mb_move; by_move Ec.
  - unfold aload in Ex. rewrite Hb in Ex by lia. injection Ex as <-. rewrite Z.eqb_refl, app_nil_r. apply mb_move; by_move Ec. by apply Vj.
Qed.
Lemma mb_step v s e s' : (0 < length (ths s))%nat -> inv v s -> exec v nitems s e = Some s' ->
  inv v s' /\ length (ths s') = length (ths s).
Proof.
  intros Hlen I E. split.
  - destruct e; [by eapply mb_producer|by eapply mb_consumer|]. cbn in E. destruct (c_at (sh s)) eqn:Ec; try done. injection E as <-.
    pose proof (i_bounds _ _ _ I). destruct (i_filled _ _ _ I) as (_ & _ & He & _). pose proof (i_consumer _ _ _ I) as Vc.
    pose proof (i_joined _ _ _ I) as Vj. unfold c_fits in Vc. rewrite Ec in *. apply mb_move; by_move Ec. by apply Vj.
  - destruct e; cbn in E.
    + destruct (ths s !! i) as [t|] eqn:Ht; [|done]. cbn in E. destruct (produce _ _ _ _) as [[? ?]|]; [|done]. cbn in E. injection E as <-. apply length_insert.
    + destruct (consume _ _ _ _); [|done]. cbn in E. by injection E as <-.
    + destruct (c_at (sh s)); try done. by injection E as <-.
Qed.

(** ** The number of steps *)

Definition p_rank (t : thread) : Z :=
  match tpc t with
  | PLock => 3 | PBody => 2 | PExit => 1 | PReady => 15 | PSignal => 14 | PUnlock => 11
  | PLock2 => 10 | PTest2 => 9 | PReady2 => 6 | PUnlock2 => 5 | PCount => 4 | PDone | PCrash => 0
  end.
Definition c_rank (c : cpc) : Z :=
  match c with
  | CStart => 9 | CLoop => 8 | CLock | CWake => 7 | CPoll | CTest => 6 | CUnlockNo | CWait | CTake => 5
  | CUnlockYes | CUnlock => 4 | CCheck => 3 | CDone | CCrash => 0
  end.
Definition shared_work (s : shared) : Z :=
  c_rank (c_at s) + 14 * (Z.max 0 nitems - nput s) + 6 * (Z.max 0 nitems - ci s) - 3 * idle s.
Definition work (s : state) : Z := sumz p_rank (ths s) + shared_work (sh s).

Lemma p_work v s t s' t' : produce v nitems s t = Some (s', t') -> shared_work s' + p_rank t' < shared_work s + p_rank t.
Proof.
  destruct t as [p n]. unfold produce, shared_work, p_rank, cond_signal, count_signal. cbn [tpc count].
  destruct p; cbn; intros Ha; try done;
    repeat match type of Ha with context [match ?x with _ => _ end] => destruct x eqn:? end; simplify_eq; cbn;
    try (destruct v; cbn); repeat match goal with E : c_at _ = _ |- _ => rewrite E; clear E end; cbn [c_rank]; lia.
Qed.

Lemma c_work v b s s' : consume v nitems b s = Some s' -> shared_work s' < shared_work s.
Proof.
  unfold consume, shared_work, c_set, c_locked. destruct (c_at s); intros Ha; try done;
    repeat match type of Ha with context [match ?x with _ => _ end] => destruct x eqn:? end; simplify_eq; cbn; lia.
Qed.

Lemma mb_work v s e s' : exec v nitems s e = Some s' -> work s' < work s.
Proof.
  intros E. unfold work. destruct e; cbn in E.
  - destruct (ths s !! i) as [t|] eqn:Ht; [|done]. cbn in E. destruct (produce v nitems (sh s) t) as [[x t']|] eqn:Ex; [|done].
    cbn in E. injection E as <-. cbn. rewrite (sumz_insert _ _ _ _ _ Ht). apply p_work in Ex. lia.
  - destruct (consume _ _ _ _) eqn:Ex; [|done]. cbn in E. injection E as <-. apply c_work in Ex. cbn. lia.
  - destruct (c_at (sh s)) eqn:Ec; try done. injection E as <-. unfold shared_work. cbn. rewrite Ec. cbn. lia.
Qed.

Lemma mb_work_low v s : inv v s -> - 3 * idle (sh s) <= work s.
Proof.
  intros I. pose proof (i_bounds _ _ _ I). unfold work, shared_work.
  assert (0 <= sumz p_rank (ths s)) by (apply sumz_nonneg; intros j [[] ?] _; done).
  assert (0 <= c_rank (c_at (sh s))) by (by destruct (c_at (sh s))). lia.
Qed.

Lemma mb_run v es s s' : run v nitems s es = Some s' -> (0 < length (ths s))%nat -> inv v s ->
  inv v s' /\ length (ths s') = length (ths s) /\ work s' + Z.of_nat (length es) <= work s.
Proof.
  revert s. induction es as [|e es IH]; intros s E Hl I; cbn in E; [injection E as <-; split_and!; try done; cbn; lia|].
  destruct (exec v nitems s e) as [s1|] eqn:E1; [|done]. cbn in E. destruct (mb_step _ _ _ _ Hl I E1) as [I1 L1].
  destruct (IH s1 E ltac:(lia) I1) as (I' & L & W). apply mb_work in E1. split_and!; try done; [lia|]. simpl length. lia.
Qed.

(** ** Nobody waits for ever *)

Definition finished (s : state) : bool := forallb ended (ths s) && match c_at (sh s) with CDone => true | _ => false end.

(** The turn that the consumer, with the mutex, spends in vain. *)
Definition vain (s : shared) : Z :=
  match c_at s with CUnlockNo => 1 | CPoll => if ci s <? nput s then 0 else 1 | _ => 0 end.

Lemma some_term {A} (f : A -> Z) l : 0 < sumz f l -> exists i a, l !! i = Some a /\ 0 < f a.
Proof.
  induction l as [|a l IH]; [done|]. rewrite sumz_cons. intros Hs. destruct (Z_lt_le_dec 0 (f a)); [by exists 0%nat, a|].
  destruct IH as (i & b & Hb & Hf); [lia|by exists (S i), b].
Qed.

Lemma not_forallb {A} (f : A -> bool) l : forallb f l = false -> exists i a, l !! i = Some a /\ f a = false.
Proof.
  induction l as [|a l IH]; [done|]. cbn. destruct (f a) eqn:E; [|by exists 0%nat, a]. intros Hl. destruct (IH Hl) as (i & b & ?). by exists (S i), b.
Qed.

(** A producer that has not ended and does not wait for a mutex goes on. *)
Definition p_free (s : shared) (t : thread) : bool :=
  match tpc t with PLock => negb (put_mutex s) | PLock2 => negb (ready_mutex s) | PDone | PCrash => false | _ => true end.

Lemma p_goes v s i t : ths s !! i = Some t -> p_free (sh s) t = true -> c_holds (c_at (sh s)) = 0 ->
  exists s', exec v nitems s (EProducer i) = Some s' /\ vain (sh s') + idle (sh s') <= vain (sh s) + idle (sh s).
Proof.
  intros Ht Hf Hc. cbn. rewrite Ht. cbn.
  assert (exists x t', produce v nitems (sh s) t = Some (x, t') /\ idle x = idle (sh s) /\ (c_at x = c_at (sh s) \/ c_at x = CWake)) as (x & t' & -> & Ei & Ec).
  { destruct t as [p n]. unfold p_free in Hf. unfold produce, cond_signal, count_signal. cbn [tpc count] in *.
    destruct p; try done; repeat match goal with |- context [match ?y with _ => _ end] => destruct y eqn:? end; try done;
      eexists _, _; (split; [reflexivity|]); cbn; auto. }
  eexists. split; [reflexivity|]. cbn. unfold vain, c_holds in *. rewrite Ei. destruct Ec as [-> | ->]; destruct (c_at (sh s)); try done; lia.
Qed.

(** The producers finish by themselves when the consumer holds no mutex. *)
Lemma producers_go v s : inv v s -> c_holds (c_at (sh s)) = 0 -> forallb ended (ths s) = false ->
  exists i t, ths s !! i = Some t /\ p_free (sh s) t = true.
Proof.
  intros I Hc Hd. pose proof (i_put _ _ _ I) as Ip. pose proof (i_ready _ _ _ I) as Ir.
  assert (c_put v (c_at (sh s)) = 0 /\ c_ready v (c_at (sh s)) = 0) as [E1 E2] by (unfold c_put, c_ready; by destruct v).
  destruct (put_mutex (sh s)) eqn:Em; [|destruct (ready_mutex (sh s)) eqn:Er].
  - destruct (some_term holds_put (ths s)) as (i & t & Ht & Hh); [cbn in Ip; lia|]. exists i, t. split; [done|].
    unfold holds_put, p_free in *. by destruct (tpc t).
  - destruct (some_term holds_ready (ths s)) as (i & t & Ht & Hh); [cbn in Ir; lia|]. exists i, t. split; [done|].
    unfold holds_ready, p_free in *. by destruct (tpc t).
  - destruct (not_forallb _ _ Hd) as (i & t & Ht & He). exists i, t. split; [done|].
    pose proof (Forall_lookup_1 _ _ _ _ (i_threads _ _ _ I) Ht) as Hf. unfold p_free, ended, p_fits in *. rewrite Em, Er. by destruct (tpc t).
Qed.

(** When the producers have ended, every test of the consumer succeeds. *)
Lemma consumer_goes v s : inv v s -> (0 < length (ths s))%nat -> forallb ended (ths s) = true -> c_holds (c_at (sh s)) = 0 -> c_at (sh s) <> CDone ->
  exists s', exec v nitems s EConsumer = Some s' /\ vain (sh s') + idle (sh s') <= vain (sh s) + idle (sh s).
Proof.
  intros I Hlen Hd Hc Hn. pose proof (mb_ended v s I Hlen Hd) as Hput. pose proof (i_put _ _ _ I) as Ip. pose proof (i_ready _ _ _ I) as Ir.
  assert (Hall : forall f : thread -> Z, (forall n, f (Thread PDone n) = 0) -> sumz f (ths s) = 0).
  { intros f Hf. apply sumz_zero. intros i [p n] Ht. rewrite forallb_forall in Hd. specialize (Hd _ (proj1 (list_elem_of_In _ _) (list_elem_of_lookup_2 _ _ _ Ht))).
    unfold ended in Hd. cbn in Hd. by destruct p. }
  rewrite Hall in Ip, Ir by done.
  assert (c_put v (c_at (sh s)) = 0 /\ c_ready v (c_at (sh s)) = 0) as [E1 E2] by (unfold c_put, c_ready; by destruct v).
  assert (Em : put_mutex (sh s) = false) by (destruct (put_mutex (sh s)); cbn in Ip; [lia|done]).
  assert (Er : ready_mutex (sh s) = false) by (destruct (ready_mutex (sh s)); cbn in Ir; [lia|done]).
  cbn. pose proof (i_consumer _ _ _ I) as Vc. unfold consume, c_fits, c_locked, c_set, vain in *. rewrite ?Hd, ?Em, ?Er in *.
  assert (Hi : c_at (sh s) <> CWait).
  { intros Ec. rewrite Ec in Vc. destruct Vc as [? Hv]. pose proof (i_items _ _ _ I Hv) as Hit. unfold taken in Hit. rewrite Ec in Hit.
    rewrite Hall in Hit by (intros; by destruct v). destruct (i_wait _ _ _ I Ec) as [W _]. rewrite Hall in W by done. lia. }
  destruct (c_at (sh s)) eqn:Ec; try done.
  - eexists; split; [done|]; cbn; lia.
  - eexists; split; [done|]. cbn. destruct (_ <? _); [destruct v|]; cbn; lia.
  - destruct v; (eexists; split; [done|]); cbn; try case_match; lia.
  - destruct v; (eexists; split; [done|]); cbn; try case_match; lia.
  - destruct (aload _ _); (eexists; split; [done|]); cbn; lia.
Qed.

(** The consumer, with the mutex, gives it up. *)
Lemma holder_goes v s : c_holds (c_at (sh s)) = 1 ->
  exists s', exec v nitems s EConsumer = Some s' /\ vain (sh s') + idle (sh s') <= vain (sh s) + idle (sh s).
Proof.
  intros Hc. cbn. unfold consume, vain, c_holds in *. destruct (c_at (sh s)) eqn:Ec; try done; (eexists; split; [done|]); cbn;
    repeat match goal with |- context [if ?b then _ else _] => destruct b end; cbn; try (unfold c_set; destruct v; cbn); lia.
Qed.

Lemma mb_goes v s : inv v s -> (0 < length (ths s))%nat -> finished s = false ->
  exists e s', exec v nitems s e = Some s' /\ vain (sh s') + idle (sh s') <= vain (sh s) + idle (sh s).
Proof.
  intros I Hlen Hf. destruct (decide (c_holds (c_at (sh s)) = 1)) as [Hc|Hc]; [exists EConsumer; by apply holder_goes|].
  assert (c_holds (c_at (sh s)) = 0) by (by destruct (c_at (sh s))).
  destruct (forallb ended (ths s)) eqn:Hd.
  - exists EConsumer. apply (consumer_goes v); try done. unfold finished in Hf. rewrite Hd in Hf. by destruct (c_at (sh s)).
  - destruct (producers_go v s) as (i & t & Ht & Hp); try done. exists (EProducer i). by eapply p_goes.
Qed.

Lemma mb_finishes v s : inv v s -> (0 < length (ths s))%nat ->
  exists es s', run v nitems s es = Some s' /\ finished s' = true /\ idle (sh s') <= idle (sh s) + vain (sh s).
Proof.
  remember (Z.to_nat (work s + 3 * idle (sh s) + 3 * vain (sh s))) as n eqn:En. revert s En.
  induction n as [n IH] using lt_wf_ind. intros s -> I Hlen.
  assert (Hv : forall x, 0 <= vain x) by (intros x; unfold vain; destruct (c_at x); try case_match; lia).
  destruct (finished s) eqn:Hf; [exists [], s; split_and!; try done; specialize (Hv (sh s)); lia|].
  destruct (mb_goes v s I Hlen Hf) as (e & s1 & E1 & Hi). destruct (mb_step _ _ _ _ Hlen I E1) as [I1 L1].
  pose proof (mb_work _ _ _ _ E1). pose proof (mb_work_low v s1 I1). pose proof (Hv (sh s1)).
  edestruct (fun H => IH _ H s1 eq_refl I1 ltac:(lia)) as (es & s' & Hr & Hf' & Hi'); [lia|].
  exists (e :: es), s'. split; [cbn; by rewrite E1|]. split; [done|lia].
Qed.
End Proofs.

Lemma mb_main v nitems size np : (0 < np)%nat -> nitems <= Z.of_nat size -> inv v nitems (main v size np).
Proof.
  intros Hnp Hs. split; cbn; rewrite ?sumz_replicate, ?length_replicate; unfold holds_put, holds_ready, pending, produced, c_put, c_ready, taken; cbn;
    try (destruct v; cbn; try done; lia).
  - split_and!; try done; lia.
  - by apply Forall_replicate.
Qed.

(** What the producers counted, added up. *)
Definition total (l : list thread) : Z := sumz count l.

Lemma total_ended l : forallb ended l = true -> sumz produced l = total l.
Proof.
  unfold total. induction l as [|[p n] l IH]; [done|]. cbn. intros Hd. apply andb_prop in Hd as [Hp Hl]. rewrite !sumz_cons, (IH Hl). by destruct p.
Qed.

(** The programs with what the command line gives: [threads n] producers and [items n]
    items. *)
Definition MAXNITEMS : Z := 1000000.
Definition threads (n : Z) : nat := Z.to_nat (Z.min n 100).
Definition items (n : Z) : Z := Z.min n MAXNITEMS.

Definition prodcons2 (n : Z) : state -> event -> option state := exec P2 (items n).
Definition prodcons3 (n : Z) : state -> event -> option state := exec P3 (items n).
Definition prodcons4 (n : Z) : state -> event -> option state := exec P4 (items n).
Definition prodcons5 (n : Z) : state -> event -> option state := exec P5 (items n).
Definition prodcons6 (n : Z) : state -> event -> option state := exec P6 (items n).
Definition prodcons7 (n : Z) : state -> event -> option state := exec P7 (items n).

(** C9: prodcons2.c to prodcons7.c with at least one producer, in every interleaving and
    with spurious wake-ups: the consumer finds no wrong value and no access leaves the
    array; the number of steps is bounded by the numbers of threads and items and three
    for each vain turn of the consumer; from every reachable state the program can go on
    to its end, with at most one more vain turn, so that no wake-up is lost and nobody
    waits for ever; and at the end the producers' counters add up to the number of
    items. *)
Theorem mutex_book v nitems size np es s :
  (0 < np)%nat -> nitems <= Z.of_nat size -> run v nitems (main v size np) es = Some s ->
  errors (sh s) = [] /\ c_at (sh s) <> CCrash /\ Forall (fun t => tpc t <> PCrash) (ths s) /\
  Z.of_nat (length es) <= 3 * Z.of_nat np + 9 + 20 * Z.max 0 nitems + 3 * idle (sh s) /\
  (forallb ended (ths s) = true -> total (ths s) = Z.max 0 nitems) /\
  exists es' s', run v nitems s es' = Some s' /\ finished s' = true /\ idle (sh s') <= idle (sh s) + 1.
Proof.
  intros Hnp Hsize Hrun. assert (Hlen : (0 < length (ths (main v size np)))%nat) by (cbn; rewrite length_replicate; done).
  destruct (mb_run nitems v es _ s Hrun Hlen) as (I & L & W); [by apply mb_main|]. rewrite <- L in Hlen.
  destruct (i_filled _ _ _ I) as (_ & _ & He & _). pose proof (i_bounds _ _ _ I).
  split; [done|]. split; [intros Ec; pose proof (i_consumer _ _ _ I) as Vc; unfold c_fits in Vc; by rewrite Ec in Vc|].
  split. { eapply Forall_impl; [apply (i_threads _ _ _ I)|]. intros t Ht Et. unfold p_fits in Ht. by rewrite Et in Ht. }
  split. { pose proof (mb_work_low nitems v s I). unfold work at 2, shared_work in W. cbn in W. rewrite sumz_replicate in W. cbn in W.
    assert (c_rank (match v with P2 => CStart | _ => CLoop end) <= 9) by (by destruct v). lia. }
  split. { intros Hd. rewrite <- (total_ended _ Hd), (i_counts _ _ _ I). pose proof (mb_ended nitems v s I Hlen Hd). lia. }
  destruct (mb_finishes nitems v s I Hlen) as (es' & s' & Hr & Hf & Hi). exists es', s'. split_and!; try done.
  assert (vain (sh s) <= 1) by (unfold vain; destruct (c_at (sh s)); try case_match; lia). lia.
Qed.

Lemma mutex_book_witness :
  exists s, run P6 2 (main P6 2 2) [EConsumer; EConsumer; EConsumer; EProducer 0; EProducer 0; EProducer 0; EProducer 0; EProducer 0] = Some s /\
    c_at (sh s) = CWake /\ errors (sh s) = [].
Proof.
  eexists. split; [vm_compute; reflexivity|]. split; [reflexivity|].
  refine (proj1 (mutex_book P6 2 2 2 [EConsumer; EConsumer; EConsumer; EProducer 0; EProducer 0; EProducer 0; EProducer 0; EProducer 0] _ _ _ _)); [lia|lia|vm_compute; reflexivity].
Defined.

(** ** No lock: prodcons1.c *)

Module Unlocked.

(** The next access of a producer; what it has read is in the constructor. *)
Inductive upc :=
| UTest | UIndex | UValue (i : Z) | UStore (i x : Z)
| UPut | UPutStore (n : Z) | UVal | UValStore (n : Z) | UCount | UDone | UCrash.

Record shared1 := Shared { nput : Z; nval : Z; buff : list Z }.

Definition produce1 (nitems : Z) (s : shared1) (p : upc) (count : Z) : option (shared1 * (upc * Z)) :=
  match p with
  | UTest => Some (s, (if nput s >=? nitems then UDone else UIndex, count))
  | UIndex => Some (s, (UValue (nput s), count))
  | UValue i => Some (s, (UStore i (nval s), count))
  | UStore i x =>
      match astore (buff s) (Z.to_nat i) x with
      | Some b => Some (Shared (nput s) (nval s) b, (UPut, count))
      | None => Some (s, (UCrash, count))
      end
  | UPut => Some (s, (UPutStore (nput s + 1), count))
  | UPutStore n => Some (Shared n (nval s) (buff s), (UVal, count))
  | UVal => Some (s, (UValStore (nval s + 1), count))
  | UValStore n => Some (Shared (nput s) n (buff s), (UCount, count))
  | UCount => Some (s, (UTest, count + 1))
  | UDone | UCrash => None
  end.

Definition exec1 (nitems : Z) (s : shared1 * list (upc * Z)) (i : nat) : option (shared1 * list (upc * Z)) :=
  '(p, count) ← s.2 !! i;
  '(sh', t') ← produce1 nitems s.1 p count;
  Some (sh', <[i := t']> s.2).

Fixpoint run1 (nitems : Z) (s : shared1 * list (upc * Z)) (es : list nat) : option (shared1 * list (upc * Z)) :=
  match es with [] => Some s | i :: es' => s' ← exec1 nitems s i; run1 nitems s' es' end.

Definition main1 (size np : nat) : shared1 * list (upc * Z) := (Shared 0 0 (replicate size 0), replicate np (UTest, 0)).

(** consume(): what it prints. *)
Definition consume1 (nitems : Z) (b : list Z) : list (nat * Z) :=
  omap (fun i => x ← b !! i; if x =? Z.of_nat i then None else Some (i, x)) (seq 0 (Z.to_nat nitems)).

(** A producer that is alone. *)
Definition at_pc (nitems k : Z) (s : shared1) (t : upc * Z) : Prop :=
  nput s = (match t.1 with UVal | UValStore _ | UCount => k + 1 | _ => k end) /\
  nval s = (match t.1 with UCount => k + 1 | _ => k end) /\ t.2 = k /\ 0 <= k <= Z.max 0 nitems /\
  nitems <= Z.of_nat (length (buff s)) /\
  (forall j, 0 <= j < (match t.1 with UPut | UPutStore _ | UVal | UValStore _ | UCount => k + 1 | _ => k end) -> buff s !! Z.to_nat j = Some j) /\
  match t.1 with
  | UTest => True
  | UDone => nitems <= k
  | UValue i => i = k /\ k < nitems
  | UStore i x => i = k /\ x = k /\ k < nitems
  | UPutStore n | UValStore n => n = k + 1 /\ k < nitems
  | UCrash => False
  | _ => k < nitems
  end.

Lemma produce_alone nitems k s t s' t' : at_pc nitems k s t -> produce1 nitems s t.1 t.2 = Some (s', t') -> exists k', at_pc nitems k' s' t'.
Proof.
  destruct t as [p n]. intros (E1 & E2 & E3 & Hk & Hl & Hb & Hp) Hx. cbn in *.
  destruct p; cbn in *; try done; try (injection Hx as <- <-).
  - exists k. unfold at_pc. destruct (nput s >=? nitems) eqn:E; cbn; split_and!; try done; lia.
  - exists k. unfold at_pc. cbn. split_and!; try done; lia.
  - exists k. unfold at_pc. cbn. split_and!; try done; lia.
  - destruct Hp as (-> & -> & Hp). rewrite astore_ok in Hx by lia. injection Hx as <- <-. exists k. unfold at_pc. cbn.
    rewrite length_insert. split_and!; try done; try lia. intros j Hj. apply mb_store; try done; lia.
  - exists k. unfold at_pc. cbn. split_and!; try done; lia.
  - exists k. destruct Hp as [-> Hp]. unfold at_pc. cbn. split_and!; try done; lia.
  - exists k. unfold at_pc. cbn. split_and!; try done; lia.
  - exists k. destruct Hp as [-> Hp]. unfold at_pc. cbn. split_and!; try done; lia.
  - exists (k + 1). unfold at_pc. cbn. split_and!; try done; lia.
Qed.

(** One producer fills the array and the consumer prints nothing. *)
Theorem one_producer nitems size es s p n :
  nitems <= Z.of_nat size -> run1 nitems (main1 size 1) es = Some (s, [(p, n)]) ->
  p <> UCrash /\ (p = UDone -> n = Z.max 0 nitems /\ consume1 nitems (buff s) = []).
Proof.
  intros Hs Hrun. assert (exists k, at_pc nitems k s (p, n)) as [k (E1 & E2 & E3 & Hk & Hl & Hb & Hp)].
  { assert (H0 : exists k, at_pc nitems k (Shared 0 0 (replicate size 0)) (UTest, 0))
      by (exists 0; unfold at_pc; cbn; rewrite length_replicate; split_and!; try done; lia).
    unfold main1 in Hrun. cbn [replicate] in Hrun. revert H0 Hrun. generalize (Shared 0 0 (replicate size 0)), (UTest, 0).
    clear Hs. induction es as [|i es IH]; intros x t [k Hk] Hrun; cbn in Hrun; [injection Hrun as -> ->; by exists k|].
    unfold exec1 in Hrun. cbn in Hrun. destruct i as [|i]; cbn in Hrun; [|done]. destruct t as [q m].
    destruct (produce1 nitems x q m) as [[x' t']|] eqn:Ex; [|done]. cbn in Hrun.
    apply (IH x' t'); [|done]. by eapply (produce_alone nitems k x (q, m)). }
  cbn in *. split; [by intros ->|]. intros ->. split; [lia|].
  unfold consume1. apply elem_of_nil_inv. intros y (i & Hi & Hy)%list_elem_of_omap. apply elem_of_seq in Hi.
  specialize (Hb (Z.of_nat i) ltac:(lia)). rewrite Nat2Z.id in Hb. rewrite Hb in Hy. cbn in Hy. by rewrite Z.eqb_refl in Hy.
Qed.

Lemma run_then nitems s es1 s1 es2 r : run1 nitems s es1 = Some s1 -> run1 nitems s1 es2 = r -> run1 nitems s (es1 ++ es2) = r.
Proof. revert s. induction es1 as [|e es1 IH]; intros s; cbn; [by intros [= ->]|]. destruct (exec1 nitems s e); [apply IH|done]. Qed.

(** Producer 0 stores one item. *)
Lemma store_one nitems k b t : 0 <= k < nitems -> nitems <= Z.of_nat (length b) ->
  exists b', run1 nitems (Shared k k b, [(UTest, k); t]) (replicate 9 0%nat) = Some (Shared (k + 1) (k + 1) b', [(UTest, k + 1); t]) /\ length b' = length b.
Proof.
  intros Hk Hb. exists (<[Z.to_nat k := k]> b). split; [|apply length_insert].
  cbn. unfold exec1. cbn. replace (k >=? nitems) with false by lia. cbn. rewrite astore_ok by lia. reflexivity.
Qed.

Lemma store_many nitems (m : nat) k b t : 0 <= k -> k + Z.of_nat m <= nitems -> nitems <= Z.of_nat (length b) ->
  exists b', run1 nitems (Shared k k b, [(UTest, k); t]) (replicate (m * 9) 0%nat) =
    Some (Shared (k + Z.of_nat m) (k + Z.of_nat m) b', [(UTest, k + Z.of_nat m); t]) /\ length b' = length b.
Proof.
  revert k b. induction m as [|m IH]; intros k b Hk Hm Hb; [exists b; cbn; by rewrite Z.add_0_r|].
  destruct (store_one nitems k b t) as (b1 & R1 & L1); [lia..|].
  destruct (IH (k + 1) b1) as (b2 & R2 & L2); [lia..|]. exists b2.
  replace (S m * 9)%nat with (9 + m * 9)%nat by lia. rewrite replicate_add.
  replace (k + Z.of_nat (S m)) with (k + 1 + Z.of_nat m) by lia. split; [by eapply run_then|lia].
Qed.

(** With two producers and no lock, the last item can be stored past the items, and,
    where the items are as many as the array has elements, outside the array. *)
Theorem two_producers_race nitems : 0 < nitems ->
  exists es s l, run1 nitems (main1 (Z.to_nat nitems) 2) es = Some (s, l) /\ In UCrash (map fst l).
Proof.
  intros Hn. destruct (store_many nitems (Z.to_nat (nitems - 1)) 0 (replicate (Z.to_nat nitems) 0) (UTest, 0)) as (b1 & R1 & L1);
    rewrite ?length_replicate in *; [lia..|].
  destruct (store_one nitems (nitems - 1) b1 (UIndex, 0)) as (b2 & R2 & L2); [lia..|].
  eexists (replicate (Z.to_nat (nitems - 1) * 9) 0%nat ++ [1%nat] ++ replicate 9 0%nat ++ [1; 1; 1]%nat), _, _. split.
  - eapply run_then; [exact R1|]. eapply run_then; [|eapply run_then; [exact R2|]].
    + cbn. unfold exec1. cbn. replace (Z.of_nat (Z.to_nat (nitems - 1))) with (nitems - 1) by lia.
      replace (0 + (nitems - 1)) with (nitems - 1) by lia. replace (nitems - 1 >=? nitems) with false by lia. reflexivity.
    + cbn. unfold exec1. cbn. unfold astore. rewrite decide_False by lia. reflexivity.
  - cbn. auto.
Qed.

End Unlocked.
