(* ===== verification/SigChld.v ===== *)
(** * Concurrent servers and the children that end

    Model of unpv13e/tcpcliserv/tcpserv01.c to tcpserv04.c, one child for each connection,
    with the handlers of SIGCHLD in sigchldwait.c (linked with tcpserv02.c and
    tcpserv03.c) and sigchldwaitpid.c (with tcpserv04.c), and with Accept() of
    lib/wrapsock.c where they call it.  A step is a call of the parent, a call of the
    handler, or something from outside: a connection, one that is aborted before
    accept() returns it, another error of accept(), a failure of fork(), the end of a
    child, the delivery of the signal.  SIGCHLD does not queue: [pending] is one bit.
    Close() is taken to succeed. *)

From S2P Require Import Prelude.

Inductive server := Tcpserv01 | Tcpserv02 | Tcpserv03 | Tcpserv04.

#[export] Instance server_eq_dec : EqDecision server.
Proof. solve_decision. Defined.

(** Where main() is: in accept(), before Fork(), before Close(connfd), or ended by
    err_sys(). *)
Inductive main_pc := MAccept | MFork | MClose | MQuit.

Record state := St {
  at_main : main_pc; in_handler : bool; pending : bool;
  running : Z; zombies : Z; reaped : Z; printed : Z;
  dropped : Z (* accepted connections for which fork() failed *) }.

Inductive event := EConnect | EAbort | EAcceptFails | EForkFails | EMain | EChildEnds | EDeliver | EHandler.

Section Server.
(** [restart]: a system call that a handler interrupts starts again (SA_RESTART). *)
Context (v : server) (restart : bool).

(** Signal(SIGCHLD, sig_chld); without it the signal is ignored. *)
Definition handles : bool := match v with Tcpserv01 => false | _ => true end.

Definition set_main (s : state) (p : main_pc) : state :=
  St p (in_handler s) (pending s) (running s) (zombies s) (reaped s) (printed s) (dropped s).

(** accept() returns -1 with errno EINTR. *)
Definition interrupted (s : state) : state :=
  set_main s (match v with Tcpserv01 | Tcpserv02 => MQuit | _ => MAccept end).
(** accept() returns -1 with errno ECONNABORTED: Accept() tries again. *)
Definition aborted (s : state) : state :=
  set_main s (match v with Tcpserv01 | Tcpserv02 => MAccept | _ => MQuit end).

Definition return_handler (s : state) : state :=
  let s' := St (at_main s) false (pending s) (running s) (zombies s) (reaped s) (printed s) (dropped s) in
  match at_main s with MAccept => if restart then s' else interrupted s' | _ => s' end.

(** One child is taken from the zombies and its process ID printed. *)
Definition reap (s : state) : state :=
  St (at_main s) (in_handler s) (pending s) (running s) (zombies s - 1) (reaped s + 1) (printed s + 1) (dropped s).

(** The next call of the handler in sigchldwait.c; [None]: wait() waits. *)
Definition sig_chld_wait (s : state) : option state :=
  if 0 <? zombies s then Some (return_handler (reap s))
  else if 0 <? running s then None
  else Some (return_handler (St (at_main s) (in_handler s) (pending s) (running s) (zombies s) (reaped s) (printed s + 1) (dropped s))).
(** The next call of the handler in sigchldwaitpid.c. *)
Definition sig_chld_waitpid (s : state) : option state := Some (if 0 <? zombies s then reap s else return_handler s).

Definition sig_chld (s : state) : option state := match v with Tcpserv04 => sig_chld_waitpid s | _ => sig_chld_wait s end.

Definition alive (s : state) : bool := match at_main s with MQuit => false | _ => true end.
(** main() waits in accept() and no handler runs. *)
Definition in_accept (s : state) : bool := negb (in_handler s) && match at_main s with MAccept => true | _ => false end.

Definition exec (s : state) (e : event) : option state :=
  match e with
  | EConnect => if in_accept s then Some (set_main s MFork) else None
  | EAbort => if in_accept s then Some (aborted s) else None
  (* err_sys(), in main() or in Accept() *)
  | EAcceptFails => if in_accept s then Some (set_main s MQuit) else None
  | EForkFails =>
      if in_handler s then None
      else match at_main s with
      | MFork => Some (St MQuit (in_handler s) (pending s) (running s) (zombies s) (reaped s) (printed s) (dropped s + 1))
      | _ => None
      end
  | EMain =>
      if in_handler s then None
      else match at_main s with
      | MFork => Some (St MClose (in_handler s) (pending s) (running s + 1) (zombies s) (reaped s) (printed s) (dropped s))
      | MClose => Some (set_main s MAccept)
      | _ => None
      end
  | EChildEnds =>
      if 0 <? running s then
        Some (St (at_main s) (in_handler s) (handles && alive s || pending s) (running s - 1) (zombies s + 1) (reaped s) (printed s) (dropped s))
      else None
  | EDeliver =>
      if pending s && negb (in_handler s) && alive s then Some (St (at_main s) true false (running s) (zombies s) (reaped s) (printed s) (dropped s))
      else None
  | EHandler => if in_handler s then sig_chld s else None
  end.

Fixpoint run (s : state) (es : list event) : option state :=
  match es with [] => Some s | e :: es' => s' ← exec s e; run s' es' end.

Definition start : state := St MAccept false false 0 0 0 0 0.

(** A child's end that nobody reports is still to be collected. *)
Record inv (s : state) : Prop := Inv {
  i_range : 0 <= running s /\ 0 <= zombies s /\ 0 <= reaped s;
  i_none : v = Tcpserv01 -> reaped s = 0 /\ pending s = false /\ in_handler s = false;
  i_one : v <> Tcpserv04 -> at_main s <> MQuit -> b2z (pending s) + b2z (in_handler s) <= zombies s;
  i_all : v = Tcpserv04 -> at_main s <> MQuit -> 0 < zombies s -> 0 < b2z (pending s) + b2z (in_handler s);
  i_printed : printed s = reaped s }.

End Server.


Lemma b2z_or a b : b2z (a || b) <= b2z a + b2z b.
Proof. by destruct a, b. Qed.

Lemma chld_return v restart s : inv v (St (at_main s) false (pending s) (running s) (zombies s) (reaped s) (printed s) (dropped s)) -> inv v (return_handler v restart s).
Proof.
  intros [Hr H1 Ho Ha Hp]. unfold return_handler, interrupted, set_main. cbn in *.
  destruct (at_main s) eqn:E; try destruct restart; try (destruct v); split; cbn; intros; try done; try tauto; rewrite ?E in *; try done; try lia; auto.
Qed.

Lemma chld_handler v restart s s' : inv v s -> in_handler s = true -> at_main s <> MQuit -> sig_chld v restart s = Some s' -> inv v s'.
Proof.
  intros I Hh Hq Hx. pose proof I as [Hr H1 Ho Ha Hp]. rewrite Hh in *. pose proof (b2z_range (pending s)).
  assert (Hv1 : v <> Tcpserv01) by (intros E; by destruct (H1 E) as (_ & _ & ?)).
  unfold sig_chld, sig_chld_wait, sig_chld_waitpid in Hx. destruct (decide (v = Tcpserv04)) as [->|Hv].
  - destruct (0 <? zombies s) eqn:Ez; bprop; injection Hx as <-; [|apply chld_return]; split; cbn; intros; rewrite ?Hh; cbn [b2z]; try done; try lia; tauto.
  - specialize (Ho Hv Hq). cbn [b2z] in Ho. replace (0 <? zombies s) with true in Hx by lia.
    assert (E : s' = return_handler v restart (reap s)) by (destruct v; by injection Hx). subst s'.
    apply chld_return. split; cbn; intros; try done; try lia; tauto.
Qed.

Lemma chld_step v restart s e s' : inv v s -> (in_handler s = true -> at_main s <> MQuit) -> exec v restart s e = Some s' ->
  inv v s' /\ (in_handler s' = true -> at_main s' <> MQuit).
Proof.
  intros I Hn Hx. pose proof I as [Hr H1 Ho Ha Hp]. pose proof (b2z_range (pending s)). pose proof (b2z_range (in_handler s)).
  destruct e; cbn in Hx.
  - unfold in_accept in Hx. destruct (in_handler s) eqn:Eh, (at_main s) eqn:Em; try done. injection Hx as <-. cbn.
    split; [|done]. split; cbn; rewrite ?Eh; auto.
  - unfold in_accept in Hx. destruct (in_handler s) eqn:Eh, (at_main s) eqn:Em; try done. injection Hx as <-. cbn.
    unfold aborted, set_main. destruct v; (split; [|cbn; congruence]); split; cbn; rewrite ?Eh; intros; try done; auto.
  - unfold in_accept in Hx. destruct (in_handler s) eqn:Eh, (at_main s) eqn:Em; try done. injection Hx as <-. cbn.
    split; [|congruence]. split; cbn; rewrite ?Eh; intros; try done; auto.
  - destruct (in_handler s) eqn:Eh, (at_main s) eqn:Em; try done. injection Hx as <-. split; [|done].
    split; cbn; rewrite ?Eh; intros; try done; auto.
  - destruct (in_handler s) eqn:Eh, (at_main s) eqn:Em; try done; injection Hx as <-; (split; [|done]); split; cbn; rewrite ?Eh; intros; try done; try lia; auto.
  - destruct (0 <? running s) eqn:Er; bprop; [|done]. injection Hx as <-. split; [|done].
    pose proof (b2z_or (handles v && alive s) (pending s)). pose proof (b2z_range (handles v && alive s)). split; cbn; intros; try done; try lia.
    + subst v. cbn. destruct (H1 eq_refl) as (? & -> & ?). done.
    + specialize (Ho ltac:(done) ltac:(done)). lia.
    + subst v. unfold alive. destruct (at_main s); cbn; try done; lia.
  - destruct (pending s) eqn:Ep, (in_handler s) eqn:Eh; try done. destruct (alive s) eqn:Ea; [|done]. cbn in Hx. injection Hx as <-.
    split; [|intros _; cbn; unfold alive in Ea; by destruct (at_main s)]. split; cbn; intros; try done; try lia.
    + by destruct (H1 ltac:(done)) as (_ & ? & _).
    + specialize (Ho ltac:(done) ltac:(done)). cbn in Ho. lia.
  - destruct (in_handler s) eqn:Eh; [|done]. split; [by eapply chld_handler; eauto|].
    unfold sig_chld, sig_chld_wait, sig_chld_waitpid, return_handler, reap, interrupted, set_main in Hx. specialize (Hn eq_refl).
    intros Eh'. destruct (at_main s) eqn:Em; try done;
      repeat (match type of Hx with context [match ?x with _ => _ end] => destruct x eqn:? end; cbn in Hx); simplify_eq; cbn in *; congruence.
Qed.

Lemma chld_run v restart es s s' : run v restart s es = Some s' -> inv v s -> (in_handler s = true -> at_main s <> MQuit) ->
  inv v s' /\ (in_handler s' = true -> at_main s' <> MQuit).
Proof.
  revert s. induction es as [|e es IH]; intros s E I Hn; cbn in E; [by injection E as <-|].
  destruct (exec v restart s e) as [s1|] eqn:E1; [|done]. destruct (chld_step v restart s e s1 I Hn E1). by apply (IH s1).
Qed.

Lemma chld_start v : inv v start.
Proof. split; cbn; try done; lia. Qed.

(** ** The connections *)

Definition connections (es : list event) : Z := sumz (fun e => match e with EConnect => 1 | _ => 0 end) es.
Definition forking (s : state) : Z := match at_main s with MFork => 1 | _ => 0 end.
(** All connections that accept() returned, by what became of them. *)
Definition accepted (s : state) : Z := running s + zombies s + reaped s + forking s + dropped s.

Lemma accepted_return v restart s : accepted (return_handler v restart s) = accepted s.
Proof.
  destruct s as [[] h q r z k w d]; unfold return_handler, interrupted, set_main, accepted, forking; cbn; try destruct restart; try destruct v; done.
Qed.

Lemma accepted_handler v restart s s' : sig_chld v restart s = Some s' -> accepted s' = accepted s.
Proof.
  intros Hx. unfold sig_chld, sig_chld_wait, sig_chld_waitpid in Hx.
  assert (Hr : accepted (reap s) = accepted s) by (unfold accepted, reap, forking; cbn; lia).
  destruct v; destruct (0 <? zombies s); try destruct (0 <? running s); simplify_eq; rewrite ?accepted_return; try done.
Qed.

Lemma chld_accepted v restart es s s' : run v restart s es = Some s' -> accepted s' = accepted s + connections es.
Proof.
  revert s. induction es as [|e es IH]; intros s E; cbn in E; [injection E as <-; change (connections []) with 0; lia|].
  destruct (exec v restart s e) as [s1|] eqn:E1; [|done]. cbn in E. rewrite (IH s1 E). unfold connections. rewrite sumz_cons.
  assert (accepted s1 = accepted s + match e with EConnect => 1 | _ => 0 end); [|lia]. clear IH E.
  destruct e; cbn in E1.
  - unfold in_accept in E1. destruct (in_handler s), (at_main s) eqn:Em; try done. injection E1 as <-. unfold accepted, forking. rewrite Em. cbn. lia.
  - unfold in_accept in E1. destruct (in_handler s), (at_main s) eqn:Em; try done. injection E1 as <-. unfold accepted, forking, aborted, set_main. rewrite Em. destruct v; cbn; lia.
  - unfold in_accept in E1. destruct (in_handler s), (at_main s) eqn:Em; try done. injection E1 as <-. unfold accepted, forking, set_main. rewrite Em. cbn. lia.
  - destruct (in_handler s), (at_main s) eqn:Em; try done. injection E1 as <-. unfold accepted, forking. rewrite Em. cbn. lia.
  - destruct (in_handler s), (at_main s) eqn:Em; try done; injection E1 as <-; unfold accepted, forking; rewrite Em; cbn; lia.
  - destruct (0 <? running s); [|done]. injection E1 as <-. unfold accepted, forking. cbn. lia.
  - destruct (_ && _); [|done]. injection E1 as <-. unfold accepted, forking. cbn. lia.
  - destruct (in_handler s); [|done]. apply accepted_handler in E1. lia.
Qed.

(** ** The end of the server *)

(** Why a server ends. *)
Definition ended_by (v : server) (restart : bool) (es : list event) : Prop :=
  In EAcceptFails es \/ In EForkFails es \/
  match v with Tcpserv01 => False | Tcpserv02 => restart = false | _ => In EAbort es end.

Lemma chld_quit v restart s e s' : inv v s -> exec v restart s e = Some s' -> at_main s' = MQuit ->
  at_main s = MQuit \/ e = EAcceptFails \/ e = EForkFails \/ match v with Tcpserv01 => False | Tcpserv02 => restart = false | _ => e = EAbort end.
Proof.
  intros I Hx Hq. destruct e; cbn in Hx.
  - destruct (in_accept s); [|done]. by injection Hx as <-.
  - unfold in_accept in Hx. destruct (in_handler s), (at_main s) eqn:Em; try done. injection Hx as <-. destruct v; cbn in Hq; auto; done.
  - auto.
  - auto.
  - destruct (in_handler s), (at_main s) eqn:Em; try done; by injection Hx as <-.
  - destruct (0 <? running s); [|done]. injection Hx as <-. by left.
  - destruct (_ && _); [|done]. injection Hx as <-. by left.
  - destruct (in_handler s) eqn:Eh; [|done]. destruct (decide (v = Tcpserv01)) as [E|Hv]; [destruct (i_none _ _ I E) as (_ & _ & ?); congruence|].
    assert (Hr : forall x, at_main (return_handler v restart x) = MQuit -> at_main x = MQuit \/ (v = Tcpserv02 /\ restart = false)).
    { intros [[] h q r z k w d]; unfold return_handler, interrupted, set_main; cbn; try destruct restart; try destruct v; cbn; intros; try done; auto. }
    unfold sig_chld, sig_chld_wait, sig_chld_waitpid in Hx. destruct v; try done;
      repeat (match type of Hx with context [if ?x then _ else _] => destruct x end; try done); injection Hx as <-;
      repeat (match goal with H : at_main (return_handler _ _ _) = MQuit |- _ => apply Hr in H as [H|[? ?]] end); try done; first [by left | by right; right; right].
Qed.

Lemma chld_run_quit v restart es s s' : run v restart s es = Some s' -> inv v s -> (in_handler s = true -> at_main s <> MQuit) ->
  at_main s' = MQuit -> at_main s = MQuit \/ ended_by v restart es.
Proof.
  revert s. induction es as [|e es IH]; intros s E I Hn Hq; cbn in E; [injection E as <-; by left|].
  destruct (exec v restart s e) as [s1|] eqn:E1; [|done]. destruct (chld_step v restart s e s1 I Hn E1) as [I1 Hn1].
  destruct (IH s1 E I1 Hn1 Hq) as [H1|H1].
  - destruct (chld_quit _ _ _ _ _ I E1 H1) as [?|[->|[->|H2]]]; [by left|right; left; by left|right; right; left; by left|].
    right. right. right. destruct v; try done. all: subst; by left.
  - right. destruct H1 as [H1|[H1|H1]]; [left; by right|right; left; by right|]. right. right. destruct v; try done; by right.
Qed.

Lemma dropped_handler v restart s s' : sig_chld v restart s = Some s' -> dropped s' = dropped s /\ (at_main s = MQuit -> at_main s' = MQuit).
Proof.
  assert (Hr : forall x, dropped (return_handler v restart x) = dropped x /\ (at_main x = MQuit -> at_main (return_handler v restart x) = MQuit)).
  { intros [[] h q r z k w d]; unfold return_handler, interrupted, set_main; cbn; try destruct restart; try destruct v; by split. }
  intros Hx. unfold sig_chld, sig_chld_wait, sig_chld_waitpid in Hx.
  destruct v; destruct (0 <? zombies s); try destruct (0 <? running s); simplify_eq; try exact (Hr _); by split.
Qed.

Lemma chld_dropped v restart es s s' : run v restart s es = Some s' ->
  dropped s = 0 \/ dropped s = 1 /\ at_main s = MQuit -> dropped s' = 0 \/ dropped s' = 1 /\ at_main s' = MQuit.
Proof.
  revert s. induction es as [|e es IH]; intros s E D; cbn in E; [by injection E as <-|].
  destruct (exec v restart s e) as [s1|] eqn:E1; [|done]. apply (IH s1 E). clear IH E.
  destruct e; cbn in E1.
  - unfold in_accept in E1. destruct (in_handler s), (at_main s) eqn:Em; try done. injection E1 as <-. cbn. naive_solver.
  - unfold in_accept in E1. destruct (in_handler s), (at_main s) eqn:Em; try done. injection E1 as <-. unfold aborted. destruct v; cbn; naive_solver.
  - unfold in_accept in E1. destruct (in_handler s), (at_main s) eqn:Em; try done. injection E1 as <-. cbn. naive_solver.
  - destruct (in_handler s), (at_main s) eqn:Em; try done. injection E1 as <-. cbn. right. destruct D as [->|[_ ?]]; done.
  - destruct (in_handler s), (at_main s) eqn:Em; try done; injection E1 as <-; cbn; naive_solver.
  - destruct (0 <? running s); [|done]. by injection E1 as <-.
  - destruct (_ && _); [|done]. by injection E1 as <-.
  - destruct (in_handler s); [|done]. by destruct (dropped_handler _ _ _ _ E1) as [-> Hm]; destruct D as [?|[? ?]]; auto.
Qed.

(** ** The handler of tcpserv04.c collects all children *)

Lemma collect_all restart n s : at_main s <> MQuit -> in_handler s = true -> zombies s = Z.of_nat n ->
  exists s', run Tcpserv04 restart s (replicate (S n) EHandler) = Some s' /\ zombies s' = 0 /\ running s' = running s.
Proof.
  revert s. induction n as [|n IH]; intros s Hq Hh Hz.
  - eexists. cbn -[sig_chld]. rewrite Hh. unfold sig_chld, sig_chld_wait, sig_chld_waitpid. rewrite Hz. cbn. split; [done|].
    unfold return_handler, interrupted. by destruct (at_main s), restart.
  - destruct (IH (reap s)) as (s' & Hr & H1 & H2); [done|done|cbn; lia|]. exists s'. split; [|done].
    change (replicate (S (S n)) EHandler) with (EHandler :: replicate (S n) EHandler). cbn [run exec]. rewrite Hh.
    unfold sig_chld, sig_chld_wait, sig_chld_waitpid. replace (0 <? zombies s) with true by lia. exact Hr.
Qed.

Definition tcpserv01 : state -> event -> option state := exec Tcpserv01 true.
Definition tcpserv02 (restart : bool) : state -> event -> option state := exec Tcpserv02 restart.
Definition tcpserv03 (restart : bool) : state -> event -> option state := exec Tcpserv03 restart.
Definition tcpserv04 (restart : bool) : state -> event -> option state := exec Tcpserv04 restart.

(** C11: the four servers, in every order of their calls, of connections, of ends of
    children and of signals.  Every accepted connection is with a child that runs, has
    ended or has been collected, and each collected child is printed once; the handler
    never waits.  A server ends only when fork() fails (the connection is then the only
    one without a child) or accept() does with an error that no server looks at, when a
    connection is aborted (tcpserv03.c, tcpserv04.c) or when accept() is interrupted and
    not restarted (tcpserv02.c).  tcpserv01.c collects no child.  In tcpserv04.c no child that has ended is left when no
    signal is pending, and from any state at most [zombies s + 2] steps collect all of
    them; in tcpserv03.c, whose handler calls wait() once, a child can be left for as
    long as no other ends. *)
Theorem child_servers v restart es s :
  run v restart start es = Some s ->
  accepted s = connections es /\ printed s = reaped s /\ (dropped s = 0 \/ dropped s = 1 /\ at_main s = MQuit) /\
  (in_handler s = true -> is_Some (sig_chld v restart s)) /\
  (at_main s = MQuit -> ended_by v restart es) /\
  (v = Tcpserv01 -> reaped s = 0) /\
  (v = Tcpserv04 -> at_main s <> MQuit ->
    (pending s = false -> in_handler s = false -> zombies s = 0) /\
    exists es' s', Z.of_nat (length es') <= zombies s + 2 /\ run v restart s es' = Some s' /\ zombies s' = 0 /\ running s' = running s) /\
  (exists es' s', run Tcpserv03 restart start es' = Some s' /\ running s' = 0 /\ zombies s' = 1 /\
    forall e, e <> EConnect -> e <> EAbort -> e <> EAcceptFails -> exec Tcpserv03 restart s' e = None).
Proof.
  intros Hrun. destruct (chld_run v restart es start s Hrun (chld_start v) ltac:(done)) as [I Hn]. pose proof I as [Hr H1 Ho Ha Hp].
  split. { apply chld_accepted in Hrun. rewrite Hrun. done. }
  split; [done|]. split; [apply (chld_dropped v restart es start s Hrun); by left|]. split.
  { intros Hh. specialize (Hn Hh). rewrite Hh in *. pose proof (b2z_range (pending s)). unfold sig_chld, sig_chld_wait, sig_chld_waitpid. destruct v; try done;
      [by destruct (H1 eq_refl) as (_ & _ & ?)|..]; specialize (Ho ltac:(done) Hn); cbn [b2z] in Ho; by replace (0 <? zombies s) with true by lia. }
  split. { intros Hq. by destruct (chld_run_quit v restart es start s Hrun (chld_start v) ltac:(done) Hq). }
  split; [intros E; by destruct (H1 E)|]. split.
  - intros Ev Hq. specialize (Ha Ev Hq). split; [intros Ep Eh; rewrite Ep, Eh in Ha; cbn in Ha; lia|]. subst v.
    destruct (in_handler s) eqn:Eh; [|destruct (pending s) eqn:Ep].
    + destruct (collect_all restart (Z.to_nat (zombies s)) s Hq Eh ltac:(lia)) as (s' & R & H2 & H3).
      exists (replicate (S (Z.to_nat (zombies s))) EHandler), s'. split_and!; try done. rewrite length_replicate. lia.
    + assert (Hd : exec Tcpserv04 restart s EDeliver = Some (St (at_main s) true false (running s) (zombies s) (reaped s) (printed s) (dropped s))).
      { cbn. rewrite Ep, Eh. unfold alive. by destruct (at_main s). }
      destruct (collect_all restart (Z.to_nat (zombies s)) (St (at_main s) true false (running s) (zombies s) (reaped s) (printed s) (dropped s)) Hq eq_refl) as (s' & R & H2 & H3); [cbn; lia|].
      exists (EDeliver :: replicate (S (Z.to_nat (zombies s))) EHandler), s'. split_and!; try done; [simpl length; rewrite length_replicate; lia|].
      cbn [run]. rewrite Hd. exact R.
    + exists [], s. split_and!; try done; cbn in *; lia.
  - exists [EConnect; EMain; EMain; EConnect; EMain; EMain; EChildEnds; EChildEnds; EDeliver; EHandler].
    eexists. destruct restart; (split; [vm_compute; reflexivity|]; split; [done|]; split; [done|]; by intros []).
Qed.

Lemma child_servers_witness :
  exists s, run Tcpserv04 true start [EConnect; EMain; EMain; EConnect; EMain; EMain; EChildEnds; EChildEnds; EDeliver; EHandler; EHandler; EHandler] = Some s /\
    accepted s = 2 /\ zombies s = 0.
Proof.
  eexists. split; [vm_compute; reflexivity|]. split; [|reflexivity].
  refine (proj1 (child_servers Tcpserv04 true [EConnect; EMain; EMain; EConnect; EMain; EMain; EChildEnds; EChildEnds; EDeliver; EHandler; EHandler; EHandler] _ _)).
  vm_compute. reflexivity.
Defined.
