(* ===== verification/SourceRoute.v ===== *)
(** * IP source routes

    Model of unpv13e/ipopts/sourceroute.c, which builds and prints the IP option for a
    source route, and of the options and host names of ipopts/tcpcli01.c.  The option is
    built in an array of 44 bytes; what is printed are the bytes that getsockopt()
    returned.  Host_serv() is not modelled: the hosts are addresses of four bytes. *)

From S2P Require Import Prelude CString InetAddr.

Definition IPOPT_NOP : Z := 1.
Definition IPOPT_LSRR : Z := 131.
Definition IPOPT_SSRR : Z := 137.

(** The array and the three static variables. *)
Record state := St { opts : list Z; optr : nat; lenptr : nat; ocnt : Z }.

Definition inet_srcrt_init (type : Z) : option state :=
  b1 ← astore (replicate 44 0) 0 IPOPT_NOP;
  b2 ← astore b1 1 (if type =? 0 then IPOPT_LSRR else IPOPT_SSRR);
  b3 ← astore b2 3 4;
  Some (St b3 4 2 0).

(** [None]: a store outside the array; [Exit]: err_quit(). *)
Definition inet_srcrt_add (addr : list Z) (s : state) : option (outcome (state * Z)) :=
  if 9 <? ocnt s then Some (Exit 1)
  else
    b1 ← write_at (opts s) (optr s) addr;
    let n := ocnt s + 1 in
    let len := 3 + n * 4 in
    b2 ← astore b1 (lenptr s) (u8 len);
    Some (Ret (St b2 (optr s + 4) (lenptr s) n, len + 1)).

(** The calls of tcpcli01.c for its hosts; [len] is what the last one returned. *)
Fixpoint add_all (addrs : list (list Z)) (s : state) (len : Z) : option (outcome (state * Z)) :=
  match addrs with
  | [] => Some (Ret (s, len))
  | a :: addrs' =>
      r ← inet_srcrt_add a s;
      match r with
      | Ret (s', len') => add_all addrs' s' len'
      | Fail e => Some (Fail e) | Exit c => Some (Exit c) | Abort => Some Abort | Blocked => Some Blocked
      end
  end.

(** The loop of getopt(): at most one of -g (103) and -G (71). *)
Fixpoint options (cs : list Z) (ptr : option state) : option (outcome (option state)) :=
  match cs with
  | [] => Some (Ret ptr)
  | c :: cs' =>
      if (c =? 103) || (c =? 71) then
        match ptr with
        | Some _ => Some (Exit 1)
        | None => s ← inet_srcrt_init (if c =? 103 then 0 else 1); options cs' (Some s)
        end
      else Some (Exit 1)
  end.

(** What main() gives to setsockopt(), if anything, for the options, the hosts on the way
    and the destination. *)
Definition tcpcli01 (cs : list Z) (hops : list (list Z)) (dest : list Z) : option (outcome (option (list Z))) :=
  r ← options cs None;
  match r with
  | Ret None => Some (match hops with [] => Ret None | _ => Exit 1 end)
  | Ret (Some s) =>
      r2 ← add_all (hops ++ [dest]) s 0;
      Some (match r2 with
      | Ret (s', len) => Ret (Some (take (Z.to_nat len) (opts s')))
      | Fail e => Fail e | Exit c => Exit c | Abort => Abort | Blocked => Blocked
      end)
  | Fail e => Some (Fail e) | Exit c => Some (Exit c) | Abort => Some Abort | Blocked => Some Blocked
  end.

(** ** Printing *)

(** while ( (c = *ptr++) == IPOPT_NOP) ; *)
Fixpoint skip_nops (p : list Z) : option (Z * list Z) :=
  match p with
  | [] => None
  | c :: p' => if c =? IPOPT_NOP then skip_nops p' else Some (c, p')
  end.

Definition SPACE : Z := 32.
(** printf("%s ", Inet_ntop(AF_INET, ...)) *)
Definition print_hop (a : list Z) : list Z := dotted a ++ [SPACE].

(** while (len > 0) *)
Fixpoint print_hops (len : Z) (p : list Z) {struct p} : option (list Z) :=
  if 0 <? len then
    match p with
    | a :: b :: c :: d :: p' => out ← print_hops (len - 4) p'; Some (print_hop [a; b; c; d] ++ out)
    | _ => None
    end
  else Some [].

(** What is printed for the bytes of [p]; [None]: something behind them is read. *)
Definition inet_srcrt_print (p : list Z) : option (list Z) :=
  hop1 ← read_at p 0 4;
  '(c, p1) ← skip_nops (drop 4 p);
  if (c =? IPOPT_LSRR) || (c =? IPOPT_SSRR) then
    match p1 with
    | lenbyte :: _ :: p2 =>
        out ← print_hops (lenbyte - 4) p2;
        Some (cstr (if c =? IPOPT_LSRR then "received LSRR: " else "received SSRR: ") ++ print_hop hop1 ++ out ++ [NEWLINE])
    | _ => None
    end
  else Some (cstr "received option type " ++ sprintf_d c ++ [NEWLINE]).

(** ** The option that is built *)

Definition is_addr (a : list Z) : Prop := length a = 4%nat.

(** The option for the addresses [addrs], with [rest] bytes of the array left. *)
Definition option_bytes (type : Z) (addrs : list (list Z)) : list Z :=
  [IPOPT_NOP; if type =? 0 then IPOPT_LSRR else IPOPT_SSRR; 3 + 4 * Z.of_nat (length addrs); 4] ++ concat addrs.

Definition built (type : Z) (addrs : list (list Z)) (s : state) : Prop :=
  exists x, opts s = [IPOPT_NOP; if type =? 0 then IPOPT_LSRR else IPOPT_SSRR; x; 4] ++ concat addrs ++ replicate (40 - 4 * length addrs) 0 /\
    (addrs <> [] -> x = 3 + 4 * Z.of_nat (length addrs)) /\
    optr s = (4 + 4 * length addrs)%nat /\ lenptr s = 2%nat /\ ocnt s = Z.of_nat (length addrs).

Lemma length_addrs addrs : Forall is_addr addrs -> length (concat addrs) = (4 * length addrs)%nat.
Proof. induction 1 as [|a l Ha _ IH]; [done|]. cbn [concat]. rewrite length_app, IH. unfold is_addr in Ha. cbn [length]. lia. Qed.

Lemma init_built type : exists s, inet_srcrt_init type = Some s /\ built type [] s.
Proof. eexists. split; [reflexivity|]. by exists 0. Qed.

Lemma add_built type addrs a s : Forall is_addr addrs -> is_addr a -> (length addrs <= 9)%nat -> built type addrs s ->
  exists s', inet_srcrt_add a s = Some (Ret (s', 4 + 4 * Z.of_nat (length addrs + 1))) /\ built type (addrs ++ [a]) s'.
Proof.
  intros Hl Ha Hn (x & Ho & Hx & Hp & Hlp & Hc). unfold inet_srcrt_add. rewrite Hc. replace (9 <? Z.of_nat (length addrs)) with false by lia.
  rewrite Hp, Ho. pose proof (length_addrs addrs Hl) as Hla. unfold is_addr in Ha.
  replace (replicate (40 - 4 * length addrs) 0) with (replicate 4 0 ++ replicate (40 - 4 * (length addrs + 1)) 0)
    by (rewrite <- replicate_add; f_equal; lia).
  rewrite app_assoc, write_at_mid by (rewrite ?length_app; cbn [length replicate]; lia). cbn [mbind option_bind].
  rewrite Hlp, <- app_assoc. rewrite astore_ok by (cbn [length app]; lia). cbn [mbind option_bind app].
  eexists. split; [do 2 f_equal; f_equal; lia|]. exists (u8 (3 + (Z.of_nat (length addrs) + 1) * 4)).
  cbn [opts optr lenptr ocnt]. rewrite length_app, concat_app. cbn [length concat]. rewrite app_nil_r. split_and!; try done; try lia.
  - cbn. rewrite <- !app_assoc. done.
  - intros _. rewrite wrap_small by lia. lia.
Qed.

Lemma add_all_built type l : forall addrs s len, Forall is_addr addrs -> Forall is_addr l -> (length addrs + length l <= 10)%nat -> built type addrs s ->
  exists s', add_all l s len = Some (Ret (s', if decide (l = []) then len else 4 + 4 * Z.of_nat (length (addrs ++ l)))) /\ built type (addrs ++ l) s'.
Proof.
  induction l as [|a l IH]; intros addrs s len Ha Hl Hn Hb.
  - exists s. by rewrite decide_True, app_nil_r.
  - apply Forall_cons in Hl as [Hla Hl]. cbn [length] in Hn.
    destruct (add_built type addrs a s) as (s1 & E1 & B1); [done|done|lia|done|].
    destruct (IH (addrs ++ [a]) s1 (4 + 4 * Z.of_nat (length addrs + 1))) as (s2 & E2 & B2);
      [apply Forall_app; split; [done|by constructor]|done|rewrite length_app; cbn; lia|done|].
    exists s2. cbn [add_all]. rewrite E1. cbn [mbind option_bind]. rewrite E2, <- app_assoc in *. split; [|done].
    rewrite (decide_False (P := a :: l = [])) by done. destruct (decide (l = [])) as [->|]; [|done].
    do 3 f_equal. rewrite length_app. done.
Qed.

Lemma add_all_full type l : forall addrs s len, Forall is_addr addrs -> Forall is_addr l -> (length addrs <= 10 < length addrs + length l)%nat -> built type addrs s ->
  add_all l s len = Some (Exit 1).
Proof.
  induction l as [|a l IH]; intros addrs s len Ha Hl Hn Hb; cbn [length] in Hn; [lia|].
  apply Forall_cons in Hl as [Hla Hl]. cbn [add_all]. destruct (decide (length addrs = 10%nat)) as [E|E].
  - unfold inet_srcrt_add. destruct Hb as (x & _ & _ & _ & _ & ->). rewrite E. done.
  - destruct (add_built type addrs a s) as (s1 & -> & B1); [done|done|lia|done|]. cbn [mbind option_bind].
    apply (IH (addrs ++ [a])); try done; [apply Forall_app; split; [done|by constructor]|rewrite length_app; cbn; lia].
Qed.

(** ** Printing what was built *)

Lemma print_hops_all addrs rest n : Forall is_addr addrs -> n = 4 * Z.of_nat (length addrs) -1 ->
  print_hops n (concat addrs ++ rest) = Some (concat (map print_hop addrs)).
Proof.
  intros Hl. revert n. induction Hl as [|a l Ha Hl IH]; intros n ->; [by destruct rest|].
  unfold is_addr in Ha. destruct a as [|b1 [|b2 [|b3 [|b4 [|]]]]]; try done. cbn [concat map app print_hops length].
  assert (Hx : 0 < 4 * Z.of_nat (S (length l)) - 1) by lia. apply Z.ltb_lt in Hx. rewrite Hx. rewrite IH by lia. done.
Qed.

(** The bytes that the loop reads. *)
Lemma print_hops_reads p n : is_Some (print_hops n p) <-> 4 * ((n + 3) / 4) <= Z.of_nat (length p).
Proof.
  assert (H : forall k q m, (length q < k)%nat -> is_Some (print_hops m q) <-> 4 * ((m + 3) / 4) <= Z.of_nat (length q)); [|apply (H (S (length p))); lia].
  clear. induction k as [|k IH]; intros q m Hk; [lia|].
  assert (Hneg : (0 <? m) = false -> 4 * ((m + 3) / 4) <= Z.of_nat (length q)).
  { intros. pose proof (Z.div_le_upper_bound (m + 3) 4 0 ltac:(lia)). assert ((m + 3) / 4 < 1) by (apply Z.div_lt_upper_bound; lia). lia. }
  assert (Hpos : 0 < m -> 1 <= (m + 3) / 4) by (intros; apply Z.div_le_lower_bound; lia).
  destruct q as [|a [|b [|c [|d q]]]]; cbn [print_hops]; destruct (0 <? m) eqn:E; try (split; [by auto|by eauto]);
    try (split; [intros [? ?]; done|cbn [length]; lia]).
  replace ((m + 3) / 4) with ((m - 4 + 3) / 4 + 1) by (replace (m + 3) with (m - 4 + 3 + 1 * 4) by lia; rewrite Z.div_add by lia; done).
  rewrite (Z.mul_add_distr_l 4 _ 1). cbn [length]. destruct (IH q (m - 4)) as [I1 I2]; [cbn [length] in Hk; lia|].
  destruct (print_hops (m - 4) q); cbn.
  - split; [intros _; specialize (I1 ltac:(eauto)); lia|eauto].
  - split; [intros [? ?]; done|]. intros. by destruct I2 as [? ?]; [lia|].
Qed.

Lemma skip_nops_replicate n c p : c <> IPOPT_NOP -> skip_nops (replicate n IPOPT_NOP ++ c :: p) = Some (c, p).
Proof. intros Hc. induction n as [|n IH]; cbn; [by replace (c =? IPOPT_NOP) with false by lia|]. exact IH. Qed.

Definition title (type : Z) : list Z := cstr (if type =? 0 then "received LSRR: " else "received SSRR: ").
Definition code (type : Z) : Z := if type =? 0 then IPOPT_LSRR else IPOPT_SSRR.

Lemma print_route hop type n len ptr p : is_addr hop ->
  inet_srcrt_print (hop ++ replicate n IPOPT_NOP ++ code type :: len :: ptr :: p) =
  out ← print_hops (len - 4) p; Some (title type ++ print_hop hop ++ out ++ [NEWLINE]).
Proof.
  intros Hh. unfold is_addr in Hh. unfold inet_srcrt_print.
  pose proof (read_at_mid [] hop (replicate n IPOPT_NOP ++ code type :: len :: ptr :: p) 0 4 eq_refl Hh) as Er; cbn [app] in Er; rewrite Er. cbn [mbind option_bind].
  rewrite drop_app_length' by done. rewrite skip_nops_replicate by (unfold code; by destruct (type =? 0)). unfold code, title. by destruct (type =? 0).
Qed.

(** C35: tcpcli01.c with -g or -G, hosts on the way and a destination: with up to nine
    hosts on the way what it gives to setsockopt() is the option of that kind with all
    addresses in order, built without a store outside the 44 bytes; with more it ends.
    inet_srcrt_print(), given a first hop and those bytes, prints the hop and all
    addresses in order; and for any option bytes it reads nothing behind them exactly when
    the length byte does not announce more addresses than there are. *)
Theorem source_route type hops dest hop :
  Forall is_addr hops -> is_addr dest -> is_addr hop ->
  tcpcli01 [if type =? 0 then 103 else 71] hops dest =
    Some (if decide (length hops <= 9)%nat then Ret (Some (option_bytes type (hops ++ [dest]))) else Exit 1) /\
  inet_srcrt_print (hop ++ option_bytes type (hops ++ [dest])) =
    Some (title type ++ concat (map print_hop (hop :: hops ++ [dest])) ++ [NEWLINE]) /\
  (forall n len ptr p, is_Some (inet_srcrt_print (hop ++ replicate n IPOPT_NOP ++ code type :: len :: ptr :: p)) <->
     4 * ((len - 1) / 4) <= Z.of_nat (length p)).
Proof.
  intros Hl Hd Hh. assert (Hall : Forall is_addr (hops ++ [dest])) by (apply Forall_app; split; [done|by constructor]).
  split; [|split].
  - unfold tcpcli01.
    assert (Eo : options [if type =? 0 then 103 else 71] None = s ← inet_srcrt_init type; Some (Ret (Some s))) by (unfold inet_srcrt_init; destruct (type =? 0); reflexivity).
    rewrite Eo. destruct (init_built type) as (s0 & -> & B0). cbn [mbind option_bind]. case_decide as Hn.
    + destruct (add_all_built type (hops ++ [dest]) [] s0 0) as (s & E & B); [done|done|rewrite length_app; cbn; lia|done|].
      rewrite E. cbn [mbind option_bind app]. rewrite decide_False by (by destruct hops). do 3 f_equal.
      destruct B as (x & -> & Hx & _). rewrite (Hx ltac:(by destruct hops)). unfold option_bytes. cbn [app].
      pose proof (length_addrs _ Hall). rewrite app_comm_cons, app_comm_cons, app_comm_cons, app_comm_cons. apply take_app_length'. cbn [length]. lia.
    + rewrite (add_all_full type (hops ++ [dest]) [] s0 0); [done|done|done|rewrite length_app; cbn; lia|done].
  - unfold option_bytes. change (inet_srcrt_print (hop ++ ?b)) with (inet_srcrt_print (hop ++ replicate 1 IPOPT_NOP ++ tail b)). cbn [app tail].
    rewrite (print_route hop type 1) by done. pose proof (print_hops_all _ [] (3 + 4 * Z.of_nat (length (hops ++ [dest])) - 4) Hall ltac:(lia)) as E.
    rewrite app_nil_r in E. rewrite E. cbn [mbind option_bind map concat]. by rewrite <- app_assoc.
  - intros n len ptr p. rewrite print_route by done. replace (len - 1) with (len - 4 + 3) by lia. rewrite <- print_hops_reads.
    destruct (print_hops (len - 4) p); cbn; split; intros [? ?]; try done; eauto.
Qed.

Lemma source_route_witness :
  Forall is_addr [[10; 0; 0; 1]; [10; 0; 0; 2]] /\
  tcpcli01 [103] [[10; 0; 0; 1]; [10; 0; 0; 2]] [10; 0; 0; 3] = Some (Ret (Some [1; 131; 15; 4; 10; 0; 0; 1; 10; 0; 0; 2; 10; 0; 0; 3])).
Proof.
  assert (Hl : Forall is_addr [[10; 0; 0; 1]; [10; 0; 0; 2]]) by (by repeat constructor).
  split; [exact Hl|]. exact (proj1 (source_route 0 [[10; 0; 0; 1]; [10; 0; 0; 2]] [10; 0; 0; 3] [10; 0; 0; 9] Hl eq_refl eq_refl)).
Defined.
